(** * Voxel-Game: physics and collision core of the multiplayer voxel server

    A shallow embedding of the simulation code of the repository
    (server.js, game/VoxelWorld.js, game/MovingVoxel.js, Player.js,
    VoxelServer.js, MathUtils.js, constants.js) and the proofs of the
    properties its specification states about it.

    Conventions of the embedding.
    - Grid coordinates, array indices and counters are integers ([Z]).
    - A JavaScript [Number] that carries a position, a velocity or a time is
      a real number ([R]): arithmetic is exact, rounding is not modelled.
    - A typed array ([Uint8Array], [Int32Array]) is a [list Z] read and
      written by index; a read outside the array gives [undefined], a write
      outside the array is ignored, a written value is converted to the
      element type.
    - Objects that the code mutates in place are passed and returned
      explicitly; the list of moving voxels and the bodies of the players
      are the stores, and a voxel is named by its index in its store. *)

From Stdlib Require Import ZArith Reals Lra Lia Bool String.
From stdpp Require Import base list.

Open Scope Z_scope.

(** ** Constants (constants.js, and the head of server.js) *)

Definition WORLD_SIZE : Z := 128.
Definition STEP_HEIGHT : Z := 6.
Definition HALF_W : Z := 8.
Definition HALF_H : Z := 16.
Definition MOVE_SPD : R := 15.
Definition JUMP_SPEED : R := 18.
Definition GRAVITY : R := 40.
Definition SETTLE_SPEED_THRESHOLD : R := 3.
Definition VOXEL_SIZE : R := 45 / 100.

(** ** Values read from typed arrays *)

Inductive jsval : Type :=
| JNum (n : Z)
| JUndefined.

(** [if (v)] on such a value. *)
Definition truthy (v : jsval) : bool :=
  match v with
  | JNum n => negb (n =? 0)
  | JUndefined => false
  end.

(** [a !== b]. *)
Definition strict_neq (a b : jsval) : bool :=
  match a, b with
  | JNum m, JNum n => negb (m =? n)
  | JUndefined, JUndefined => false
  | _, _ => true
  end.

Definition ToUint8 (v : Z) : Z := v mod 256.
Definition ToInt32 (v : Z) : Z := (v + 2 ^ 31) mod 2 ^ 32 - 2 ^ 31.

(** [a[i]] *)
Definition ta_get (a : list Z) (i : Z) : jsval :=
  if i <? 0 then JUndefined
  else match a !! Z.to_nat i with
       | Some v => JNum v
       | None => JUndefined
       end.

(** [a[i] = v] for an array whose elements are converted by [conv]. *)
Definition ta_set (conv : Z → Z) (a : list Z) (i v : Z) : list Z :=
  if i <? 0 then a else <[Z.to_nat i := conv v]> a.

(** ** The voxel grid *)

(** [new Uint8Array(WORLD_SIZE * WORLD_SIZE * WORLD_SIZE)] and
    [new Int32Array(WORLD_SIZE * WORLD_SIZE)]. *)
Definition world_length : nat := Z.to_nat (WORLD_SIZE * WORLD_SIZE * WORLD_SIZE).
Definition heights_length : nat := Z.to_nat (WORLD_SIZE * WORLD_SIZE).
Definition empty_world : list Z := replicate world_length 0.
Definition empty_heights : list Z := replicate heights_length 0.

(** The bounds test that opens [getWorld] and [setWorld]. *)
Definition out_of_bounds (x y z : Z) : bool :=
  (x <? 0) || (x >=? WORLD_SIZE) || (y <? 0) || (y >=? WORLD_SIZE)
  || (z <? 0) || (z >=? WORLD_SIZE).

Definition world_index (x y z : Z) : Z :=
  x + y * WORLD_SIZE + z * WORLD_SIZE * WORLD_SIZE.

(** server.js [MultiplayerVoxelServer.getWorld]; game/VoxelWorld.js
    [VoxelWorld.getWorld] is the same code. *)
Definition getWorld (world : list Z) (x y z : Z) : jsval :=
  if out_of_bounds x y z then JNum 0
  else ta_get world (world_index x y z).

(** server.js [MultiplayerVoxelServer.setWorld]: the new array and the
    returned flag. *)
Definition setWorld (world : list Z) (x y z value : Z) : list Z * bool :=
  if out_of_bounds x y z then (world, false)
  else
    let oldValue := ta_get world (world_index x y z) in
    (ta_set ToUint8 world (world_index x y z) value,
     strict_neq oldValue (JNum value)).

(** The body of the column loop shared by [initializeWorld],
    [rebuildTerrain] and [rebuildHeightMap]:
    [let h = 0; for (y ...) if (this.getWorld(x, y, z)) h++]. *)
Definition columnCount (world : list Z) (x z : Z) : Z :=
  fold_left (λ h y, if truthy (getWorld world x y z) then h + 1 else h)
            (seqZ 0 WORLD_SIZE) 0.

(** server.js [MultiplayerVoxelServer.rebuildTerrain]. *)
Definition rebuildTerrain (world heights : list Z) : list Z :=
  fold_left
    (λ hs x,
       fold_left
         (λ hs z, ta_set ToInt32 hs (x + z * WORLD_SIZE) (columnCount world x z))
         (seqZ 0 WORLD_SIZE) hs)
    (seqZ 0 WORLD_SIZE) heights.

(** The number of solid cells of a column, as the specification words it:
    the number of [y] in [[0,128)] whose cell is solid. *)
Definition solidCount (world : list Z) (x z : Z) : Z :=
  Z.of_nat (length (filter (λ y, truthy (getWorld world x y z) = true)
                           (seqZ 0 WORLD_SIZE))).

(** game/VoxelWorld.js: the class keeps the two arrays and the rebuild flag. *)
Module VoxelWorld.

Record t : Type := mk {
  world : list Z;
  heights : list Z;
  terrainNeedsRebuild : bool
}.

Definition getWorld (w : t) (x y z : Z) : jsval :=
  if out_of_bounds x y z then JNum 0
  else ta_get (world w) (world_index x y z).

Definition setWorld (w : t) (x y z value : Z) : t * bool :=
  if out_of_bounds x y z then (w, false)
  else
    let index := world_index x y z in
    let oldValue := ta_get (world w) index in
    let w1 := mk (ta_set ToUint8 (world w) index value)
                 (heights w) (terrainNeedsRebuild w) in
    if strict_neq oldValue (JNum value)
    then (mk (world w1) (heights w1) true, true)
    else (w1, false).

Definition getHeight (w : t) (x z : Z) : jsval :=
  if (x <? 0) || (x >=? WORLD_SIZE) || (z <? 0) || (z >=? WORLD_SIZE)
  then JNum 0
  else ta_get (heights w) (x + z * WORLD_SIZE).

Definition rebuildHeightMap (w : t) : t :=
  mk (world w)
     (fold_left
        (λ hs x,
           fold_left
             (λ hs z,
                ta_set ToInt32 hs (x + z * WORLD_SIZE)
                  (fold_left
                     (λ height y,
                        if truthy (getWorld w x y z) then height + 1
                        else height)
                     (seqZ 0 WORLD_SIZE) 0))
             (seqZ 0 WORLD_SIZE) hs)
        (seqZ 0 WORLD_SIZE) (heights w))
     false.

End VoxelWorld.

(** ** Numbers, vectors and the [Math] functions *)

Open Scope R_scope.

Definition Rltb (x y : R) : bool := if Rlt_dec x y then true else false.
Definition Rleb (x y : R) : bool := if Rle_dec x y then true else false.
Definition Rgtb (x y : R) : bool := Rltb y x.
Definition Rgeb (x y : R) : bool := Rleb y x.
Definition Reqb (x y : R) : bool := if Req_dec_T x y then true else false.

Infix "<?" := Rltb : R_scope.
Infix "<=?" := Rleb : R_scope.
Infix ">?" := Rgtb : R_scope.
Infix ">=?" := Rgeb : R_scope.

(** [Math.floor]: the integer [n] with [n <= r < n + 1]. *)
Definition Math_floor (r : R) : Z := Int_part r.
(** [Math.round] rounds half up: [Math.round(r) = Math.floor(r + 0.5)]. *)
Definition Math_round (r : R) : Z := Math_floor (r + 1 / 2).
Definition Math_max (a b : R) : R := Rmax a b.
Definition Math_min (a b : R) : R := Rmin a b.
Definition Math_abs (a : R) : R := Rabs a.
Definition Math_sqrt (a : R) : R := sqrt a.

(** A three-element array [[x, y, z]]. *)
Record vec3 : Type := V3 { vx : R; vy : R; vz : R }.

(** [v[i]] and [v[i] = r] for an index [i] in [{0, 1, 2}]. *)
Definition vget (v : vec3) (i : Z) : R :=
  if (i =? 0)%Z then vx v else if (i =? 1)%Z then vy v else vz v.
Definition vset (v : vec3) (i : Z) (r : R) : vec3 :=
  if (i =? 0)%Z then V3 r (vy v) (vz v)
  else if (i =? 1)%Z then V3 (vx v) r (vz v)
  else V3 (vx v) (vy v) r.

Definition vadd (a b : vec3) : vec3 :=
  V3 (vx a + vx b) (vy a + vy b) (vz a + vz b).
Definition vsub (a b : vec3) : vec3 :=
  V3 (vx a - vx b) (vy a - vy b) (vz a - vz b).
Definition vscale (k : R) (a : vec3) : vec3 :=
  V3 (k * vx a) (k * vy a) (k * vz a).
(** [a[0]**2 + a[1]**2 + a[2]**2] *)
Definition sumsq (a : vec3) : R := vx a * vx a + vy a * vy a + vz a * vz a.
(** [Math.sqrt(a[0]**2 + a[1]**2 + a[2]**2)] *)
Definition norm (a : vec3) : R := Math_sqrt (sumsq a).
(** The distance [Math.sqrt((a[0]-b[0])**2 + ...)] of two points. *)
Definition dist (a b : vec3) : R := norm (vsub a b).
(** [start + vel * t], componentwise. *)
Definition at_time (start vel : vec3) (t : R) : vec3 :=
  V3 (vx start + vx vel * t) (vy start + vy vel * t) (vz start + vz vel * t).

(** ** Moving voxels: the state of a [MovingVoxel] object *)

Record MovingVoxel : Type := mkVoxel {
  pos : vec3;
  vel : vec3;
  isProjectile : bool;
  hasCollided : bool;
  lastPos : vec3;
  size : R;
  (** the random part of [this.id]; its time stamp is not modelled *)
  id : R;
  isPlayerVoxel : bool;
  playerId : option string;
  throwerId : option string;
  hasLeftThrowerHitbox : bool;
  framesSinceLaunch : Z;
  throwerInitialPos : option vec3
}.

Definition set_pos (p : vec3) (v : MovingVoxel) : MovingVoxel :=
  mkVoxel p (vel v) (isProjectile v) (hasCollided v) (lastPos v) (size v)
    (id v) (isPlayerVoxel v) (playerId v) (throwerId v)
    (hasLeftThrowerHitbox v) (framesSinceLaunch v) (throwerInitialPos v).
Definition set_vel (u : vec3) (v : MovingVoxel) : MovingVoxel :=
  mkVoxel (pos v) u (isProjectile v) (hasCollided v) (lastPos v) (size v)
    (id v) (isPlayerVoxel v) (playerId v) (throwerId v)
    (hasLeftThrowerHitbox v) (framesSinceLaunch v) (throwerInitialPos v).
Definition set_hasCollided (b : bool) (v : MovingVoxel) : MovingVoxel :=
  mkVoxel (pos v) (vel v) (isProjectile v) b (lastPos v) (size v)
    (id v) (isPlayerVoxel v) (playerId v) (throwerId v)
    (hasLeftThrowerHitbox v) (framesSinceLaunch v) (throwerInitialPos v).
Definition set_lastPos (p : vec3) (v : MovingVoxel) : MovingVoxel :=
  mkVoxel (pos v) (vel v) (isProjectile v) (hasCollided v) p (size v)
    (id v) (isPlayerVoxel v) (playerId v) (throwerId v)
    (hasLeftThrowerHitbox v) (framesSinceLaunch v) (throwerInitialPos v).
Definition set_hasLeftThrowerHitbox (b : bool) (v : MovingVoxel) : MovingVoxel :=
  mkVoxel (pos v) (vel v) (isProjectile v) (hasCollided v) (lastPos v) (size v)
    (id v) (isPlayerVoxel v) (playerId v) (throwerId v)
    b (framesSinceLaunch v) (throwerInitialPos v).
Definition set_framesSinceLaunch (n : Z) (v : MovingVoxel) : MovingVoxel :=
  mkVoxel (pos v) (vel v) (isProjectile v) (hasCollided v) (lastPos v) (size v)
    (id v) (isPlayerVoxel v) (playerId v) (throwerId v)
    (hasLeftThrowerHitbox v) n (throwerInitialPos v).
(** [v.isPlayerVoxel = false; v.playerId = null] *)
Definition detach (v : MovingVoxel) : MovingVoxel :=
  mkVoxel (pos v) (vel v) (isProjectile v) (hasCollided v) (lastPos v) (size v)
    (id v) false None (throwerId v)
    (hasLeftThrowerHitbox v) (framesSinceLaunch v) (throwerInitialPos v).

(** [new MovingVoxel(pos, dir, isProjectile, throwerId, isPlayerVoxel,
    playerId)]; [rnd] is the value [Math.random()] gives for the id. *)
Definition newMovingVoxel (rnd : R) (p dir : vec3) (isProj : bool)
    (thrower : option string) (isPV : bool) (pid : option string)
    : MovingVoxel :=
  mkVoxel p (vscale 80 dir) isProj false p VOXEL_SIZE rnd isPV pid thrower
    false 0%Z (match thrower with Some _ => Some p | None => None end).

(** ** Validity of a position and the swept collision time *)

(** The fifteen sample points of [isPositionValid]. *)
Definition validity_checks (s : R) (p : vec3) : list vec3 :=
  let x := vx p in let y := vy p in let z := vz p in
  [ V3 (x - s) (y - s) (z - s); V3 (x + s) (y - s) (z - s);
    V3 (x - s) (y + s) (z - s); V3 (x + s) (y + s) (z - s);
    V3 (x - s) (y - s) (z + s); V3 (x + s) (y - s) (z + s);
    V3 (x - s) (y + s) (z + s); V3 (x + s) (y + s) (z + s);
    V3 x y (z - s); V3 x y (z + s);
    V3 x (y - s) z; V3 x (y + s) z;
    V3 (x - s) y z; V3 (x + s) y z;
    V3 x y z ].

(** [server.getWorld(Math.floor(p[0]), Math.floor(p[1]), Math.floor(p[2]))] *)
Definition solid_at (world : list Z) (p : vec3) : bool :=
  truthy (getWorld world (Math_floor (vx p)) (Math_floor (vy p))
                   (Math_floor (vz p))).

(** [MovingVoxel.isPositionValid] *)
Definition isPositionValid (s : R) (world : list Z) (p : vec3) : bool :=
  forallb (λ point, negb (solid_at world point)) (validity_checks s p).

(** One round of the binary search of [findCollisionTime]; the state is
    [(minTime, maxTime, collisionTime)]. *)
Definition bisect_step (s : R) (world : list Z) (startPos velocity : vec3)
    (st : R * R * R) : R * R * R :=
  let '(minTime, maxTime, collisionTime) := st in
  let testTime := (minTime + maxTime) / 2 in
  let testPos := at_time startPos velocity testTime in
  if isPositionValid s world testPos
  then (testTime, maxTime, collisionTime)
  else (minTime, testTime, testTime).

(** [MovingVoxel.findCollisionTime]; [None] is [null]. *)
Definition findCollisionTime (s : R) (world : list Z) (velocity : vec3)
    (startPos endPos : vec3) (dt : R) : option R :=
  if isPositionValid s world endPos then None
  else
    let '(_, _, collisionTime) :=
      Nat.iter 20 (bisect_step s world startPos velocity) (0, dt, dt) in
    Some collisionTime.

(** ** Players and the server state *)

(** [player.keys] *)
Record Keys : Type := mkKeys {
  key_w : bool; key_s : bool; key_a : bool; key_d : bool
}.

(** The state of a [Player] object; [pid] is [this.id]. *)
Record Player : Type := mkPlayer {
  pid : string;
  centerPos : vec3;
  velY : R;
  grounded : bool;
  yaw : R;
  pitch : R;
  keys : Keys;
  bodyVoxels : list MovingVoxel
}.

Definition set_bodyVoxels (b : list MovingVoxel) (p : Player) : Player :=
  mkPlayer (pid p) (centerPos p) (velY p) (grounded p) (yaw p) (pitch p)
    (keys p) b.
Definition set_centerPos (c : vec3) (p : Player) : Player :=
  mkPlayer (pid p) c (velY p) (grounded p) (yaw p) (pitch p) (keys p)
    (bodyVoxels p).
Definition set_velY (v : R) (p : Player) : Player :=
  mkPlayer (pid p) (centerPos p) v (grounded p) (yaw p) (pitch p) (keys p)
    (bodyVoxels p).
Definition set_grounded (g : bool) (p : Player) : Player :=
  mkPlayer (pid p) (centerPos p) (velY p) g (yaw p) (pitch p) (keys p)
    (bodyVoxels p).

(** [server.players] is a [Map]: the entries in insertion order. *)
Definition PlayerMap : Type := list (string * Player).

(** The state of the server that the physics reads and writes.  The values
    [Math.random()] returns are the stream [random], of which [randomCalls]
    have been taken. *)
Record Server : Type := mkServer {
  world : list Z;
  heights : list Z;
  terrainNeedsRebuild : bool;
  players : PlayerMap;
  movingVoxels : list MovingVoxel;
  random : nat → R;
  randomCalls : nat
}.

Definition set_world (w : list Z) (s : Server) : Server :=
  mkServer w (heights s) (terrainNeedsRebuild s) (players s) (movingVoxels s)
    (random s) (randomCalls s).
Definition set_heights (h : list Z) (s : Server) : Server :=
  mkServer (world s) h (terrainNeedsRebuild s) (players s) (movingVoxels s)
    (random s) (randomCalls s).
Definition set_terrainNeedsRebuild (b : bool) (s : Server) : Server :=
  mkServer (world s) (heights s) b (players s) (movingVoxels s)
    (random s) (randomCalls s).
Definition set_players (ps : PlayerMap) (s : Server) : Server :=
  mkServer (world s) (heights s) (terrainNeedsRebuild s) ps (movingVoxels s)
    (random s) (randomCalls s).
Definition set_movingVoxels (l : list MovingVoxel) (s : Server) : Server :=
  mkServer (world s) (heights s) (terrainNeedsRebuild s) (players s) l
    (random s) (randomCalls s).

(** [Math.random()]: the next value of the stream, and the server after
    the call. *)
Definition Math_random (s : Server) : R * Server :=
  (random s (randomCalls s),
   mkServer (world s) (heights s) (terrainNeedsRebuild s) (players s)
     (movingVoxels s) (random s) (S (randomCalls s))).

(** What [MovingVoxel.update] returns. *)
Inductive UpdateResult : Type :=
| Continue          (* 'continue' *)
| Settled           (* 'settled' *)
| KillProjectile.   (* 'kill_projectile' *)

(** [array.splice(i, 1)] *)
Definition splice1 {A : Type} (i : nat) (l : list A) : list A := delete i l.

(** ** Voxel against voxel *)

(** [MovingVoxel.checkVoxelToVoxelCollision] of server.js, whose contact
    distance is [(this.size + otherVoxel.size) * 2]. *)
Definition checkVoxelToVoxelCollision (this other : MovingVoxel) : bool :=
  dist (pos this) (pos other) <? (size this + size other) * 2.

(** [MovingVoxel.handleVoxelCollision], the same code in server.js and in
    game/MovingVoxel.js: the two voxels after the call. *)
Definition handleVoxelCollision (this other : MovingVoxel)
    : MovingVoxel * MovingVoxel :=
  let dx := vx (pos this) - vx (pos other) in
  let dy := vy (pos this) - vy (pos other) in
  let dz := vz (pos this) - vz (pos other) in
  let distance := Math_sqrt (dx * dx + dy * dy + dz * dz) in
  if distance <? 1 / 1000 then (this, other)
  else
    let nx := dx / distance in
    let ny := dy / distance in
    let nz := dz / distance in
    let overlap := (size this + size other) * 2 - distance in
    let separation := overlap * (51 / 100) in
    let this1 :=
      set_pos (V3 (vx (pos this) + nx * separation)
                  (vy (pos this) + ny * separation)
                  (vz (pos this) + nz * separation)) this in
    let other1 :=
      set_pos (V3 (vx (pos other) - nx * separation)
                  (vy (pos other) - ny * separation)
                  (vz (pos other) - nz * separation)) other in
    let relVelX := vx (vel this1) - vx (vel other1) in
    let relVelY := vy (vel this1) - vy (vel other1) in
    let relVelZ := vz (vel this1) - vz (vel other1) in
    let velAlongNormal := relVelX * nx + relVelY * ny + relVelZ * nz in
    if velAlongNormal >? 0 then (this1, other1)
    else
      let restitution := 6 / 10 in
      let impulseScalar := - (1 + restitution) * velAlongNormal / 2 in
      let impulseX := impulseScalar * nx in
      let impulseY := impulseScalar * ny in
      let impulseZ := impulseScalar * nz in
      (set_vel (V3 (vx (vel this1) + impulseX) (vy (vel this1) + impulseY)
                   (vz (vel this1) + impulseZ)) this1,
       set_vel (V3 (vx (vel other1) - impulseX) (vy (vel other1) - impulseY)
                   (vz (vel other1) - impulseZ)) other1).

(** ** Collision with the terrain (server.js, [MovingVoxel]) *)

(** The eight corners that [getCollisionInfo] samples. *)
Definition corner_checks (s : R) (p : vec3) : list vec3 :=
  let x := vx p in let y := vy p in let z := vz p in
  [ V3 (x - s) (y - s) (z - s); V3 (x + s) (y - s) (z - s);
    V3 (x - s) (y + s) (z - s); V3 (x + s) (y + s) (z - s);
    V3 (x - s) (y - s) (z + s); V3 (x + s) (y - s) (z + s);
    V3 (x - s) (y + s) (z + s); V3 (x + s) (y + s) (z + s) ].

(** What [getCollisionInfo] returns: [{ block: [xi, yi, zi], axis }]. *)
Record CollisionInfo : Type := mkCollision {
  block : Z * Z * Z;
  axis : Z
}.

(** The loop of [getCollisionInfo]: the state is [collisionBlock] and
    [minDistance], [None] standing for [null] and for [Infinity]. *)
Definition nearest_block_step (world : list Z) (p : vec3)
    (acc : option (Z * Z * Z) * option R) (check : vec3)
    : option (Z * Z * Z) * option R :=
  let xi := Math_floor (vx check) in
  let yi := Math_floor (vy check) in
  let zi := Math_floor (vz check) in
  if truthy (getWorld world xi yi zi) then
    let d := Math_sqrt ((IZR xi - vx p) * (IZR xi - vx p)
                        + (IZR yi - vy p) * (IZR yi - vy p)
                        + (IZR zi - vz p) * (IZR zi - vz p)) in
    if match snd acc with None => true | Some m => d <? m end
    then (Some (xi, yi, zi), Some d)
    else acc
  else acc.

(** [MovingVoxel.getCollisionInfo] of server.js. *)
Definition getCollisionInfo (s : R) (world : list Z) (p : vec3)
    : option CollisionInfo :=
  match fst (fold_left (nearest_block_step world p) (corner_checks s p)
                       (None, None)) with
  | None => None
  | Some (bx, by_, bz) =>
      let dx := Math_abs (vx p - (IZR bx + 5 / 10)) in
      let dy := Math_abs (vy p - (IZR by_ + 5 / 10)) in
      let dz := Math_abs (vz p - (IZR bz + 5 / 10)) in
      let axis :=
        if (dy >? dx) && (dy >? dz) then 1%Z
        else if (dz >? dx) && (dz >? dy) then 2%Z
        else 0%Z in
      Some (mkCollision (bx, by_, bz) axis)
  end.

(** The offsets [-radius .. radius] of the destruction and settle loops. *)
Definition offsets (radius : Z) : list Z := seqZ (- radius) (2 * radius + 1).

(** The body of the innermost loop of [createDestruction] for the offset
    [(dx, dy, dz)] from the impact cell [(xi, yi, zi)]. *)
Definition destroy_cell (this : MovingVoxel) (xi yi zi : Z) (speed : R)
    (s : Server) (dx dy dz : Z) : Server :=
  let radius := 3 in
  let bx := (xi + dx)%Z in
  let by_ := (yi + dy)%Z in
  let bz := (zi + dz)%Z in
  let d := Math_sqrt (IZR (dx * dx + dy * dy + dz * dz)) in
  if (d <=? radius) && truthy (getWorld (world s) bx by_ bz) then
    let forceRatio := Math_max 0 (1 - d / radius) in
    if d >? 5 / 10 then
      let '(r, s1) := Math_random s in
      if r <? forceRatio * (7 / 10) then
        let blockCenter :=
          V3 (IZR bx + 5 / 10) (IZR by_ + 5 / 10) (IZR bz + 5 / 10) in
        let directionX := vx blockCenter - (IZR xi + 5 / 10) in
        let directionY := vy blockCenter - (IZR yi + 5 / 10) in
        let directionZ := vz blockCenter - (IZR zi + 5 / 10) in
        let dirLength :=
          Math_sqrt (directionX * directionX + directionY * directionY
                     + directionZ * directionZ) in
        if dirLength >? 0 then
          let normDirX := directionX / dirLength in
          let normDirY := directionY / dirLength in
          let normDirZ := directionZ / dirLength in
          let velocityTransfer := speed * forceRatio * (8 / 10) in
          let newVelX := normDirX * velocityTransfer
                         + vx (vel this) * (3 / 10) in
          let newVelY := normDirY * velocityTransfer
                         + vy (vel this) * (3 / 10) + 8 in
          let newVelZ := normDirZ * velocityTransfer
                         + vz (vel this) * (3 / 10) in
          let '(rid, s2) := Math_random s1 in
          let dislodgedVoxel :=
            set_vel (V3 newVelX newVelY newVelZ)
              (newMovingVoxel rid blockCenter (V3 0 0 0) false None false
                 None) in
          let s3 := set_movingVoxels (movingVoxels s2 ++ [dislodgedVoxel]) s2 in
          let s4 := set_world (fst (setWorld (world s3) bx by_ bz 0)) s3 in
          set_terrainNeedsRebuild true s4
        else s1
      else s1
    else s
  else s.

(** [MovingVoxel.createDestruction]: the voxel, with its latch set, and the
    server after the three nested loops. *)
Definition createDestruction (this : MovingVoxel) (xi yi zi : Z) (speed : R)
    (s : Server) : MovingVoxel * Server :=
  let this1 := set_hasCollided true this in
  (this1,
   fold_left
     (λ s dx,
        fold_left
          (λ s dy,
             fold_left
               (λ s dz, destroy_cell this1 xi yi zi speed s dx dy dz)
               (offsets 3) s)
          (offsets 3) s)
     (offsets 3) s).

(** [MovingVoxel.handleCollision] *)
Definition handleCollision (collision : CollisionInfo) (this : MovingVoxel)
    (s : Server) : MovingVoxel * Server :=
  let '(xi, yi, zi) := block collision in
  let axis := axis collision in
  let restitution := if isProjectile this then 4 / 10 else 2 / 10 in
  let friction := if isProjectile this then 8 / 10 else 9 / 10 in
  let vel1 :=
    if Math_abs (vget (vel this) axis) >? 2 then
      let v0 := vset (vel this) axis (vget (vel this) axis * - restitution) in
      fold_left
        (λ v i, if negb (i =? axis)%Z && negb (i =? 1)%Z
                then vset v i (vget v i * friction) else v)
        (seqZ 0 3) v0
    else vset (vel this) axis 0 in
  let this1 := set_vel vel1 this in
  let speed := norm (vel this1) in
  if (speed >? 15) && negb (hasCollided this1) && isProjectile this1
  then createDestruction this1 xi yi zi speed s
  else (this1, s).

(** The velocity that [createDestruction] gives the voxel dislodged at the
    offset [(dx, dy, dz)] from the impact cell: the unit vector of the
    offset times [speed * forceRatio * 0.8], plus 0.3 of the velocity of
    the impacting voxel, plus 8 upwards. *)
Definition debrisVelocity (this : MovingVoxel) (speed : R) (dx dy dz : Z)
    : vec3 :=
  let d := Math_sqrt (IZR (dx * dx + dy * dy + dz * dz)) in
  let push := speed * (1 - d / 3) * (8 / 10) in
  V3 (IZR dx / d * push + vx (vel this) * (3 / 10))
     (IZR dy / d * push + vy (vel this) * (3 / 10) + 8)
     (IZR dz / d * push + vz (vel this) * (3 / 10)).

(** The offsets of the three nested loops of [createDestruction], in the
    order of the loops, and the number of solid cells of the sphere of
    radius 3 around [(xi, yi, zi)]. *)
Definition sphere_offsets : list (Z * Z * Z) :=
  list_prod (list_prod (offsets 3) (offsets 3)) (offsets 3).

Definition in_sphere_solid (world : list Z) (xi yi zi : Z) (k : Z * Z * Z)
    : bool :=
  let '(dx, dy, dz) := k in
  (Math_sqrt (IZR (dx * dx + dy * dy + dz * dz)) <=? 3)
  && truthy (getWorld world (xi + dx) (yi + dy) (zi + dz)).

Definition sphereSolidCount (world : list Z) (xi yi zi : Z) : nat :=
  length (filter (λ k, in_sphere_solid world xi yi zi k = true) sphere_offsets).

(** ** Settling into the grid *)

(** A candidate of [findClosestEmptyPosition]: [{ pos, distance }]. *)
Record Candidate : Type := mkCandidate {
  cand_pos : Z * Z * Z;
  distance : R
}.

(** The test of the settle search on a cell: inside the grid and empty. *)
Definition empty_cell (world : list Z) (x y z : Z) : bool :=
  (x >=? 0)%Z && (x <? WORLD_SIZE)%Z && (y >=? 0)%Z && (y <? WORLD_SIZE)%Z
  && (z >=? 0)%Z && (z <? WORLD_SIZE)%Z && negb (truthy (getWorld world x y z)).

(** The candidates that the three nested loops push for one [radius], in
    the order of the pushes. *)
Definition shell_candidates (world : list Z) (targetX targetY targetZ : Z)
    (radius : Z) : list Candidate :=
  fold_left
    (λ cs dx,
       fold_left
         (λ cs dy,
            fold_left
              (λ cs dz,
                 if (Z.abs dx =? radius)%Z || (Z.abs dy =? radius)%Z
                    || (Z.abs dz =? radius)%Z
                 then
                   let x := (targetX + dx)%Z in
                   let y := (targetY + dy)%Z in
                   let z := (targetZ + dz)%Z in
                   if empty_cell world x y z
                   then cs ++ [mkCandidate (x, y, z)
                                 (Math_sqrt (IZR (dx * dx + dy * dy + dz * dz)))]
                   else cs
                 else cs)
              (offsets radius) cs)
         (offsets radius) cs)
    (offsets radius) [].

(** [candidates.sort((a, b) => a.distance - b.distance)]: a stable sort by
    increasing distance. *)
Fixpoint insert_candidate (c : Candidate) (l : list Candidate) : list Candidate :=
  match l with
  | [] => [c]
  | d :: l' =>
      if distance c - distance d <=? 0 then c :: l
      else d :: insert_candidate c l'
  end.

Definition sort_candidates (l : list Candidate) : list Candidate :=
  foldr insert_candidate [] l.

(** The loop [for (radius = 1; radius <= maxRadius; radius++)] over the
    radii that remain. *)
Fixpoint search_shells (world : list Z) (targetX targetY targetZ : Z)
    (radii : list Z) : option (Z * Z * Z) :=
  match radii with
  | [] => None
  | radius :: rest =>
      match sort_candidates
              (shell_candidates world targetX targetY targetZ radius) with
      | c :: _ => Some (cand_pos c)
      | [] => search_shells world targetX targetY targetZ rest
      end
  end.

(** [MovingVoxel.findClosestEmptyPosition], with [maxRadius = 4]. *)
Definition findClosestEmptyPosition (world : list Z)
    (targetX targetY targetZ : Z) : option (Z * Z * Z) :=
  if empty_cell world targetX targetY targetZ
  then Some (targetX, targetY, targetZ)
  else search_shells world targetX targetY targetZ (seqZ 1 4).

(** [MovingVoxel.settleToGrid] *)
Definition settleToGrid (this : MovingVoxel) (s : Server)
    : UpdateResult * Server :=
  let targetX := Math_round (vx (pos this) - 5 / 10) in
  let targetY := Math_round (vy (pos this) - 5 / 10) in
  let targetZ := Math_round (vz (pos this) - 5 / 10) in
  match findClosestEmptyPosition (world s) targetX targetY targetZ with
  | Some (gridX, gridY, gridZ) =>
      let s1 := set_world (fst (setWorld (world s) gridX gridY gridZ 1)) s in
      (Settled, set_terrainNeedsRebuild true s1)
  | None => (Continue, s)
  end.

(** ** The players ([Player], server.js and Player.js) *)

(** [Player.getCenterPosition] *)
Definition getCenterPosition (p : Player) : vec3 :=
  match bodyVoxels p with
  | [] => centerPos p
  | _ =>
      let sum :=
        fold_left (λ acc voxel, vadd acc (pos voxel)) (bodyVoxels p)
                  (V3 0 0 0) in
      let n := INR (length (bodyVoxels p)) in
      V3 (vx sum / n) (vy sum / n) (vz sum / n)
  end.

(** [for (const voxel of this.bodyVoxels) voxel.pos[1] += deltaY] *)
Definition shift_voxels (delta : vec3) (l : list MovingVoxel)
    : list MovingVoxel :=
  map (λ voxel, set_pos (vadd (pos voxel) delta) voxel) l.

(** Centre and body voxels moved by the same [delta]. *)
Definition translate_player (delta : vec3) (p : Player) : Player :=
  set_bodyVoxels (shift_voxels delta (bodyVoxels p))
    (set_centerPos (vadd (centerPos p) delta) p).

(** The guarded read of the height cache that gives the ground level:
    [Math.floor(WORLD_SIZE / 4) + (inside ? heights[cx_i + cz_i * WORLD_SIZE]
    : 0)].  The read is inside an array of the allocated size; for a
    shorter array the JavaScript value is [NaN], which the model has not,
    and the level is the base height. *)
Definition groundLevel (heights : list Z) (c : vec3) : R :=
  let cx_i := Math_floor (vx c) in
  let cz_i := Math_floor (vz c) in
  IZR (WORLD_SIZE / 4)
  + (if (cx_i >=? 0)%Z && (cx_i <? WORLD_SIZE)%Z
        && (cz_i >=? 0)%Z && (cz_i <? WORLD_SIZE)%Z
     then match ta_get heights (cx_i + cz_i * WORLD_SIZE)%Z with
          | JNum h => IZR h
          | JUndefined => 0
          end
     else 0).

(** The airborne branch: gravity, the fall, and the landing test
    ([checkGroundCollision] of Player.js). *)
Definition checkGroundCollision (heights : list Z) (p : Player) : Player :=
  let g_y := groundLevel heights (centerPos p) in
  if vy (centerPos p) <=? g_y + IZR HALF_H then
    let correction := g_y + IZR HALF_H - vy (centerPos p) in
    let p1 := set_centerPos (V3 (vx (centerPos p)) (g_y + IZR HALF_H)
                                (vz (centerPos p))) p in
    let p2 := set_bodyVoxels (shift_voxels (V3 0 correction 0) (bodyVoxels p1))
                p1 in
    set_velY 0 (set_grounded true p2)
  else p.

(** The grounded branch ([stickToGround] of Player.js). *)
Definition stickToGround (heights : list Z) (p : Player) : Player :=
  let g_y := groundLevel heights (centerPos p) in
  if vy (centerPos p) >? g_y + IZR HALF_H + 1 then set_grounded false p
  else
    let correction := g_y + IZR HALF_H - vy (centerPos p) in
    let p1 := set_centerPos (V3 (vx (centerPos p)) (g_y + IZR HALF_H)
                                (vz (centerPos p))) p in
    set_bodyVoxels (shift_voxels (V3 0 correction 0) (bodyVoxels p1)) p1.

(** The vertical part of [updatePhysics] ([updateVerticalPhysics]). *)
Definition updateVerticalPhysics (dt : R) (heights : list Z) (p : Player)
    : Player :=
  if negb (grounded p) then
    let p1 := set_velY (velY p - GRAVITY * dt) p in
    let deltaY := velY p1 * dt in
    let p2 := set_bodyVoxels (shift_voxels (V3 0 deltaY 0) (bodyVoxels p1))
                p1 in
    let p3 := set_centerPos (V3 (vx (centerPos p2)) (vy (centerPos p2) + deltaY)
                                (vz (centerPos p2))) p2 in
    checkGroundCollision heights p3
  else stickToGround heights p.

(** MathUtils.js [getCameraDirection]; server.js computes [camDir] inline
    by the same formulas. *)
Definition getCameraDirection (yaw pitch : R) : vec3 :=
  V3 (cos pitch * sin yaw) (sin pitch) (cos pitch * cos yaw).

(** MathUtils.js [getCameraRight]; server.js computes [camRight] inline by
    the same formulas. *)
Definition getCameraRight (yaw pitch : R) : vec3 :=
  let camDir := getCameraDirection yaw pitch in
  let worldUp := V3 0 1 0 in
  let camRight :=
    V3 (vy camDir * vz worldUp - vz camDir * vy worldUp)
       (vz camDir * vx worldUp - vx camDir * vz worldUp)
       (vx camDir * vy worldUp - vy camDir * vx worldUp) in
  let rightLen :=
    Math_sqrt (vx camRight * vx camRight + vy camRight * vy camRight
               + vz camRight * vz camRight) in
  if rightLen >? 0
  then V3 (vx camRight / rightLen) (vy camRight / rightLen)
          (vz camRight / rightLen)
  else camRight.

(** The vector [v] (server.js) or [movement] (Player.js) that the four keys
    add up to; only its first and third components are written. *)
Definition inputVector (p : Player) : vec3 :=
  let camDir := getCameraDirection (yaw p) (pitch p) in
  let camRight := getCameraRight (yaw p) (pitch p) in
  let v0 := V3 0 0 0 in
  let v1 := if key_w (keys p)
            then V3 (vx v0 + vx camDir) (vy v0) (vz v0 + vz camDir) else v0 in
  let v2 := if key_s (keys p)
            then V3 (vx v1 - vx camDir) (vy v1) (vz v1 - vz camDir) else v1 in
  let v3 := if key_a (keys p)
            then V3 (vx v2 - vx camRight) (vy v2) (vz v2 - vz camRight) else v2 in
  if key_d (keys p)
  then V3 (vx v3 + vx camRight) (vy v3) (vz v3 + vz camRight) else v3.

(** [Math.sqrt(v[0] * v[0] + v[2] * v[2])] *)
Definition inputLength (p : Player) : R :=
  let v := inputVector p in Math_sqrt (vx v * vx v + vz v * vz v).

(** The step from the input: [[deltaX, deltaZ]]. *)
Definition inputDelta (dt : R) (p : Player) : R * R :=
  let v := inputVector p in
  let len := inputLength p in
  (vx v / len * MOVE_SPD * dt, vz v / len * MOVE_SPD * dt).

(** Player.js [canMoveTo].  A height read outside the cache is
    [undefined], the difference is then [NaN] and [NaN <= STEP_HEIGHT] is
    false. *)
Definition canMoveTo (heights : list Z) (p : Player) (deltaX deltaZ : R)
    : bool :=
  let target_x := vx (centerPos p) + deltaX in
  let target_z := vz (centerPos p) + deltaZ in
  let tx := Math_floor target_x in
  let tz := Math_floor target_z in
  let cxi := Math_floor (vx (centerPos p)) in
  let czi := Math_floor (vz (centerPos p)) in
  if (tx <? 0)%Z || (tx >=? WORLD_SIZE)%Z || (tz <? 0)%Z || (tz >=? WORLD_SIZE)%Z
  then false
  else
    match ta_get heights (cxi + czi * WORLD_SIZE)%Z,
          ta_get heights (tx + tz * WORLD_SIZE)%Z with
    | JNum currentHeight, JNum targetHeight =>
        (targetHeight - currentHeight <=? STEP_HEIGHT)%Z
    | _, _ => false
    end.

(** Player.js [updateHorizontalMovement] *)
Definition updateHorizontalMovement (dt : R) (heights : list Z) (p : Player)
    : Player :=
  if inputLength p >? 0 then
    let '(deltaX, deltaZ) := inputDelta dt p in
    if canMoveTo heights p deltaX deltaZ
    then translate_player (V3 deltaX 0 deltaZ) p
    else p
  else p.

(** Player.js [enforceBoundaries]; the tail of [updatePhysics] in
    server.js is the same code. *)
Definition enforceBoundaries (p : Player) : Player :=
  let margin := IZR HALF_W / 16 in
  let oldX := vx (centerPos p) in
  let oldZ := vz (centerPos p) in
  let newX := Math_max margin (Math_min (IZR WORLD_SIZE - margin) oldX) in
  let newZ := Math_max margin (Math_min (IZR WORLD_SIZE - margin) oldZ) in
  let p1 := set_centerPos (V3 newX (vy (centerPos p)) newZ) p in
  let boundaryDeltaX := newX - oldX in
  let boundaryDeltaZ := newZ - oldZ in
  if negb (Reqb boundaryDeltaX 0) || negb (Reqb boundaryDeltaZ 0)
  then set_bodyVoxels
         (shift_voxels (V3 boundaryDeltaX 0 boundaryDeltaZ) (bodyVoxels p1)) p1
  else p1.

(** [oldCenter[0] !== this.centerPos[0] || ...] *)
Definition center_moved (oldCenter newCenter : vec3) : bool :=
  negb (Reqb (vx oldCenter) (vx newCenter))
  || negb (Reqb (vy oldCenter) (vy newCenter))
  || negb (Reqb (vz oldCenter) (vz newCenter)).

(** server.js (the single-file server): [Player.updatePhysics]. *)
Module Monolith.

(** The horizontal movement, lines 565-589: the bounds test and the step
    test are written in place. *)
Definition horizontalMovement (dt : R) (heights : list Z) (p : Player)
    : Player :=
  if inputLength p >? 0 then
    let '(deltaX, deltaZ) := inputDelta dt p in
    let target_x := vx (centerPos p) + deltaX in
    let target_z := vz (centerPos p) + deltaZ in
    let tx := Math_floor target_x in
    let tz := Math_floor target_z in
    let cxi := Math_floor (vx (centerPos p)) in
    let czi := Math_floor (vz (centerPos p)) in
    if (tx >=? 0)%Z && (tx <? WORLD_SIZE)%Z
       && (tz >=? 0)%Z && (tz <? WORLD_SIZE)%Z then
      match ta_get heights (tx + tz * WORLD_SIZE)%Z,
            ta_get heights (cxi + czi * WORLD_SIZE)%Z with
      | JNum ht, JNum hc =>
          if (ht - hc <=? STEP_HEIGHT)%Z then
            set_bodyVoxels
              (shift_voxels (V3 deltaX 0 deltaZ) (bodyVoxels p))
              (set_centerPos (V3 target_x (vy (centerPos p)) target_z) p)
          else p
      | _, _ => p
      end
    else p
  else p.

(** [this.centerPos = this.getCenterPosition()] *)
Definition recenter (p : Player) : Player :=
  set_centerPos (getCenterPosition p) p.

(** [Player.updatePhysics]: the player after the tick and the returned
    flag. *)
Definition updatePhysics (dt : R) (heights : list Z) (p : Player)
    : Player * bool :=
  match bodyVoxels p with
  | [] => (p, false)
  | _ =>
      let oldCenter := centerPos p in
      let p1 := recenter p in
      let p2 := updateVerticalPhysics dt heights p1 in
      let p3 := horizontalMovement dt heights p2 in
      let p4 := enforceBoundaries p3 in
      (p4, center_moved oldCenter (centerPos p4))
  end.

End Monolith.

(** Player.js (the modular server): [Player.updatePhysics]. *)
Module PlayerJs.

(** The first step of [updatePhysics]: the centre moves to the mean of
    the remaining voxels, by at most [maxCenterShift]. *)
Definition smoothCenter (p : Player) : Player :=
  let newCenter := getCenterPosition p in
  let maxCenterShift := 2 in
  let dx := vx newCenter - vx (centerPos p) in
  let dy := vy newCenter - vy (centerPos p) in
  let dz := vz newCenter - vz (centerPos p) in
  let shiftMagnitude := Math_sqrt (dx * dx + dy * dy + dz * dz) in
  if shiftMagnitude <=? maxCenterShift then set_centerPos newCenter p
  else
    let smoothingFactor := maxCenterShift / shiftMagnitude in
    set_centerPos (V3 (vx (centerPos p) + dx * smoothingFactor)
                      (vy (centerPos p) + dy * smoothingFactor)
                      (vz (centerPos p) + dz * smoothingFactor)) p.

Definition updatePhysics (dt : R) (heights : list Z) (p : Player)
    : Player * bool :=
  match bodyVoxels p with
  | [] => (p, false)
  | _ =>
      let oldCenter := centerPos p in
      let p1 := smoothCenter p in
      let p2 := updateVerticalPhysics dt heights p1 in
      let p3 := updateHorizontalMovement dt heights p2 in
      let p4 := enforceBoundaries p3 in
      (p4, center_moved oldCenter (centerPos p4))
  end.

End PlayerJs.

(** ** One tick of a moving voxel *)

(** [this.vel[1] -= GRAVITY * dt] *)
Definition applyGravity (dt : R) (this : MovingVoxel) : MovingVoxel :=
  set_vel (V3 (vx (vel this)) (vy (vel this) - GRAVITY * dt) (vz (vel this)))
          this.

(** The swept move of [update]: from [startPos] towards
    [endPos = startPos + vel * dt], stopping 0.001 before the collision
    time that the binary search returns.  [handle] is the version's
    terrain response, called on the collision information [info] finds at
    the collision position. *)
Definition sweptMove
    (info : R → list Z → vec3 → option CollisionInfo)
    (handle : CollisionInfo → MovingVoxel → Server → MovingVoxel * Server)
    (dt : R) (this : MovingVoxel) (s : Server) : MovingVoxel * Server :=
  let startPos := pos this in
  let endPos := at_time (pos this) (vel this) dt in
  match findCollisionTime (size this) (world s) (vel this) startPos endPos dt with
  | Some collisionTime =>
      if collisionTime >? 0 then
        let safeTime := Math_max 0 (collisionTime - 1 / 1000) in
        let this1 := set_pos (at_time startPos (vel this) safeTime) this in
        match info (size this1) (world s)
                (at_time startPos (vel this1) collisionTime) with
        | Some collision => handle collision this1 s
        | None => (this1, s)
        end
      else (set_pos endPos this, s)
  | None => (set_pos endPos this, s)
  end.

(** The floor and the walls of the world ([handleWorldBoundaries] of
    MovingVoxel.js; the same lines are inline in server.js). *)
Definition handleWorldBoundaries (this : MovingVoxel) : MovingVoxel :=
  let this1 :=
    if vy (pos this) <? size this then
      let t := set_pos (V3 (vx (pos this)) (size this) (vz (pos this))) this in
      if vy (vel t) <? 0
      then set_vel (V3 (vx (vel t) * (8 / 10)) (vy (vel t) * - (3 / 10))
                       (vz (vel t) * (8 / 10))) t
      else t
    else this in
  let margin := size this1 in
  set_pos
    (V3 (Math_max margin (Math_min (IZR WORLD_SIZE - margin) (vx (pos this1))))
        (vy (pos this1))
        (Math_max margin (Math_min (IZR WORLD_SIZE - margin) (vz (pos this1)))))
    this1.

(** [for (const otherVoxel of allVoxels) if (otherVoxel !== this && check)
    this.handleVoxelCollision(otherVoxel)], where [this] is the voxel of
    index [i] of the list. *)
Definition handleVoxelCollisions
    (check : MovingVoxel → MovingVoxel → bool)
    (i : nat) (this : MovingVoxel) (l : list MovingVoxel)
    : MovingVoxel * list MovingVoxel :=
  fold_left
    (λ (st : MovingVoxel * list MovingVoxel) j,
       if Nat.eqb j i then st
       else match snd st !! j with
            | Some otherVoxel =>
                if check (fst st) otherVoxel then
                  let r := handleVoxelCollision (fst st) otherVoxel in
                  (fst r, <[j := snd r]> (snd st))
                else st
            | None => st
            end)
    (seq 0 (length l)) (this, l).

(** ** Settling *)

(** [checkSettling] of MovingVoxel.js; the same lines close [update] in
    server.js. *)
Definition checkSettling (this : MovingVoxel) (s : Server)
    : UpdateResult * MovingVoxel * Server :=
  let speed := norm (vel this) in
  let posChange := dist (pos this) (lastPos this) in
  let this1 := set_lastPos (pos this) this in
  if (speed <? SETTLE_SPEED_THRESHOLD) || (posChange <? 5 / 100)
  then let r := settleToGrid this1 s in (fst r, this1, snd r)
  else (Continue, this1, s).

(** [playerId === this.throwerId] *)
Definition is_thrower (playerId : string) (this : MovingVoxel) : bool :=
  match throwerId this with
  | Some t => String.eqb playerId t
  | None => false
  end.

(** The voxel [this], taken from the list for the tick, is put back. *)
Definition store_voxel (i : nat) (this : MovingVoxel) (s : Server) : Server :=
  set_movingVoxels (<[i := this]> (movingVoxels s)) s.

(** server.js (the single-file server): [MovingVoxel] and the tick. *)
Module MonolithVoxel.

(** [MovingVoxel.handlePlayerVoxelCollision]: the returned flag, the
    projectile, the player voxel and the server after the call. *)
Definition handlePlayerVoxelCollision (this playerVoxel : MovingVoxel)
    (s : Server) : bool * MovingVoxel * MovingVoxel * Server :=
  let speed := norm (vel this) in
  if (speed >? 10) && isProjectile this && negb (hasCollided this) then
    let pv1 := detach playerVoxel in
    let '(r1, s1) := Math_random s in
    let '(r2, s2) := Math_random s1 in
    let '(r3, s3) := Math_random s2 in
    let pv2 := set_vel (V3 ((r1 - 5 / 10) * 20) (r2 * 15 + 5)
                           ((r3 - 5 / 10) * 20)) pv1 in
    let s4 := set_movingVoxels (movingVoxels s3 ++ [pv2]) s3 in
    let this1 := set_hasCollided true this in
    let this2 := set_vel (V3 (vx (vel this1) * (2 / 10))
                             (vy (vel this1) * (2 / 10))
                             (vz (vel this1) * (2 / 10))) this1 in
    (true, this2, pv2, s4)
  else
    let r := handleVoxelCollision this playerVoxel in
    let this1 := if isProjectile (fst r) then set_hasCollided true (fst r)
                 else fst r in
    (false, this1, snd r, s).

(** The loop over the body voxels of one player, from the last index
    down: [Some] is the early [return 'continue']. *)
Fixpoint scanBody (indices : list nat) (this : MovingVoxel)
    (body : list MovingVoxel) (s : Server)
    : bool * MovingVoxel * list MovingVoxel * Server :=
  match indices with
  | [] => (false, this, body, s)
  | i :: rest =>
      match body !! i with
      | Some playerVoxel =>
          if checkVoxelToVoxelCollision this playerVoxel then
            let '(wasRemoved, this1, pv1, s1) :=
              handlePlayerVoxelCollision this playerVoxel s in
            if wasRemoved then (true, this1, splice1 i body, s1)
            else
              let body1 := <[i := pv1]> body in
              if isProjectile this1 && hasCollided this1
              then (true, this1, body1, s1)
              else scanBody rest this1 body1 s1
          else scanBody rest this body s
      | None => scanBody rest this body s
      end
  end.

(** The thrower test of lines 263-276: [None] is [continue] (the
    thrower is skipped), [Some] carries the projectile with its latch. *)
Definition throwerGate (playerId : string) (player : Player)
    (this : MovingVoxel) : option MovingVoxel :=
  if is_thrower playerId this && negb (hasLeftThrowerHitbox this) then
    let throwerCenter := getCenterPosition player in
    let d := dist (pos this) throwerCenter in
    if (d >? 20) || (framesSinceLaunch this >? 10)%Z
    then Some (set_hasLeftThrowerHitbox true this)
    else None
  else Some this.

(** The loop over [server.players.entries()], by index in the map. *)
Fixpoint scanPlayers (ks : list nat) (this : MovingVoxel) (s : Server)
    : bool * MovingVoxel * Server :=
  match ks with
  | [] => (false, this, s)
  | k :: rest =>
      match players s !! k with
      | Some (playerId, player) =>
          match throwerGate playerId player this with
          | None => scanPlayers rest this s
          | Some this1 =>
              let n := length (bodyVoxels player) in
              let '(returned, this2, body, s1) :=
                scanBody (rev (seq 0 n)) this1 (bodyVoxels player) s in
              let s2 :=
                set_players
                  (<[k := (playerId, set_bodyVoxels body player)]> (players s1))
                  s1 in
              if returned then (true, this2, s2)
              else scanPlayers rest this2 s2
          end
      | None => scanPlayers rest this s
      end
  end.

(** Lines 261-293 of [update]. *)
Definition playerCollisions (this : MovingVoxel) (s : Server)
    : bool * MovingVoxel * Server :=
  if isProjectile this && negb (hasCollided this)
  then scanPlayers (seq 0 (length (players s))) this s
  else (false, this, s).

(** Lines 211-253 of [update]: gravity, the swept move, the floor and the
    walls. *)
Definition updateMotion (dt : R) (this : MovingVoxel) (s : Server)
    : MovingVoxel * Server :=
  let r := sweptMove getCollisionInfo handleCollision dt
             (applyGravity dt this) s in
  (handleWorldBoundaries (fst r), snd r).

(** [MovingVoxel.update] for the voxel of index [i] of
    [server.movingVoxels]. *)
Definition update (dt : R) (i : nat) (s : Server) : UpdateResult * Server :=
  match movingVoxels s !! i with
  | None => (Continue, s)
  | Some this =>
      if isPlayerVoxel this then (Continue, s)
      else
        let this1 :=
          if isProjectile this
          then set_framesSinceLaunch (framesSinceLaunch this + 1)%Z this
          else this in
        let '(this2, s2) := updateMotion dt this1 s in
        let '(this3, l3) :=
          handleVoxelCollisions checkVoxelToVoxelCollision i this2
            (movingVoxels s2) in
        let s3 := set_movingVoxels l3 s2 in
        let '(returned, this4, s4) := playerCollisions this3 s3 in
        if returned then (Continue, store_voxel i this4 s4)
        else
          let '(result, this5, s5) := checkSettling this4 s4 in
          (result, store_voxel i this5 s5)
  end.

(** The body of the loop over the moving voxels of
    [MultiplayerVoxelServer.updatePhysics], for the index [i]. *)
Definition tickVoxel (dt : R) (s : Server) (i : nat) : Server :=
  let '(result, s1) := update dt i s in
  match result with
  | Settled => set_movingVoxels (splice1 i (movingVoxels s1)) s1
  | _ => s1
  end.

(** The loop, from the last index down. *)
Definition updateMovingVoxels (dt : R) (s : Server) : Server :=
  fold_left (tickVoxel dt) (rev (seq 0 (length (movingVoxels s)))) s.

(** The loop over the players of [updatePhysics]. *)
Definition updatePlayers (dt : R) (s : Server) : Server :=
  set_players
    (map (λ e : string * Player,
            (fst e, fst (Monolith.updatePhysics dt (heights s) (snd e))))
         (players s)) s.

(** [MultiplayerVoxelServer.updatePhysics] *)
Definition updatePhysics (dt : R) (s : Server) : Server :=
  let s1 := updatePlayers dt s in
  let s2 := updateMovingVoxels dt s1 in
  if terrainNeedsRebuild s2
  then set_terrainNeedsRebuild false
         (set_heights (rebuildTerrain (world s2) (heights s2)) s2)
  else s2.

End MonolithVoxel.

(** MovingVoxel.js with the trajectory test against the players, and the
    loop of VoxelServer.js that runs it.  [handleCollision],
    [createDestruction], [settleToGrid] and [findClosestEmptyPosition] are
    the code of server.js; the marks for the renderer ([meshNeedsUpdate],
    the dirty chunks) and the velocity log are not part of the model. *)
Module TrajectoryVoxel.

(** [checkVoxelToVoxelCollision]: the contact distance is the sum of the
    two sizes. *)
Definition checkVoxelToVoxelCollision (this other : MovingVoxel) : bool :=
  dist (pos this) (pos other) <? size this + size other.

(** The six neighbours that [getCollisionInfo] looks at when the centre
    is not inside a block. *)
Definition face_checks (s : R) (p : vec3) : list (Z * Z * Z) :=
  let x := vx p in let y := vy p in let z := vz p in
  [ (Math_floor (x - s), Math_floor y, Math_floor z);
    (Math_floor (x + s), Math_floor y, Math_floor z);
    (Math_floor x, Math_floor (y - s), Math_floor z);
    (Math_floor x, Math_floor (y + s), Math_floor z);
    (Math_floor x, Math_floor y, Math_floor (z - s));
    (Math_floor x, Math_floor y, Math_floor (z + s)) ].

Definition nearest_face_step (world : list Z) (p : vec3)
    (acc : option (Z * Z * Z) * option R) (check : Z * Z * Z)
    : option (Z * Z * Z) * option R :=
  let '(xi, yi, zi) := check in
  if truthy (getWorld world xi yi zi) then
    let blockCenterX := IZR xi + 5 / 10 in
    let blockCenterY := IZR yi + 5 / 10 in
    let blockCenterZ := IZR zi + 5 / 10 in
    let d := Math_sqrt ((vx p - blockCenterX) * (vx p - blockCenterX)
                        + (vy p - blockCenterY) * (vy p - blockCenterY)
                        + (vz p - blockCenterZ) * (vz p - blockCenterZ)) in
    if match snd acc with None => true | Some m => d <? m end
    then (Some (xi, yi, zi), Some d)
    else acc
  else acc.

(** [Math.max] of the six overlaps. *)
Definition max6 (a b c d e f : R) : R :=
  Math_max (Math_max (Math_max (Math_max (Math_max a b) c) d) e) f.

(** [MovingVoxel.getCollisionInfo] *)
Definition getCollisionInfo (s : R) (world : list Z) (p : vec3)
    : option CollisionInfo :=
  let x := vx p in let y := vy p in let z := vz p in
  let centerBlockX := Math_floor x in
  let centerBlockY := Math_floor y in
  let centerBlockZ := Math_floor z in
  let collisionBlock :=
    if truthy (getWorld world centerBlockX centerBlockY centerBlockZ)
    then Some (centerBlockX, centerBlockY, centerBlockZ)
    else fst (fold_left (nearest_face_step world p) (face_checks s p)
                        (None, None)) in
  match collisionBlock with
  | None => None
  | Some (bx, by_, bz) =>
      let leftOverlap := Math_max 0 ((IZR bx + 5 / 10) - (x - s)) in
      let rightOverlap := Math_max 0 ((x + s) - (IZR bx + 5 / 10)) in
      let bottomOverlap := Math_max 0 ((IZR by_ + 5 / 10) - (y - s)) in
      let topOverlap := Math_max 0 ((y + s) - (IZR by_ + 5 / 10)) in
      let backOverlap := Math_max 0 ((IZR bz + 5 / 10) - (z - s)) in
      let frontOverlap := Math_max 0 ((z + s) - (IZR bz + 5 / 10)) in
      let maxOverlap :=
        max6 leftOverlap rightOverlap bottomOverlap topOverlap backOverlap
             frontOverlap in
      let axis :=
        if Reqb maxOverlap topOverlap || Reqb maxOverlap bottomOverlap
        then 1%Z
        else if Reqb maxOverlap frontOverlap || Reqb maxOverlap backOverlap
        then 2%Z
        else 0%Z in
      Some (mkCollision (bx, by_, bz) axis)
  end.

(** [findTrajectoryVoxelIntersection]; [None] is [null]. *)
Definition findTrajectoryVoxelIntersection (this : MovingVoxel)
    (startPos trajectory : vec3) (trajectoryLength : R)
    (playerVoxel : MovingVoxel) : option R :=
  let projectileRadius := size this in
  let playerVoxelRadius := size playerVoxel in
  let combinedRadius := projectileRadius + playerVoxelRadius in
  let toVoxel := vsub (pos playerVoxel) startPos in
  let trajectoryDot := sumsq trajectory in
  if trajectoryDot <? 1 / 1000 then None
  else
    let projectionLength :=
      (vx toVoxel * vx trajectory + vy toVoxel * vy trajectory
       + vz toVoxel * vz trajectory) / trajectoryDot in
    let clampedT := Math_max 0 (Math_min 1 projectionLength) in
    let closestPoint := at_time startPos trajectory clampedT in
    let dx := vx closestPoint - vx (pos playerVoxel) in
    let dy := vy closestPoint - vy (pos playerVoxel) in
    let dz := vz closestPoint - vz (pos playerVoxel) in
    let distance := Math_sqrt (dx * dx + dy * dy + dz * dz) in
    if distance <=? combinedRadius then
      let a := trajectoryDot in
      let b := 2 * (vx trajectory * (vx startPos - vx (pos playerVoxel))
                    + vy trajectory * (vy startPos - vy (pos playerVoxel))
                    + vz trajectory * (vz startPos - vz (pos playerVoxel))) in
      let c := sumsq (vsub startPos (pos playerVoxel))
               - combinedRadius * combinedRadius in
      let discriminant := b * b - 4 * a * c in
      if discriminant >=? 0 then
        let sqrtDiscriminant := Math_sqrt discriminant in
        let t1 := (- b - sqrtDiscriminant) / (2 * a) in
        let t2 := (- b + sqrtDiscriminant) / (2 * a) in
        if (t1 >=? 0) && (t1 <=? 1) then Some t1
        else if (t2 >=? 0) && (t2 <=? 1) then Some t2
        else Some clampedT
      else Some clampedT
    else None.

(** [closestCollision]: the parameter [t], the index of the player in
    the map, the index of the voxel in its body, and the voxel. *)
Record Hit : Type := mkHit {
  hit_t : R;
  hit_player : nat;
  hit_voxel : nat;
  hit_playerVoxel : MovingVoxel
}.

(** The loop over the body voxels of the player of index [k], from the
    last index down; [best] is [closestCollision], of which [closestT]
    is the parameter. *)
Definition scanBody (this : MovingVoxel) (startPos trajectory : vec3)
    (trajectoryLength : R) (k : nat) (body : list MovingVoxel)
    (best : option Hit) : option Hit :=
  fold_left
    (λ best i,
       match body !! i with
       | Some playerVoxel =>
           match findTrajectoryVoxelIntersection this startPos trajectory
                   trajectoryLength playerVoxel with
           | Some t =>
               if (t >=? 0) && (t <=? 1)
                  && match best with
                     | None => true
                     | Some h => t <? hit_t h
                     end
               then Some (mkHit t k i playerVoxel)
               else best
           | None => best
           end
       | None => best
       end)
    (rev (seq 0 (length body))) best.

(** The thrower test of [handlePlayerCollisionsTrajectory]: [None] is
    [continue] (the thrower is skipped), [Some] carries the projectile
    with its latch. *)
Definition throwerGate (playerId : string) (player : Player)
    (startPos : vec3) (this : MovingVoxel) : option MovingVoxel :=
  if is_thrower playerId this && negb (hasLeftThrowerHitbox this) then
    let throwerCenter := getCenterPosition player in
    let d := dist startPos throwerCenter in
    if (d <? 20) && (framesSinceLaunch this <? 10)%Z
    then None
    else Some (set_hasLeftThrowerHitbox true this)
  else Some this.

(** The loop over [server.players.entries()]. *)
Definition scanPlayers (startPos trajectory : vec3) (trajectoryLength : R)
    (ps : PlayerMap) (this : MovingVoxel)
    : MovingVoxel * option Hit :=
  fold_left
    (λ (st : MovingVoxel * option Hit) k,
       match ps !! k with
       | Some (playerId, player) =>
           match throwerGate playerId player startPos (fst st) with
           | None => st
           | Some this1 =>
               (this1,
                scanBody this1 startPos trajectory trajectoryLength k
                  (bodyVoxels player) (snd st))
           end
       | None => st
       end)
    (seq 0 (length ps)) (this, None).

(** What [handlePlayerVoxelCollision] returns: always ['kill_both']. *)
Inductive PlayerHitResult : Type := KillBoth.

Definition handlePlayerVoxelCollision (this playerVoxel : MovingVoxel)
    : PlayerHitResult := KillBoth.

(** [players.get(k).bodyVoxels.splice(i, 1)] *)
Definition removeBodyVoxel (k i : nat) (ps : PlayerMap) : PlayerMap :=
  match ps !! k with
  | Some (playerId, player) =>
      <[k := (playerId, set_bodyVoxels (splice1 i (bodyVoxels player)) player)]> ps
  | None => ps
  end.

(** [handlePlayerCollisionsTrajectory]: [true] is ['kill_projectile'],
    [false] is [null] or [undefined]. *)
Definition handlePlayerCollisionsTrajectory (startPos endPos : vec3)
    (this : MovingVoxel) (ps : PlayerMap)
    : bool * MovingVoxel * PlayerMap :=
  if Nat.eqb (length ps) 0 then (false, this, ps)
  else
    let trajectory := vsub endPos startPos in
    let trajectoryLength := norm trajectory in
    if trajectoryLength <? 1 / 1000 then (false, this, ps)
    else
      let '(this1, closestCollision) :=
        scanPlayers startPos trajectory trajectoryLength ps this in
      match closestCollision with
      | Some h =>
          let collisionPos := at_time startPos trajectory (hit_t h) in
          let this2 := set_pos collisionPos this1 in
          match handlePlayerVoxelCollision this2 (hit_playerVoxel h) with
          | KillBoth =>
              (true, this2, removeBodyVoxel (hit_player h) (hit_voxel h) ps)
          end
      | None => (false, this1, ps)
      end.

(** [handleDebrisPlayerCollisions]: the loop over the body of a player,
    from the last index down. *)
Definition bounceOffBody (this : MovingVoxel) (body : list MovingVoxel)
    : MovingVoxel * list MovingVoxel :=
  fold_left
    (λ (st : MovingVoxel * list MovingVoxel) i,
       match snd st !! i with
       | Some playerVoxel =>
           if checkVoxelToVoxelCollision (fst st) playerVoxel then
             let r := handleVoxelCollision (fst st) playerVoxel in
             (fst r, <[i := snd r]> (snd st))
           else st
       | None => st
       end)
    (rev (seq 0 (length body))) (this, body).

Definition handleDebrisPlayerCollisions (this : MovingVoxel) (ps : PlayerMap)
    : MovingVoxel * PlayerMap :=
  if isProjectile this then (this, ps)
  else
    fold_left
      (λ (st : MovingVoxel * PlayerMap) k,
         match snd st !! k with
         | Some (playerId, player) =>
             let r := bounceOffBody (fst st) (bodyVoxels player) in
             (fst r, <[k := (playerId, set_bodyVoxels (snd r) player)]> (snd st))
         | None => st
         end)
      (seq 0 (length ps)) (this, ps).

(** [MovingVoxel.update] for the voxel of index [i] of
    [server.movingVoxels]. *)
Definition update (dt : R) (i : nat) (s : Server) : UpdateResult * Server :=
  match movingVoxels s !! i with
  | None => (Continue, s)
  | Some this =>
      if isPlayerVoxel this then (Continue, s)
      else
        let this1 :=
          if isProjectile this
          then set_framesSinceLaunch (framesSinceLaunch this + 1)%Z this
          else this in
        let '(this2, s2) :=
          sweptMove getCollisionInfo handleCollision dt
            (applyGravity dt this1) s in
        let '(killed, this3, ps3) :=
          if isProjectile this2 then
            let actualStartPos := at_time (pos this2) (vel this2) (- dt) in
            let actualEndPos := pos this2 in
            handlePlayerCollisionsTrajectory actualStartPos actualEndPos
              this2 (players s2)
          else (false, this2, players s2) in
        let s3 := set_players ps3 s2 in
        if killed then (KillProjectile, store_voxel i this3 s3)
        else
          let this4 := handleWorldBoundaries this3 in
          let '(this5, l5) :=
            handleVoxelCollisions checkVoxelToVoxelCollision i this4
              (movingVoxels s3) in
          let s5 := set_movingVoxels l5 s3 in
          let '(this6, ps6) :=
            if negb (isProjectile this5)
            then handleDebrisPlayerCollisions this5 (players s5)
            else (this5, players s5) in
          let s6 := set_players ps6 s5 in
          let '(result, this7, s7) := checkSettling this6 s6 in
          (result, store_voxel i this7 s7)
  end.

(** VoxelServer.js [updateMovingVoxels]: the body of the loop for the
    index [i]. *)
Definition tickVoxel (dt : R) (s : Server) (i : nat) : Server :=
  let '(result, s1) := update dt i s in
  match result with
  | Settled => set_movingVoxels (splice1 i (movingVoxels s1)) s1
  | KillProjectile => set_movingVoxels (splice1 i (movingVoxels s1)) s1
  | Continue => s1
  end.

(** The loop, from the last index down. *)
Definition updateMovingVoxels (dt : R) (s : Server) : Server :=
  fold_left (tickVoxel dt) (rev (seq 0 (length (movingVoxels s)))) s.

End TrajectoryVoxel.

(** ** Notions used in the statements *)

(** The cells of the grid. *)
Definition InGrid (x y z : Z) : Prop :=
  0 ≤ x < 128 ∧ 0 ≤ y < 128 ∧ 0 ≤ z < 128.

(** [w'] has no solid cell that [w] has not. *)
Definition world_le (w' w : list Z) : Prop :=
  ∀ x y z, truthy (getWorld w' x y z) = true → truthy (getWorld w x y z) = true.

(** The writes [hs[f k] = g k] for the keys [ks], in their order. *)
Definition write_all {K : Type} (conv : Z → Z) (f g : K → Z) (ks : list K)
    (hs : list Z) : list Z :=
  fold_left (λ hs k, ta_set conv hs (f k) (g k)) ks hs.

(** The debris that a run of the destruction loop over the offsets [ks]
    leaves, seen from the server [s] before the run and [s'] after it. *)
Definition is_debris_of (this : MovingVoxel) (xi yi zi : Z) (speed : R)
    (s s' : Server) (d : MovingVoxel) : Prop :=
  isProjectile d = false ∧ isPlayerVoxel d = false
  ∧ ∃ dx dy dz,
      pos d = V3 (IZR (xi + dx) + 5 / 10) (IZR (yi + dy) + 5 / 10)
                 (IZR (zi + dz) + 5 / 10)
      ∧ vel d = debrisVelocity this speed dx dy dz
      ∧ (dx, dy, dz) ≠ (0, 0, 0)%Z
      ∧ truthy (getWorld (world s) (xi + dx) (yi + dy) (zi + dz)) = true
      ∧ truthy (getWorld (world s') (xi + dx) (yi + dy) (zi + dz)) = false.

(** The offset [(dx, dy, dz)] is on the cubic shell of radius [radius]:
    the offsets that the loops of [findClosestEmptyPosition] keep. *)
Definition on_shell (radius dx dy dz : Z) : Prop :=
  (- radius ≤ dx ≤ radius ∧ - radius ≤ dy ≤ radius ∧ - radius ≤ dz ≤ radius)%Z
  ∧ (Z.abs dx = radius ∨ Z.abs dy = radius ∨ Z.abs dz = radius).

(** The Euclidean length of an offset. *)
Definition offset_length (dx dy dz : Z) : R :=
  Math_sqrt (IZR (dx * dx + dy * dy + dz * dz)).

(** The candidates of a shell: the offsets of the three loops that are on
    the shell and lead to an empty cell of the grid, in loop order. *)
Definition shell_test (world : list Z) (tx ty tz radius : Z) (k : Z * Z * Z)
    : bool :=
  ((Z.abs k.1.1 =? radius)%Z || (Z.abs k.1.2 =? radius)%Z
   || (Z.abs k.2 =? radius)%Z)
  && empty_cell world (tx + k.1.1) (ty + k.1.2) (tz + k.2).

Definition shell_make (tx ty tz : Z) (k : Z * Z * Z) : Candidate :=
  mkCandidate ((tx + k.1.1)%Z, (ty + k.1.2)%Z, (tz + k.2)%Z)
    (offset_length k.1.1 k.1.2 k.2).

(** The cell [(x, y, z)] is the one that the settle search picks around
    the target [(tx, ty, tz)]: the target when it is an empty cell of the
    grid, otherwise an empty cell of the first shell (of radius 1 to 4)
    that has one, as near to the target as any empty cell of that shell. *)
Definition settle_choice (world : list Z) (tx ty tz x y z : Z) : Prop :=
  if empty_cell world tx ty tz then (x, y, z) = (tx, ty, tz)
  else
    ∃ radius dx dy dz,
      (1 ≤ radius ≤ 4)%Z
      ∧ (x, y, z) = ((tx + dx)%Z, (ty + dy)%Z, (tz + dz)%Z)
      ∧ on_shell radius dx dy dz
      ∧ (∀ r dx' dy' dz', (1 ≤ r < radius)%Z → on_shell r dx' dy' dz' →
           empty_cell world (tx + dx') (ty + dy') (tz + dz') = false)
      ∧ (∀ dx' dy' dz', on_shell radius dx' dy' dz' →
           empty_cell world (tx + dx') (ty + dy') (tz + dz') = true →
           offset_length dx dy dz <= offset_length dx' dy' dz').

(** The player [q] is the player [p] with its centre and all its body
    voxels moved by one and the same vector. *)
Definition moved_together (p q : Player) : Prop :=
  ∃ delta, centerPos q = vadd (centerPos p) delta
           ∧ bodyVoxels q = shift_voxels delta (bodyVoxels p).

(** The vector from the centre of a player to the mean of its body
    voxels: what the smoothing of the centre has still to cover. *)
Definition centerOffset (p : Player) : vec3 :=
  vsub (getCenterPosition p) (centerPos p).

(** One tick of [Player.updatePhysics] of Player.js, and [n] of them. *)
Definition playerTick (dt : R) (heights : list Z) (p : Player) : Player :=
  fst (PlayerJs.updatePhysics dt heights p).

Definition playerTicks (dt : R) (heights : list Z) (n : nat) (p : Player)
    : Player :=
  Nat.iter n (playerTick dt heights) p.

(** The state [(minTime, maxTime, collisionTime)] of the binary search of
    [findCollisionTime] after [n] rounds, for a positive [dt]: [minTime] is
    0 or a time at which the position is valid, [maxTime] is the collision
    time, and the bracket has been halved [n] times. *)
Definition bracket (sz : R) (w : list Z) (startPos velocity : vec3) (dt : R)
    (n : nat) (st : R * R * R) : Prop :=
  let '(minTime, maxTime, collisionTime) := st in
  0 <= minTime ∧ minTime < maxTime ∧ maxTime <= dt ∧ collisionTime = maxTime
  ∧ maxTime - minTime = dt / 2 ^ n
  ∧ (minTime = 0
     ∨ isPositionValid sz w (at_time startPos velocity minTime) = true).

(** What one round of the innermost loop of [createDestruction] does. *)
Inductive destroy_outcome (this : MovingVoxel) (xi yi zi : Z) (speed : R)
    (s : Server) (dx dy dz : Z) (s' : Server) : Prop :=
| destroy_none :
    world s' = world s → movingVoxels s' = movingVoxels s →
    destroy_outcome this xi yi zi speed s dx dy dz s'
| destroy_some (debris : MovingVoxel) :
    world s' = fst (setWorld (world s) (xi + dx) (yi + dy) (zi + dz) 0) →
    movingVoxels s' = movingVoxels s ++ [debris] →
    terrainNeedsRebuild s' = true →
    truthy (getWorld (world s) (xi + dx) (yi + dy) (zi + dz)) = true →
    Math_sqrt (IZR (dx * dx + dy * dy + dz * dz)) <= 3 →
    5 / 10 < Math_sqrt (IZR (dx * dx + dy * dy + dz * dz)) →
    random s (randomCalls s)
      < Math_max 0 (1 - Math_sqrt (IZR (dx * dx + dy * dy + dz * dz)) / 3)
        * (7 / 10) →
    isProjectile debris = false →
    isPlayerVoxel debris = false →
    size debris = VOXEL_SIZE →
    pos debris = V3 (IZR (xi + dx) + 5 / 10) (IZR (yi + dy) + 5 / 10)
                    (IZR (zi + dz) + 5 / 10) →
    vel debris = debrisVelocity this speed dx dy dz →
    destroy_outcome this xi yi zi speed s dx dy dz s'.











(** ** Concrete states used by the examples *)

Definition fresh_grid : VoxelWorld.t :=
  VoxelWorld.mk empty_world empty_heights false.

(** A debris voxel at rest at [p], and the same moving with velocity [u]. *)
Definition debris_at (p : vec3) : MovingVoxel :=
  newMovingVoxel 0 p (V3 0 0 0) false None false None.
Definition debris_moving (p u : vec3) : MovingVoxel :=
  set_vel u (debris_at p).

(** A grid with the single solid cell [(10, 10, 10)]. *)
Definition one_block_world : list Z := fst (setWorld empty_world 10 10 10 1).

(** A server around a grid, a player map and a list of moving voxels;
    every call of [Math.random()] gives [r]. *)
Definition server_of (w : list Z) (ps : PlayerMap) (l : list MovingVoxel)
    (r : R) : Server :=
  mkServer w empty_heights false ps l (λ _, r) 0.

(** The arrays of the examples are long: conversion opens the record
    around them before it looks into them. *)
Strategy expand [server_of world heights players movingVoxels].

(** A flat slab of terrain: the cells with [32 <= y < 48] are solid. *)
Definition slab_world : list Z :=
  (λ i, if (32 <=? (i / 128) mod 128)%Z && ((i / 128) mod 128 <? 48)%Z
        then 1%Z else 0%Z)
  <$> seqZ 0 (WORLD_SIZE * WORLD_SIZE * WORLD_SIZE).

(** A projectile of the player ["player_1"] at [p] with velocity [u]. *)
Definition projectile_moving (p u : vec3) : MovingVoxel :=
  set_vel u (newMovingVoxel 0 p (V3 0 0 0) true (Some "player_1"%string)
               false None).

(** A body voxel of the player ["player_1"] at [p]. *)
Definition body_voxel (p : vec3) : MovingVoxel :=
  newMovingVoxel 0 p (V3 0 0 0) false None true (Some "player_1"%string).

(** A grounded player who looks along the z axis and holds the forward
    key, one step before the column [(64, 65)]. *)
Definition walker : Player :=
  mkPlayer "player_1" (V3 (645 / 10) 64 (649 / 10)) 0 true 0 0
    (mkKeys true false false false)
    [body_voxel (V3 64 64 64); body_voxel (V3 65 64 65)].

(** A height cache of 16 everywhere, and 24 on the column [(64, 65)]. *)
Definition step_heights : list Z :=
  <[Z.to_nat (64 + 65 * 128) := 24%Z]> (replicate heights_length 16%Z).

(** An airborne player who has lost all its body voxels but one, ten
    cells below its centre. *)
Definition shot_player : Player :=
  mkPlayer "player_1" (V3 64 82 64) 0 false 0 0
    (mkKeys false false false false) [body_voxel (V3 64 72 64)].

(** A projectile of ["player_1"] in its tenth frame, at the end of a
    move along the z axis at the launch speed, and the player alone in the
    game. *)
Definition tenth_frame_projectile : MovingVoxel :=
  set_framesSinceLaunch 10 (projectile_moving (V3 64 72 64) (V3 0 0 80)).

Definition thrower_alone : PlayerMap := [("player_1"%string, shot_player)].


(** ** The settling step of a tick *)

(** [MovingVoxel.update] of server.js up to its last two lines: the voxel
    and the server at the moment [update] reaches
    [if (speed < SETTLE_SPEED_THRESHOLD || posChange < 0.05)], or [None]
    when [update] has returned before (no voxel of this index, a player
    voxel, or a player collision that ends the update). *)
Definition Monolith_beforeSettling (dt : R) (i : nat) (s : Server)
    : option (MovingVoxel * Server) :=
  match movingVoxels s !! i with
  | None => None
  | Some this =>
      if isPlayerVoxel this then None
      else
        let this1 :=
          if isProjectile this
          then set_framesSinceLaunch (framesSinceLaunch this + 1)%Z this
          else this in
        let '(this2, s2) := MonolithVoxel.updateMotion dt this1 s in
        let '(this3, l3) :=
          handleVoxelCollisions checkVoxelToVoxelCollision i this2
            (movingVoxels s2) in
        let s3 := set_movingVoxels l3 s2 in
        let '(returned, this4, s4) := MonolithVoxel.playerCollisions this3 s3 in
        if returned then None else Some (this4, s4)
  end.

(** The test of the last lines of [update]: the voxel attempts to settle. *)
Definition attemptsToSettle (this : MovingVoxel) : bool :=
  (norm (vel this) <? SETTLE_SPEED_THRESHOLD)
  || (dist (pos this) (lastPos this) <? 5 / 100).

(** A debris voxel at rest in the middle of the cell [(10, 10, 10)]. *)
Definition floating_debris : MovingVoxel :=
  debris_at (V3 (105 / 10) (105 / 10) (105 / 10)).

(** ** The debris of an impact at speed 30 *)

(** The velocity after the bounce of [handleCollision] on the axis [axis]:
    above 2 on the axis the component is reversed with the restitution
    and the other horizontal components are damped by the friction;
    otherwise the component is stopped. *)
Definition bounceVelocity (restitution friction : R) (v : vec3) (axis : Z)
    : vec3 :=
  if Math_abs (vget v axis) >? 2 then
    let v0 := vset v axis (vget v axis * - restitution) in
    fold_left
      (λ v i, if negb (i =? axis)%Z && negb (i =? 1)%Z
              then vset v i (vget v i * friction) else v)
      (seqZ 0 3) v0
  else vset v axis 0.

(** The resultant, up to a power of [a], of the quartic
    [f4 Q^4 + f3 Q^3 + f2 Q^2 + f1 Q + f0] and the quadratic
    [a Q^2 + b Q + c]: it is zero when the two have a common root. *)
Definition quartic_quadratic_resultant (f4 f3 f2 f1 f0 a b c : Z) : Z :=
  (let g3 := a * f3 - f4 * b in
   let g2 := a * f2 - f4 * c in
   let g1 := a * f1 in
   let g0 := a * f0 in
   let h2 := a * g2 - g3 * b in
   let h1 := a * g1 - g3 * c in
   let h0 := a * g0 in
   let l1 := a * h1 - h2 * b in
   let l0 := a * h0 - h2 * c in
   a * (l0 * l0) - b * (l0 * l1) + c * (l1 * l1))%Z.

(** The coefficients, from the highest, of the quartic in [Q = push / d]
    that vanishes when a voxel dislodged at an offset of squared length [m]
    and height [dy] is given the velocity zero (the law of the push,
    squared twice). *)
Definition zeroVelocityQuartic (m dy : Z) : Z * Z * Z * Z * Z :=
  (let t4 := m * m in
   let t3 := 32 * m * dy in
   let t2 := 256 * dy * dy + 128 * m in
   let t1 := 2048 * dy in
   let t0 := 4096 in
   let g2 := 64 * (9 + m) * m - 81 * m in
   let g1 := 1024 * (9 + m) * dy in
   let g0 := 4096 * (9 + m) in
   (147456 * m * t4 - g2 * g2,
    147456 * m * t3 - 2 * g1 * g2,
    147456 * m * t2 - (g1 * g1 + 2 * g0 * g2),
    147456 * m * t1 - 2 * g0 * g1,
    147456 * m * t0 - g0 * g0))%Z.

(** The coefficients, from the highest, of the quadratic in [Q] that
    vanishes when, besides, the impacting projectile had the speed 30
    before it bounced on the axis [axis]. *)
Definition speed30Quadratic (axis dx dy dz : Z) : Z * Z * Z :=
  (if axis =? 1
   then (25 * (dx * dx + dz * dz) + 100 * (dy * dy), 1600 * dy, 5104)
   else if axis =? 0
   then (100 * (dx * dx) + 16 * (dy * dy) + 25 * (dz * dz), 256 * dy, -272)
   else (25 * (dx * dx) + 16 * (dy * dy) + 100 * (dz * dz), 256 * dy, -272))%Z.

Definition zeroVelocityResultant (axis dx dy dz : Z) : Z :=
  let '(f4, f3, f2, f1, f0) :=
    zeroVelocityQuartic (dx * dx + dy * dy + dz * dz) dy in
  let '(a, b, c) := speed30Quadratic axis dx dy dz in
  quartic_quadratic_resultant f4 f3 f2 f1 f0 a b c.

(** What is checked, by computation, for the offsets of the loops of
    [createDestruction] that are in the sphere, whatever the axis: the
    resultant is not zero; [dy Q + 8 = 0] does not go with
    [80.64 <= (dx^2 + dz^2) Q^2 <= 81] (a bounce that stops the vertical
    velocity). *)
Definition zeroVelocityCheck (dx dy dz : Z) : bool :=
  (let m := dx * dx + dy * dy + dz * dz in
   (m <? 1) || (9 <? m)
   || (forallb (λ axis, negb (zeroVelocityResultant axis dx dy dz =? 0))
         [0; 1; 2]
       && negb ((8064 * (dy * dy) <=? 6400 * (dx * dx + dz * dz))
                && (6400 * (dx * dx + dz * dz) <=? 8100 * (dy * dy)))))%Z.

Definition zeroVelocityExcluded : bool :=
  forallb (λ k : Z * Z * Z, zeroVelocityCheck k.1.1 k.1.2 k.2) sphere_offsets.
(** ** MathUtils.js: the functions on plain arrays *)

(** [lerp3D] *)
Definition lerp3D (pos1 pos2 : vec3) (t : R) : vec3 :=
  V3 (vx pos1 + (vx pos2 - vx pos1) * t)
     (vy pos1 + (vy pos2 - vy pos1) * t)
     (vz pos1 + (vz pos2 - vz pos1) * t).

(** [distance3D] *)
Definition distance3D (pos1 pos2 : vec3) : R :=
  let dx := vx pos2 - vx pos1 in
  let dy := vy pos2 - vy pos1 in
  let dz := vz pos2 - vz pos1 in
  Math_sqrt (dx * dx + dy * dy + dz * dz).

(** A 4x4 matrix, a [Float32Array] of sixteen elements in column-major
    order: the element of index [i], for [i] from 0 to 15. *)
Definition mat4 : Type := nat → R.

(** A four-element array. *)
Record vec4 : Type := V4 { v4x : R; v4y : R; v4z : R; v4w : R }.

(** [transformVec4] *)
Definition transformVec4 (p : vec3) (viewMatrix projMatrix : mat4) : vec4 :=
  let viewPos :=
    V4 (viewMatrix 0%nat * vx p + viewMatrix 4%nat * vy p
        + viewMatrix 8%nat * vz p + viewMatrix 12%nat)
       (viewMatrix 1%nat * vx p + viewMatrix 5%nat * vy p
        + viewMatrix 9%nat * vz p + viewMatrix 13%nat)
       (viewMatrix 2%nat * vx p + viewMatrix 6%nat * vy p
        + viewMatrix 10%nat * vz p + viewMatrix 14%nat)
       (viewMatrix 3%nat * vx p + viewMatrix 7%nat * vy p
        + viewMatrix 11%nat * vz p + viewMatrix 15%nat) in
  V4 (projMatrix 0%nat * v4x viewPos + projMatrix 4%nat * v4y viewPos
      + projMatrix 8%nat * v4z viewPos + projMatrix 12%nat * v4w viewPos)
     (projMatrix 1%nat * v4x viewPos + projMatrix 5%nat * v4y viewPos
      + projMatrix 9%nat * v4z viewPos + projMatrix 13%nat * v4w viewPos)
     (projMatrix 2%nat * v4x viewPos + projMatrix 6%nat * v4y viewPos
      + projMatrix 10%nat * v4z viewPos + projMatrix 14%nat * v4w viewPos)
     (projMatrix 3%nat * v4x viewPos + projMatrix 7%nat * v4y viewPos
      + projMatrix 11%nat * v4z viewPos + projMatrix 15%nat * v4w viewPos).

(** [worldToScreen]; [None] is [null]. *)
Definition worldToScreen (worldPos : vec3) (viewMatrix projMatrix : mat4)
    (canvasWidth canvasHeight : R) : option (R * R) :=
  let clipPos := transformVec4 worldPos viewMatrix projMatrix in
  if v4w clipPos <=? 0 then None
  else
    let ndcX := v4x clipPos / v4w clipPos in
    let ndcY := v4y clipPos / v4w clipPos in
    if (ndcX <? -1) || (ndcX >? 1) || (ndcY <? -1) || (ndcY >? 1) then None
    else
      let screenX := (ndcX + 1) * (5 / 10) * canvasWidth in
      let screenY := (1 - ndcY) * (5 / 10) * canvasHeight in
      Some (screenX, screenY).

(** [createIdentityMatrix]: a fresh array is zero, and four elements are
    set to 1. *)
Definition createIdentityMatrix : mat4 :=
  λ i, if (i =? 0)%nat || (i =? 5)%nat || (i =? 10)%nat || (i =? 15)%nat
       then 1 else 0.

(** ** Player.js: the other methods of [Player] *)

(** [Player.jump]; server.js has the same method. *)
Definition jump (p : Player) : Player :=
  if grounded p then set_grounded false (set_velY JUMP_SPEED p) else p.

(** [Player.updateCamera] *)
Definition updateCamera (newYaw newPitch : R) (p : Player) : Player :=
  mkPlayer (pid p) (centerPos p) (velY p) (grounded p) newYaw newPitch
    (keys p) (bodyVoxels p).

(** [Player.updateKeys] *)
Definition updateKeys (newKeys : Keys) (p : Player) : Player :=
  mkPlayer (pid p) (centerPos p) (velY p) (grounded p) (yaw p) (pitch p)
    newKeys (bodyVoxels p).

(** [Player.removeVoxel]: the returned voxel ([None] is [null]) and the
    player after the call. *)
Definition removeVoxel (index : Z) (p : Player) : option MovingVoxel * Player :=
  if (index >=? 0)%Z && (index <? Z.of_nat (length (bodyVoxels p)))%Z
  then (bodyVoxels p !! Z.to_nat index,
        set_bodyVoxels (splice1 (Z.to_nat index) (bodyVoxels p)) p)
  else (None, p).

(** [Player.getVoxelCount] and [Player.isAlive] *)
Definition getVoxelCount (p : Player) : nat := length (bodyVoxels p).
Definition isAlive (p : Player) : bool := (0 <? length (bodyVoxels p))%nat.

(** A number or one of the two infinities that [getBounds] starts from. *)
Inductive xreal : Type :=
| NegInfinity
| Finite (r : R)
| PosInfinity.

(** [Math.min(a, r)] and [Math.max(a, r)] for a number [r]. *)
Definition xmin (a : xreal) (r : R) : xreal :=
  match a with
  | NegInfinity => NegInfinity
  | Finite a' => Finite (Math_min a' r)
  | PosInfinity => Finite r
  end.

Definition xmax (a : xreal) (r : R) : xreal :=
  match a with
  | NegInfinity => Finite r
  | Finite a' => Finite (Math_max a' r)
  | PosInfinity => PosInfinity
  end.

(** What [getBounds] returns. *)
Record Bounds : Type := mkBounds {
  minX : xreal; maxX : xreal;
  minY : xreal; maxY : xreal;
  minZ : xreal; maxZ : xreal
}.

(** [Player.getBounds] *)
Definition getBounds (p : Player) : Bounds :=
  match bodyVoxels p with
  | [] =>
      mkBounds (Finite (vx (centerPos p))) (Finite (vx (centerPos p)))
               (Finite (vy (centerPos p))) (Finite (vy (centerPos p)))
               (Finite (vz (centerPos p))) (Finite (vz (centerPos p)))
  | _ =>
      fold_left
        (λ b voxel,
           mkBounds (xmin (minX b) (vx (pos voxel)))
                    (xmax (maxX b) (vx (pos voxel)))
                    (xmin (minY b) (vy (pos voxel)))
                    (xmax (maxY b) (vy (pos voxel)))
                    (xmin (minZ b) (vz (pos voxel)))
                    (xmax (maxZ b) (vz (pos voxel))))
        (bodyVoxels p)
        (mkBounds PosInfinity NegInfinity PosInfinity NegInfinity
                  PosInfinity NegInfinity)
  end.

(** [Player.getVoxelPositions] *)
Definition getVoxelPositions (p : Player) : list vec3 :=
  map pos (bodyVoxels p).

(** The [patterns] of [createVoxelBody], in the order of the three
    loops. *)
Definition body_patterns : list (Z * Z * Z) :=
  list_prod (list_prod (seqZ (- HALF_W) (2 * HALF_W))
                       (seqZ (- HALF_H) (2 * HALF_H)))
            (seqZ (- HALF_W) (2 * HALF_W)).

(** [Player.createVoxelBody] for the player [playerId] centred at
    [center]; the voxel of index [k] takes the value [rnd k] of
    [Math.random()] for its id. *)
Definition createVoxelBody (rnd : nat → R) (playerId : string) (center : vec3)
    : list MovingVoxel :=
  imap
    (λ k (pattern : Z * Z * Z),
       let voxelPos :=
         V3 (vx center + IZR pattern.1.1) (vy center + IZR pattern.1.2)
            (vz center + IZR pattern.2) in
       newMovingVoxel (rnd k) voxelPos (V3 0 0 0) false None true
         (Some playerId))
    body_patterns.

(** [new Player(playerId)] *)
Definition newPlayer (rnd : nat → R) (playerId : string) : Player :=
  let base := (WORLD_SIZE / 4)%Z in
  let spawnY := (base + 50)%Z in
  let center := V3 (IZR WORLD_SIZE / 2) (IZR spawnY) (IZR WORLD_SIZE / 2) in
  mkPlayer playerId center 0 false 0 (3 / 10)
    (mkKeys false false false false)
    (createVoxelBody rnd playerId center).

(** ** The server: input and projectiles *)

(** [spawnProjectile]: the projectile starts [offset = 2.0] along [dir]
    from [pos]; its constructor takes one value of [Math.random()] for the
    id.  The counters of [debugInfo] are not modelled. *)
Definition spawnProjectile (p dir : vec3) (throwerId : option string)
    (s : Server) : Server :=
  let offset := 2 in
  let spawnPos := V3 (vx p + vx dir * offset) (vy p + vy dir * offset)
                     (vz p + vz dir * offset) in
  let '(rnd, s1) := Math_random s in
  let projectile := newMovingVoxel rnd spawnPos dir true throwerId false None in
  set_movingVoxels (movingVoxels s1 ++ [projectile]) s1.

(** ** game/VoxelWorld.js: the other methods of [VoxelWorld] *)

(** [Math.ceil] *)
Definition Math_ceil (r : R) : Z := (- Math_floor (- r))%Z.

(** The values of [for (let x = minX; x <= maxX; x++)]. *)
Definition from_to (minX maxX : Z) : list Z := seqZ minX (maxX - minX + 1).

(** [VoxelWorld.getSurfaceLevel] *)
Definition getSurfaceLevel (w : VoxelWorld.t) (x z : Z) : Z :=
  if ((x <? 0) || (x >=? WORLD_SIZE) || (z <? 0) || (z >=? WORLD_SIZE))%Z
  then 0%Z
  else
    match List.find (λ y, truthy (VoxelWorld.getWorld w x y z))
                    (rev (seqZ 0 WORLD_SIZE)) with
    | Some y => y
    | None => 0%Z
    end.

(** [VoxelWorld.isRegionEmpty] *)
Definition isRegionEmpty (w : VoxelWorld.t) (minX minY minZ maxX maxY maxZ : Z)
    : bool :=
  forallb
    (λ x,
       forallb
         (λ y,
            forallb (λ z, negb (truthy (VoxelWorld.getWorld w x y z)))
                    (from_to minZ maxZ))
         (from_to minY maxY))
    (from_to minX maxX).

(** The body of the loops of [fillRegion] and [createSphere]:
    [if (this.setWorld(x, y, z, value)) blocksChanged++]. *)
Definition set_and_count (value : Z) (st : VoxelWorld.t * Z) (x y z : Z)
    : VoxelWorld.t * Z :=
  let r := VoxelWorld.setWorld (fst st) x y z value in
  if snd r then (fst r, (snd st + 1)%Z) else (fst r, snd st).

(** The end of both: [if (blocksChanged > 0) this.terrainNeedsRebuild =
    true; return blocksChanged]. *)
Definition flag_changes (st : VoxelWorld.t * Z) : VoxelWorld.t * Z :=
  ((if (snd st >? 0)%Z
    then VoxelWorld.mk (VoxelWorld.world (fst st))
           (VoxelWorld.heights (fst st)) true
    else fst st),
   snd st).

(** [VoxelWorld.fillRegion]: the world after the call and the returned
    count. *)
Definition fillRegion (w : VoxelWorld.t) (minX minY minZ maxX maxY maxZ : Z)
    (value : Z) : VoxelWorld.t * Z :=
  flag_changes
    (fold_left
       (λ st x,
          fold_left
            (λ st y,
               fold_left (λ st z, set_and_count value st x y z)
                         (from_to minZ maxZ) st)
            (from_to minY maxY) st)
       (from_to minX maxX) (w, 0%Z)).

(** [VoxelWorld.createSphere] *)
Definition createSphere (w : VoxelWorld.t) (centerX centerY centerZ radius : R)
    (value : Z) : VoxelWorld.t * Z :=
  let radiusSquared := radius * radius in
  flag_changes
    (fold_left
       (λ st x,
          fold_left
            (λ st y,
               fold_left
                 (λ st z,
                    let dx := IZR x - centerX in
                    let dy := IZR y - centerY in
                    let dz := IZR z - centerZ in
                    let distanceSquared := dx * dx + dy * dy + dz * dz in
                    if distanceSquared <=? radiusSquared
                    then set_and_count value st x y z
                    else st)
                 (from_to (Math_floor (centerZ - radius))
                          (Math_ceil (centerZ + radius))) st)
            (from_to (Math_floor (centerY - radius))
                     (Math_ceil (centerY + radius))) st)
       (from_to (Math_floor (centerX - radius))
                (Math_ceil (centerX + radius))) (w, 0%Z)).

(** What [exportWorld] returns; [generatedAt] is [Date.now()]. *)
Record WorldData : Type := mkWorldData {
  wd_world : list Z;
  wd_heights : list Z;
  wd_worldSize : Z;
  wd_generatedAt : Z
}.

(** [VoxelWorld.exportWorld] *)
Definition exportWorld (now : Z) (w : VoxelWorld.t) : WorldData :=
  mkWorldData (VoxelWorld.world w) (VoxelWorld.heights w) WORLD_SIZE now.

(** [VoxelWorld.importWorld]: [None] when the call throws, with the world
    left as it was.  [new Uint8Array(array)] converts every element. *)
Definition importWorld (worldData : WorldData) (w : VoxelWorld.t)
    : option VoxelWorld.t :=
  if negb (wd_worldSize worldData =? WORLD_SIZE)%Z then None
  else Some (VoxelWorld.mk (map ToUint8 (wd_world worldData))
                           (map ToInt32 (wd_heights worldData)) true).

(** [VoxelWorld.clearWorld] *)
Definition clearWorld (w : VoxelWorld.t) : VoxelWorld.t :=
  VoxelWorld.mk (replicate (length (VoxelWorld.world w)) 0%Z)
                (replicate (length (VoxelWorld.heights w)) 0%Z) true.

(** What [getWorldStats] returns, but for [solidPercentage], a string. *)
Record WorldStats : Type := mkWorldStats {
  totalBlocks : Z;
  solidBlocks : Z;
  emptyBlocks : Z;
  stats_worldSize : Z;
  stats_terrainNeedsRebuild : bool
}.

(** [VoxelWorld.getWorldStats] *)
Definition getWorldStats (w : VoxelWorld.t) : WorldStats :=
  let counts :=
    fold_left
      (λ (c : Z * Z) v,
         if negb (v =? 0)%Z then ((c.1 + 1)%Z, c.2) else (c.1, (c.2 + 1)%Z))
      (VoxelWorld.world w) (0%Z, 0%Z) in
  mkWorldStats (Z.of_nat (length (VoxelWorld.world w))) counts.1 counts.2
    WORLD_SIZE (VoxelWorld.terrainNeedsRebuild w).

(** The cells of a box, in the order of the three loops, and the test
    that [setWorld] answers for a cell: the cell is in the grid and its
    value is not [value]. *)
Definition box_cells (minX minY minZ maxX maxY maxZ : Z) : list (Z * Z * Z) :=
  list_prod (list_prod (from_to minX maxX) (from_to minY maxY))
            (from_to minZ maxZ).

Definition cell_differs (world : list Z) (value : Z) (k : Z * Z * Z) : bool :=
  snd (setWorld world k.1.1 k.1.2 k.2 value).

(** The test of [createSphere] on a cell. *)
Definition in_ball (centerX centerY centerZ radius : R) (k : Z * Z * Z)
    : bool :=
  let dx := IZR k.1.1 - centerX in
  let dy := IZR k.1.2 - centerY in
  let dz := IZR k.2 - centerZ in
  dx * dx + dy * dy + dz * dz <=? radius * radius.

(** ** server.js: the world of the server and its height map *)

(** The body of the two outer loops of [initializeWorld] for the column
    [(x, z)]. *)
Definition initialize_column (s : Server) (x z : Z) : Server :=
  let base := Math_floor (IZR WORLD_SIZE / 4) in
  let '(r, s1) := Math_random s in
  let t := (16 + Math_floor ((r - 5 / 10) * 4))%Z in
  let s2 :=
    fold_left (λ s y, set_world (fst (setWorld (world s) x y z 1)) s)
              (seqZ base (Z.max 1 t)) s1 in
  set_heights
    (ta_set ToInt32 (heights s2) (x + z * WORLD_SIZE)
       (columnCount (world s2) x z)) s2.

(** [MultiplayerVoxelServer.initializeWorld] *)
Definition initializeWorld (s : Server) : Server :=
  let s0 := set_heights empty_heights (set_world empty_world s) in
  set_terrainNeedsRebuild false
    (fold_left
       (λ s x, fold_left (λ s z, initialize_column s x z)
                         (seqZ 0 WORLD_SIZE) s)
       (seqZ 0 WORLD_SIZE) s0).

(** The height map holds, for every column, the number of its solid
    cells. *)
Definition heights_agree (s : Server) : Prop :=
  ∀ x z, (0 ≤ x < 128)%Z → (0 ≤ z < 128)%Z →
         ta_get (heights s) (x + z * 128) = JNum (solidCount (world s) x z).

(** What a step of the tick may do to the terrain: it leaves the height
    map, it never lowers the rebuild flag, and it leaves the world unless
    it raises the flag. *)
Definition terrain_frame (s s' : Server) : Prop :=
  heights s' = heights s
  ∧ (terrainNeedsRebuild s = true → terrainNeedsRebuild s' = true)
  ∧ (world s' = world s ∨ terrainNeedsRebuild s' = true).

(** ** game/VoxelWorld.js: the constructor and [generateWorld] *)

(** The body of the two outer loops of [generateWorld] for the column
    [(x, z)]; the values of [Math.random()] are the stream [rnd], of which
    the second component of the state counts those taken. *)
Definition generate_column (rnd : nat → R) (st : VoxelWorld.t * nat)
    (x z : Z) : VoxelWorld.t * nat :=
  let base := Math_floor (IZR WORLD_SIZE / 4) in
  let terrainHeight := (16 + Math_floor ((rnd st.2 - 5 / 10) * 4))%Z in
  let w1 :=
    fold_left (λ w y, (VoxelWorld.setWorld w x y z 1).1)
              (seqZ base (Z.max 1 terrainHeight)) st.1 in
  let totalHeight :=
    fold_left
      (λ totalHeight y,
         if truthy (VoxelWorld.getWorld w1 x y z) then (totalHeight + 1)%Z
         else totalHeight)
      (seqZ 0 WORLD_SIZE) 0%Z in
  (VoxelWorld.mk (VoxelWorld.world w1)
     (ta_set ToInt32 (VoxelWorld.heights w1) (x + z * WORLD_SIZE) totalHeight)
     (VoxelWorld.terrainNeedsRebuild w1),
   S st.2).

(** [VoxelWorld.generateWorld] *)
Definition generateWorld (rnd : nat → R) (st : VoxelWorld.t * nat)
    : VoxelWorld.t * nat :=
  fold_left
    (λ st x, fold_left (λ st z, generate_column rnd st x z)
                       (seqZ 0 WORLD_SIZE) st)
    (seqZ 0 WORLD_SIZE) st.

(** [new VoxelWorld()], when [n] values of the stream have been taken. *)
Definition newVoxelWorld (rnd : nat → R) (n : nat) : VoxelWorld.t * nat :=
  generateWorld rnd (VoxelWorld.mk empty_world empty_heights false, n).

(** [VoxelWorld.findSafeSpawnPosition]: the attempts that are left, then
    the whole method.  A coordinate that is not preferred is drawn from the
    stream. *)
Fixpoint spawn_attempts (attempts : nat) (preferredX preferredZ : option Z)
    (rnd : nat → R) (n : nat) (w : VoxelWorld.t)
    : option (Z * Z * Z) * nat :=
  match attempts with
  | O => (None, n)
  | S attempts' =>
      let '(x, n1) :=
        match preferredX with
        | Some x => (x, n)
        | None => (Math_floor (rnd n * IZR WORLD_SIZE), S n)
        end in
      let '(z, n2) :=
        match preferredZ with
        | Some z => (z, n1)
        | None => (Math_floor (rnd n1 * IZR WORLD_SIZE), S n1)
        end in
      let surfaceY := getSurfaceLevel w x z in
      let spawnY := (surfaceY + 10)%Z in
      if isRegionEmpty w (x - 10) spawnY (z - 10) (x + 10) (spawnY + 40)
                       (z + 10)
      then (Some (x, spawnY, z), n2)
      else spawn_attempts attempts' preferredX preferredZ rnd n2 w
  end.

Definition findSafeSpawnPosition (preferredX preferredZ : option Z)
    (rnd : nat → R) (n : nat) (w : VoxelWorld.t) : (Z * Z * Z) * nat :=
  match spawn_attempts 100 preferredX preferredZ rnd n w with
  | (Some p, n') => (p, n')
  | (None, n') =>
      let centerX := (WORLD_SIZE / 2)%Z in
      let centerZ := (WORLD_SIZE / 2)%Z in
      let centerSurfaceY := getSurfaceLevel w centerX centerZ in
      ((centerX, (centerSurfaceY + 50)%Z, centerZ), n')
  end.

(** The coordinate that an attempt of [findSafeSpawnPosition] takes, and
    the number of values of the stream taken after it. *)
Definition spawn_coordinate (preferred : option Z) (rnd : nat → R) (n : nat)
    : Z * nat :=
  match preferred with
  | Some x => (x, n)
  | None => (Math_floor (rnd n * IZR WORLD_SIZE), S n)
  end.

(** The box that [findSafeSpawnPosition] wants empty above [(x, z)]. *)
Definition spawn_box_empty (w : VoxelWorld.t) (x spawnY z : Z) : bool :=
  isRegionEmpty w (x - 10) spawnY (z - 10) (x + 10) (spawnY + 40) (z + 10).

(* ================================================================== *)
(** * Properties *)
(* ================================================================== *)

Open Scope Z_scope.

(** ** Typed arrays and the index of a cell *)

Lemma out_of_bounds_false (x y z : Z) :
  out_of_bounds x y z = false ↔
  (0 ≤ x < WORLD_SIZE ∧ 0 ≤ y < WORLD_SIZE ∧ 0 ≤ z < WORLD_SIZE).
Proof.
  unfold out_of_bounds. rewrite !orb_false_iff. lia.
Qed.

Lemma world_index_range (x y z : Z) :
  out_of_bounds x y z = false →
  0 ≤ world_index x y z < WORLD_SIZE * WORLD_SIZE * WORLD_SIZE.
Proof.
  rewrite out_of_bounds_false. unfold world_index, WORLD_SIZE. lia.
Qed.

Lemma world_index_inj (x y z x' y' z' : Z) :
  out_of_bounds x y z = false → out_of_bounds x' y' z' = false →
  world_index x y z = world_index x' y' z' → x = x' ∧ y = y' ∧ z = z'.
Proof.
  rewrite !out_of_bounds_false. unfold world_index, WORLD_SIZE. lia.
Qed.

Lemma ta_get_set_eq (conv : Z → Z) (a : list Z) (i v : Z) :
  0 ≤ i < Z.of_nat (length a) →
  ta_get (ta_set conv a i v) i = JNum (conv v).
Proof.
  intros Hi. unfold ta_get, ta_set.
  destruct (i <? 0) eqn:E; [lia|].
  rewrite list_lookup_insert_eq by lia. done.
Qed.

Lemma ta_get_set_ne (conv : Z → Z) (a : list Z) (i j v : Z) :
  i ≠ j → ta_get (ta_set conv a i v) j = ta_get a j.
Proof.
  intros Hij. unfold ta_get, ta_set.
  destruct (j <? 0) eqn:Ej; [done|].
  destruct (i <? 0) eqn:Ei; [done|].
  rewrite list_lookup_insert_ne by lia. done.
Qed.

Lemma ta_set_length (conv : Z → Z) (a : list Z) (i v : Z) :
  length (ta_set conv a i v) = length a.
Proof.
  unfold ta_set. destruct (i <? 0); [done|]. by rewrite length_insert.
Qed.

Lemma ta_get_in_range (a : list Z) (i : Z) :
  0 ≤ i < Z.of_nat (length a) → ∃ v, ta_get a i = JNum v.
Proof.
  intros Hi. unfold ta_get. destruct (i <? 0) eqn:E; [lia|].
  destruct (lookup_lt_is_Some_2 a (Z.to_nat i)) as [v Hv]; [lia|].
  rewrite Hv. by exists v.
Qed.

Lemma strict_neq_true (a b : jsval) : strict_neq a b = true ↔ a ≠ b.
Proof.
  destruct a as [m|], b as [n|]; simpl.
  - rewrite negb_true_iff, Z.eqb_neq. split; congruence.
  - split; done.
  - split; done.
  - split; [done|]. intros H; by destruct H.
Qed.

Lemma ToInt32_small (v : Z) : 0 ≤ v < 2 ^ 31 → ToInt32 v = v.
Proof.
  intros Hv. unfold ToInt32. rewrite Z.mod_small; lia.
Qed.

(** ** The grid accessors *)


Lemma out_of_bounds_InGrid (x y z : Z) :
  out_of_bounds x y z = false ↔ InGrid x y z.
Proof. apply out_of_bounds_false. Qed.

Lemma out_of_bounds_not_InGrid (x y z : Z) :
  out_of_bounds x y z = true ↔ ¬ InGrid x y z.
Proof.
  rewrite <- out_of_bounds_InGrid. destruct (out_of_bounds x y z); split; congruence.
Qed.

Lemma getWorld_out (world : list Z) (x y z : Z) :
  ¬ InGrid x y z → getWorld world x y z = JNum 0.
Proof.
  intros H%out_of_bounds_not_InGrid. unfold getWorld. by rewrite H.
Qed.

Lemma setWorld_out (world : list Z) (x y z v : Z) :
  ¬ InGrid x y z → setWorld world x y z v = (world, false).
Proof.
  intros H%out_of_bounds_not_InGrid. unfold setWorld. by rewrite H.
Qed.

Lemma setWorld_world (world : list Z) (x y z v : Z) :
  InGrid x y z →
  fst (setWorld world x y z v) = ta_set ToUint8 world (world_index x y z) v.
Proof.
  intros H%out_of_bounds_InGrid. unfold setWorld. by rewrite H.
Qed.

Lemma setWorld_length (world : list Z) (x y z v : Z) :
  length (fst (setWorld world x y z v)) = length world.
Proof.
  unfold setWorld. destruct (out_of_bounds x y z); simpl; [done|].
  apply ta_set_length.
Qed.

Lemma getWorld_setWorld_other (world : list Z) (x y z v x' y' z' : Z) :
  (x', y', z') ≠ (x, y, z) →
  getWorld (fst (setWorld world x y z v)) x' y' z' = getWorld world x' y' z'.
Proof.
  intros Hne. unfold setWorld.
  destruct (out_of_bounds x y z) eqn:Hb; simpl; [done|].
  unfold getWorld. destruct (out_of_bounds x' y' z') eqn:Hb'; [done|].
  apply ta_get_set_ne. intros Heq.
  destruct (world_index_inj _ _ _ _ _ _ Hb Hb' Heq) as (-> & -> & ->).
  by apply Hne.
Qed.

Lemma getWorld_setWorld_same (world : list Z) (x y z v : Z) :
  InGrid x y z → length world = world_length →
  getWorld (fst (setWorld world x y z v)) x y z = JNum (ToUint8 v).
Proof.
  intros Hin Hlen. rewrite setWorld_world by done.
  apply out_of_bounds_InGrid in Hin as Hb.
  unfold getWorld. rewrite Hb. apply ta_get_set_eq.
  pose proof (world_index_range _ _ _ Hb) as Hr.
  rewrite Hlen. unfold world_length. lia.
Qed.

Lemma setWorld_changed (world : list Z) (x y z v : Z) :
  InGrid x y z → length world = world_length → 0 ≤ v < 256 →
  snd (setWorld world x y z v) = true ↔
  getWorld (fst (setWorld world x y z v)) x y z ≠ getWorld world x y z.
Proof.
  intros Hin Hlen Hv.
  rewrite getWorld_setWorld_same by done.
  apply out_of_bounds_InGrid in Hin as Hb.
  unfold setWorld, getWorld. rewrite Hb. simpl.
  rewrite strict_neq_true. unfold ToUint8. rewrite Z.mod_small by lia.
  split; intros H1 H2; apply H1; congruence.
Qed.

Lemma VoxelWorld_setWorld_monolith (w : VoxelWorld.t) (x y z v : Z) :
  VoxelWorld.world (fst (VoxelWorld.setWorld w x y z v))
    = fst (setWorld (VoxelWorld.world w) x y z v)
  ∧ VoxelWorld.heights (fst (VoxelWorld.setWorld w x y z v))
    = VoxelWorld.heights w
  ∧ snd (VoxelWorld.setWorld w x y z v)
    = snd (setWorld (VoxelWorld.world w) x y z v)
  ∧ VoxelWorld.terrainNeedsRebuild (fst (VoxelWorld.setWorld w x y z v))
    = snd (setWorld (VoxelWorld.world w) x y z v)
      || VoxelWorld.terrainNeedsRebuild w.
Proof.
  unfold VoxelWorld.setWorld, setWorld.
  destruct (out_of_bounds x y z); simpl; [done|].
  destruct (strict_neq _ _); simpl; done.
Qed.

Lemma VoxelWorld_getWorld_monolith (w : VoxelWorld.t) (x y z : Z) :
  VoxelWorld.getWorld w x y z = getWorld (VoxelWorld.world w) x y z.
Proof. done. Qed.

(** C1. Grid bounds.  Outside [[0,128)^3] a read gives 0 (the function is
    total: nothing is thrown) and a write returns [false] and leaves the
    grid as it is.  Inside, for a grid of the allocated size and a value of
    the cell type, the write returns [true] exactly when the stored value
    changes and no cell other than [(x,y,z)] changes.  Both [setWorld] of
    server.js and [VoxelWorld.setWorld] behave so. *)
Theorem grid_bounds_contract (w : VoxelWorld.t) (x y z v : Z) :
  (¬ InGrid x y z →
     getWorld (VoxelWorld.world w) x y z = JNum 0
     ∧ setWorld (VoxelWorld.world w) x y z v = (VoxelWorld.world w, false)
     ∧ VoxelWorld.getWorld w x y z = JNum 0
     ∧ VoxelWorld.setWorld w x y z v = (w, false))
  ∧ (InGrid x y z → length (VoxelWorld.world w) = world_length →
     0 ≤ v < 256 →
     let world := VoxelWorld.world w in
     let world' := fst (setWorld world x y z v) in
     let w' := fst (VoxelWorld.setWorld w x y z v) in
     (snd (setWorld world x y z v) = true ↔
        getWorld world' x y z ≠ getWorld world x y z)
     ∧ (∀ x' y' z', (x', y', z') ≠ (x, y, z) →
        getWorld world' x' y' z' = getWorld world x' y' z')
     ∧ (snd (VoxelWorld.setWorld w x y z v) = true ↔
        VoxelWorld.getWorld w' x y z ≠ VoxelWorld.getWorld w x y z)
     ∧ (∀ x' y' z', (x', y', z') ≠ (x, y, z) →
        VoxelWorld.getWorld w' x' y' z' = VoxelWorld.getWorld w x' y' z')).
Proof.
  split.
  - intros Hout. split; [by apply getWorld_out|].
    split; [by apply setWorld_out|].
    apply out_of_bounds_not_InGrid in Hout.
    unfold VoxelWorld.getWorld, VoxelWorld.setWorld. by rewrite Hout.
  - intros Hin Hlen Hv. cbv zeta.
    destruct (VoxelWorld_setWorld_monolith w x y z v) as (Hw & _ & Hs & _).
    rewrite !VoxelWorld_getWorld_monolith, Hw, Hs.
    split; [by apply setWorld_changed|].
    split; [intros; by apply getWorld_setWorld_other|].
    split; [by apply setWorld_changed|].
    intros. rewrite !VoxelWorld_getWorld_monolith, Hw.
    by apply getWorld_setWorld_other.
Qed.

Lemma grid_bounds_contract_witness :
  (getWorld (VoxelWorld.world fresh_grid) (-1) 0 200 = JNum 0
   ∧ setWorld (VoxelWorld.world fresh_grid) (-1) 0 200 1
     = (VoxelWorld.world fresh_grid, false))
  ∧ (snd (setWorld (VoxelWorld.world fresh_grid) 3 4 5 1) = true ↔
     getWorld (fst (setWorld (VoxelWorld.world fresh_grid) 3 4 5 1)) 3 4 5
       ≠ getWorld (VoxelWorld.world fresh_grid) 3 4 5).
Proof.
  split.
  - destruct (proj1 (grid_bounds_contract fresh_grid (-1) 0 200 1))
      as (H1 & H2 & _).
    + unfold InGrid. lia.
    + split; [exact H1 | exact H2].
  - destruct (proj2 (grid_bounds_contract fresh_grid 3 4 5 1)) as (H1 & _).
    + unfold InGrid. lia.
    + apply length_replicate.
    + lia.
    + exact H1.
Defined.

(** ** The height cache *)

Lemma count_loop_filter (p : Z → bool) (l : list Z) (a : Z) :
  fold_left (λ h y, if p y then h + 1 else h) l a
  = a + Z.of_nat (length (filter (λ y, p y = true) l)).
Proof.
  revert a. induction l as [|y l IH]; intros a; simpl.
  - lia.
  - rewrite IH, filter_cons. destruct (p y) eqn:E.
    + rewrite decide_True by done. simpl. lia.
    + rewrite decide_False by congruence. lia.
Qed.

Lemma columnCount_solidCount (world : list Z) (x z : Z) :
  columnCount world x z = solidCount world x z.
Proof.
  unfold columnCount, solidCount.
  by rewrite (count_loop_filter (λ y, truthy (getWorld world x y z))).
Qed.

Lemma solidCount_range (world : list Z) (x z : Z) :
  0 ≤ solidCount world x z ≤ 128.
Proof.
  unfold solidCount.
  pose proof (length_filter (λ y, truthy (getWorld world x y z) = true)
                (seqZ 0 WORLD_SIZE)) as H.
  rewrite length_seqZ in H. unfold WORLD_SIZE in *. lia.
Qed.

Section FoldWrites.

Context {K : Type} `{EqDecision K}.
Variables (conv : Z → Z) (f g : K → Z).


Lemma write_all_length (ks : list K) (hs : list Z) :
  length (write_all conv f g ks hs) = length hs.
Proof.
  revert hs. induction ks as [|k ks IH]; intros hs; simpl; [done|].
  unfold write_all in *. simpl. by rewrite IH, ta_set_length.
Qed.

Lemma write_all_other (ks : list K) (hs : list Z) (i : Z) :
  (∀ k, k ∈ ks → f k ≠ i) →
  ta_get (write_all conv f g ks hs) i = ta_get hs i.
Proof.
  revert hs. induction ks as [|k ks IH]; intros hs Hne; [done|].
  unfold write_all in *. simpl. rewrite IH.
  - apply ta_get_set_ne, Hne. by left.
  - intros k' Hk'. apply Hne. by right.
Qed.

Lemma write_all_at (ks : list K) (hs : list Z) (k0 : K) :
  k0 ∈ ks →
  (∀ k, k ∈ ks → f k = f k0 → k = k0) →
  0 ≤ f k0 < Z.of_nat (length hs) →
  ta_get (write_all conv f g ks hs) (f k0) = JNum (conv (g k0)).
Proof.
  revert hs. induction ks as [|k ks IH]; intros hs Hin Hinj Hr.
  - by apply elem_of_nil in Hin.
  - change (write_all conv f g (k :: ks) hs)
      with (write_all conv f g ks (ta_set conv hs (f k) (g k))).
    destruct (decide (k0 ∈ ks)) as [Hin'|Hnin].
    + apply IH; [done| |by rewrite ta_set_length].
      intros k' Hk'. apply Hinj. by right.
    + apply elem_of_cons in Hin as [->|Hin]; [|done].
      rewrite write_all_other.
      * by apply ta_get_set_eq.
      * intros k' Hk' Heq. apply Hnin.
        rewrite <- (Hinj k'); [done|by right|done].
Qed.

End FoldWrites.

Lemma nested_loops_flatten {A B C : Type} (F : A → B → C → A)
    (xs : list B) (zs : list C) (a : A) :
  fold_left (λ a x, fold_left (λ a z, F a x z) zs a) xs a
  = fold_left (λ a k, F a k.1 k.2) (list_prod xs zs) a.
Proof.
  revert a. induction xs as [|x xs IH]; intros a; simpl; [done|].
  rewrite fold_left_app, <- IH. f_equal.
  generalize a. clear. induction zs as [|z zs IHz]; intros a; simpl; [done|].
  by rewrite IHz.
Qed.

Lemma rebuildTerrain_flat (world heights : list Z) :
  rebuildTerrain world heights
  = write_all ToInt32 (λ k, k.1 + k.2 * WORLD_SIZE)
      (λ k, columnCount world k.1 k.2)
      (list_prod (seqZ 0 WORLD_SIZE) (seqZ 0 WORLD_SIZE)) heights.
Proof.
  unfold rebuildTerrain, write_all.
  by rewrite (nested_loops_flatten
                (λ hs x z, ta_set ToInt32 hs (x + z * WORLD_SIZE)
                             (columnCount world x z))).
Qed.

Lemma rebuildTerrain_column (world heights : list Z) (x z : Z) :
  length heights = heights_length →
  0 ≤ x < 128 → 0 ≤ z < 128 →
  ta_get (rebuildTerrain world heights) (x + z * 128)
  = JNum (solidCount world x z).
Proof.
  intros Hlen Hx Hz. rewrite rebuildTerrain_flat.
  change (x + z * 128)
    with ((λ k : Z * Z, k.1 + k.2 * WORLD_SIZE) (x, z)).
  rewrite write_all_at.
  - cbn [fst snd]. rewrite columnCount_solidCount, ToInt32_small; [done|].
    pose proof (solidCount_range world x z). lia.
  - apply list_elem_of_In, in_prod; apply list_elem_of_In, elem_of_seqZ;
      unfold WORLD_SIZE; lia.
  - intros [x' z'] Hin%list_elem_of_In Heq. cbn [fst snd] in Heq.
    apply in_prod_iff in Hin as [Hx'%list_elem_of_In Hz'%list_elem_of_In].
    apply elem_of_seqZ in Hx', Hz'. unfold WORLD_SIZE in *. f_equal; lia.
  - cbn [fst snd]. rewrite Hlen. unfold heights_length, WORLD_SIZE. lia.
Qed.

Lemma fold_left_pointwise {A B : Type} (f g : A → B → A) (l : list B) (a : A) :
  (∀ a b, f a b = g a b) → fold_left f l a = fold_left g l a.
Proof.
  intros Hfg. revert a. induction l as [|b l IH]; intros a; simpl; [done|].
  by rewrite Hfg, IH.
Qed.

Lemma rebuildHeightMap_monolith (w : VoxelWorld.t) :
  VoxelWorld.heights (VoxelWorld.rebuildHeightMap w)
  = rebuildTerrain (VoxelWorld.world w) (VoxelWorld.heights w).
Proof.
  unfold VoxelWorld.rebuildHeightMap, rebuildTerrain, columnCount.
  cbn [VoxelWorld.heights].
  generalize (seqZ 0 WORLD_SIZE). intros l.
  apply fold_left_pointwise. intros hs x.
  apply fold_left_pointwise. intros hs' z.
  f_equal.
Qed.

(** C2. Height invariant.  Right after [rebuildTerrain] (server.js) or
    [rebuildHeightMap] (VoxelWorld.js) has run on a height cache of the
    allocated size, the cached value [heights[x + z*128]] of every column
    [(x,z)] of [[0,128)^2] is the number of [y] in [[0,128)] whose cell
    [(x,y,z)] is solid. *)
Theorem rebuild_heights_counts_solid (w : VoxelWorld.t) (x z : Z) :
  length (VoxelWorld.heights w) = heights_length →
  0 ≤ x < 128 → 0 ≤ z < 128 →
  ta_get (rebuildTerrain (VoxelWorld.world w) (VoxelWorld.heights w))
         (x + z * 128)
    = JNum (solidCount (VoxelWorld.world w) x z)
  ∧ VoxelWorld.getHeight (VoxelWorld.rebuildHeightMap w) x z
    = JNum (solidCount (VoxelWorld.world w) x z)
  ∧ VoxelWorld.world (VoxelWorld.rebuildHeightMap w) = VoxelWorld.world w.
Proof.
  intros Hlen Hx Hz. split; [by apply rebuildTerrain_column|].
  split; [|reflexivity].
  unfold VoxelWorld.getHeight.
  replace ((x <? 0) || (x >=? WORLD_SIZE) || (z <? 0) || (z >=? WORLD_SIZE))
    with false by (unfold WORLD_SIZE; symmetry; rewrite !orb_false_iff; lia).
  rewrite rebuildHeightMap_monolith. by apply rebuildTerrain_column.
Qed.

Lemma rebuild_heights_counts_solid_witness :
  ta_get (rebuildTerrain (VoxelWorld.world fresh_grid)
            (VoxelWorld.heights fresh_grid)) (7 + 9 * 128)
    = JNum (solidCount (VoxelWorld.world fresh_grid) 7 9)
  ∧ VoxelWorld.getHeight (VoxelWorld.rebuildHeightMap fresh_grid) 7 9
    = JNum (solidCount (VoxelWorld.world fresh_grid) 7 9)
  ∧ VoxelWorld.world (VoxelWorld.rebuildHeightMap fresh_grid)
    = VoxelWorld.world fresh_grid.
Proof.
  apply (rebuild_heights_counts_solid fresh_grid 7 9).
  - apply length_replicate.
  - lia.
  - lia.
Defined.

(** ** Voxel against voxel *)

Open Scope R_scope.

Lemma Rltb_true (x y : R) : (x <? y) = true ↔ x < y.
Proof. unfold Rltb. destruct (Rlt_dec x y); split; (done || congruence). Qed.

Lemma Rltb_false (x y : R) : (x <? y) = false ↔ y <= x.
Proof.
  unfold Rltb. destruct (Rlt_dec x y); split; try (done || congruence); lra.
Qed.

Lemma Rleb_true (x y : R) : (x <=? y) = true ↔ x <= y.
Proof. unfold Rleb. destruct (Rle_dec x y); split; (done || congruence). Qed.

Lemma Rleb_false (x y : R) : (x <=? y) = false ↔ y < x.
Proof.
  unfold Rleb. destruct (Rle_dec x y); split; try (done || congruence); lra.
Qed.

Lemma Rgtb_true (x y : R) : (x >? y) = true ↔ y < x.
Proof. apply Rltb_true. Qed.

Lemma Rgtb_false (x y : R) : (x >? y) = false ↔ x <= y.
Proof. apply Rltb_false. Qed.

Lemma Rgeb_true (x y : R) : (x >=? y) = true ↔ y <= x.
Proof. apply Rleb_true. Qed.


Lemma vec3_eq (a b : vec3) :
  vx a = vx b → vy a = vy b → vz a = vz b → a = b.
Proof. destruct a, b; simpl; by intros -> -> ->. Qed.

(** C10. Momentum and midpoint.  For two voxels whose centres are at least
    0.001 apart, [handleVoxelCollision] pushes the two voxels apart along the
    line of their centres by the same length in opposite directions, and
    leaves the sum of the two velocities and the sum of the two positions
    as they were: what it adds to one voxel it subtracts from the other. *)
Theorem handleVoxelCollision_conserves (this other : MovingVoxel) :
  dist (pos this) (pos other) >= 1 / 1000 →
  let this' := fst (handleVoxelCollision this other) in
  let other' := snd (handleVoxelCollision this other) in
  let d := dist (pos this) (pos other) in
  let separation := ((size this + size other) * 2 - d) * (51 / 100) in
  vadd (vel this') (vel other') = vadd (vel this) (vel other)
  ∧ vadd (pos this') (pos other') = vadd (pos this) (pos other)
  ∧ vsub (vel this') (vel this) = vscale (-1) (vsub (vel other') (vel other))
  ∧ vsub (pos this') (pos this) = vscale (-1) (vsub (pos other') (pos other))
  ∧ pos this'
    = vadd (pos this) (vscale (separation / d) (vsub (pos this) (pos other))).
Proof.
  intros Hd. cbv zeta. unfold handleVoxelCollision.
  unfold dist, norm, sumsq, vsub in *. cbn [vx vy vz] in *.
  destruct (Rltb _ (1 / 1000)) eqn:E.
  - apply Rltb_true in E. lra.
  - cbv zeta. destruct (Rgtb _ 0).
    + simpl. repeat split; apply vec3_eq; simpl; unfold Rdiv; ring.
    + simpl. repeat split; apply vec3_eq; simpl; unfold Rdiv; ring.
Qed.

Lemma handleVoxelCollision_conserves_witness :
  let this := debris_moving (V3 0 0 0) (V3 1 0 0) in
  let other := debris_moving (V3 1 0 0) (V3 0 0 0) in
  let this' := fst (handleVoxelCollision this other) in
  let other' := snd (handleVoxelCollision this other) in
  let d := dist (pos this) (pos other) in
  let separation := ((size this + size other) * 2 - d) * (51 / 100) in
  vadd (vel this') (vel other') = vadd (vel this) (vel other)
  ∧ vadd (pos this') (pos other') = vadd (pos this) (pos other)
  ∧ vsub (vel this') (vel this) = vscale (-1) (vsub (vel other') (vel other))
  ∧ vsub (pos this') (pos this) = vscale (-1) (vsub (pos other') (pos other))
  ∧ pos this'
    = vadd (pos this) (vscale (separation / d) (vsub (pos this) (pos other))).
Proof.
  apply (handleVoxelCollision_conserves
           (debris_moving (V3 0 0 0) (V3 1 0 0))
           (debris_moving (V3 1 0 0) (V3 0 0 0))).
  unfold dist, norm, sumsq, Math_sqrt. simpl.
  replace ((0 - 1) * (0 - 1) + (0 - 0) * (0 - 0) + (0 - 0) * (0 - 0)) with 1
    by ring.
  rewrite sqrt_1. lra.
Defined.

(** ** [Math.floor] *)

Lemma Math_floor_spec (r : R) :
  IZR (Math_floor r) <= r < IZR (Math_floor r) + 1.
Proof.
  unfold Math_floor. destruct (base_Int_part r) as [H1 H2]. lra.
Qed.

Lemma Math_floor_unique (r : R) (n : Z) :
  IZR n <= r < IZR n + 1 → Math_floor r = n.
Proof.
  intros [H1 H2]. unfold Math_floor. symmetry. apply Int_part_spec. lra.
Qed.

Lemma Math_floor_eq (r : R) (n : Z) :
  Math_floor r = n ↔ IZR n <= r < IZR n + 1.
Proof.
  split; [intros <-; apply Math_floor_spec | apply Math_floor_unique].
Qed.

Lemma Math_floor_IZR (n : Z) : Math_floor (IZR n) = n.
Proof. apply Math_floor_unique. lra. Qed.

(** ** Worlds that only lose solid cells *)


Lemma world_le_refl (w : list Z) : world_le w w.
Proof. by intros x y z. Qed.

Lemma world_le_trans (w1 w2 w3 : list Z) :
  world_le w1 w2 → world_le w2 w3 → world_le w1 w3.
Proof. intros H12 H23 x y z H. by apply H23, H12. Qed.

Lemma getWorld_clear_same (w : list Z) (x y z : Z) :
  truthy (getWorld (fst (setWorld w x y z 0)) x y z) = false.
Proof.
  unfold setWorld.
  destruct (out_of_bounds x y z) eqn:Hb; cbn [fst]; unfold getWorld;
    rewrite Hb; [done|].
  unfold ta_get, ta_set.
  destruct (world_index x y z <? 0)%Z; [done|].
  rewrite list_lookup_insert. case_decide as Hd; [done|].
  rewrite lookup_ge_None_2; [done|]. lia.
Qed.

Lemma world_le_clear (w : list Z) (x y z : Z) :
  world_le (fst (setWorld w x y z 0)) w.
Proof.
  intros a b c H.
  destruct (decide ((a, b, c) = (x, y, z))) as [[= -> -> ->]|Hne].
  - by rewrite getWorld_clear_same in H.
  - by rewrite getWorld_setWorld_other in H.
Qed.

Lemma isPositionValid_world_le (s : R) (w' w : list Z) (p : vec3) :
  world_le w' w →
  isPositionValid s w p = true → isPositionValid s w' p = true.
Proof.
  intros Hle. unfold isPositionValid. rewrite !forallb_forall.
  intros H q Hq. specialize (H q Hq). unfold solid_at in *.
  destruct (truthy (getWorld w' _ _ _)) eqn:E; [|done].
  apply Hle in E. by rewrite E in H.
Qed.

(** ** Terrain destruction *)

Lemma Math_random_fields (s : Server) :
  world (snd (Math_random s)) = world s
  ∧ heights (snd (Math_random s)) = heights s
  ∧ players (snd (Math_random s)) = players s
  ∧ movingVoxels (snd (Math_random s)) = movingVoxels s
  ∧ random (snd (Math_random s)) = random s
  ∧ fst (Math_random s) = random s (randomCalls s).
Proof. done. Qed.

Lemma destroy_cell_outcome (this : MovingVoxel) (xi yi zi : Z) (speed : R)
    (s : Server) (dx dy dz : Z) :
  destroy_outcome this xi yi zi speed s dx dy dz
    (destroy_cell this xi yi zi speed s dx dy dz)
  ∧ players (destroy_cell this xi yi zi speed s dx dy dz) = players s
  ∧ heights (destroy_cell this xi yi zi speed s dx dy dz) = heights s
  ∧ random (destroy_cell this xi yi zi speed s dx dy dz) = random s.
Proof.
  unfold destroy_cell. cbv zeta.
  set (d := Math_sqrt (IZR (dx * dx + dy * dy + dz * dz))).
  destruct ((d <=? 3) && truthy (getWorld (world s) (xi + dx) (yi + dy) (zi + dz)))
    eqn:E1; [|by split; [apply destroy_none|]].
  apply andb_true_iff in E1 as [Hd3%Rleb_true Hsolid].
  destruct (d >? 5 / 10) eqn:E2; [|by split; [apply destroy_none|]].
  apply Rgtb_true in E2.
  destruct (Math_random s) as [r s1] eqn:Hr.
  pose proof (Math_random_fields s) as (Hw1 & Hh1 & Hp1 & Hm1 & Hrn1 & Hr1).
  rewrite Hr in *. cbn [fst snd] in *.
  destruct (r <? Math_max 0 (1 - d / 3) * (7 / 10)) eqn:E3;
    [|by split; [apply destroy_none|]].
  apply Rltb_true in E3.
  set (dirLength := Math_sqrt _).
  destruct (dirLength >? 0) eqn:E4; [|by split; [apply destroy_none|]].
  destruct (Math_random s1) as [rid s2] eqn:Hr2.
  pose proof (Math_random_fields s1) as (Hw2 & Hh2 & Hp2 & Hm2 & Hrn2 & _).
  rewrite Hr2 in *. cbn [fst snd] in *.
  split; [|by cbn; rewrite ?Hp2, ?Hh2, ?Hrn2].
  eapply destroy_some; cbn; rewrite ?Hw2, ?Hm2, ?Hw1, ?Hm1; try done.
  - by rewrite <- Hr1.
  - unfold debrisVelocity. fold d.
    assert (Hdir : dirLength = d).
    { unfold dirLength, d. f_equal. cbn [vx vy vz].
      rewrite !plus_IZR, !mult_IZR. ring. }
    rewrite Hdir.
    assert (Hmax : Math_max 0 (1 - d / 3) = 1 - d / 3).
    { unfold Math_max. apply Rmax_right. lra. }
    rewrite Hmax. rewrite !plus_IZR.
    apply vec3_eq; cbn [vel set_vel vx vy vz]; unfold Rdiv; ring.
Qed.

Lemma filter_length_mono {A : Type} (P Q : A → Prop)
    `{∀ x, Decision (P x)} `{∀ x, Decision (Q x)} (l : list A) :
  (∀ x, P x → Q x) → (length (filter P l) ≤ length (filter Q l))%nat.
Proof.
  intros HPQ. induction l as [|x l IH]; [done|].
  rewrite !filter_cons. destruct (decide (P x)) as [HP|HP].
  - rewrite decide_True by auto. simpl. lia.
  - destruct (decide (Q x)); simpl; lia.
Qed.

Lemma in_sphere_solid_mono (w' w : list Z) (xi yi zi : Z) (k : Z * Z * Z) :
  world_le w' w →
  in_sphere_solid w' xi yi zi k = true → in_sphere_solid w xi yi zi k = true.
Proof.
  intros Hle. destruct k as [[dx dy] dz]. unfold in_sphere_solid.
  rewrite !andb_true_iff. intros [H1 H2]. split; [done|]. by apply Hle.
Qed.

Lemma sqrt_IZR_zero_offset (dx dy dz : Z) :
  5 / 10 < Math_sqrt (IZR (dx * dx + dy * dy + dz * dz)) →
  (dx, dy, dz) ≠ (0, 0, 0)%Z.
Proof.
  intros H [= -> -> ->]. unfold Math_sqrt in H.
  change (0 * 0 + 0 * 0 + 0 * 0)%Z with 0%Z in H.
  rewrite sqrt_0 in H. lra.
Qed.


Lemma destruction_fold (this : MovingVoxel) (xi yi zi : Z) (speed : R)
    (ks : list (Z * Z * Z)) (s : Server) :
  let s' := fold_left
              (λ s k, destroy_cell this xi yi zi speed s k.1.1 k.1.2 k.2)
              ks s in
  ∃ ds : list MovingVoxel,
    movingVoxels s' = movingVoxels s ++ ds
    ∧ (length ds
       ≤ length (filter (λ k, in_sphere_solid (world s) xi yi zi k = true) ks))%nat
    ∧ world_le (world s') (world s)
    ∧ getWorld (world s') xi yi zi = getWorld (world s) xi yi zi
    ∧ Forall (is_debris_of this xi yi zi speed s s') ds
    ∧ players s' = players s ∧ heights s' = heights s
    ∧ random s' = random s.
Proof.
  revert s. induction ks as [|[[dx dy] dz] ks IH]; intros s; cbv zeta.
  - exists []. rewrite app_nil_r. cbn [fold_left].
    split; [done|]. split; [simpl; lia|]. split; [apply world_le_refl|].
    split; [done|]. split; [constructor|done].
  - cbn [fold_left fst snd].
    set (s1 := destroy_cell this xi yi zi speed s dx dy dz).
    destruct (destroy_cell_outcome this xi yi zi speed s dx dy dz)
      as (Hout & Hp1 & Hh1 & Hr1).
    fold s1 in Hout, Hp1, Hh1, Hr1.
    destruct (IH s1) as (ds & Hmv & Hlen & Hle & Himp & Hall & Hp & Hh & Hr).
    set (s' := fold_left _ ks s1) in *.
    destruct Hout as [Hw Hm | debris Hw Hm _ Hsolid Hd3 Hd05 _ Hproj Hpv _ Hpos Hvel].
    + exists ds. rewrite Hw, Hm in *.
      split; [done|]. split.
      { rewrite filter_cons. destruct (decide _); simpl; lia. }
      split; [done|]. split; [done|].
      split; [|by rewrite Hp, Hh, Hr].
      eapply Forall_impl; [exact Hall|].
      intros d (? & ? & x & y & z & ? & ? & ? & Hs1 & ?).
      rewrite Hw in Hs1. repeat split; try done. by exists x, y, z.
    + assert (Hle1 : world_le (world s1) (world s))
        by (rewrite Hw; apply world_le_clear).
      pose proof (sqrt_IZR_zero_offset dx dy dz Hd05) as Hne.
      exists (debris :: ds). split; [by rewrite Hmv, Hm, <- app_assoc|].
      split.
      { rewrite filter_cons, decide_True.
        - simpl. apply le_n_S. etrans; [exact Hlen|].
          apply filter_length_mono. intros k. by apply in_sphere_solid_mono.
        - unfold in_sphere_solid. rewrite Hsolid, andb_true_r.
          by apply Rleb_true. }
      split; [by eapply world_le_trans|].
      split.
      { rewrite Himp, Hw. apply getWorld_setWorld_other.
        intros [= H1 H2 H3]. apply Hne. f_equal; [f_equal|]; lia. }
      split; [|by rewrite Hp, Hh, Hr].
      constructor.
      * split; [done|]. split; [done|]. exists dx, dy, dz.
        repeat split; try done.
        destruct (truthy (getWorld (world s') _ _ _)) eqn:E; [|done].
        apply Hle in E. rewrite Hw, getWorld_clear_same in E. done.
      * eapply Forall_impl; [exact Hall|].
        intros d (? & ? & x & y & z & ? & ? & ? & Hs1 & ?).
        repeat split; try done. exists x, y, z. repeat split; try done.
        by apply Hle1.
Qed.

Lemma createDestruction_flat (this : MovingVoxel) (xi yi zi : Z) (speed : R)
    (s : Server) :
  createDestruction this xi yi zi speed s
  = (set_hasCollided true this,
     fold_left
       (λ s k, destroy_cell (set_hasCollided true this) xi yi zi speed s
                 k.1.1 k.1.2 k.2)
       sphere_offsets s).
Proof.
  unfold createDestruction, sphere_offsets. apply f_equal.
  generalize (offsets 3). intros l.
  rewrite (nested_loops_flatten
             (λ s dx dy,
                fold_left
                  (λ s dz, destroy_cell (set_hasCollided true this) xi yi zi
                             speed s dx dy dz) l s)).
  by rewrite (nested_loops_flatten
                (λ s (k : Z * Z) dz,
                   destroy_cell (set_hasCollided true this) xi yi zi speed s
                     k.1 k.2 dz)).
Qed.

Lemma createDestruction_spec (this : MovingVoxel) (xi yi zi : Z) (speed : R)
    (s : Server) :
  let this' := fst (createDestruction this xi yi zi speed s) in
  let s' := snd (createDestruction this xi yi zi speed s) in
  this' = set_hasCollided true this
  ∧ ∃ ds : list MovingVoxel,
      movingVoxels s' = movingVoxels s ++ ds
      ∧ (length ds ≤ sphereSolidCount (world s) xi yi zi)%nat
      ∧ world_le (world s') (world s)
      ∧ getWorld (world s') xi yi zi = getWorld (world s) xi yi zi
      ∧ Forall (is_debris_of this' xi yi zi speed s s') ds
      ∧ players s' = players s ∧ heights s' = heights s
      ∧ random s' = random s.
Proof.
  cbv zeta. rewrite createDestruction_flat. cbn [fst snd].
  split; [done|]. apply destruction_fold.
Qed.

Lemma handleCollision_voxel (collision : CollisionInfo) (this : MovingVoxel)
    (s : Server) :
  pos (fst (handleCollision collision this s)) = pos this
  ∧ size (fst (handleCollision collision this s)) = size this
  ∧ isProjectile (fst (handleCollision collision this s)) = isProjectile this
  ∧ world_le (world (snd (handleCollision collision this s))) (world s).
Proof.
  unfold handleCollision. destruct (block collision) as [[xi yi] zi].
  cbv zeta. set (this1 := set_vel _ this).
  destruct (_ && _ && _).
  - destruct (createDestruction_spec this1 xi yi zi (norm (vel this1)) s)
      as (-> & ds & _ & _ & Hle & _).
    by repeat split.
  - repeat split; try done. apply world_le_refl.
Qed.

(** ** The swept move *)

Lemma at_time_0 (p v : vec3) : at_time p v 0 = p.
Proof. apply vec3_eq; simpl; ring. Qed.

Lemma handleCollision_debris (collision : CollisionInfo) (this : MovingVoxel)
    (s : Server) :
  isProjectile this = false → snd (handleCollision collision this s) = s.
Proof.
  intros Hp. unfold handleCollision. destruct (block collision) as [[xi yi] zi].
  cbv zeta. cbn [isProjectile set_vel]. rewrite Hp, andb_false_r. done.
Qed.


Lemma bisect_bracket (sz : R) (w : list Z) (startPos velocity : vec3) (dt : R)
    (n : nat) :
  0 < dt →
  bracket sz w startPos velocity dt n
    (Nat.iter n (bisect_step sz w startPos velocity) (0, dt, dt)).
Proof.
  intros Hdt. induction n as [|n IH].
  - simpl. repeat split; first [lra | by left].
  - rewrite Nat.iter_succ. destruct (Nat.iter n _ _) as [[mn mx] ct].
    destruct IH as (H0 & Hlt & Hmx & Hct & Hgap & Hmn).
    assert (Hhalf : dt / 2 ^ S n = (mx - mn) / 2).
    { rewrite Hgap. cbn [pow]. field. apply pow_nonzero. lra. }
    unfold bisect_step.
    destruct (isPositionValid sz w (at_time startPos velocity ((mn + mx) / 2)))
      eqn:E; unfold bracket; rewrite Hhalf.
    + repeat split; first [lra | by right].
    + repeat split; first [lra | done].
Qed.

Lemma findCollisionTime_bracket (sz : R) (w : list Z) (velocity : vec3)
    (startPos endPos : vec3) (dt : R) :
  0 < dt →
  isPositionValid sz w endPos = false →
  ∃ minTime collisionTime,
    findCollisionTime sz w velocity startPos endPos dt = Some collisionTime
    ∧ 0 <= minTime ∧ minTime < collisionTime ∧ collisionTime <= dt
    ∧ collisionTime - minTime = dt / 2 ^ 20
    ∧ (minTime = 0
       ∨ isPositionValid sz w (at_time startPos velocity minTime) = true).
Proof.
  intros Hdt Hend. unfold findCollisionTime. rewrite Hend.
  pose proof (bisect_bracket sz w startPos velocity dt 20 Hdt) as Hb.
  destruct (Nat.iter 20 _ _) as [[mn mx] ct].
  destruct Hb as (H0 & Hlt & Hmx & -> & Hgap & Hmn).
  exists mn, mx. repeat split; try done.
Qed.

(** The position that the swept move gives is on the segment of the tick. *)
Lemma sweptMove_on_segment
    (info : R → list Z → vec3 → option CollisionInfo)
    (dt : R) (this : MovingVoxel) (s : Server) :
  ∃ t, pos (fst (sweptMove info handleCollision dt this s))
       = at_time (pos this) (vel this) t.
Proof.
  unfold sweptMove. cbv zeta.
  destruct (findCollisionTime _ _ _ _ _ _) as [ct|]; [|by exists dt].
  destruct (ct >? 0); [|by exists dt].
  exists (Math_max 0 (ct - 1 / 1000)).
  destruct (info _ _ _) as [c|]; [|done].
  by destruct (handleCollision_voxel c
                 (set_pos (at_time (pos this) (vel this)
                             (Math_max 0 (ct - 1 / 1000))) this) s) as (-> & _).
Qed.

Lemma sweptMove_valid
    (info : R → list Z → vec3 → option CollisionInfo)
    (dt : R) (this : MovingVoxel) (s : Server) :
  0 < dt → dt <= 1048576 / 1000 →
  isPositionValid (size this) (world s) (pos this) = true →
  (∀ t1 t2, 0 <= t1 → t1 <= t2 → t2 <= dt →
     isPositionValid (size this) (world s)
       (at_time (pos this) (vel this) t2) = true →
     isPositionValid (size this) (world s)
       (at_time (pos this) (vel this) t1) = true) →
  isPositionValid (size this) (world s)
    (at_time (pos this) (vel this) dt) = false →
  let r := sweptMove info handleCollision dt this s in
  isPositionValid (size (fst r)) (world (snd r)) (pos (fst r)) = true
  ∧ isPositionValid (size this) (world s) (pos (fst r)) = true.
Proof.
  intros Hdt Hmax Hstart Hmono Hend. cbv zeta.
  destruct (findCollisionTime_bracket (size this) (world s) (vel this)
              (pos this) (at_time (pos this) (vel this) dt) dt Hdt Hend)
    as (mn & ct & Hfind & H0 & Hlt & Hle & Hgap & Hmn).
  assert (Hpow : (2 ^ 20 = 1048576)%R) by (simpl; lra).
  rewrite Hpow in Hgap.
  set (safeTime := Math_max 0 (ct - 1 / 1000)).
  assert (Hsafe : 0 <= safeTime ∧ safeTime <= mn).
  { unfold safeTime, Math_max. split; [apply Rmax_l|].
    apply Rmax_lub; lra. }
  assert (Hvalid : isPositionValid (size this) (world s)
                     (at_time (pos this) (vel this) safeTime) = true).
  { destruct Hmn as [->|Hv].
    - replace safeTime with 0 by lra. by rewrite at_time_0.
    - apply (Hmono safeTime mn); (done || lra). }
  unfold sweptMove. cbv zeta. rewrite Hfind.
  destruct (ct >? 0) eqn:E; [|apply Rgtb_false in E; lra].
  fold safeTime. set (this1 := set_pos _ this).
  destruct (info _ _ _) as [c|]; [|done].
  destruct (handleCollision_voxel c this1 s) as (Hp & Hs & _ & Hw).
  rewrite Hp, Hs. split; [|done].
  by eapply isPositionValid_world_le.
Qed.

(** *** A grid with one solid cell *)

Lemma getWorld_empty_world (x y z : Z) : getWorld empty_world x y z = JNum 0.
Proof.
  unfold getWorld. destruct (out_of_bounds x y z) eqn:Hb; [done|].
  pose proof (world_index_range _ _ _ Hb) as Hr.
  unfold ta_get. destruct (world_index x y z <? 0)%Z eqn:E; [lia|].
  unfold empty_world. rewrite lookup_replicate_2; [done|].
  unfold world_length. lia.
Qed.

Lemma solid_one_block (x y z : Z) :
  truthy (getWorld one_block_world x y z) = true ↔ (x, y, z) = (10, 10, 10)%Z.
Proof.
  unfold one_block_world. split.
  - intros H. destruct (decide ((x, y, z) = (10, 10, 10)%Z)) as [|Hne]; [done|].
    rewrite getWorld_setWorld_other, getWorld_empty_world in H by done. done.
  - intros [= -> -> ->]. rewrite getWorld_setWorld_same.
    + done.
    + unfold InGrid. lia.
    + apply length_replicate.
Qed.

Lemma solid_at_one_block (p : vec3) :
  solid_at one_block_world p = true ↔
  (10 <= vx p < 11 ∧ 10 <= vy p < 11 ∧ 10 <= vz p < 11).
Proof.
  unfold solid_at. rewrite solid_one_block. split.
  - intros [= Hx%Math_floor_eq Hy%Math_floor_eq Hz%Math_floor_eq]. lra.
  - intros (Hx & Hy & Hz). f_equal; [f_equal|]; apply Math_floor_unique; lra.
Qed.

Lemma not_solid_at_one_block_above (p : vec3) :
  11 <= vy p → solid_at one_block_world p = false.
Proof.
  intros Hy. destruct (solid_at one_block_world p) eqn:E; [|done].
  apply solid_at_one_block in E. lra.
Qed.

Lemma valid_above_one_block (sz : R) (p : vec3) :
  0 <= sz → 11 <= vy p - sz → isPositionValid sz one_block_world p = true.
Proof.
  intros Hsz Hy. unfold isPositionValid. apply forallb_forall.
  intros q Hq. rewrite not_solid_at_one_block_above; [done|].
  unfold validity_checks in Hq. cbv zeta in Hq. simpl in Hq.
  repeat (destruct Hq as [<-|Hq]; [simpl; lra|]). done.
Qed.

Lemma invalid_corner_in_one_block (sz : R) (p : vec3) :
  10 <= vx p - sz < 11 → 10 <= vy p - sz < 11 → 10 <= vz p - sz < 11 →
  isPositionValid sz one_block_world p = false.
Proof.
  intros Hx Hy Hz. unfold isPositionValid, validity_checks. cbv zeta.
  cbn [forallb].
  replace (solid_at one_block_world (V3 (vx p - sz) (vy p - sz) (vz p - sz)))
    with true; [done|].
  symmetry. by apply solid_at_one_block.
Qed.

(** C3 (as amended).  Swept collision.  Let a voxel start its tick at a
    valid position, with [0 < dt <= 1048.576], and let validity along the
    segment of the tick be monotone: no valid position comes after an
    invalid one.  If the end position of the Euler step is invalid, the
    position that the swept move gives the voxel (the binary search of 20
    rounds, backed off by 0.001) is valid, in the grid before the terrain
    response and in the grid after it; both versions of [update] move the
    voxel so. *)
Theorem swept_collision_resolves_valid (dt : R) (this : MovingVoxel)
    (s : Server) :
  let moving := applyGravity dt this in
  let valid := isPositionValid (size moving) (world s) in
  let path := at_time (pos moving) (vel moving) in
  0 < dt → dt <= 1048576 / 1000 →
  valid (pos moving) = true →
  (∀ t1 t2, 0 <= t1 → t1 <= t2 → t2 <= dt →
     valid (path t2) = true → valid (path t1) = true) →
  valid (path dt) = false →
  let r := sweptMove getCollisionInfo handleCollision dt moving s in
  let r' := sweptMove TrajectoryVoxel.getCollisionInfo handleCollision dt
              moving s in
  isPositionValid (size (fst r)) (world (snd r)) (pos (fst r)) = true
  ∧ valid (pos (fst r)) = true
  ∧ isPositionValid (size (fst r')) (world (snd r')) (pos (fst r')) = true
  ∧ valid (pos (fst r')) = true.
Proof.
  intros moving valid path Hdt Hmax Hstart Hmono Hend r r'.
  destruct (sweptMove_valid getCollisionInfo dt moving s
              Hdt Hmax Hstart Hmono Hend) as [H1 H2].
  destruct (sweptMove_valid TrajectoryVoxel.getCollisionInfo dt moving s
              Hdt Hmax Hstart Hmono Hend) as [H3 H4].
  done.
Qed.

Lemma swept_collision_resolves_valid_witness :
  let dt := 1 / 20 in
  let this := debris_moving (V3 (105 / 10) (115 / 10) (105 / 10)) (V3 0 (-8) 0) in
  let s := server_of one_block_world [] [this] (99 / 100) in
  let moving := applyGravity dt this in
  let valid := isPositionValid (size moving) (world s) in
  let r := sweptMove getCollisionInfo handleCollision dt moving s in
  let r' := sweptMove TrajectoryVoxel.getCollisionInfo handleCollision dt
              moving s in
  isPositionValid (size (fst r)) (world (snd r)) (pos (fst r)) = true
  ∧ valid (pos (fst r)) = true
  ∧ isPositionValid (size (fst r')) (world (snd r')) (pos (fst r')) = true
  ∧ valid (pos (fst r')) = true.
Proof.
  apply (swept_collision_resolves_valid (1 / 20)
           (debris_moving (V3 (105 / 10) (115 / 10) (105 / 10)) (V3 0 (-8) 0))
           (server_of one_block_world []
              [debris_moving (V3 (105 / 10) (115 / 10) (105 / 10)) (V3 0 (-8) 0)]
              (99 / 100))).
  - lra.
  - lra.
  - apply valid_above_one_block; simpl; unfold VOXEL_SIZE; lra.
  - intros t1 t2 H1 H12 H2 Hv.
    apply valid_above_one_block; [simpl; unfold VOXEL_SIZE; lra|].
    assert (Ht2 : t2 <= 5 / 1000).
    { destruct (Rle_dec t2 (5 / 1000)) as [|Hn]; [done|].
      rewrite invalid_corner_in_one_block in Hv; [done|..];
        simpl; unfold VOXEL_SIZE, GRAVITY; lra. }
    simpl. unfold VOXEL_SIZE, GRAVITY. lra.
  - apply invalid_corner_in_one_block;
      simpl; unfold VOXEL_SIZE, GRAVITY; lra.
Defined.

(** C3, the claim as it is written, fails: a voxel that rests inside a
    solid cell (zero velocity after gravity, so [speed * dt < 2 * size]) has
    an invalid end position, and the tick leaves it where it is. *)
Lemma swept_collision_counterexample :
  let dt := 1 / 50 in
  let this :=
    debris_moving (V3 (105 / 10) (105 / 10) (105 / 10)) (V3 0 (8 / 10) 0) in
  let s := server_of one_block_world [] [this] (99 / 100) in
  let moving := applyGravity dt this in
  let r := MonolithVoxel.updateMotion dt this s in
  norm (vel moving) * dt < 2 * size moving
  ∧ isPositionValid (size moving) (world s)
      (at_time (pos moving) (vel moving) dt) = false
  ∧ isPositionValid (size (fst r)) (world (snd r)) (pos (fst r)) = false.
Proof.
  cbv zeta.
  set (this := debris_moving (V3 (105 / 10) (105 / 10) (105 / 10))
                 (V3 0 (8 / 10) 0)).
  set (s := server_of one_block_world [] [this] (99 / 100)).
  set (moving := applyGravity (1 / 50) this).
  assert (Hvel : vel moving = V3 0 0 0).
  { apply vec3_eq; simpl; unfold GRAVITY; lra. }
  assert (Hpath : ∀ t, at_time (pos moving) (vel moving) t = pos moving).
  { intros t. rewrite Hvel. apply vec3_eq; simpl; ring. }
  assert (Hinvalid : isPositionValid (size moving) one_block_world (pos moving)
                     = false).
  { apply invalid_corner_in_one_block; simpl; unfold VOXEL_SIZE; lra. }
  split; [|split].
  - unfold norm, sumsq, Math_sqrt. rewrite Hvel. simpl.
    replace (0 * 0 + 0 * 0 + 0 * 0) with 0 by ring. rewrite sqrt_0.
    unfold VOXEL_SIZE. lra.
  - rewrite Hpath. exact Hinvalid.
  - unfold MonolithVoxel.updateMotion. cbn [fst snd]. fold moving.
    destruct (sweptMove_on_segment getCollisionInfo (1 / 50) moving s) as [t Ht].
    rewrite Hpath in Ht.
    assert (Hs : snd (sweptMove getCollisionInfo handleCollision (1 / 50) moving s)
                 = s).
    { unfold sweptMove. cbv zeta.
      destruct (findCollisionTime _ _ _ _ _ _) as [ct|]; [|done].
      destruct (ct >? 0); [|done].
      destruct (getCollisionInfo _ _ _) as [c|]; [|done].
      by apply handleCollision_debris. }
    rewrite Hs.
    set (moved := fst (sweptMove getCollisionInfo handleCollision (1 / 50)
                         moving s)) in *.
    assert (Hsize : size moved = VOXEL_SIZE).
    { unfold moved, sweptMove. cbv zeta.
      destruct (findCollisionTime _ _ _ _ _ _) as [ct|]; [|done].
      destruct (ct >? 0); [|done].
      destruct (getCollisionInfo _ _ _) as [c|]; [|done].
      by destruct (handleCollision_voxel c
                     (set_pos (at_time (pos moving) (vel moving)
                                 (Math_max 0 (ct - 1 / 1000))) moving) s)
        as (_ & -> & _). }
    assert (Hb : pos (handleWorldBoundaries moved) = pos moving
                 ∧ size (handleWorldBoundaries moved) = VOXEL_SIZE).
    { unfold handleWorldBoundaries. cbv zeta. rewrite Ht, Hsize.
      replace (vy (pos moving) <? VOXEL_SIZE) with false
        by (symmetry; apply Rltb_false; simpl; unfold VOXEL_SIZE; lra).
      rewrite Ht, Hsize. cbn [pos set_pos size]. split; [|done].
      unfold Math_max, Math_min, VOXEL_SIZE, WORLD_SIZE.
      apply vec3_eq; cbn [vx vy vz moving applyGravity pos set_vel this
                          debris_moving debris_at newMovingVoxel]; try done.
      - rewrite Rmin_right by lra. rewrite Rmax_right by lra. done.
      - rewrite Rmin_right by lra. rewrite Rmax_right by lra. done. }
    destruct Hb as [-> ->]. exact Hinvalid.
Defined.

(** ** Destruction of terrain at an impact *)

Lemma nearest_block_solid (world : list Z) (p : vec3) (checks : list vec3)
    (acc : option (Z * Z * Z) * option R) :
  (∀ b, fst acc = Some b → truthy (getWorld world b.1.1 b.1.2 b.2) = true) →
  ∀ b, fst (fold_left (nearest_block_step world p) checks acc) = Some b →
       truthy (getWorld world b.1.1 b.1.2 b.2) = true.
Proof.
  revert acc. induction checks as [|c checks IH]; intros acc Hacc; [done|].
  cbn [fold_left]. apply IH. unfold nearest_block_step. cbv zeta.
  destruct (truthy (getWorld world _ _ _)) eqn:E; [|done].
  destruct (match snd acc with None => true | Some m => _ end); [|done].
  intros b [= <-]. done.
Qed.

(** The block that [getCollisionInfo] of server.js reports is solid. *)
Lemma getCollisionInfo_solid (sz : R) (world : list Z) (p : vec3)
    (c : CollisionInfo) :
  getCollisionInfo sz world p = Some c →
  truthy (getWorld world (block c).1.1 (block c).1.2 (block c).2) = true.
Proof.
  unfold getCollisionInfo.
  destruct (fst (fold_left _ _ _)) as [[[bx by_] bz]|] eqn:E; [|done].
  intros [= <-]. cbn [block].
  by apply (nearest_block_solid world p (corner_checks sz p) (None, None)).
Qed.

Lemma handleCollision_cases (collision : CollisionInfo) (this : MovingVoxel)
    (s : Server) :
  let r := handleCollision collision this s in
  snd r = s
  ∨ ∃ this1,
      r = createDestruction this1 (block collision).1.1 (block collision).1.2
            (block collision).2 (norm (vel this1)) s
      ∧ hasCollided this1 = false ∧ isProjectile this1 = true
      ∧ 15 < norm (vel this1).
Proof.
  cbv zeta. unfold handleCollision.
  destruct (block collision) as [[xi yi] zi]. cbv zeta. cbn [fst snd].
  set (this1 := set_vel _ this).
  destruct ((norm (vel this1) >? 15) && negb (hasCollided this1)
            && isProjectile this1) eqn:E; [|by left].
  apply andb_true_iff in E as [E Hp]. apply andb_true_iff in E as [Hs Hc].
  apply Rgtb_true in Hs. apply negb_true_iff in Hc.
  right. by exists this1.
Qed.

Lemma destruction_fold_quiet (this : MovingVoxel) (xi yi zi : Z) (speed : R)
    (ks : list (Z * Z * Z)) (s : Server) :
  (∀ n, 7 / 10 <= random s n) →
  let s' := fold_left
              (λ s k, destroy_cell this xi yi zi speed s k.1.1 k.1.2 k.2)
              ks s in
  world s' = world s ∧ movingVoxels s' = movingVoxels s.
Proof.
  revert s. induction ks as [|[[dx dy] dz] ks IH]; intros s Hrnd; [done|].
  cbv zeta. cbn [fold_left fst snd].
  destruct (destroy_cell_outcome this xi yi zi speed s dx dy dz)
    as (Hout & _ & _ & Hr).
  destruct (IH (destroy_cell this xi yi zi speed s dx dy dz)) as [Hw Hm].
  { intros n. rewrite Hr. apply Hrnd. }
  cbv zeta in Hw, Hm. rewrite Hw, Hm.
  destruct Hout as [Hw1 Hm1 | debris _ _ _ _ _ _ Hdraw]; [done|].
  exfalso. specialize (Hrnd (randomCalls s)).
  pose proof (sqrt_pos (IZR (dx * dx + dy * dy + dz * dz))) as Hpos.
  unfold Math_sqrt, Math_max in Hdraw.
  assert (Rmax 0 (1 - sqrt (IZR (dx * dx + dy * dy + dz * dz)) / 3) <= 1)
    by (apply Rmax_lub; lra).
  lra.
Qed.

Lemma getWorld_slab_top : getWorld slab_world 10 47 10 = JNum 1.
Proof.
  unfold getWorld. change (out_of_bounds 10 47 10) with false. cbv iota.
  change (world_index 10 47 10) with 169866%Z.
  unfold ta_get. change (169866 <? 0)%Z with false. cbv iota.
  unfold slab_world. rewrite list_lookup_fmap.
  rewrite lookup_seqZ_lt by (unfold WORLD_SIZE; lia).
  rewrite Z2Nat.id by lia. reflexivity.
Qed.

Lemma sqrt_gt (a x : R) : 0 <= a → a * a < x → a < sqrt x.
Proof.
  intros Ha Hx. rewrite <- (sqrt_square a) at 1 by done.
  apply sqrt_lt_1; nra.
Qed.

(** C6, the claim as it is written, fails.  A projectile of speed 30 hits
    the top of a flat slab; the bounce leaves it faster than 15, so the
    destruction runs (the latch [hasCollided] is set); every draw of
    [Math.random()] is 0.99: no cell is dislodged, no debris is spawned,
    and the impacted cell is still solid. *)
Lemma destruction_counterexample :
  let this :=
    projectile_moving (V3 (105 / 10) (4845 / 100) (105 / 10)) (V3 24 (-18) 0) in
  let s := server_of slab_world [] [this] (99 / 100) in
  let collision := mkCollision (10, 47, 10)%Z 1 in
  let r := handleCollision collision this s in
  norm (vel this) = 30
  ∧ truthy (getWorld (world s) 10 47 10) = true
  ∧ hasCollided this = false ∧ hasCollided (fst r) = true
  ∧ movingVoxels (snd r) = movingVoxels s
  ∧ truthy (getWorld (world (snd r)) 10 47 10) = true.
Proof.
  cbv zeta.
  set (this := projectile_moving (V3 (105 / 10) (4845 / 100) (105 / 10))
                 (V3 24 (-18) 0)).
  set (s := server_of slab_world [] [this] (99 / 100)).
  assert (Hsolid : truthy (getWorld (world s) 10 47 10) = true).
  { change (world s) with slab_world. by rewrite getWorld_slab_top. }
  split.
  { unfold norm, sumsq, Math_sqrt. simpl. apply sqrt_lem_1; lra. }
  split; [done|]. split; [done|].
  unfold handleCollision. cbn [block axis]. cbv zeta.
  change (isProjectile this) with true. cbv iota.
  change (vget (vel this) 1) with (-18).
  replace (Math_abs (-18) >? 2) with true.
  2:{ symmetry. apply Rgtb_true. unfold Math_abs, Rabs.
      destruct (Rcase_abs (-18)); lra. }
  change (seqZ 0 3) with [0; 1; 2]%Z. cbn [fold_left].
  change (negb (0 =? 1)%Z && negb (0 =? 1)%Z) with true.
  change (negb (1 =? 1)%Z && negb (1 =? 1)%Z) with false.
  change (negb (2 =? 1)%Z && negb (2 =? 1)%Z) with true.
  cbv iota.
  set (vel1 := vset _ 2 _).
  assert (Hvel1 : vel1 = V3 (24 * (8 / 10)) (-18 * - (4 / 10)) (0 * (8 / 10)))
    by reflexivity.
  set (this1 := set_vel vel1 this).
  replace ((norm (vel this1) >? 15) && negb (hasCollided this1)
           && isProjectile this1) with true.
  2:{ symmetry. rewrite !andb_true_iff.
      split; [split|]; [|reflexivity|reflexivity].
      apply Rgtb_true. cbn [vel this1 set_vel]. rewrite Hvel1.
      unfold norm, sumsq, Math_sqrt. cbn [vx vy vz].
      apply sqrt_gt; lra. }
  rewrite createDestruction_flat. cbn [fst snd].
  split; [done|].
  destruct (destruction_fold_quiet (set_hasCollided true this1) 10 47 10
              (norm (vel this1)) sphere_offsets s) as [Hw Hm].
  { intros n. cbn. lra. }
  cbv zeta in Hw, Hm. rewrite Hw, Hm. split; [reflexivity|exact Hsolid].
Defined.

(** ** Settling *)

Lemma push_loop_filter {A B : Type} (P : A → bool) (g : A → B) (ks : list A)
    (acc : list B) :
  fold_left (λ cs k, if P k then cs ++ [g k] else cs) ks acc
  = acc ++ map g (filter (λ k, P k = true) ks).
Proof.
  revert acc. induction ks as [|k ks IH]; intros acc; simpl.
  - by rewrite app_nil_r.
  - rewrite IH, filter_cons. destruct (P k) eqn:E.
    + rewrite decide_True by done. simpl. by rewrite <- app_assoc.
    + rewrite decide_False by congruence. done.
Qed.

Lemma shell_candidates_flat (world : list Z) (tx ty tz radius : Z) :
  shell_candidates world tx ty tz radius
  = map (shell_make tx ty tz)
      (filter (λ k, shell_test world tx ty tz radius k = true)
         (list_prod (list_prod (offsets radius) (offsets radius))
                    (offsets radius))).
Proof.
  unfold shell_candidates. generalize (offsets radius). intros l.
  rewrite (nested_loops_flatten
             (λ cs dx dy,
                fold_left
                  (λ cs dz,
                     if (Z.abs dx =? radius)%Z || (Z.abs dy =? radius)%Z
                        || (Z.abs dz =? radius)%Z
                     then
                       if empty_cell world (tx + dx) (ty + dy) (tz + dz)
                       then cs ++ [mkCandidate
                                     ((tx + dx)%Z, (ty + dy)%Z, (tz + dz)%Z)
                                     (Math_sqrt (IZR (dx * dx + dy * dy + dz * dz)))]
                       else cs
                     else cs) l cs)).
  rewrite (nested_loops_flatten
             (λ cs (k : Z * Z) dz,
                if (Z.abs k.1 =? radius)%Z || (Z.abs k.2 =? radius)%Z
                   || (Z.abs dz =? radius)%Z
                then
                  if empty_cell world (tx + k.1) (ty + k.2) (tz + dz)
                  then cs ++ [mkCandidate
                                ((tx + k.1)%Z, (ty + k.2)%Z, (tz + dz)%Z)
                                (Math_sqrt (IZR (k.1 * k.1 + k.2 * k.2 + dz * dz)))]
                  else cs
                else cs)).
  rewrite <- (app_nil_l (map _ _)).
  rewrite <- (push_loop_filter (shell_test world tx ty tz radius)
                (shell_make tx ty tz)).
  apply fold_left_pointwise. intros cs [[dx dy] dz].
  unfold shell_test, shell_make, offset_length. cbn [fst snd].
  by destruct (_ || _ || _), (empty_cell _ _ _ _).
Qed.

Lemma elem_of_offsets (radius k : Z) :
  k ∈ offsets radius ↔ (- radius ≤ k ≤ radius)%Z.
Proof. unfold offsets. rewrite elem_of_seqZ. lia. Qed.

Lemma elem_of_shell_candidates (world : list Z) (tx ty tz radius : Z)
    (c : Candidate) :
  c ∈ shell_candidates world tx ty tz radius ↔
  ∃ dx dy dz,
    on_shell radius dx dy dz
    ∧ empty_cell world (tx + dx) (ty + dy) (tz + dz) = true
    ∧ c = mkCandidate ((tx + dx)%Z, (ty + dy)%Z, (tz + dz)%Z)
            (offset_length dx dy dz).
Proof.
  rewrite shell_candidates_flat, list_elem_of_fmap. split.
  - intros ([[dx dy] dz] & -> & Hin). apply list_elem_of_filter in Hin as [Ht Hin].
    apply list_elem_of_In, in_prod_iff in Hin as [Hin Hz].
    apply in_prod_iff in Hin as [Hx Hy].
    apply list_elem_of_In, elem_of_offsets in Hx, Hy, Hz.
    unfold shell_test in Ht. cbn [fst snd] in Ht.
    apply andb_true_iff in Ht as [Hs He].
    exists dx, dy, dz. split; [|by split].
    split; [lia|]. rewrite !orb_true_iff, !Z.eqb_eq in Hs. tauto.
  - intros (dx & dy & dz & [Hr Hs] & He & ->). exists (dx, dy, dz).
    split; [done|]. apply list_elem_of_filter. split.
    + unfold shell_test. cbn [fst snd]. rewrite He, andb_true_r.
      rewrite !orb_true_iff, !Z.eqb_eq. tauto.
    + apply list_elem_of_In, in_prod_iff. split.
      * apply in_prod_iff.
        split; apply list_elem_of_In, elem_of_offsets; lia.
      * apply list_elem_of_In, elem_of_offsets; lia.
Qed.

Lemma sort_candidates_head (l : list Candidate) :
  match sort_candidates l with
  | [] => l = []
  | h :: _ => h ∈ l ∧ ∀ c, c ∈ l → distance h <= distance c
  end.
Proof.
  induction l as [|c l IH]; [done|].
  unfold sort_candidates in *. cbn [foldr].
  destruct (foldr insert_candidate [] l) as [|h' rest'] eqn:E.
  - subst l. cbn [insert_candidate]. split; [by left|].
    intros c' [->|Hc']%elem_of_cons; [lra|]. by apply elem_of_nil in Hc'.
  - destruct IH as [Hin Hmin]. cbn [insert_candidate].
    destruct (distance c - distance h' <=? 0) eqn:Ec.
    + apply Rleb_true in Ec. split; [by left|].
      intros c' [->|Hc']%elem_of_cons; [lra|].
      specialize (Hmin c' Hc'). lra.
    + apply Rleb_false in Ec. split; [by right|].
      intros c' [->|Hc']%elem_of_cons; [lra|]. by apply Hmin.
Qed.

(** The shell loop over the radii [radii]: the result is a nearest
    candidate of the first shell that has one. *)
Lemma search_shells_Some (world : list Z) (tx ty tz : Z) (radii : list Z)
    (p : Z * Z * Z) :
  search_shells world tx ty tz radii = Some p →
  ∃ before radius after c,
    radii = before ++ radius :: after
    ∧ (∀ r, r ∈ before → shell_candidates world tx ty tz r = [])
    ∧ c ∈ shell_candidates world tx ty tz radius
    ∧ cand_pos c = p
    ∧ ∀ c', c' ∈ shell_candidates world tx ty tz radius →
            distance c <= distance c'.
Proof.
  induction radii as [|radius radii IH]; [done|].
  cbn [search_shells].
  pose proof (sort_candidates_head (shell_candidates world tx ty tz radius))
    as Hs.
  destruct (sort_candidates _) as [|c rest].
  - intros H. destruct (IH H) as (before & r & after & c & -> & Hb & Hc).
    exists (radius :: before), r, after, c. split; [done|]. split; [|done].
    intros r' [->|Hr']%elem_of_cons; [done|by apply Hb].
  - intros [= <-]. destruct Hs as [Hin Hmin].
    exists [], radius, radii, c. repeat split; try done.
    intros r Hr. by apply elem_of_nil in Hr.
Qed.

Lemma search_shells_None (world : list Z) (tx ty tz : Z) (radii : list Z) :
  search_shells world tx ty tz radii = None →
  ∀ r, r ∈ radii → shell_candidates world tx ty tz r = [].
Proof.
  induction radii as [|radius radii IH]; intros H r Hr.
  - by apply elem_of_nil in Hr.
  - cbn [search_shells] in H.
    pose proof (sort_candidates_head (shell_candidates world tx ty tz radius))
      as Hs.
    destruct (sort_candidates _) as [|c rest]; [|done].
    apply elem_of_cons in Hr as [->|Hr]; [done|by apply IH].
Qed.

Lemma shell_candidates_nil (world : list Z) (tx ty tz radius : Z) :
  shell_candidates world tx ty tz radius = [] ↔
  ∀ dx dy dz, on_shell radius dx dy dz →
              empty_cell world (tx + dx) (ty + dy) (tz + dz) = false.
Proof.
  split.
  - intros Hnil dx dy dz Hs.
    destruct (empty_cell world _ _ _) eqn:E; [|done].
    assert (Hin : mkCandidate ((tx + dx)%Z, (ty + dy)%Z, (tz + dz)%Z)
                    (offset_length dx dy dz)
                  ∈ shell_candidates world tx ty tz radius).
    { apply elem_of_shell_candidates. by exists dx, dy, dz. }
    rewrite Hnil in Hin. by apply elem_of_nil in Hin.
  - intros H. destruct (shell_candidates world tx ty tz radius) as [|c l] eqn:E;
      [done|].
    assert (Hin : c ∈ shell_candidates world tx ty tz radius)
      by (rewrite E; by left).
    apply elem_of_shell_candidates in Hin as (dx & dy & dz & Hs & He & _).
    rewrite (H dx dy dz Hs) in He. done.
Qed.

Lemma findClosestEmptyPosition_Some (world : list Z) (tx ty tz x y z : Z) :
  findClosestEmptyPosition world tx ty tz = Some (x, y, z) →
  settle_choice world tx ty tz x y z ∧ empty_cell world x y z = true.
Proof.
  unfold findClosestEmptyPosition, settle_choice.
  destruct (empty_cell world tx ty tz) eqn:Et.
  - intros [= <- <- <-]. done.
  - intros H. apply search_shells_Some in H
      as (before & radius & after & c & Hradii & Hbefore & Hc & Hpos & Hmin).
    apply elem_of_shell_candidates in Hc as (dx & dy & dz & Hs & He & ->).
    cbn [cand_pos] in Hpos. injection Hpos as <- <- <-.
    split; [|done].
    assert (Hr : (1 ≤ radius ≤ 4)%Z
                 ∧ ∀ r, (1 ≤ r < radius)%Z → r ∈ before).
    { change (seqZ 1 4) with [1; 2; 3; 4]%Z in Hradii.
      destruct before as [|b1 [|b2 [|b3 [|b4 before]]]]; simplify_eq/=;
        try (by destruct before);
        (split; [lia|]); intros r Hr;
        repeat (apply elem_of_cons;
                match goal with
                | |- r = ?x ∨ _ =>
                    destruct (decide (r = x)) as [->|?]; [by left|right]
                end);
        exfalso; lia. }
    destruct Hr as [Hr Hlt].
    exists radius, dx, dy, dz.
    split; [lia|]. split; [done|]. split; [done|]. split.
    + intros r dx' dy' dz' Hr' Hs'.
      by apply (proj1 (shell_candidates_nil world tx ty tz r)
                  (Hbefore r (Hlt r Hr'))).
    + intros dx' dy' dz' Hs' He'.
      apply (Hmin (mkCandidate ((tx + dx')%Z, (ty + dy')%Z, (tz + dz')%Z)
                     (offset_length dx' dy' dz'))).
      apply elem_of_shell_candidates. by exists dx', dy', dz'.
Qed.

Lemma findClosestEmptyPosition_None (world : list Z) (tx ty tz : Z) :
  findClosestEmptyPosition world tx ty tz = None →
  empty_cell world tx ty tz = false
  ∧ ∀ radius dx dy dz, (1 ≤ radius ≤ 4)%Z → on_shell radius dx dy dz →
      empty_cell world (tx + dx) (ty + dy) (tz + dz) = false.
Proof.
  unfold findClosestEmptyPosition.
  destruct (empty_cell world tx ty tz) eqn:Et; [done|].
  intros H. split; [done|]. intros radius dx dy dz Hr Hs.
  apply (proj1 (shell_candidates_nil world tx ty tz radius)); [|done].
  apply (search_shells_None _ _ _ _ _ H). apply elem_of_seqZ. lia.
Qed.

Lemma empty_cell_true (world : list Z) (x y z : Z) :
  empty_cell world x y z = true ↔
  InGrid x y z ∧ truthy (getWorld world x y z) = false.
Proof.
  unfold empty_cell, InGrid, WORLD_SIZE.
  rewrite !andb_true_iff, negb_true_iff.
  split; intros H; destruct_and?; repeat split; (done || lia).
Qed.

Lemma delete_insert_same {A : Type} (l : list A) (j : nat) (x : A) :
  delete j (<[j := x]> l) = delete j l.
Proof.
  revert j. induction l as [|y l IH]; intros [|j]; cbn; [done..|].
  by rewrite IH.
Qed.

(** The tick loops remove a voxel exactly for the results that end it. *)
Lemma tickVoxel_moving (dt : R) (s : Server) (i : nat) :
  movingVoxels (MonolithVoxel.tickVoxel dt s i)
  = match fst (MonolithVoxel.update dt i s) with
    | Settled => splice1 i (movingVoxels (snd (MonolithVoxel.update dt i s)))
    | _ => movingVoxels (snd (MonolithVoxel.update dt i s))
    end
  ∧ movingVoxels (TrajectoryVoxel.tickVoxel dt s i)
    = match fst (TrajectoryVoxel.update dt i s) with
      | Continue => movingVoxels (snd (TrajectoryVoxel.update dt i s))
      | _ => splice1 i (movingVoxels (snd (TrajectoryVoxel.update dt i s)))
      end.
Proof.
  unfold MonolithVoxel.tickVoxel, TrajectoryVoxel.tickVoxel.
  destruct (MonolithVoxel.update dt i s) as [[] s1];
    destruct (TrajectoryVoxel.update dt i s) as [[] s2]; done.
Qed.

(** [update] answers ['settled'] only when its [settleToGrid] does. *)
Lemma update_settled (dt : R) (i : nat) (s : Server) :
  (fst (MonolithVoxel.update dt i s) = Settled →
   ∃ this' s', fst (settleToGrid this' s') = Settled
     ∧ snd (MonolithVoxel.update dt i s)
       = store_voxel i this' (snd (settleToGrid this' s')))
  ∧ (fst (TrajectoryVoxel.update dt i s) = Settled →
     ∃ this' s', fst (settleToGrid this' s') = Settled
       ∧ snd (TrajectoryVoxel.update dt i s)
         = store_voxel i this' (snd (settleToGrid this' s'))).
Proof.
  split.
  - unfold MonolithVoxel.update.
    destruct (movingVoxels s !! i) as [this|]; [|done].
    destruct (isPlayerVoxel this); [done|].
    destruct (MonolithVoxel.updateMotion _ _ _) as [this2 s2].
    destruct (handleVoxelCollisions _ _ _ _) as [this3 l3].
    destruct (MonolithVoxel.playerCollisions _ _) as [[returned this4] s4].
    destruct returned; [done|].
    unfold checkSettling. cbv zeta.
    destruct (_ || _); [|done]. cbn [fst snd].
    intros H. by eexists _, _.
  - unfold TrajectoryVoxel.update.
    destruct (movingVoxels s !! i) as [this|]; [|done].
    destruct (isPlayerVoxel this); [done|].
    destruct (sweptMove _ _ _ _ _) as [this2 s2].
    destruct (if isProjectile this2 then _ else _) as [[killed this3] ps3].
    destruct killed; [done|].
    destruct (handleVoxelCollisions _ _ _ _) as [this5 l5].
    destruct (if negb (isProjectile this5) then _ else _) as [this6 ps6].
    unfold checkSettling. cbv zeta.
    destruct (_ || _); [|done]. cbn [fst snd].
    intros H. by eexists _, _.
Qed.

Lemma update_from_settling (dt : R) (i : nat) (s : Server)
    (this4 : MovingVoxel) (s4 : Server) :
  Monolith_beforeSettling dt i s = Some (this4, s4) →
  MonolithVoxel.update dt i s
  = ((checkSettling this4 s4).1.1,
     store_voxel i (checkSettling this4 s4).1.2 (checkSettling this4 s4).2).
Proof.
  unfold Monolith_beforeSettling, MonolithVoxel.update.
  destruct (movingVoxels s !! i) as [this|]; [|done].
  destruct (isPlayerVoxel this); [done|]. cbv zeta.
  destruct (MonolithVoxel.updateMotion _ _ _) as [this2 s2].
  destruct (handleVoxelCollisions _ _ _ _) as [this3 l3].
  destruct (MonolithVoxel.playerCollisions _ _) as [[returned this4'] s4'].
  destruct returned; [done|]. intros [= -> ->].
  by destruct (checkSettling this4 s4) as [[result this5] s5].
Qed.

(** The attempt to settle inside [update] and the loop of [updatePhysics]
    around it. *)
Lemma settle_attempt_tick (dt : R) (i : nat) (s0 : Server)
    (this4 : MovingVoxel) (s4 : Server) :
  Monolith_beforeSettling dt i s0 = Some (this4, s4) →
  attemptsToSettle this4 = true →
  let this5 := set_lastPos (pos this4) this4 in
  let tx := Math_round (vx (pos this4) - 5 / 10) in
  let ty := Math_round (vy (pos this4) - 5 / 10) in
  let tz := Math_round (vz (pos this4) - 5 / 10) in
  let s' := MonolithVoxel.tickVoxel dt s0 i in
  match findClosestEmptyPosition (world s4) tx ty tz with
  | Some (x, y, z) =>
      fst (MonolithVoxel.update dt i s0) = Settled
      ∧ world s' = fst (setWorld (world s4) x y z 1)
      ∧ movingVoxels s' = delete i (movingVoxels s4)
  | None =>
      fst (MonolithVoxel.update dt i s0) = Continue
      ∧ world s' = world s4
      ∧ movingVoxels s' = <[i := this5]> (movingVoxels s4)
  end.
Proof.
  intros Hb Ha. cbv zeta. unfold MonolithVoxel.tickVoxel.
  rewrite (update_from_settling dt i s0 this4 s4 Hb).
  unfold checkSettling. cbv zeta.
  unfold attemptsToSettle in Ha. rewrite Ha. cbn [fst snd].
  unfold settleToGrid. cbv zeta. cbn [pos set_lastPos].
  destruct (findClosestEmptyPosition _ _ _ _) as [[[x y] z]|].
  - cbn [fst snd]. split; [done|]. split; [done|].
    cbn. apply delete_insert_same.
  - cbn [fst snd]. by split.
Qed.

Lemma isPositionValid_empty_world (sz : R) (p : vec3) :
  isPositionValid sz empty_world p = true.
Proof.
  unfold isPositionValid. apply forallb_forall. intros q _.
  unfold solid_at. by rewrite getWorld_empty_world.
Qed.

(** A tick of a debris voxel that is alone in an empty world without
    players: gravity and the free move, nothing else. *)
Lemma lone_debris_before (dt r : R) (this : MovingVoxel) :
  isPlayerVoxel this = false → isProjectile this = false →
  size this <= vy (pos this) + (vy (vel this) - GRAVITY * dt) * dt →
  size this <= vx (pos this) + vx (vel this) * dt <= 128 - size this →
  size this <= vz (pos this) + vz (vel this) * dt <= 128 - size this →
  let moved :=
    set_pos (at_time (pos this) (vel (applyGravity dt this)) dt)
            (applyGravity dt this) in
  Monolith_beforeSettling dt 0 (server_of empty_world [] [this] r)
  = Some (moved, server_of empty_world [] [this] r).
Proof.
  intros Hpv Hpr Hy Hx Hz. cbv zeta.
  unfold Monolith_beforeSettling.
  change (movingVoxels (server_of empty_world [] [this] r) !! 0%nat)
    with (Some this).
  cbv beta iota. rewrite Hpv, Hpr.
  unfold MonolithVoxel.updateMotion, sweptMove. cbv zeta.
  unfold findCollisionTime.
  change (world (server_of empty_world [] [this] r)) with empty_world.
  rewrite isPositionValid_empty_world. cbn [fst snd].
  set (moved := set_pos _ (applyGravity dt this)).
  assert (Hb : handleWorldBoundaries moved = moved).
  { unfold handleWorldBoundaries. cbv zeta.
    assert (Hp : pos moved
                 = V3 (vx (pos this) + vx (vel this) * dt)
                      (vy (pos this) + (vy (vel this) - GRAVITY * dt) * dt)
                      (vz (pos this) + vz (vel this) * dt)) by reflexivity.
    assert (Hs : size moved = size this) by reflexivity.
    rewrite (proj2 (Rltb_false _ _)) by (rewrite Hp, Hs; cbn [vy]; lra).
    rewrite Hp, Hs. cbn [vx vy vz].
    unfold Math_max, Math_min, WORLD_SIZE.
    rewrite !Rmin_right, !Rmax_right by lra.
    rewrite <- Hp. by destruct moved. }
  rewrite Hb.
  change (movingVoxels (server_of empty_world [] [this] r)) with [this].
  unfold handleVoxelCollisions. cbn [length seq fold_left Nat.eqb fst snd].
  unfold MonolithVoxel.playerCollisions.
  replace (isProjectile moved) with false by (symmetry; exact Hpr).
  cbn [andb]. reflexivity.
Qed.

(** ** The moving list never shrinks before the settling step *)

Lemma moving_length_fold {K : Type} (f : Server → K → Server) (ks : list K)
    (s : Server) :
  (∀ s k, (length (movingVoxels s) ≤ length (movingVoxels (f s k)))%nat) →
  (length (movingVoxels s) ≤ length (movingVoxels (fold_left f ks s)))%nat.
Proof.
  intros Hf. revert s. induction ks as [|k ks IH]; intros s; [done|].
  cbn [fold_left]. etrans; [apply Hf|apply IH].
Qed.

Lemma destroy_cell_moving_length (this : MovingVoxel) (xi yi zi : Z)
    (speed : R) (s : Server) (dx dy dz : Z) :
  (length (movingVoxels s)
   ≤ length (movingVoxels (destroy_cell this xi yi zi speed s dx dy dz)))%nat.
Proof.
  unfold destroy_cell. cbv zeta.
  destruct (_ && _); [|done].
  destruct (_ >? 5 / 10); [|done].
  unfold Math_random.
  destruct (_ <? _); [|done].
  destruct (_ >? 0); [|done].
  cbn [movingVoxels set_terrainNeedsRebuild set_world set_movingVoxels].
  rewrite length_app. lia.
Qed.

Lemma handleCollision_moving_length (collision : CollisionInfo)
    (this : MovingVoxel) (s : Server) :
  (length (movingVoxels s)
   ≤ length (movingVoxels (handleCollision collision this s).2))%nat.
Proof.
  destruct (handleCollision_cases collision this s) as [->|(this1 & -> & _)];
    [done|].
  rewrite createDestruction_flat. cbn [snd].
  apply moving_length_fold. intros. apply destroy_cell_moving_length.
Qed.

Lemma sweptMove_moving_length
    (info : R → list Z → vec3 → option CollisionInfo) (dt : R)
    (this : MovingVoxel) (s : Server) :
  (length (movingVoxels s)
   ≤ length (movingVoxels (sweptMove info handleCollision dt this s).2))%nat.
Proof.
  unfold sweptMove. cbv zeta.
  destruct (findCollisionTime _ _ _ _ _ _) as [t|]; [|done].
  destruct (t >? 0); [|done].
  destruct (info _ _ _) as [c|]; [|done].
  apply handleCollision_moving_length.
Qed.

Lemma handleVoxelCollisions_length
    (check : MovingVoxel → MovingVoxel → bool) (i : nat)
    (this : MovingVoxel) (l : list MovingVoxel) :
  length (handleVoxelCollisions check i this l).2 = length l.
Proof.
  unfold handleVoxelCollisions.
  generalize (seq 0 (length l)). intros js.
  enough (H : ∀ st, length (fold_left
            (λ (st : MovingVoxel * list MovingVoxel) j,
               if Nat.eqb j i then st
               else match snd st !! j with
                    | Some otherVoxel =>
                        if check (fst st) otherVoxel then
                          let r := handleVoxelCollision (fst st) otherVoxel in
                          (fst r, <[j := snd r]> (snd st))
                        else st
                    | None => st
                    end) js st).2 = length st.2) by apply H.
  induction js as [|j js IH]; intros st; [done|].
  cbn [fold_left]. rewrite IH.
  destruct (Nat.eqb j i); [done|].
  destruct (st.2 !! j); [|done].
  destruct (check _ _); [|done].
  cbn [snd]. apply length_insert.
Qed.

Lemma handlePlayerVoxelCollision_moving_length (this playerVoxel : MovingVoxel)
    (s : Server) :
  (length (movingVoxels s)
   ≤ length (movingVoxels
       (MonolithVoxel.handlePlayerVoxelCollision this playerVoxel s).2))%nat.
Proof.
  unfold MonolithVoxel.handlePlayerVoxelCollision. cbv zeta.
  destruct (_ && _ && _); [|done].
  unfold Math_random.
  cbn [snd movingVoxels set_movingVoxels]. rewrite length_app. lia.
Qed.

Lemma scanBody_moving_length (indices : list nat) (this : MovingVoxel)
    (body : list MovingVoxel) (s : Server) :
  (length (movingVoxels s)
   ≤ length (movingVoxels (MonolithVoxel.scanBody indices this body s).2))%nat.
Proof.
  revert this body s.
  induction indices as [|i rest IH]; intros this body s;
    cbn [MonolithVoxel.scanBody]; [done|].
  destruct (body !! i) as [pv|]; [|apply IH].
  destruct (checkVoxelToVoxelCollision this pv); [|apply IH].
  pose proof (handlePlayerVoxelCollision_moving_length this pv s) as Hf.
  destruct (MonolithVoxel.handlePlayerVoxelCollision this pv s)
    as [[[removed this1] pv1] s1].
  cbn [snd] in Hf.
  destruct removed; [done|].
  destruct (_ && _); [done|].
  etrans; [exact Hf|apply IH].
Qed.

Lemma scanPlayers_moving_length (ks : list nat) (this : MovingVoxel)
    (s : Server) :
  (length (movingVoxels s)
   ≤ length (movingVoxels (MonolithVoxel.scanPlayers ks this s).2))%nat.
Proof.
  revert this s.
  induction ks as [|k rest IH]; intros this s;
    cbn [MonolithVoxel.scanPlayers]; [done|].
  destruct (players s !! k) as [[playerId player]|]; [|apply IH].
  destruct (MonolithVoxel.throwerGate playerId player this) as [this1|];
    [|apply IH].
  pose proof (scanBody_moving_length (rev (seq 0 (length (bodyVoxels player))))
                this1 (bodyVoxels player) s) as Hf.
  destruct (MonolithVoxel.scanBody _ this1 (bodyVoxels player) s)
    as [[[returned this2] body] s1].
  cbn [snd] in Hf. cbv zeta.
  set (s2 := set_players _ s1).
  assert (Hf2 : (length (movingVoxels s) ≤ length (movingVoxels s2))%nat)
    by exact Hf.
  destruct returned; [done|].
  etrans; [exact Hf2|apply IH].
Qed.

(** The voxel of the tick is still at its index when [update] reaches the
    settling step. *)
Lemma beforeSettling_index (dt : R) (i : nat) (s0 : Server)
    (this4 : MovingVoxel) (s4 : Server) :
  Monolith_beforeSettling dt i s0 = Some (this4, s4) →
  (i < length (movingVoxels s4))%nat.
Proof.
  unfold Monolith_beforeSettling.
  destruct (movingVoxels s0 !! i) as [this|] eqn:Hi; [|done].
  apply lookup_lt_Some in Hi.
  destruct (isPlayerVoxel this); [done|].
  set (this1 := if isProjectile this then _ else this).
  unfold MonolithVoxel.updateMotion. cbv zeta.
  pose proof (sweptMove_moving_length getCollisionInfo dt
                (applyGravity dt this1) s0) as H2.
  destruct (sweptMove _ _ _ _ _) as [this2 s2]. cbn [fst snd] in *.
  pose proof (handleVoxelCollisions_length checkVoxelToVoxelCollision i
                (handleWorldBoundaries this2) (movingVoxels s2)) as H3.
  destruct (handleVoxelCollisions _ _ _ _) as [this3 l3]. cbn [snd] in H3.
  unfold MonolithVoxel.playerCollisions.
  destruct (_ && _).
  - pose proof (scanPlayers_moving_length (seq 0 (length (players
        (set_movingVoxels l3 s2)))) this3 (set_movingVoxels l3 s2)) as H4.
    destruct (MonolithVoxel.scanPlayers _ _ _) as [[returned this4'] s4'].
    cbn [snd movingVoxels set_movingVoxels] in H4.
    destruct returned; [done|]. intros [= <- <-]. lia.
  - intros [= <- <-]. cbn [movingVoxels set_movingVoxels]. lia.
Qed.

Lemma Math_round_integer (n : Z) (r : R) :
  IZR n - 1 / 2 <= r < IZR n + 1 / 2 → Math_round r = n.
Proof.
  intros H. unfold Math_round. apply Math_floor_unique. lra.
Qed.

(** The first tick of [floating_debris] alone in the empty world: it has
    fallen by 0.016 and moves at 0.8, below the settle threshold. *)
Lemma floating_debris_before :
  let moved :=
    set_pos (at_time (pos floating_debris)
               (vel (applyGravity (1 / 50) floating_debris)) (1 / 50))
            (applyGravity (1 / 50) floating_debris) in
  Monolith_beforeSettling (1 / 50) 0
    (server_of empty_world [] [floating_debris] (99 / 100))
  = Some (moved, server_of empty_world [] [floating_debris] (99 / 100))
  ∧ attemptsToSettle moved = true
  ∧ findClosestEmptyPosition empty_world
      (Math_round (vx (pos moved) - 5 / 10))
      (Math_round (vy (pos moved) - 5 / 10))
      (Math_round (vz (pos moved) - 5 / 10)) = Some (10, 10, 10)%Z.
Proof.
  cbv zeta. split; [|split].
  - apply lone_debris_before; try done;
      cbn [floating_debris debris_at newMovingVoxel vscale size pos vel vx vy vz];
      unfold VOXEL_SIZE, GRAVITY; lra.
  - unfold attemptsToSettle. apply orb_true_iff. left.
    apply Rltb_true. unfold SETTLE_SPEED_THRESHOLD.
    cbn [vel set_pos applyGravity set_vel floating_debris debris_at vscale
         newMovingVoxel vx vy vz].
    unfold norm, sumsq, Math_sqrt. cbn [vx vy vz].
    apply Rsqr_incrst_0; [|apply sqrt_pos|lra].
    rewrite Rsqr_sqrt; unfold Rsqr, GRAVITY; nra.
  - cbn [pos set_pos at_time vx vy vz].
    cbn [vel applyGravity set_vel floating_debris debris_at newMovingVoxel vscale
         pos vx vy vz].
    rewrite (Math_round_integer 10), (Math_round_integer 10)
      by (unfold GRAVITY; lra).
    unfold findClosestEmptyPosition.
    rewrite (proj2 (empty_cell_true empty_world 10 10 10)); [done|].
    split; [unfold InGrid, WORLD_SIZE; lia|].
    by rewrite getWorld_empty_world.
Qed.

(** ** The grid keeps its length through a tick *)

Lemma world_length_fold {K : Type} (f : Server → K → Server) (ks : list K)
    (s : Server) :
  (∀ s k, length (world (f s k)) = length (world s)) →
  length (world (fold_left f ks s)) = length (world s).
Proof.
  intros Hf. revert s. induction ks as [|k ks IH]; intros s; [done|].
  cbn [fold_left]. by rewrite IH.
Qed.

Lemma destroy_cell_world_length (this : MovingVoxel) (xi yi zi : Z)
    (speed : R) (s : Server) (dx dy dz : Z) :
  length (world (destroy_cell this xi yi zi speed s dx dy dz))
  = length (world s).
Proof.
  destruct (destroy_cell_outcome this xi yi zi speed s dx dy dz)
    as ([-> _ | debris -> _ _ _ _ _ _ _ _ _ _ _] & _); [done|].
  apply setWorld_length.
Qed.

Lemma sweptMove_world_length
    (info : R → list Z → vec3 → option CollisionInfo) (dt : R)
    (this : MovingVoxel) (s : Server) :
  length (world (sweptMove info handleCollision dt this s).2)
  = length (world s).
Proof.
  unfold sweptMove. cbv zeta.
  destruct (findCollisionTime _ _ _ _ _ _) as [t|]; [|done].
  destruct (t >? 0); [|done].
  destruct (info _ _ _) as [c|]; [|done].
  destruct (handleCollision_cases c (set_pos (at_time (pos this) (vel this)
              (Math_max 0 (t - 1 / 1000))) this) s)
    as [->|(this1 & -> & _)]; [done|].
  rewrite createDestruction_flat. cbn [snd].
  apply world_length_fold. intros. apply destroy_cell_world_length.
Qed.

Lemma scanBody_world (indices : list nat) (this : MovingVoxel)
    (body : list MovingVoxel) (s : Server) :
  world (MonolithVoxel.scanBody indices this body s).2 = world s.
Proof.
  revert this body s.
  induction indices as [|i rest IH]; intros this body s;
    cbn [MonolithVoxel.scanBody]; [done|].
  destruct (body !! i) as [pv|]; [|apply IH].
  destruct (checkVoxelToVoxelCollision this pv); [|apply IH].
  assert (Hf : world (MonolithVoxel.handlePlayerVoxelCollision this pv s).2
               = world s).
  { unfold MonolithVoxel.handlePlayerVoxelCollision. cbv zeta.
    by destruct (_ && _ && _). }
  destruct (MonolithVoxel.handlePlayerVoxelCollision this pv s)
    as [[[removed this1] pv1] s1].
  cbn [snd] in Hf.
  destruct removed; [done|].
  destruct (_ && _); [done|].
  by rewrite IH.
Qed.

Lemma scanPlayers_world (ks : list nat) (this : MovingVoxel) (s : Server) :
  world (MonolithVoxel.scanPlayers ks this s).2 = world s.
Proof.
  revert this s.
  induction ks as [|k rest IH]; intros this s;
    cbn [MonolithVoxel.scanPlayers]; [done|].
  destruct (players s !! k) as [[playerId player]|]; [|apply IH].
  destruct (MonolithVoxel.throwerGate playerId player this) as [this1|];
    [|apply IH].
  pose proof (scanBody_world (rev (seq 0 (length (bodyVoxels player))))
                this1 (bodyVoxels player) s) as Hf.
  destruct (MonolithVoxel.scanBody _ this1 (bodyVoxels player) s)
    as [[[returned this2] body] s1].
  cbn [snd] in Hf. cbv zeta.
  destruct returned; [done|].
  by rewrite IH.
Qed.

(** The grid has its length when [update] reaches the settling step. *)
Lemma beforeSettling_world_length (dt : R) (i : nat) (s0 : Server)
    (this4 : MovingVoxel) (s4 : Server) :
  Monolith_beforeSettling dt i s0 = Some (this4, s4) →
  length (world s4) = length (world s0).
Proof.
  unfold Monolith_beforeSettling.
  destruct (movingVoxels s0 !! i) as [this|]; [|done].
  destruct (isPlayerVoxel this); [done|].
  set (this1 := if isProjectile this then _ else this).
  unfold MonolithVoxel.updateMotion. cbv zeta.
  pose proof (sweptMove_world_length getCollisionInfo dt
                (applyGravity dt this1) s0) as H2.
  destruct (sweptMove _ _ _ _ _) as [this2 s2]. cbn [fst snd] in *.
  destruct (handleVoxelCollisions _ _ _ _) as [this3 l3].
  unfold MonolithVoxel.playerCollisions.
  destruct (_ && _).
  - pose proof (scanPlayers_world (seq 0 (length (players
        (set_movingVoxels l3 s2)))) this3 (set_movingVoxels l3 s2)) as H4.
    destruct (MonolithVoxel.scanPlayers _ _ _) as [[returned this4'] s4'].
    cbn [snd world set_movingVoxels] in H4.
    destruct returned; [done|]. intros [= <- <-]. by rewrite H4.
  - by intros [= <- <-].
Qed.

(** C7. Settling.  [settleToGrid] looks for an empty cell of the grid at
    the rounded target [round(pos - 0.5)], then on the cubic shells of
    radius 1 to 4 around it.  When the search finds a cell, that cell was
    empty, it is the target or else a nearest empty cell of the first
    shell that has one, it is solid afterwards, no other cell of the grid
    changes, and the answer is ['settled'], for which the tick loop deletes
    the voxel from the moving list.  When there is no such cell, the
    answer is ['continue'] and the server is as it was: the grid is
    unchanged and the voxel stays in the list.

    The last part follows a whole tick of the voxel of index [i] on a
    grid of the allocated length.  Let [update] reach its settling test
    with the voxel [this4] and the server [s4], and let the test succeed
    (the voxel attempts to settle).  The voxel is then still at the index
    [i] of the moving list.  If the search from the rounded target of
    [this4] finds a cell, [update] answers ['settled']; the cell is the
    target or else a nearest empty cell of the first shell that has one, it
    is in the grid, it was empty in [s4] and is solid after the tick, no
    other cell of the grid differs from [s4], and the moving list after
    the tick is the list of [s4] without its element of index [i], one
    element shorter.  If the search finds none, [update] answers
    ['continue'], the grid after the tick is the grid of [s4], and the
    moving list is the list of [s4], of the same length, with the voxel at
    the index [i]. *)
Theorem settle_places_one_cell (this : MovingVoxel) (s : Server) :
  length (world s) = world_length →
  let tx := Math_round (vx (pos this) - 5 / 10) in
  let ty := Math_round (vy (pos this) - 5 / 10) in
  let tz := Math_round (vz (pos this) - 5 / 10) in
  let r := settleToGrid this s in
  match findClosestEmptyPosition (world s) tx ty tz with
  | Some (x, y, z) =>
      fst r = Settled
      ∧ settle_choice (world s) tx ty tz x y z
      ∧ InGrid x y z
      ∧ truthy (getWorld (world s) x y z) = false
      ∧ truthy (getWorld (world (snd r)) x y z) = true
      ∧ (∀ x' y' z', (x', y', z') ≠ (x, y, z) →
           getWorld (world (snd r)) x' y' z' = getWorld (world s) x' y' z')
      ∧ movingVoxels (snd r) = movingVoxels s
  | None =>
      r = (Continue, s)
      ∧ empty_cell (world s) tx ty tz = false
      ∧ ∀ radius dx dy dz, (1 ≤ radius ≤ 4)%Z → on_shell radius dx dy dz →
          empty_cell (world s) (tx + dx) (ty + dy) (tz + dz) = false
  end
  ∧ (∀ dt i s0,
       movingVoxels (MonolithVoxel.tickVoxel dt s0 i)
       = match fst (MonolithVoxel.update dt i s0) with
         | Settled =>
             splice1 i (movingVoxels (snd (MonolithVoxel.update dt i s0)))
         | _ => movingVoxels (snd (MonolithVoxel.update dt i s0))
         end)
  ∧ (∀ dt i s0,
       fst (MonolithVoxel.update dt i s0) = Settled →
       ∃ this' s', fst (settleToGrid this' s') = Settled
         ∧ snd (MonolithVoxel.update dt i s0)
           = store_voxel i this' (snd (settleToGrid this' s')))
  ∧ (∀ dt i s0 this4 s4,
       length (world s0) = world_length →
       Monolith_beforeSettling dt i s0 = Some (this4, s4) →
       attemptsToSettle this4 = true →
       let tx4 := Math_round (vx (pos this4) - 5 / 10) in
       let ty4 := Math_round (vy (pos this4) - 5 / 10) in
       let tz4 := Math_round (vz (pos this4) - 5 / 10) in
       let s' := MonolithVoxel.tickVoxel dt s0 i in
       (i < length (movingVoxels s4))%nat
       ∧ match findClosestEmptyPosition (world s4) tx4 ty4 tz4 with
         | Some (x, y, z) =>
             fst (MonolithVoxel.update dt i s0) = Settled
             ∧ settle_choice (world s4) tx4 ty4 tz4 x y z
             ∧ InGrid x y z
             ∧ truthy (getWorld (world s4) x y z) = false
             ∧ truthy (getWorld (world s') x y z) = true
             ∧ (∀ x' y' z', (x', y', z') ≠ (x, y, z) →
                  getWorld (world s') x' y' z' = getWorld (world s4) x' y' z')
             ∧ world s' = fst (setWorld (world s4) x y z 1)
             ∧ movingVoxels s' = delete i (movingVoxels s4)
             ∧ length (movingVoxels s') = pred (length (movingVoxels s4))
         | None =>
             fst (MonolithVoxel.update dt i s0) = Continue
             ∧ world s' = world s4
             ∧ movingVoxels s'
               = <[i := set_lastPos (pos this4) this4]> (movingVoxels s4)
             ∧ movingVoxels s' !! i = Some (set_lastPos (pos this4) this4)
             ∧ length (movingVoxels s') = length (movingVoxels s4)
         end).
Proof.
  intros Hlen. cbv zeta.
  split; [|split; [intros; apply tickVoxel_moving
                  |split; [intros dt i s0; apply update_settled|]]].
  - unfold settleToGrid.
    destruct (findClosestEmptyPosition _ _ _ _) as [[[x y] z]|] eqn:E.
    + apply findClosestEmptyPosition_Some in E as [Hchoice He].
      apply empty_cell_true in He as [Hin Hempty].
      cbn [fst snd world set_world set_terrainNeedsRebuild movingVoxels].
      split; [done|]. split; [done|]. split; [done|]. split; [done|].
      split; [|split; [|done]].
      * rewrite getWorld_setWorld_same by done. done.
      * intros. by apply getWorld_setWorld_other.
    + split; [done|]. by apply findClosestEmptyPosition_None.
  - intros dt i s0 this4 s4 Hlen0 Hb Ha.
    pose proof (beforeSettling_index _ _ _ _ _ Hb) as Hi.
    pose proof (beforeSettling_world_length _ _ _ _ _ Hb) as Hlen4.
    rewrite Hlen0 in Hlen4.
    split; [exact Hi|].
    pose proof (settle_attempt_tick _ _ _ _ _ Hb Ha) as H. cbv zeta in H.
    destruct (findClosestEmptyPosition _ _ _ _) as [[[x y] z]|] eqn:E.
    + destruct H as (H1 & H2 & H3).
      apply findClosestEmptyPosition_Some in E as [Hchoice He].
      apply empty_cell_true in He as [Hin Hempty].
      split; [done|]. split; [done|]. split; [done|]. split; [done|].
      split; [rewrite H2; by rewrite getWorld_setWorld_same|].
      split; [intros; rewrite H2; by apply getWorld_setWorld_other|].
      split; [done|]. split; [done|].
      rewrite H3, length_delete by (by apply lookup_lt_is_Some_2). lia.
    + destruct H as (H1 & H2 & H3). repeat split; try done.
      * rewrite H3. by apply list_lookup_insert_eq.
      * rewrite H3. apply length_insert.
Qed.

Lemma empty_world_length : length empty_world = world_length.
Proof. apply length_replicate. Qed.

Lemma one_block_world_length : length one_block_world = world_length.
Proof.
  unfold one_block_world. rewrite setWorld_length. apply length_replicate.
Qed.

Lemma settle_places_one_cell_witness :
  (let this := debris_at (V3 (105 / 10) (105 / 10) (105 / 10)) in
   let s := server_of one_block_world [] [this] (99 / 100) in
   let tx := Math_round (vx (pos this) - 5 / 10) in
   let ty := Math_round (vy (pos this) - 5 / 10) in
   let tz := Math_round (vz (pos this) - 5 / 10) in
   let r := settleToGrid this s in
   match findClosestEmptyPosition (world s) tx ty tz with
   | Some (x, y, z) =>
       fst r = Settled
       ∧ settle_choice (world s) tx ty tz x y z
       ∧ InGrid x y z
       ∧ truthy (getWorld (world s) x y z) = false
       ∧ truthy (getWorld (world (snd r)) x y z) = true
       ∧ (∀ x' y' z', (x', y', z') ≠ (x, y, z) →
            getWorld (world (snd r)) x' y' z' = getWorld (world s) x' y' z')
       ∧ movingVoxels (snd r) = movingVoxels s
   | None =>
       r = (Continue, s)
       ∧ empty_cell (world s) tx ty tz = false
       ∧ ∀ radius dx dy dz, (1 ≤ radius ≤ 4)%Z → on_shell radius dx dy dz →
           empty_cell (world s) (tx + dx) (ty + dy) (tz + dz) = false
   end)
  ∧ (let s0 := server_of empty_world [] [floating_debris] (99 / 100) in
     fst (MonolithVoxel.update (1 / 50) 0 s0) = Settled
     ∧ world (MonolithVoxel.tickVoxel (1 / 50) s0 0) = one_block_world
     ∧ movingVoxels (MonolithVoxel.tickVoxel (1 / 50) s0 0) = []).
Proof.
  split.
  - exact (proj1 (settle_places_one_cell
                    (debris_at (V3 (105 / 10) (105 / 10) (105 / 10)))
                    (server_of one_block_world []
                       [debris_at (V3 (105 / 10) (105 / 10) (105 / 10))]
                       (99 / 100))
                    one_block_world_length)).
  - destruct floating_debris_before as (Hb & Ha & Hf).
    pose proof (proj2 (proj2 (proj2 (proj2 (settle_places_one_cell
                  (debris_at (V3 (105 / 10) (105 / 10) (105 / 10)))
                  (server_of one_block_world []
                     [debris_at (V3 (105 / 10) (105 / 10) (105 / 10))]
                     (99 / 100))
                  one_block_world_length))) (1 / 50) 0%nat
                  (server_of empty_world [] [floating_debris] (99 / 100))
                  _ _ empty_world_length Hb Ha)) as H.
    cbv zeta in H.
    change (world (server_of empty_world [] [floating_debris] (99 / 100)))
      with empty_world in H.
    rewrite Hf in H. destruct H as (H1 & _ & _ & _ & _ & _ & H2 & H3 & _).
    split; [exact H1|]. split; [exact H2|exact H3].
Defined.

(** ** The step rule of the players *)




(** ** The centre of a player *)

Lemma sumsq_nonneg (v : vec3) : 0 <= sumsq v.
Proof. unfold sumsq. nra. Qed.

Lemma norm_nonneg (v : vec3) : 0 <= norm v.
Proof. apply sqrt_pos. Qed.

Lemma norm_scale (k : R) (v : vec3) :
  0 <= k → norm (vscale k v) = k * norm v.
Proof.
  intros Hk. unfold norm, Math_sqrt.
  replace (sumsq (vscale k v)) with (k * k * sumsq v)
    by (unfold sumsq, vscale; simpl; ring).
  rewrite sqrt_mult; [|nra|apply sumsq_nonneg].
  by rewrite sqrt_square.
Qed.

Lemma norm_zero : norm (V3 0 0 0) = 0.
Proof.
  unfold norm, sumsq, Math_sqrt. simpl.
  replace (0 * 0 + 0 * 0 + 0 * 0) with 0 by ring. apply sqrt_0.
Qed.

(** The first step of [updatePhysics] of Player.js moves the centre along
    the line to the mean [m] of the body voxels, by the fraction [k]. *)
Lemma smoothCenter_fraction (p : Player) :
  let m := getCenterPosition p in
  let c := centerPos p in
  let d := dist m c in
  ∃ k, 0 <= k <= 1
    ∧ centerPos (PlayerJs.smoothCenter p) = vadd c (vscale k (vsub m c))
    ∧ (d <= 2 → k = 1)
    ∧ (2 < d → k = 2 / d)
    ∧ bodyVoxels (PlayerJs.smoothCenter p) = bodyVoxels p.
Proof.
  cbv zeta. unfold PlayerJs.smoothCenter. cbv zeta.
  change (Math_sqrt _) with (dist (getCenterPosition p) (centerPos p)).
  set (d := dist (getCenterPosition p) (centerPos p)).
  destruct (d <=? 2) eqn:E.
  - apply Rleb_true in E. exists 1. split; [lra|]. split.
    + cbn [centerPos set_centerPos]. apply vec3_eq; simpl; ring.
    + split; [done|]. split; [lra|done].
  - apply Rleb_false in E. exists (2 / d).
    assert (Hk : 0 <= 2 / d <= 1).
    { split.
      - apply Rlt_le, Rdiv_lt_0_compat; lra.
      - apply Rlt_le. apply (Rmult_lt_reg_r d); [lra|].
        unfold Rdiv. rewrite Rmult_assoc, Rinv_l by lra. lra. }
    split; [done|]. split.
    + cbn [centerPos set_centerPos]. apply vec3_eq; simpl; ring.
    + split; [lra|]. split; [done|done].
Qed.

Lemma Reqb_true (x y : R) : Reqb x y = true ↔ x = y.
Proof. unfold Reqb. destruct (Req_dec_T x y); split; (done || congruence). Qed.

Lemma set_pos_same (v : MovingVoxel) (q : vec3) : q = pos v → set_pos q v = v.
Proof. intros ->. by destruct v. Qed.

Lemma shift_voxels_zero (delta : vec3) (l : list MovingVoxel) :
  delta = V3 0 0 0 → shift_voxels delta l = l.
Proof.
  intros ->. unfold shift_voxels. induction l as [|v l IH]; [done|].
  cbn [map]. rewrite IH. f_equal. apply set_pos_same.
  destruct (pos v). apply vec3_eq; simpl; ring.
Qed.

Lemma shift_voxels_compose (a b : vec3) (l : list MovingVoxel) :
  shift_voxels b (shift_voxels a l) = shift_voxels (vadd a b) l.
Proof.
  unfold shift_voxels. rewrite map_map. apply map_ext. intros v.
  destruct v. unfold set_pos. cbn. f_equal. apply vec3_eq; simpl; ring.
Qed.

Lemma shift_voxels_eq (a b : vec3) (l : list MovingVoxel) :
  a = b → shift_voxels a l = shift_voxels b l.
Proof. by intros ->. Qed.

Lemma moved_together_refl (p : Player) : moved_together p p.
Proof.
  exists (V3 0 0 0). split.
  - destruct (centerPos p). apply vec3_eq; simpl; ring.
  - by rewrite shift_voxels_zero.
Qed.

Lemma moved_together_same (p q : Player) :
  centerPos q = centerPos p → bodyVoxels q = bodyVoxels p →
  moved_together p q.
Proof.
  intros Hc Hb. destruct (moved_together_refl p) as (delta & H1 & H2).
  exists delta. by rewrite Hc, Hb.
Qed.

Lemma moved_together_trans (p q r : Player) :
  moved_together p q → moved_together q r → moved_together p r.
Proof.
  intros (a & Hc1 & Hb1) (b & Hc2 & Hb2). exists (vadd a b). split.
  - rewrite Hc2, Hc1. apply vec3_eq; simpl; ring.
  - by rewrite Hb2, Hb1, shift_voxels_compose.
Qed.

Lemma moved_together_vertical (p q : Player) (dy : R) :
  centerPos q = V3 (vx (centerPos p)) (vy (centerPos p) + dy) (vz (centerPos p)) →
  bodyVoxels q = shift_voxels (V3 0 dy 0) (bodyVoxels p) →
  moved_together p q.
Proof.
  intros Hc Hb. exists (V3 0 dy 0). split; [|done].
  rewrite Hc. apply vec3_eq; simpl; ring.
Qed.

Lemma checkGroundCollision_together (heights : list Z) (p : Player) :
  moved_together p (checkGroundCollision heights p).
Proof.
  unfold checkGroundCollision. cbv zeta.
  destruct (_ <=? _); [|apply moved_together_refl].
  apply (moved_together_vertical p _
           (groundLevel heights (centerPos p) + IZR HALF_H - vy (centerPos p))).
  - cbn. apply vec3_eq; simpl; ring.
  - done.
Qed.

Lemma stickToGround_together (heights : list Z) (p : Player) :
  moved_together p (stickToGround heights p).
Proof.
  unfold stickToGround. cbv zeta.
  destruct (_ >? _); [by apply moved_together_same|].
  apply (moved_together_vertical p _
           (groundLevel heights (centerPos p) + IZR HALF_H - vy (centerPos p))).
  - cbn. apply vec3_eq; simpl; ring.
  - done.
Qed.

Lemma updateVerticalPhysics_together (dt : R) (heights : list Z) (p : Player) :
  moved_together p (updateVerticalPhysics dt heights p).
Proof.
  unfold updateVerticalPhysics. cbv zeta.
  destruct (negb (grounded p)); [|apply stickToGround_together].
  eapply moved_together_trans; [|apply checkGroundCollision_together].
  by apply (moved_together_vertical p _ ((velY p - GRAVITY * dt) * dt)).
Qed.

Lemma updateHorizontalMovement_together (dt : R) (heights : list Z)
    (p : Player) :
  moved_together p (updateHorizontalMovement dt heights p).
Proof.
  unfold updateHorizontalMovement.
  destruct (_ >? _); [|apply moved_together_refl].
  destruct (inputDelta dt p) as [deltaX deltaZ].
  destruct (canMoveTo _ _ _ _); [|apply moved_together_refl].
  by exists (V3 deltaX 0 deltaZ).
Qed.

Lemma enforceBoundaries_together (p : Player) :
  moved_together p (enforceBoundaries p).
Proof.
  unfold enforceBoundaries. cbv zeta.
  set (newX := Math_max _ (Math_min _ (vx (centerPos p)))).
  set (newZ := Math_max _ (Math_min _ (vz (centerPos p)))).
  exists (V3 (newX - vx (centerPos p)) 0 (newZ - vz (centerPos p))).
  destruct (negb (Reqb (newX - vx (centerPos p)) 0)
            || negb (Reqb (newZ - vz (centerPos p)) 0)) eqn:E.
  - split; [|done]. cbn. apply vec3_eq; simpl; ring.
  - apply orb_false_iff in E as [Ex Ez].
    apply negb_false_iff, Reqb_true in Ex, Ez.
    split; [cbn; apply vec3_eq; simpl; ring|].
    cbn. rewrite shift_voxels_zero; [done|]. by rewrite Ex, Ez.
Qed.

Lemma sum_positions_acc (l : list MovingVoxel) (a : vec3) :
  fold_left (λ acc voxel, vadd acc (pos voxel)) l a
  = vadd a (fold_left (λ acc voxel, vadd acc (pos voxel)) l (V3 0 0 0)).
Proof.
  revert a. induction l as [|v l IH]; intros a; cbn [fold_left].
  - apply vec3_eq; simpl; ring.
  - rewrite (IH (vadd a (pos v))), (IH (vadd (V3 0 0 0) (pos v))).
    apply vec3_eq; simpl; ring.
Qed.

Lemma sum_positions_shift (delta : vec3) (l : list MovingVoxel) :
  fold_left (λ acc voxel, vadd acc (pos voxel)) (shift_voxels delta l) (V3 0 0 0)
  = vadd (fold_left (λ acc voxel, vadd acc (pos voxel)) l (V3 0 0 0))
         (vscale (INR (length l)) delta).
Proof.
  induction l as [|v l IH].
  - simpl. apply vec3_eq; simpl; ring.
  - change (shift_voxels delta (v :: l))
      with (set_pos (vadd (pos v) delta) v :: shift_voxels delta l).
    cbn [fold_left]. rewrite sum_positions_acc, IH.
    rewrite (sum_positions_acc l (vadd (V3 0 0 0) (pos v))).
    cbn [length]. rewrite S_INR.
    apply vec3_eq; simpl; ring.
Qed.

Lemma getCenterPosition_together (p q : Player) :
  bodyVoxels p ≠ [] → moved_together p q →
  bodyVoxels q ≠ [] ∧ centerOffset q = centerOffset p.
Proof.
  intros Hne (delta & Hc & Hb).
  assert (Hq : bodyVoxels q ≠ []).
  { rewrite Hb. destruct (bodyVoxels p); [done|]. discriminate. }
  split; [done|]. unfold centerOffset, getCenterPosition.
  destruct (bodyVoxels q) as [|v' l'] eqn:Eq; [done|].
  destruct (bodyVoxels p) as [|v l] eqn:Ep; [done|].
  rewrite Hb, sum_positions_shift, Hc.
  assert (Hlen : length (shift_voxels delta (v :: l)) = length (v :: l))
    by apply length_map.
  rewrite Hlen.
  assert (Hn : INR (length (v :: l)) ≠ 0).
  { cbn [length]. rewrite S_INR. pose proof (pos_INR (length l)). lra. }
  apply vec3_eq; simpl vx; simpl vy; simpl vz; field; exact Hn.
Qed.

Lemma updatePhysics_js_together (dt : R) (heights : list Z) (p : Player) :
  bodyVoxels p ≠ [] →
  moved_together (PlayerJs.smoothCenter p)
    (fst (PlayerJs.updatePhysics dt heights p)).
Proof.
  intros Hne. unfold PlayerJs.updatePhysics.
  destruct (bodyVoxels p) eqn:E; [done|]. cbn [fst].
  eapply moved_together_trans; [apply updateVerticalPhysics_together|].
  eapply moved_together_trans; [apply updateHorizontalMovement_together|].
  apply enforceBoundaries_together.
Qed.

Lemma getCenterPosition_body (p q : Player) :
  bodyVoxels q = bodyVoxels p → bodyVoxels p ≠ [] →
  getCenterPosition q = getCenterPosition p.
Proof.
  intros Hb Hne. unfold getCenterPosition. rewrite Hb.
  by destruct (bodyVoxels p).
Qed.

Lemma smoothed_offset (p : Player) :
  bodyVoxels p ≠ [] →
  bodyVoxels (PlayerJs.smoothCenter p) ≠ []
  ∧ norm (centerOffset (PlayerJs.smoothCenter p))
    = Rmax 0 (norm (centerOffset p) - 2)
  ∧ dist (centerPos (PlayerJs.smoothCenter p)) (centerPos p)
    = Rmin (norm (centerOffset p)) 2.
Proof.
  intros Hne.
  destruct (smoothCenter_fraction p) as (k & Hk & Hc & Hle & Hgt & Hb).
  cbv zeta in Hle, Hgt.
  split; [by rewrite Hb|].
  unfold centerOffset at 1. rewrite (getCenterPosition_body p) by done.
  change (dist (getCenterPosition p) (centerPos p))
    with (norm (centerOffset p)) in Hle, Hgt.
  set (d := norm (centerOffset p)) in *.
  assert (Hrest : vsub (getCenterPosition p) (centerPos (PlayerJs.smoothCenter p))
                  = vscale (1 - k) (centerOffset p)).
  { rewrite Hc. unfold centerOffset. apply vec3_eq; simpl; ring. }
  assert (Hstep : vsub (centerPos (PlayerJs.smoothCenter p)) (centerPos p)
                  = vscale k (centerOffset p)).
  { rewrite Hc. unfold centerOffset. apply vec3_eq; simpl; ring. }
  unfold dist. rewrite Hrest, Hstep, !norm_scale by lra. fold d.
  destruct (Rle_dec d 2) as [Hd|Hd].
  - rewrite (Hle Hd). rewrite Rmax_left by lra. rewrite Rmin_left by lra.
    split; ring.
  - assert (H2 : 2 < d) by lra. rewrite (Hgt H2).
    rewrite Rmax_right by lra. rewrite Rmin_right by lra.
    split; field; lra.
Qed.

Lemma playerTick_offset (dt : R) (heights : list Z) (p : Player) :
  bodyVoxels p ≠ [] →
  bodyVoxels (playerTick dt heights p) ≠ []
  ∧ centerOffset (playerTick dt heights p)
    = centerOffset (PlayerJs.smoothCenter p)
  ∧ norm (centerOffset (playerTick dt heights p))
    = Rmax 0 (norm (centerOffset p) - 2).
Proof.
  intros Hne. destruct (smoothed_offset p Hne) as (Hne1 & Hnorm & _).
  destruct (getCenterPosition_together (PlayerJs.smoothCenter p)
              (playerTick dt heights p) Hne1
              (updatePhysics_js_together dt heights p Hne)) as [Hne2 Hoff].
  split; [done|]. split; [done|]. by rewrite Hoff.
Qed.

Lemma playerTicks_offset (dt : R) (heights : list Z) (n : nat) (p : Player) :
  bodyVoxels p ≠ [] →
  bodyVoxels (playerTicks dt heights n p) ≠ []
  ∧ norm (centerOffset (playerTicks dt heights n p))
    = Rmax 0 (norm (centerOffset p) - 2 * INR n).
Proof.
  intros Hne. induction n as [|n [IHne IH]].
  - split; [done|]. change (playerTicks dt heights 0 p) with p.
    change (INR 0) with 0. rewrite Rmax_right; [ring|].
    pose proof (norm_nonneg (centerOffset p)). lra.
  - unfold playerTicks in *. rewrite Nat.iter_succ.
    destruct (playerTick_offset dt heights _ IHne) as (Hne' & _ & Hnorm).
    split; [done|]. rewrite Hnorm, IH, S_INR.
    destruct (Rle_dec (norm (centerOffset p) - 2 * INR n) 0) as [H0|H0].
    + rewrite (Rmax_left 0 (_ - 2 * INR n)) by lra.
      rewrite !Rmax_left by lra. done.
    + rewrite (Rmax_right 0 (_ - 2 * INR n)) by lra. f_equal. ring.
Qed.

(** C9 (as amended).  The centre of a player (Player.js).  The first step
    of [updatePhysics] moves the centre towards the mean of the remaining
    body voxels: onto the mean when the shift needed is at most 2.0,
    otherwise by 2.0 along the line to the mean, short of it.  The rest of
    the tick moves the centre and the body voxels together, so what is
    left of the shift is there at the next tick: after [n] ticks the
    centre is [max(0, d - 2 n)] away from the mean, [d] being the distance
    at the start. *)
Theorem center_shift_capped (dt : R) (heights : list Z) (p : Player) :
  bodyVoxels p ≠ [] →
  let m := getCenterPosition p in
  let c := centerPos p in
  let d := dist m c in
  let c1 := centerPos (PlayerJs.smoothCenter p) in
  dist c1 c = Rmin d 2
  ∧ dist c1 c <= 2
  ∧ (∃ k, 0 <= k <= 1 ∧ c1 = vadd c (vscale k (vsub m c)))
  ∧ (d <= 2 → c1 = m)
  ∧ (2 < d → c1 ≠ m ∧ dist m c1 = d - 2)
  ∧ centerOffset (playerTick dt heights p) = vsub m c1
  ∧ ∀ n, norm (centerOffset (playerTicks dt heights n p))
         = Rmax 0 (d - 2 * INR n).
Proof.
  intros Hne. cbv zeta.
  destruct (smoothCenter_fraction p) as (k & Hk & Hc & Hle & Hgt & Hb).
  cbv zeta in Hle, Hgt.
  destruct (smoothed_offset p Hne) as (Hne1 & Hnorm & Hstep).
  destruct (playerTick_offset dt heights p Hne) as (_ & Hoff & _).
  change (norm (centerOffset p))
    with (dist (getCenterPosition p) (centerPos p)) in Hnorm, Hstep.
  unfold centerOffset in Hnorm at 1.
  rewrite (getCenterPosition_body p) in Hnorm by done.
  change (norm (vsub (getCenterPosition p) (centerPos (PlayerJs.smoothCenter p))))
    with (dist (getCenterPosition p) (centerPos (PlayerJs.smoothCenter p)))
    in Hnorm.
  set (d := dist (getCenterPosition p) (centerPos p)) in *.
  split; [done|]. split; [rewrite Hstep; apply Rmin_r|].
  split; [by exists k|]. split; [|split; [|split]].
  - intros Hd. rewrite Hc, (Hle Hd). apply vec3_eq; simpl; ring.
  - intros Hd. rewrite Rmax_right in Hnorm by lra. split; [|done].
    intros Heq. rewrite Heq in Hnorm. unfold dist in Hnorm.
    replace (vsub (getCenterPosition p) (getCenterPosition p)) with (V3 0 0 0)
      in Hnorm by (apply vec3_eq; simpl; ring).
    rewrite norm_zero in Hnorm. lra.
  - rewrite Hoff. unfold centerOffset.
    by rewrite (getCenterPosition_body p).
  - intros n. by destruct (playerTicks_offset dt heights n p Hne) as [_ ->].
Qed.

Lemma center_shift_capped_witness :
  bodyVoxels shot_player ≠ []
  ∧ let dt := 2 / 100 in
    let p := shot_player in
    let m := getCenterPosition p in
    let c := centerPos p in
    let d := dist m c in
    let c1 := centerPos (PlayerJs.smoothCenter p) in
    dist c1 c = Rmin d 2
    ∧ dist c1 c <= 2
    ∧ (∃ k, 0 <= k <= 1 ∧ c1 = vadd c (vscale k (vsub m c)))
    ∧ (d <= 2 → c1 = m)
    ∧ (2 < d → c1 ≠ m ∧ dist m c1 = d - 2)
    ∧ centerOffset (playerTick dt step_heights p) = vsub m c1
    ∧ ∀ n, norm (centerOffset (playerTicks dt step_heights n p))
           = Rmax 0 (d - 2 * INR n).
Proof.
  split; [discriminate|].
  apply (center_shift_capped (2 / 100) step_heights shot_player).
  discriminate.
Defined.

Lemma horizontalMovement_together (dt : R) (heights : list Z) (p : Player) :
  moved_together p (Monolith.horizontalMovement dt heights p).
Proof.
  unfold Monolith.horizontalMovement.
  destruct (_ >? _); [|apply moved_together_refl].
  destruct (inputDelta dt p) as [deltaX deltaZ]. cbv zeta.
  destruct (_ && _); [|apply moved_together_refl].
  destruct (ta_get heights _); [|apply moved_together_refl].
  destruct (ta_get heights _); [|apply moved_together_refl].
  destruct (_ <=? _)%Z; [|apply moved_together_refl].
  exists (V3 deltaX 0 deltaZ). split; [|done].
  cbn. apply vec3_eq; simpl; ring.
Qed.

Lemma updatePhysics_monolith_together (dt : R) (heights : list Z)
    (p : Player) :
  bodyVoxels p ≠ [] →
  moved_together (Monolith.recenter p)
    (fst (Monolith.updatePhysics dt heights p)).
Proof.
  intros Hne. unfold Monolith.updatePhysics.
  destruct (bodyVoxels p) eqn:E; [done|]. cbn [fst].
  eapply moved_together_trans; [apply updateVerticalPhysics_together|].
  eapply moved_together_trans; [apply horizontalMovement_together|].
  apply enforceBoundaries_together.
Qed.

Lemma shot_player_mean : getCenterPosition shot_player = V3 64 72 64.
Proof.
  unfold getCenterPosition, shot_player. cbn.
  apply vec3_eq; simpl; field.
Qed.

(** C9, the claim as worded fails in server.js: its [updatePhysics] puts
    the centre on the mean of the body voxels whatever the distance.  For
    a player whose only body voxel left is 10 below the centre, the centre
    moves by 10 in the first step of the tick, and at the end of the tick
    nothing of the shift is left. *)
Lemma center_shift_counterexample :
  let p := shot_player in
  dist (getCenterPosition p) (centerPos p) = 10
  ∧ centerPos (Monolith.recenter p) = getCenterPosition p
  ∧ dist (centerPos (Monolith.recenter p)) (centerPos p) > 2
  ∧ centerOffset (fst (Monolith.updatePhysics (2 / 100) step_heights p))
    = V3 0 0 0.
Proof.
  cbv zeta.
  assert (Hd : dist (getCenterPosition shot_player) (centerPos shot_player)
               = 10).
  { rewrite shot_player_mean. unfold dist, norm, sumsq, Math_sqrt. cbn.
    apply sqrt_lem_1; lra. }
  split; [done|]. split; [done|]. split.
  { change (centerPos (Monolith.recenter shot_player))
      with (getCenterPosition shot_player). rewrite Hd. lra. }
  destruct (getCenterPosition_together (Monolith.recenter shot_player)
              (fst (Monolith.updatePhysics (2 / 100) step_heights shot_player)))
    as [_ ->].
  - discriminate.
  - apply updatePhysics_monolith_together. discriminate.
  - unfold centerOffset.
    rewrite (getCenterPosition_body shot_player) by (done || discriminate).
    change (centerPos (Monolith.recenter shot_player))
      with (getCenterPosition shot_player).
    apply vec3_eq; simpl; ring.
Qed.

(** ** The projectile against the players *)

Lemma sqrt_le_bound (x r : R) : 0 <= x → sqrt x <= r → x <= r * r.
Proof.
  intros Hx Hs. pose proof (sqrt_pos x) as Hp.
  rewrite <- (sqrt_sqrt x Hx). nra.
Qed.

Lemma sqrt_ge_bound (x r : R) : 0 <= x → 0 <= r → r <= sqrt x → r * r <= x.
Proof.
  intros Hx Hr Hs. rewrite <- (sqrt_sqrt x Hx). nra.
Qed.


Lemma sq_nonneg (x : R) : 0 <= x * x.
Proof. nra. Qed.


Lemma intersection_entry (this : MovingVoxel) (startPos trajectory : vec3)
    (len : R) (playerVoxel : MovingVoxel) (σ : R) :
  let r := size this + size playerVoxel in
  let a := sumsq trajectory in
  let s := vsub startPos (pos playerVoxel) in
  let b := 2 * (vx trajectory * vx s + vy trajectory * vy s
                + vz trajectory * vz s) in
  let t1 := (- b - σ) / (2 * a) in
  0 <= r → 1 / 1000 <= a → 0 <= σ →
  σ * σ = b * b - 4 * a * (sumsq s - r * r) →
  0 <= t1 <= 1 →
  TrajectoryVoxel.findTrajectoryVoxelIntersection this startPos trajectory
    len playerVoxel = Some t1.
Proof.
  unfold TrajectoryVoxel.findTrajectoryVoxelIntersection, Math_sqrt.
  generalize (size this + size playerVoxel) as r.
  generalize (pos playerVoxel) as P. intros [px py pz] r.
  destruct startPos as [sx sy sz], trajectory as [ux uy uz].
  unfold at_time, sumsq, vsub. cbn [vx vy vz].
  set (a := ux * ux + uy * uy + uz * uz).
  set (proj := _ / a).
  set (T := Math_max 0 (Math_min 1 proj)).
  set (b := 2 * (ux * (sx - px) + uy * (sy - py) + uz * (sz - pz))).
  set (c0 := (sx - px) * (sx - px) + (sy - py) * (sy - py)
             + (sz - pz) * (sz - pz)) in *.
  set (disc := b * b - 4 * a * (c0 - r * r)).
  set (q := λ u, (sx + ux * u - px) * (sx + ux * u - px)
               + (sy + uy * u - py) * (sy + uy * u - py)
               + (sz + uz * u - pz) * (sz + uz * u - pz)).
  fold (q T). cbv zeta.
  set (t1 := (- b - σ) / (2 * a)).
  intros Hr Ha Hσ Hσσ Ht1.
  assert (Hq : ∀ u, q u = a * (u * u) + b * u + c0).
  { intros u. unfold q, a, b, c0. ring. }
  assert (Hd : disc = σ * σ) by (symmetry; exact Hσσ).
  assert (Hsqrt : sqrt disc = σ) by (rewrite Hd; by apply sqrt_square).
  rewrite Hsqrt. fold t1.
  assert (H2at : 2 * a * t1 = - b - σ) by (unfold t1; field; lra).
  assert (Hroot : q t1 = r * r).
  { rewrite Hq.
    assert (4 * a * (a * (t1 * t1) + b * t1 + c0 - r * r) = 0); [|nra].
    transitivity ((2 * a * t1 + b) * (2 * a * t1 + b) - disc); [unfold disc; ring|].
    rewrite H2at, Hd. ring. }
  assert (Hproj : 2 * a * proj = - b) by (unfold proj, b; field; lra).
  assert (Hmin : q T <= q t1).
  { assert (Hsq : ∀ u v, q v - q u = (v - u) * (a * (v + u) + b))
      by (intros u v; rewrite !Hq; ring).
    pose proof (Hsq T t1) as HTt. unfold T, Math_max, Math_min, Rmax, Rmin in *.
    destruct (Rle_dec 1 proj) as [H1|H1].
    - destruct (Rle_dec 0 1); [|lra].
      assert (2 * a <= - b) by nra.
      assert (0 <= (1 - t1) * (- b - a * (t1 + 1))) by (apply Rmult_le_pos; nra).
      nra.
    - destruct (Rle_dec 0 proj) as [H0|H0].
      + assert (0 <= a * ((t1 - proj) * (t1 - proj)))
          by (apply Rmult_le_pos; [lra|apply sq_nonneg]).
        nra.
      + assert (0 <= b) by nra.
        assert (0 <= t1 * (a * t1 + b)) by (apply Rmult_le_pos; nra).
        nra. }
  replace (a <? 1 / 1000) with false by (symmetry; by apply Rltb_false).
  replace (sqrt (q T) <=? r) with true.
  2:{ symmetry. apply Rleb_true. rewrite <- (sqrt_square r Hr).
      apply sqrt_le_1_alt. lra. }
  replace (disc >=? 0) with true by (symmetry; apply Rgeb_true; nra).
  replace (t1 >=? 0) with true by (symmetry; apply Rgeb_true; lra).
  by replace (t1 <=? 1) with true by (symmetry; apply Rleb_true; lra).
Qed.

Lemma trajectory_gate_immune (playerId : string) (player : Player)
    (startPos : vec3) (this : MovingVoxel) :
  is_thrower playerId this = true → hasLeftThrowerHitbox this = false →
  dist startPos (getCenterPosition player) < 20 →
  (framesSinceLaunch this < 10)%Z →
  TrajectoryVoxel.throwerGate playerId player startPos this = None.
Proof.
  intros Ht Hl Hd Hf. unfold TrajectoryVoxel.throwerGate.
  rewrite Ht, Hl. cbn [andb negb]. cbv zeta.
  replace (_ <? 20) with true by (symmetry; by apply Rltb_true).
  by replace (_ <? 10)%Z with true by (symmetry; by apply Z.ltb_lt).
Qed.

Lemma trajectory_gate_lifted (playerId : string) (player : Player)
    (startPos : vec3) (this : MovingVoxel) :
  is_thrower playerId this = true → hasLeftThrowerHitbox this = false →
  20 <= dist startPos (getCenterPosition player)
  ∨ (10 <= framesSinceLaunch this)%Z →
  TrajectoryVoxel.throwerGate playerId player startPos this
  = Some (set_hasLeftThrowerHitbox true this).
Proof.
  intros Ht Hl Hd. unfold TrajectoryVoxel.throwerGate.
  rewrite Ht, Hl. cbn [andb negb]. cbv zeta.
  destruct Hd as [Hd|Hf].
  - by replace (_ <? 20) with false by (symmetry; by apply Rltb_false).
  - replace (_ <? 10)%Z with false by (symmetry; by apply Z.ltb_ge).
    by rewrite andb_false_r.
Qed.


Lemma monolith_gate_immune (playerId : string) (player : Player)
    (this : MovingVoxel) :
  is_thrower playerId this = true → hasLeftThrowerHitbox this = false →
  dist (pos this) (getCenterPosition player) <= 20 →
  (framesSinceLaunch this <= 10)%Z →
  MonolithVoxel.throwerGate playerId player this = None.
Proof.
  intros Ht Hl Hd Hf. unfold MonolithVoxel.throwerGate.
  rewrite Ht, Hl. cbn [andb negb]. cbv zeta.
  replace (_ >? 20) with false by (symmetry; by apply Rgtb_false).
  by replace (_ >? 10)%Z with false by (symmetry; rewrite Z.gtb_ltb; apply Z.ltb_ge; lia).
Qed.

Lemma monolith_gate_lifted (playerId : string) (player : Player)
    (this : MovingVoxel) :
  is_thrower playerId this = true → hasLeftThrowerHitbox this = false →
  20 < dist (pos this) (getCenterPosition player)
  ∨ (10 < framesSinceLaunch this)%Z →
  MonolithVoxel.throwerGate playerId player this
  = Some (set_hasLeftThrowerHitbox true this).
Proof.
  intros Ht Hl Hd. unfold MonolithVoxel.throwerGate.
  rewrite Ht, Hl. cbn [andb negb]. cbv zeta.
  destruct Hd as [Hd|Hf].
  - by replace (_ >? 20) with true by (symmetry; by apply Rgtb_true).
  - replace (_ >? 10)%Z with true by (symmetry; rewrite Z.gtb_ltb; by apply Z.ltb_lt).
    by rewrite orb_true_r.
Qed.

Lemma monolith_gate_open (playerId : string) (player : Player)
    (this : MovingVoxel) :
  is_thrower playerId this = false ∨ hasLeftThrowerHitbox this = true →
  MonolithVoxel.throwerGate playerId player this = Some this.
Proof.
  intros H. unfold MonolithVoxel.throwerGate.
  destruct H as [-> | ->]; [done|]. by rewrite andb_false_r.
Qed.

Lemma tenth_frame_start :
  at_time (pos tenth_frame_projectile) (vel tenth_frame_projectile)
    (- (1 / 50)) = V3 64 72 (624 / 10).
Proof. apply vec3_eq; simpl; lra. Qed.

Lemma norm_axis_z (z : R) : 0 <= z → norm (V3 0 0 z) = z.
Proof.
  intros Hz. unfold norm, sumsq, Math_sqrt. cbn [vx vy vz].
  apply sqrt_lem_1; nra.
Qed.

Lemma tenth_frame_intersection (len : R) :
  TrajectoryVoxel.findTrajectoryVoxelIntersection
    (set_hasLeftThrowerHitbox true tenth_frame_projectile) (V3 64 72 (624 / 10))
    (vsub (V3 64 72 64) (V3 64 72 (624 / 10))) len (body_voxel (V3 64 72 64))
  = Some (7 / 16).
Proof.
  rewrite (intersection_entry _ _ _ _ _ (288 / 100));
    cbv zeta; unfold sumsq; cbn; unfold VOXEL_SIZE; try lra.
  f_equal. field.
Qed.

Lemma tenth_frame_hit :
  TrajectoryVoxel.handlePlayerCollisionsTrajectory (V3 64 72 (624 / 10))
    (pos tenth_frame_projectile) tenth_frame_projectile thrower_alone
  = (true,
     set_pos (at_time (V3 64 72 (624 / 10)) (vsub (V3 64 72 64) (V3 64 72 (624 / 10))) (7 / 16))
       (set_hasLeftThrowerHitbox true tenth_frame_projectile),
     [("player_1"%string, set_bodyVoxels [] shot_player)]).
Proof.
  unfold TrajectoryVoxel.handlePlayerCollisionsTrajectory.
  change (length thrower_alone =? 0)%nat with false. cbv iota zeta.
  change (pos tenth_frame_projectile) with (V3 64 72 64).
  assert (Hn : norm (vsub (V3 64 72 64) (V3 64 72 (624 / 10))) = 16 / 10).
  { replace (vsub _ _) with (V3 0 0 (16 / 10))
      by (apply vec3_eq; simpl; lra).
    apply norm_axis_z. lra. }
  rewrite Hn.
  replace (16 / 10 <? 1 / 1000) with false by (symmetry; apply Rltb_false; lra).
  unfold TrajectoryVoxel.scanPlayers.
  change (seq 0 (length thrower_alone)) with [0%nat].
  cbn [fold_left fst snd].
  change (thrower_alone !! 0%nat) with (Some ("player_1"%string, shot_player)).
  cbv iota beta.
  rewrite trajectory_gate_lifted; [|done|done|right; done].
  unfold TrajectoryVoxel.scanBody.
  change (bodyVoxels shot_player) with [body_voxel (V3 64 72 64)].
  change (rev (seq 0 (length [body_voxel (V3 64 72 64)]))) with [0%nat].
  cbn [fold_left].
  change ([body_voxel (V3 64 72 64)] !! 0%nat)
    with (Some (body_voxel (V3 64 72 64))).
  cbv iota beta.
  rewrite tenth_frame_intersection.
  replace (7 / 16 >=? 0) with true by (symmetry; apply Rgeb_true; lra).
  replace (7 / 16 <=? 1) with true by (symmetry; apply Rleb_true; lra).
  reflexivity.
Qed.












(** C4. Thrower immunity, the trajectory test of
    [handlePlayerCollisionsTrajectory].  A projectile of ["player_1"] is
    in its tenth frame, has not been released yet, and starts its move at
    the distance 1.6 of the centre of its thrower.  The test
    [dist < 20 && framesSinceLaunch < 10] lets it through: the body voxel
    of the thrower is removed and the projectile is killed.  The test
    [dist > 20 || framesSinceLaunch > 10] of the first [update] of
    server.js skips the thrower for the same projectile. *)
Theorem thrower_hit_on_tenth_frame :
  let this := tenth_frame_projectile in
  let startPos := at_time (pos this) (vel this) (- (1 / 50)) in
  let r := TrajectoryVoxel.handlePlayerCollisionsTrajectory startPos
             (pos this) this thrower_alone in
  let s := server_of [] thrower_alone [this] 0 in
  framesSinceLaunch this = 10%Z
  ∧ hasLeftThrowerHitbox this = false
  ∧ is_thrower "player_1" this = true
  ∧ dist startPos (getCenterPosition shot_player) = 16 / 10
  ∧ r.1.1 = true
  ∧ r.2 = [("player_1"%string, set_bodyVoxels [] shot_player)]
  ∧ MonolithVoxel.throwerGate "player_1" shot_player this = None
  ∧ MonolithVoxel.playerCollisions this s = (false, this, s).
Proof.
  cbv zeta. rewrite tenth_frame_start, tenth_frame_hit. cbn [fst snd].
  assert (Hg : MonolithVoxel.throwerGate "player_1" shot_player
                 tenth_frame_projectile = None).
  { apply monolith_gate_immune; [done|done| |done].
    rewrite shot_player_mean.
    change (pos tenth_frame_projectile) with (V3 64 72 64).
    replace (dist _ _) with 0; [lra|]. symmetry.
    unfold dist. replace (vsub _ _) with (V3 0 0 0)
      by (apply vec3_eq; simpl; lra).
    apply norm_zero. }
  split; [done|]. split; [done|]. split; [done|]. split.
  { rewrite shot_player_mean. unfold dist.
    replace (vsub _ _) with (V3 0 0 (- (16 / 10)))
      by (apply vec3_eq; simpl; lra).
    unfold norm, sumsq, Math_sqrt. cbn [vx vy vz]. apply sqrt_lem_1; lra. }
  split; [done|]. split; [done|]. split; [done|].
  unfold MonolithVoxel.playerCollisions.
  change (isProjectile tenth_frame_projectile
          && negb (hasCollided tenth_frame_projectile)) with true.
  cbv iota.
  change (seq 0 _) with [0%nat]. cbn [MonolithVoxel.scanPlayers].
  change (players _ !! 0%nat) with (Some ("player_1"%string, shot_player)).
  cbv iota beta. by rewrite Hg.
Qed.

(** ** The contact of the segment of a tick with the ball of a cell *)











(** ** Candidates and what the scan detects *)









(** ** The players through the swept move *)















(** ** The debris of an impact at speed 30 *)

Lemma zeroVelocityExcluded_true : zeroVelocityExcluded = true.
Proof. vm_compute. reflexivity. Qed.

Lemma offsets_3_In (x : Z) : (-3 ≤ x ≤ 3)%Z → In x (offsets 3).
Proof.
  intros H. apply list_elem_of_In. unfold offsets. apply elem_of_seqZ. lia.
Qed.

Lemma sphere_offsets_In (dx dy dz : Z) :
  (-3 ≤ dx ≤ 3)%Z → (-3 ≤ dy ≤ 3)%Z → (-3 ≤ dz ≤ 3)%Z →
  In (dx, dy, dz) sphere_offsets.
Proof.
  intros Hx Hy Hz. unfold sphere_offsets.
  apply in_prod; [apply in_prod|]; by apply offsets_3_In.
Qed.

Lemma offset_in_sphere (dx dy dz : Z) :
  (1 ≤ dx * dx + dy * dy + dz * dz ≤ 9)%Z →
  (-3 ≤ dx ≤ 3)%Z ∧ (-3 ≤ dy ≤ 3)%Z ∧ (-3 ≤ dz ≤ 3)%Z.
Proof. intros H. repeat split; nia. Qed.

Lemma zeroVelocityCheck_sphere (dx dy dz : Z) :
  (1 ≤ dx * dx + dy * dy + dz * dz ≤ 9)%Z →
  (∀ axis, (0 ≤ axis ≤ 2)%Z → zeroVelocityResultant axis dx dy dz ≠ 0%Z)
  ∧ ¬ (8064 * (dy * dy) ≤ 6400 * (dx * dx + dz * dz)
       ∧ 6400 * (dx * dx + dz * dz) ≤ 8100 * (dy * dy))%Z.
Proof.
  intros Hm. destruct (offset_in_sphere dx dy dz Hm) as (Hx & Hy & Hz).
  pose proof zeroVelocityExcluded_true as H. unfold zeroVelocityExcluded in H.
  rewrite forallb_forall in H.
  specialize (H (dx, dy, dz) (sphere_offsets_In dx dy dz Hx Hy Hz)).
  cbn [fst snd] in H. unfold zeroVelocityCheck in H. cbv zeta in H.
  rewrite !orb_true_iff in H. destruct H as [[H|H]|H]; [lia|lia|].
  apply andb_true_iff in H as [Hr Hs]. split.
  - intros axis Ha. rewrite forallb_forall in Hr.
    assert (Hin : In axis [0; 1; 2]%Z).
    { assert (Hc : (axis = 0 ∨ axis = 1 ∨ axis = 2)%Z) by lia.
      destruct Hc as [-> | [-> | ->]]; cbn; tauto. }
    specialize (Hr axis Hin). apply negb_true_iff in Hr. lia.
  - apply negb_true_iff, andb_false_iff in Hs. destruct Hs as [Hs|Hs]; lia.
Qed.

(** A common root of a quartic and a quadratic makes their resultant
    vanish. *)
Lemma quartic_quadratic_common_root (f4 f3 f2 f1 f0 a b c : Z) (Q : R) :
  IZR f4 * (Q * Q * Q * Q) + IZR f3 * (Q * Q * Q) + IZR f2 * (Q * Q)
  + IZR f1 * Q + IZR f0 = 0 →
  IZR a * (Q * Q) + IZR b * Q + IZR c = 0 →
  quartic_quadratic_resultant f4 f3 f2 f1 f0 a b c = 0%Z.
Proof.
  intros Hf He. apply eq_IZR_R0.
  unfold quartic_quadratic_resultant. cbv zeta.
  repeat (rewrite plus_IZR || rewrite minus_IZR || rewrite mult_IZR).
  revert Hf He.
  generalize (IZR f4), (IZR f3), (IZR f2), (IZR f1), (IZR f0), (IZR a),
    (IZR b), (IZR c).
  intros r4 r3 r2 r1 r0 ra rb rc Hf He.
  set (g3 := ra * r3 - r4 * rb). set (g2 := ra * r2 - r4 * rc).
  set (g1 := ra * r1). set (g0 := ra * r0).
  assert (Hg : g3 * (Q * Q * Q) + g2 * (Q * Q) + g1 * Q + g0 = 0).
  { transitivity
      (ra * (r4 * (Q * Q * Q * Q) + r3 * (Q * Q * Q) + r2 * (Q * Q)
            + r1 * Q + r0)
       - r4 * (Q * Q) * (ra * (Q * Q) + rb * Q + rc));
      [unfold g3, g2, g1, g0; ring|]. rewrite Hf, He. ring. }
  set (h2 := ra * g2 - g3 * rb). set (h1 := ra * g1 - g3 * rc).
  set (h0 := ra * g0).
  assert (Hh : h2 * (Q * Q) + h1 * Q + h0 = 0).
  { transitivity
      (ra * (g3 * (Q * Q * Q) + g2 * (Q * Q) + g1 * Q + g0)
       - g3 * Q * (ra * (Q * Q) + rb * Q + rc));
      [unfold h2, h1, h0; ring|]. rewrite Hg, He. ring. }
  set (l1 := ra * h1 - h2 * rb). set (l0 := ra * h0 - h2 * rc).
  assert (Hl : l1 * Q + l0 = 0).
  { transitivity
      (ra * (h2 * (Q * Q) + h1 * Q + h0) - h2 * (ra * (Q * Q) + rb * Q + rc));
      [unfold l1, l0; ring|]. rewrite Hh, He. ring. }
  assert (Hl0 : l0 = - (l1 * Q)) by lra.
  transitivity (ra * (l0 * l0) - rb * (l0 * l1) + rc * (l1 * l1));
    [unfold l0, l1, h2, h1, h0, g3, g2, g1, g0; ring|].
  rewrite Hl0.
  transitivity (l1 * l1 * (ra * (Q * Q) + rb * Q + rc)); [ring|].
  rewrite He. ring.
Qed.

(** The law of the push, [9 d Q = 8 S (3 - d)] with [d^2 = m] and
    [S^2 = m Q^2 + 16 dy Q + 64], makes [Q] a root of the quartic. *)
Lemma zero_velocity_quartic (m dy : Z) (d S Q : R) :
  d * d = IZR m →
  S * S = IZR m * (Q * Q) + 16 * IZR dy * Q + 64 →
  9 * d * Q = 8 * S * (3 - d) →
  let '(f4, f3, f2, f1, f0) := zeroVelocityQuartic m dy in
  IZR f4 * (Q * Q * Q * Q) + IZR f3 * (Q * Q * Q) + IZR f2 * (Q * Q)
  + IZR f1 * Q + IZR f0 = 0.
Proof.
  intros Hd HS HE. unfold zeroVelocityQuartic. cbv zeta.
  repeat (rewrite plus_IZR || rewrite minus_IZR || rewrite mult_IZR).
  revert Hd HS HE. generalize (IZR m), (IZR dy). intros rm ry Hd HS HE.
  set (T := rm * (Q * Q) + 16 * ry * Q + 64) in *.
  assert (H1 : 81 * rm * (Q * Q) = 64 * T * (9 - 6 * d + rm)).
  { transitivity ((9 * d * Q) * (9 * d * Q)); [rewrite <- Hd; ring|].
    rewrite HE. rewrite <- HS, <- Hd. ring. }
  assert (H2 : 64 * (9 + rm) * T - 81 * rm * (Q * Q) = 384 * d * T).
  { rewrite H1. ring. }
  transitivity (147456 * rm * (T * T)
                - (64 * (9 + rm) * T - 81 * rm * (Q * Q))
                  * (64 * (9 + rm) * T - 81 * rm * (Q * Q)));
    [unfold T; ring|].
  rewrite H2, <- Hd. ring.
Qed.

(** The same law when the speed of the impacting voxel after the bounce
    is between [sqrt 896] and 30 (a bounce that stops a velocity of at
    most 2 on the axis): it has no solution. *)
Lemma push_law_linear (rm ry d S Q : R) :
  d * d = rm →
  S * S = rm * (Q * Q) + 16 * ry * Q + 64 →
  9 * d * Q = 8 * S * (3 - d) →
  d * ((495 + 64 * rm) * (S * S) - 1152 * ry * S + 5184)
  + (- 384 * rm * (S * S) + 3456 * ry * S) = 0.
Proof.
  intros Hd HS HE.
  assert (H1 : 81 * rm * (Q * Q) = 64 * (S * S) * (9 - 6 * d + rm)).
  { transitivity ((9 * d * Q) * (9 * d * Q)); [rewrite <- Hd; ring|].
    rewrite HE, <- Hd. ring. }
  assert (H2 : 81 * d * (S * S)
               = d * (81 * rm * (Q * Q)) + 144 * ry * (9 * d * Q) + 5184 * d).
  { rewrite HS. ring. }
  rewrite H1, HE in H2.
  assert (H3 : d * (64 * (S * S) * (9 - 6 * d + rm))
               = 64 * (S * S) * (9 * d - 6 * rm + rm * d)).
  { rewrite <- Hd. ring. }
  rewrite H3 in H2. lra.
Qed.

Lemma linear_in_root_pos (A B d dl : R) :
  0 <= A → dl <= d → 0 < dl * A + B → d * A + B = 0 → False.
Proof. intros HA Hd Hp H0. nra. Qed.

Lemma linear_in_root_neg (A B d dh : R) :
  0 <= A → d <= dh → dh * A + B < 0 → d * A + B = 0 → False.
Proof. intros HA Hd Hp H0. nra. Qed.

Lemma speed_band (S : R) :
  0 <= S → 8064 / 100 <= S * S <= 81 → 897 / 100 <= S <= 9.
Proof. intros H0 H. split; nra. Qed.

Lemma sqrt_band (m lo hi d : R) :
  0 <= lo → 0 <= hi → lo * lo <= m → m <= hi * hi → 0 < d → d * d = m →
  lo <= d <= hi.
Proof. intros Hlo Hhi H1 H2 Hd Hm. split; nra. Qed.

Ltac slow_axis_case lo hi :=
  match goal with
  | Hd : 0 < ?d, Hdd : ?d * ?d = ?m, HP : ?d * ?A + ?B = 0 |- False =>
      let Hb := fresh "Hb" in
      assert (Hb : lo <= d <= hi) by (apply (sqrt_band m); lra);
      first
        [ apply (linear_in_root_pos A B d lo); [nra | lra | nra | exact HP]
        | apply (linear_in_root_neg A B d hi); [nra | lra | nra | exact HP] ]
  end.

Lemma slow_axis_excluded_at (m dy : Z) (d S Q : R) :
  In (m, dy)
    [(1, -1); (1, 0); (1, 1); (2, -1); (2, 1); (4, -2); (4, 0); (4, 2);
     (5, -2); (5, -1); (5, 1); (5, 2); (8, -2); (8, 2); (9, -3); (9, 0);
     (9, 3)]%Z →
  0 < d → d * d = IZR m → 0 <= S → 8064 / 100 <= S * S <= 81 →
  S * S = IZR m * (Q * Q) + 16 * IZR dy * Q + 64 →
  9 * d * Q = 8 * S * (3 - d) → False.
Proof.
  intros Hin Hd Hdd HS0 HSS HT HE.
  pose proof (push_law_linear (IZR m) (IZR dy) d S Q Hdd HT HE) as HP.
  pose proof (speed_band S HS0 HSS) as HSb.
  clear HT HE Q.
  cbn [In] in Hin.
  repeat (destruct Hin as [[= <- <-]|Hin]); [..|done].
  - slow_axis_case 1 1.
  - slow_axis_case 1 1.
  - slow_axis_case 1 1.
  - slow_axis_case (1414213 / 1000000) (1414214 / 1000000).
  - slow_axis_case (1414213 / 1000000) (1414214 / 1000000).
  - slow_axis_case 2 2.
  - slow_axis_case 2 2.
  - slow_axis_case 2 2.
  - slow_axis_case (2236067 / 1000000) (2236068 / 1000000).
  - slow_axis_case (2236067 / 1000000) (2236068 / 1000000).
  - slow_axis_case (2236067 / 1000000) (2236068 / 1000000).
  - slow_axis_case (2236067 / 1000000) (2236068 / 1000000).
  - slow_axis_case (2828427 / 1000000) (2828428 / 1000000).
  - slow_axis_case (2828427 / 1000000) (2828428 / 1000000).
  - slow_axis_case 3 3.
  - slow_axis_case 3 3.
  - slow_axis_case 3 3.
Qed.

Lemma bounceVelocity_projectile (v : vec3) (axis : Z) :
  (0 ≤ axis ≤ 2)%Z →
  let v' := bounceVelocity (4 / 10) (8 / 10) v axis in
  (axis = 0%Z
   ∧ (v' = V3 (vx v * - (4 / 10)) (vy v) (vz v * (8 / 10))
      ∨ (Rabs (vx v) <= 2 ∧ v' = V3 0 (vy v) (vz v))))
  ∨ (axis = 1%Z
     ∧ (v' = V3 (vx v * (8 / 10)) (vy v * - (4 / 10)) (vz v * (8 / 10))
        ∨ (Rabs (vy v) <= 2 ∧ v' = V3 (vx v) 0 (vz v))))
  ∨ (axis = 2%Z
     ∧ (v' = V3 (vx v * (8 / 10)) (vy v) (vz v * - (4 / 10))
        ∨ (Rabs (vz v) <= 2 ∧ v' = V3 (vx v) (vy v) 0))).
Proof.
  intros Ha. cbv zeta. unfold bounceVelocity.
  assert (Hc : (axis = 0 ∨ axis = 1 ∨ axis = 2)%Z) by lia.
  destruct Hc as [-> | [-> | ->]].
  - left. split; [done|].
    destruct (Math_abs (vget v 0) >? 2) eqn:E.
    + left. reflexivity.
    + right. apply Rgtb_false in E. done.
  - right. left. split; [done|].
    destruct (Math_abs (vget v 1) >? 2) eqn:E.
    + left. reflexivity.
    + right. apply Rgtb_false in E. done.
  - right. right. split; [done|].
    destruct (Math_abs (vget v 2) >? 2) eqn:E.
    + left. reflexivity.
    + right. apply Rgtb_false in E. done.
Qed.

Lemma handleCollision_bounce (collision : CollisionInfo) (this : MovingVoxel)
    (s : Server) :
  let r := handleCollision collision this s in
  snd r = s
  ∨ (isProjectile this = true
     ∧ 15 < norm (bounceVelocity (4 / 10) (8 / 10) (vel this) (axis collision))
     ∧ r = createDestruction
             (set_vel (bounceVelocity (4 / 10) (8 / 10) (vel this)
                         (axis collision)) this)
             (block collision).1.1 (block collision).1.2 (block collision).2
             (norm (bounceVelocity (4 / 10) (8 / 10) (vel this)
                      (axis collision))) s).
Proof.
  cbv zeta. unfold handleCollision.
  destruct (block collision) as [[xi yi] zi]. cbv zeta. cbn [fst snd].
  destruct (isProjectile this) eqn:Hp.
  - fold (bounceVelocity (4 / 10) (8 / 10) (vel this) (axis collision)).
    set (this1 := set_vel _ this).
    destruct ((norm (vel this1) >? 15) && negb (hasCollided this1)
              && isProjectile this1) eqn:E; [|by left].
    apply andb_true_iff in E as [E _]. apply andb_true_iff in E as [Hs _].
    apply Rgtb_true in Hs. right. done.
  - set (this1 := set_vel _ this).
    replace (isProjectile this1) with false by (symmetry; exact Hp).
    rewrite andb_false_r. by left.
Qed.

Lemma Rabs_le_sq (x : R) : Rabs x <= 2 → x * x <= 4.
Proof.
  intros H. unfold Rabs in H. destruct (Rcase_abs x); nra.
Qed.

Lemma offset_squares_IZR (dx dy dz : Z) :
  IZR (dx * dx + dy * dy + dz * dz)
  = IZR dx * IZR dx + IZR dy * IZR dy + IZR dz * IZR dz.
Proof. by rewrite !plus_IZR, !mult_IZR. Qed.

(** The core of the argument, on real numbers: the three components of
    [debrisVelocity] cannot vanish together after a bounce from the speed
    30. *)
Lemma zero_velocity_excluded (axis dx dy dz : Z) (v v' : vec3) (speed d : R) :
  (0 ≤ axis ≤ 2)%Z →
  (1 ≤ dx * dx + dy * dy + dz * dz ≤ 9)%Z →
  sumsq v = 900 →
  v' = bounceVelocity (4 / 10) (8 / 10) v axis →
  0 <= speed → speed * speed = sumsq v' →
  0 < d → d * d = IZR (dx * dx + dy * dy + dz * dz) →
  IZR dx / d * (speed * (1 - d / 3) * (8 / 10)) + vx v' * (3 / 10) = 0 →
  IZR dy / d * (speed * (1 - d / 3) * (8 / 10)) + vy v' * (3 / 10) + 8 = 0 →
  IZR dz / d * (speed * (1 - d / 3) * (8 / 10)) + vz v' * (3 / 10) = 0 →
  False.
Proof.
  intros Haxis Hm Hv Hv' Hs0 Hss Hd Hdd Hx Hy Hz.
  destruct (zeroVelocityCheck_sphere dx dy dz Hm) as [Hres Hstop].
  set (m := (dx * dx + dy * dy + dz * dz)%Z) in *.
  set (Q := speed * (1 - d / 3) * (8 / 10) / d).
  assert (HQ : ∀ k, k / d * (speed * (1 - d / 3) * (8 / 10)) = k * Q).
  { intros k. unfold Q. field. lra. }
  rewrite HQ in Hx, Hy, Hz.
  set (S := 3 / 10 * speed).
  assert (HS0 : 0 <= S) by (unfold S; lra).
  assert (Hm' : IZR m = IZR dx * IZR dx + IZR dy * IZR dy + IZR dz * IZR dz)
    by apply offset_squares_IZR.
  assert (HT : S * S = IZR m * (Q * Q) + 16 * IZR dy * Q + 64).
  { rewrite Hm'.
    transitivity ((vx v' * (3 / 10)) * (vx v' * (3 / 10))
                  + (vy v' * (3 / 10)) * (vy v' * (3 / 10))
                  + (vz v' * (3 / 10)) * (vz v' * (3 / 10))).
    - unfold S. unfold sumsq in Hss. nra.
    - replace (vx v' * (3 / 10)) with (- (IZR dx * Q)) by lra.
      replace (vy v' * (3 / 10)) with (- (IZR dy * Q + 8)) by lra.
      replace (vz v' * (3 / 10)) with (- (IZR dz * Q)) by lra.
      ring. }
  assert (HE : 9 * d * Q = 8 * S * (3 - d)).
  { unfold Q, S. field. lra. }
  pose proof (zero_velocity_quartic m dy d S Q Hdd HT HE) as HF.
  pose proof (Hres axis Haxis) as Hres'.
  unfold zeroVelocityResultant in Hres'. fold m in Hres'.
  destruct (zeroVelocityQuartic m dy) as [[[[f4 f3] f2] f1] f0].
  (* the velocity before the bounce, from the velocity after it *)
  assert (Hwx : vx v' = - (10 / 3) * (IZR dx * Q)) by lra.
  assert (Hwy : vy v' = - (10 / 3) * (IZR dy * Q + 8)) by lra.
  assert (Hwz : vz v' = - (10 / 3) * (IZR dz * Q)) by lra.
  clear Hx Hy Hz.
  set (wx := IZR dx * Q) in *. set (wy := IZR dy * Q + 8) in *.
  set (wz := IZR dz * Q) in *.
  assert (HTw : S * S = wx * wx + wy * wy + wz * wz).
  { rewrite HT, Hm'. unfold wx, wy, wz. ring. }
  unfold sumsq in Hv.
  destruct (bounceVelocity_projectile v axis Haxis)
    as [[-> Hb] | [[-> Hb] | [-> Hb]]]; cbv zeta in Hb; rewrite <- Hv' in Hb.
  - (* axis x *)
    destruct Hb as [Hb | [Hslow Hb]]; rewrite Hb in Hwx, Hwy, Hwz;
      cbn [vx vy vz] in Hwx, Hwy, Hwz.
    + apply Hres'. unfold speed30Quadratic. cbn [Z.eqb].
      apply quartic_quadratic_common_root with (Q := Q); [exact HF|].
      repeat (rewrite plus_IZR || rewrite mult_IZR).
      fold wx wy wz in HTw.
      assert (H : 100 * (wx * wx) + 16 * (wy * wy) + 25 * (wz * wz) = 1296)
        by nra.
      unfold wx, wy, wz in H. lra.
    + apply Rabs_le_sq in Hslow.
      assert (Hwx0 : wx = 0) by lra.
      assert (HSS : 8064 / 100 <= S * S <= 81) by nra.
      destruct (Z.eq_dec dx 0%Z) as [Hdx|Hdx].
      * apply (slow_axis_excluded_at m dy d S Q); try done.
        unfold m. rewrite Hdx.
        destruct (offset_in_sphere dx dy dz Hm) as (_ & Hy3 & Hz3).
        assert (Hc : (dy = -3 ∨ dy = -2 ∨ dy = -1 ∨ dy = 0 ∨ dy = 1 ∨ dy = 2
                      ∨ dy = 3)%Z) by lia.
        assert (Hc' : (dz = -3 ∨ dz = -2 ∨ dz = -1 ∨ dz = 0 ∨ dz = 1
                       ∨ dz = 2 ∨ dz = 3)%Z) by lia.
        unfold m in Hm. rewrite Hdx in Hm.
        destruct Hc as [-> | [-> | [-> | [-> | [-> | [-> | ->]]]]]];
          destruct Hc' as [-> | [-> | [-> | [-> | [-> | [-> | ->]]]]]];
          first [lia | cbn; tauto].
      * assert (HQ0 : Q = 0).
        { unfold wx in Hwx0. apply Rmult_integral in Hwx0 as [H|H]; [|done].
          apply eq_IZR_R0 in H. done. }
        rewrite HQ0 in HT. lra.
  - (* axis y *)
    destruct Hb as [Hb | [Hslow Hb]]; rewrite Hb in Hwx, Hwy, Hwz;
      cbn [vx vy vz] in Hwx, Hwy, Hwz.
    + apply Hres'. unfold speed30Quadratic. cbn [Z.eqb].
      apply quartic_quadratic_common_root with (Q := Q); [exact HF|].
      repeat (rewrite plus_IZR || rewrite mult_IZR).
      assert (H : 25 * (wx * wx + wz * wz) + 100 * (wy * wy) = 1296) by nra.
      unfold wx, wy, wz in H. lra.
    + apply Rabs_le_sq in Hslow.
      assert (Hwy0 : wy = 0) by lra.
      assert (HSS : 8064 / 100 <= wx * wx + wz * wz <= 81) by nra.
      apply Hstop.
      assert (Hq : IZR dy * Q = - 8) by (unfold wy in Hwy0; lra).
      assert (Hk : IZR (dy * dy) * (wx * wx + wz * wz)
                   = 64 * IZR (dx * dx + dz * dz)).
      { rewrite plus_IZR, !mult_IZR. unfold wx, wz.
        transitivity ((IZR dy * Q) * (IZR dy * Q)
                      * (IZR dx * IZR dx + IZR dz * IZR dz)); [ring|].
        rewrite Hq. ring. }
      assert (H0 : 0 <= IZR (dy * dy)) by (rewrite mult_IZR; nra).
      split; apply le_IZR; rewrite !mult_IZR.
      * rewrite <- !mult_IZR. rewrite (mult_IZR 6400), (mult_IZR 8064).
        nra.
      * rewrite <- !mult_IZR. rewrite (mult_IZR 6400), (mult_IZR 8100).
        nra.
  - (* axis z *)
    destruct Hb as [Hb | [Hslow Hb]]; rewrite Hb in Hwx, Hwy, Hwz;
      cbn [vx vy vz] in Hwx, Hwy, Hwz.
    + apply Hres'. unfold speed30Quadratic. cbn [Z.eqb].
      apply quartic_quadratic_common_root with (Q := Q); [exact HF|].
      repeat (rewrite plus_IZR || rewrite mult_IZR).
      assert (H : 25 * (wx * wx) + 16 * (wy * wy) + 100 * (wz * wz) = 1296)
        by nra.
      unfold wx, wy, wz in H. lra.
    + apply Rabs_le_sq in Hslow.
      assert (Hwz0 : wz = 0) by lra.
      assert (HSS : 8064 / 100 <= S * S <= 81) by nra.
      destruct (Z.eq_dec dz 0%Z) as [Hdz|Hdz].
      * apply (slow_axis_excluded_at m dy d S Q); try done.
        unfold m. rewrite Hdz.
        destruct (offset_in_sphere dx dy dz Hm) as (Hx3 & Hy3 & _).
        assert (Hc : (dy = -3 ∨ dy = -2 ∨ dy = -1 ∨ dy = 0 ∨ dy = 1 ∨ dy = 2
                      ∨ dy = 3)%Z) by lia.
        assert (Hc' : (dx = -3 ∨ dx = -2 ∨ dx = -1 ∨ dx = 0 ∨ dx = 1
                       ∨ dx = 2 ∨ dx = 3)%Z) by lia.
        unfold m in Hm. rewrite Hdz in Hm.
        destruct Hc as [-> | [-> | [-> | [-> | [-> | [-> | ->]]]]]];
          destruct Hc' as [-> | [-> | [-> | [-> | [-> | [-> | ->]]]]]];
          first [lia | cbn; tauto].
      * assert (HQ0 : Q = 0).
        { unfold wz in Hwz0. apply Rmult_integral in Hwz0 as [H|H]; [|done].
          apply eq_IZR_R0 in H. done. }
        rewrite HQ0 in HT. lra.
Qed.

Lemma debrisVelocity_nonzero (this this1 : MovingVoxel) (axis dx dy dz : Z) :
  norm (vel this) = 30 → (0 ≤ axis ≤ 2)%Z →
  (1 ≤ dx * dx + dy * dy + dz * dz ≤ 9)%Z →
  vel this1 = bounceVelocity (4 / 10) (8 / 10) (vel this) axis →
  debrisVelocity this1 (norm (vel this1)) dx dy dz ≠ V3 0 0 0.
Proof.
  intros Hn Haxis Hm Hv' Hz. unfold debrisVelocity in Hz. cbv zeta in Hz.
  injection Hz as Hx Hy Hz.
  assert (Hm0 : 0 < IZR (dx * dx + dy * dy + dz * dz)) by (apply IZR_lt; lia).
  apply (zero_velocity_excluded axis dx dy dz (vel this) (vel this1)
           (norm (vel this1))
           (Math_sqrt (IZR (dx * dx + dy * dy + dz * dz)))); try done.
  - unfold norm, Math_sqrt in Hn.
    rewrite <- (sqrt_sqrt (sumsq (vel this))) by apply sumsq_nonneg.
    rewrite Hn. lra.
  - unfold norm, Math_sqrt. apply sqrt_pos.
  - unfold norm, Math_sqrt. apply sqrt_sqrt, sumsq_nonneg.
  - unfold Math_sqrt. by apply sqrt_lt_R0.
  - unfold Math_sqrt. apply sqrt_sqrt. lra.
Qed.

Lemma offset_of_length (dx dy dz : Z) :
  5 / 10 < Math_sqrt (IZR (dx * dx + dy * dy + dz * dz)) →
  Math_sqrt (IZR (dx * dx + dy * dy + dz * dz)) <= 3 →
  (1 ≤ dx * dx + dy * dy + dz * dz ≤ 9)%Z.
Proof.
  unfold Math_sqrt. intros Hlo Hhi.
  assert (H0 : (0 ≤ dx * dx + dy * dy + dz * dz)%Z) by nia.
  split.
  - destruct (Z.eq_dec (dx * dx + dy * dy + dz * dz)%Z 0%Z) as [E|E]; [|lia].
    rewrite E, sqrt_0 in Hlo. lra.
  - apply le_IZR. apply sqrt_le_bound in Hhi; [lra|]. by apply IZR_le.
Qed.

(** The velocities of the voxels that a run of the destruction loop
    pushes to the moving list are [debrisVelocity] at offsets of the
    sphere other than the centre. *)
Lemma destruction_fold_velocities (this : MovingVoxel) (xi yi zi : Z)
    (speed : R) (ks : list (Z * Z * Z)) (s : Server) :
  let s' := fold_left
              (λ s k, destroy_cell this xi yi zi speed s k.1.1 k.1.2 k.2)
              ks s in
  ∃ ds : list MovingVoxel,
    movingVoxels s' = movingVoxels s ++ ds
    ∧ Forall (λ d, ∃ dx dy dz,
                (1 ≤ dx * dx + dy * dy + dz * dz ≤ 9)%Z
                ∧ vel d = debrisVelocity this speed dx dy dz) ds.
Proof.
  revert s. induction ks as [|[[dx dy] dz] ks IH]; intros s; cbv zeta.
  - exists []. by rewrite app_nil_r.
  - cbn [fold_left fst snd].
    destruct (destroy_cell_outcome this xi yi zi speed s dx dy dz)
      as (Hout & _).
    destruct (IH (destroy_cell this xi yi zi speed s dx dy dz))
      as (ds & Hmv & Hall).
    cbv zeta in Hmv. rewrite Hmv.
    destruct Hout as [_ Hm | debris _ Hm _ _ Hd3 Hd05 _ _ _ _ _ Hvel].
    + exists ds. by rewrite Hm.
    + exists (debris :: ds). rewrite Hm, <- app_assoc. split; [done|].
      constructor; [|done]. exists dx, dy, dz.
      split; [by apply offset_of_length|done].
Qed.

Lemma getCollisionInfo_axis (sz : R) (w : list Z) (p : vec3)
    (c : CollisionInfo) :
  getCollisionInfo sz w p = Some c
  ∨ TrajectoryVoxel.getCollisionInfo sz w p = Some c →
  (0 ≤ axis c ≤ 2)%Z.
Proof.
  intros [H|H].
  - unfold getCollisionInfo in H.
    destruct (fst (fold_left _ _ _)) as [[[bx by_] bz]|]; [|done].
    cbv zeta in H. injection H as <-. cbn [axis].
    destruct (_ && _); [lia|]. destruct (_ && _); lia.
  - unfold TrajectoryVoxel.getCollisionInfo in H. cbv zeta in H.
    destruct (if truthy _ then _ else _) as [[[bx by_] bz]|]; [|done].
    injection H as <-. cbn [axis].
    destruct (_ || _); [lia|]. destruct (_ || _); lia.
Qed.

Lemma handleCollision_destroys (collision : CollisionInfo)
    (this : MovingVoxel) (s : Server) :
  isProjectile this = true → hasCollided this = false →
  15 < norm (bounceVelocity (4 / 10) (8 / 10) (vel this) (axis collision)) →
  handleCollision collision this s
  = createDestruction
      (set_vel (bounceVelocity (4 / 10) (8 / 10) (vel this) (axis collision))
         this)
      (block collision).1.1 (block collision).1.2 (block collision).2
      (norm (bounceVelocity (4 / 10) (8 / 10) (vel this) (axis collision))) s.
Proof.
  intros Hp Hc Hfast. unfold handleCollision.
  destruct (block collision) as [[xi yi] zi]. cbv zeta. cbn [fst snd].
  rewrite Hp.
  fold (bounceVelocity (4 / 10) (8 / 10) (vel this) (axis collision)).
  set (this1 := set_vel _ this).
  replace (norm (vel this1) >? 15) with true
    by (symmetry; by apply Rgtb_true).
  replace (hasCollided this1) with false by (symmetry; exact Hc).
  replace (isProjectile this1) with true by (symmetry; exact Hp).
  reflexivity.
Qed.

(** A cell that the loop dislodges adds its voxel to the moving list. *)
Lemma destroy_cell_spawns (this : MovingVoxel) (xi yi zi : Z) (speed : R)
    (s : Server) (dx dy dz : Z) :
  5 / 10 < Math_sqrt (IZR (dx * dx + dy * dy + dz * dz)) →
  Math_sqrt (IZR (dx * dx + dy * dy + dz * dz)) <= 3 →
  truthy (getWorld (world s) (xi + dx) (yi + dy) (zi + dz)) = true →
  random s (randomCalls s)
  < (1 - Math_sqrt (IZR (dx * dx + dy * dy + dz * dz)) / 3) * (7 / 10) →
  length (movingVoxels (destroy_cell this xi yi zi speed s dx dy dz))
  = S (length (movingVoxels s)).
Proof.
  intros Hlo Hhi Hsolid Hdraw. unfold destroy_cell. cbv zeta.
  set (d := Math_sqrt (IZR (dx * dx + dy * dy + dz * dz))) in *.
  rewrite Hsolid, (proj2 (Rleb_true _ _)) by done. cbn [andb].
  rewrite (proj2 (Rgtb_true _ _)) by done.
  unfold Math_random. cbn [fst snd].
  assert (Hmax : Math_max 0 (1 - d / 3) = 1 - d / 3).
  { unfold Math_max. apply Rmax_right. lra. }
  rewrite Hmax, (proj2 (Rltb_true _ _)) by done.
  set (dirLength := Math_sqrt _).
  assert (Hdir : dirLength = d).
  { unfold dirLength, d. f_equal. cbn [vx vy vz].
    rewrite !plus_IZR, !mult_IZR. ring. }
  rewrite Hdir, (proj2 (Rgtb_true _ _)) by lra.
  cbn [movingVoxels set_terrainNeedsRebuild set_world set_movingVoxels].
  rewrite length_app. cbn [length]. lia.
Qed.

Lemma destruction_fold_spawns (this : MovingVoxel) (xi yi zi : Z) (speed : R)
    (ks : list (Z * Z * Z)) (s : Server) (k0 : Z * Z * Z) :
  let d0 := Math_sqrt (IZR (k0.1.1 * k0.1.1 + k0.1.2 * k0.1.2 + k0.2 * k0.2)) in
  In k0 ks → 5 / 10 < d0 → d0 <= 3 →
  truthy (getWorld (world s) (xi + k0.1.1) (yi + k0.1.2) (zi + k0.2)) = true →
  (∀ n, random s n < (1 - d0 / 3) * (7 / 10)) →
  (length (movingVoxels s)
   < length (movingVoxels
       (fold_left
          (λ s k, destroy_cell this xi yi zi speed s k.1.1 k.1.2 k.2) ks s)))%nat.
Proof.
  cbv zeta. revert s.
  induction ks as [|k ks IH]; intros s Hin Hlo Hhi Hsolid Hdraw; [done|].
  cbn [fold_left].
  set (s1 := destroy_cell this xi yi zi speed s k.1.1 k.1.2 k.2).
  pose proof (moving_length_fold
                (λ s k, destroy_cell this xi yi zi speed s k.1.1 k.1.2 k.2)
                ks s1
                (λ s k, destroy_cell_moving_length this xi yi zi speed s
                          k.1.1 k.1.2 k.2)) as Hrest.
  destruct (decide (k = k0)) as [->|Hne].
  - pose proof (destroy_cell_spawns this xi yi zi speed s k0.1.1 k0.1.2 k0.2
                  Hlo Hhi Hsolid (Hdraw _)) as H1.
    fold s1 in H1. lia.
  - destruct Hin as [Hin|Hin]; [done|].
    pose proof (destroy_cell_moving_length this xi yi zi speed s
                  k.1.1 k.1.2 k.2) as H1. fold s1 in H1.
    destruct (destroy_cell_outcome this xi yi zi speed s k.1.1 k.1.2 k.2)
      as (Hout & _ & _ & Hrnd). fold s1 in Hout, Hrnd.
    assert (Hsolid1 : truthy (getWorld (world s1) (xi + k0.1.1)
                                (yi + k0.1.2) (zi + k0.2)) = true).
    { destruct Hout as [-> _ | debris -> _ _ _ _ _ _ _ _ _ _ _]; [done|].
      rewrite getWorld_setWorld_other; [done|].
      intros [= H1' H2' H3']. apply Hne.
      destruct k as [[a b] c], k0 as [[a0 b0] c0]. cbn [fst snd] in *.
      f_equal; [f_equal|]; lia. }
    specialize (IH s1 Hin Hlo Hhi Hsolid1).
    rewrite Hrnd in IH. specialize (IH Hdraw). lia.
Qed.

Lemma getWorld_slab_below : getWorld slab_world 10 46 10 = JNum 1.
Proof.
  unfold getWorld. change (out_of_bounds 10 46 10) with false. cbv iota.
  change (world_index 10 46 10) with 169738%Z.
  unfold ta_get. change (169738 <? 0)%Z with false. cbv iota.
  unfold slab_world. rewrite list_lookup_fmap.
  rewrite lookup_seqZ_lt by (unfold WORLD_SIZE; lia).
  rewrite Z2Nat.id by lia. reflexivity.
Qed.

(** C6 (as amended).  Destruction at an impact.  When [handleCollision]
    has answered an impact on the cell [(xi, yi, zi)], the voxels it has
    pushed to the moving list are at most as many as the solid cells of
    the sphere of radius 3 around the cell (there may be none: every cell
    is dislodged with a probability below 0.7); each of them is debris
    (neither a projectile nor a player voxel), sits at the centre of a cell
    other than the impacted one that was solid and is now empty, and has
    the velocity [debrisVelocity]; the impacted cell itself is left as it
    was.  When the projectile had the speed 30 before the bounce, on one of
    the three axes, none of these velocities is zero; and the axis that
    [getCollisionInfo] reports, in both versions, is one of the three. *)
Theorem destruction_spawns_debris (collision : CollisionInfo)
    (this : MovingVoxel) (s : Server) :
  let r := handleCollision collision this s in
  let xi := (block collision).1.1 in
  let yi := (block collision).1.2 in
  let zi := (block collision).2 in
  ∃ ds : list MovingVoxel,
    movingVoxels (snd r) = movingVoxels s ++ ds
    ∧ (length ds ≤ sphereSolidCount (world s) xi yi zi)%nat
    ∧ Forall (is_debris_of (fst r) xi yi zi (norm (vel (fst r))) s (snd r)) ds
    ∧ getWorld (world (snd r)) xi yi zi = getWorld (world s) xi yi zi
    ∧ (norm (vel this) = 30 → (0 ≤ axis collision ≤ 2)%Z →
       Forall (λ d, vel d ≠ V3 0 0 0) ds)
    ∧ (∀ sz w p c,
         getCollisionInfo sz w p = Some c
         ∨ TrajectoryVoxel.getCollisionInfo sz w p = Some c →
         (0 ≤ axis c ≤ 2)%Z).
Proof.
  cbv zeta.
  destruct (handleCollision_bounce collision this s)
    as [Hr|(Hproj & Hfast & Hr)]; cbv zeta in Hr.
  - exists []. rewrite Hr, app_nil_r.
    split; [done|]. split; [simpl; lia|]. split; [constructor|].
    split; [done|]. split; [intros _ _; constructor|].
    apply getCollisionInfo_axis.
  - rewrite Hr.
    set (v' := bounceVelocity (4 / 10) (8 / 10) (vel this) (axis collision))
      in *.
    destruct (createDestruction_spec (set_vel v' this) (block collision).1.1
                (block collision).1.2 (block collision).2 (norm v') s)
      as (Hthis & ds & Hmv & Hlen & _ & Himp & Hall & _).
    exists ds. rewrite Hthis in Hall |- *.
    split; [done|]. split; [done|]. split; [done|]. split; [done|].
    split; [|apply getCollisionInfo_axis].
    intros Hn Haxis.
    pose proof (destruction_fold_velocities
                  (set_hasCollided true (set_vel v' this))
                  (block collision).1.1 (block collision).1.2
                  (block collision).2 (norm v') sphere_offsets s)
      as (ds' & Hmv' & Hvel).
    cbv zeta in Hmv'. rewrite createDestruction_flat in Hmv.
    cbn [snd] in Hmv. rewrite Hmv in Hmv'.
    apply app_inv_head in Hmv' as <-.
    eapply Forall_impl; [exact Hvel|].
    intros d (dx & dy & dz & Hm & ->).
    exact (debrisVelocity_nonzero this (set_hasCollided true (set_vel v' this))
             (axis collision) dx dy dz Hn Haxis Hm eq_refl).
Qed.

Lemma destruction_spawns_debris_witness :
  let this :=
    projectile_moving (V3 (105 / 10) (4845 / 100) (105 / 10)) (V3 24 (-18) 0) in
  let s := server_of slab_world [] [this] 0 in
  let collision := mkCollision (10, 47, 10)%Z 1 in
  let r := handleCollision collision this s in
  norm (vel this) = 30
  ∧ ∃ ds : list MovingVoxel,
      movingVoxels (snd r) = movingVoxels s ++ ds
      ∧ ds ≠ []
      ∧ Forall (λ d, isProjectile d = false ∧ vel d ≠ V3 0 0 0) ds.
Proof.
  cbv zeta.
  set (this := projectile_moving (V3 (105 / 10) (4845 / 100) (105 / 10))
                 (V3 24 (-18) 0)).
  set (s := server_of slab_world [] [this] 0).
  set (collision := mkCollision (10, 47, 10)%Z 1).
  assert (Hn : norm (vel this) = 30).
  { unfold norm, sumsq, Math_sqrt. simpl. apply sqrt_lem_1; lra. }
  split; [exact Hn|].
  destruct (destruction_spawns_debris collision this s)
    as (ds & Hmv & _ & Hall & _ & Hnz & _).
  exists ds. split; [exact Hmv|]. split.
  - intros ->. rewrite app_nil_r in Hmv.
    assert (Hb : bounceVelocity (4 / 10) (8 / 10) (vel this) (axis collision)
                 = V3 (24 * (8 / 10)) (-18 * - (4 / 10)) (0 * (8 / 10))).
    { unfold bounceVelocity. change (vget (vel this) (axis collision)) with (-18).
      replace (Math_abs (-18) >? 2) with true; [reflexivity|].
      symmetry. apply Rgtb_true. unfold Math_abs, Rabs.
      destruct (Rcase_abs (-18)); lra. }
    rewrite handleCollision_destroys in Hmv; [|done|done|].
    2:{ rewrite Hb. unfold norm, sumsq, Math_sqrt. cbn [vx vy vz].
        apply sqrt_gt; lra. }
    rewrite createDestruction_flat in Hmv. cbn [snd] in Hmv.
    pose proof (destruction_fold_spawns
                  (set_hasCollided true
                     (set_vel (bounceVelocity (4 / 10) (8 / 10) (vel this)
                                 (axis collision)) this))
                  10 47 10
                  (norm (bounceVelocity (4 / 10) (8 / 10) (vel this)
                           (axis collision)))
                  sphere_offsets s (0, -1, 0)%Z) as Hsp.
    cbv zeta in Hsp. cbn [fst snd block collision] in Hsp, Hmv.
    change (0 * 0 + -1 * -1 + 0 * 0)%Z with 1%Z in Hsp.
    unfold Math_sqrt in Hsp. rewrite sqrt_1 in Hsp.
    rewrite Hmv in Hsp. apply (Nat.lt_irrefl (length (movingVoxels s))).
    apply Hsp.
    + apply sphere_offsets_In; lia.
    + lra.
    + lra.
    + change (world s) with slab_world. change (47 + -1)%Z with 46%Z.
      change (10 + 0)%Z with 10%Z. by rewrite getWorld_slab_below.
    + intros n. cbn. lra.
  - specialize (Hnz Hn ltac:(cbn; lia)).
    rewrite Forall_forall in Hall, Hnz. apply Forall_forall.
    intros d Hd. split; [|by apply Hnz].
    by destruct (Hall d Hd) as (? & _).
Defined.
(** ** MathUtils.js *)

Lemma sin2_cos2_sum (x : R) : sin x * sin x + cos x * cos x = 1.
Proof. pose proof (sin2_cos2 x) as H. unfold Rsqr in H. lra. Qed.

(** X1. [getCameraDirection] gives a unit vector, whatever the yaw and
    the pitch. *)
Theorem getCameraDirection_unit (yaw pitch : R) :
  norm (getCameraDirection yaw pitch) = 1.
Proof.
  unfold norm, sumsq, getCameraDirection, Math_sqrt. cbn [vx vy vz].
  rewrite <- sqrt_1. f_equal.
  pose proof (sin2_cos2_sum yaw) as Hy. pose proof (sin2_cos2_sum pitch) as Hp.
  nra.
Qed.

Lemma cameraRight_raw_length (yaw pitch : R) :
  sqrt ((sin pitch * 0 - cos pitch * cos yaw * 1)
        * (sin pitch * 0 - cos pitch * cos yaw * 1)
        + (cos pitch * cos yaw * 0 - cos pitch * sin yaw * 0)
          * (cos pitch * cos yaw * 0 - cos pitch * sin yaw * 0)
        + (cos pitch * sin yaw * 1 - sin pitch * 0)
          * (cos pitch * sin yaw * 1 - sin pitch * 0))
  = Rabs (cos pitch).
Proof.
  rewrite <- sqrt_Rsqr_abs. f_equal. unfold Rsqr.
  pose proof (sin2_cos2_sum yaw) as Hy. nra.
Qed.

(** X2. [getCameraRight] is horizontal and at right angles to the camera
    direction; it is a unit vector unless the camera looks straight up or
    down ([cos pitch = 0]), where the guard [rightLen > 0] leaves the zero
    vector. *)
Theorem getCameraRight_horizontal_unit (yaw pitch : R) :
  let right := getCameraRight yaw pitch in
  let dir := getCameraDirection yaw pitch in
  vy right = 0
  ∧ vx right * vx dir + vy right * vy dir + vz right * vz dir = 0
  ∧ (cos pitch ≠ 0 → norm right = 1)
  ∧ (cos pitch = 0 → right = V3 0 0 0).
Proof.
  cbv zeta. unfold getCameraRight, getCameraDirection, Math_sqrt.
  cbn [vx vy vz]. rewrite cameraRight_raw_length.
  pose proof (Rabs_pos (cos pitch)) as Habs.
  destruct (Req_dec_T (cos pitch) 0) as [H0|H0].
  - rewrite H0, Rabs_R0.
    replace (0 >? 0) with false by (symmetry; apply Rgtb_false; lra).
    cbn [vx vy vz]. split; [lra|]. split; [lra|]. split; [done|].
    intros _. apply vec3_eq; cbn; lra.
  - assert (Hpos : 0 < Rabs (cos pitch)) by (by apply Rabs_pos_lt).
    replace (_ >? 0) with true by (symmetry; by apply Rgtb_true).
    cbn [vx vy vz]. split; [field; lra|]. split; [field; lra|].
    split; [|done]. intros _.
    unfold norm, sumsq, Math_sqrt. cbn [vx vy vz].
    transitivity (sqrt 1); [f_equal|apply sqrt_1].
    assert (Hsq : Rabs (cos pitch) * Rabs (cos pitch) = cos pitch * cos pitch).
    { pose proof (Rsqr_abs (cos pitch)) as H. unfold Rsqr in H. lra. }
    pose proof (sin2_cos2_sum yaw) as Hy.
    apply (Rmult_eq_reg_r (Rabs (cos pitch) * Rabs (cos pitch))); [|nra].
    transitivity (cos pitch * cos pitch * (sin yaw * sin yaw + cos yaw * cos yaw));
      [field; lra|]. rewrite Hy, Hsq. ring.
Qed.

(** X3. [lerp3D] starts at the first point and ends at the second; the
    point at [t] is at [|t|] times the distance of the two points from
    the first one. *)
Theorem lerp3D_endpoints_distance (pos1 pos2 : vec3) (t : R) :
  lerp3D pos1 pos2 0 = pos1
  ∧ lerp3D pos1 pos2 1 = pos2
  ∧ distance3D pos1 (lerp3D pos1 pos2 t) = Rabs t * distance3D pos1 pos2.
Proof.
  split; [apply vec3_eq; cbn; ring|]. split; [apply vec3_eq; cbn; ring|].
  unfold distance3D, lerp3D, Math_sqrt. cbn [vx vy vz]. cbv zeta.
  rewrite <- sqrt_Rsqr_abs, <- sqrt_mult_alt by apply Rle_0_sqr.
  f_equal. unfold Rsqr. ring.
Qed.

Lemma cauchy_schwarz3 (a b c x y z : R) :
  (a * x + b * y + c * z) * (a * x + b * y + c * z)
  <= (a * a + b * b + c * c) * (x * x + y * y + z * z).
Proof.
  pose proof (sq_nonneg (a * y - b * x)).
  pose proof (sq_nonneg (a * z - c * x)).
  pose proof (sq_nonneg (b * z - c * y)). nra.
Qed.

Lemma norm_triangle (u v : vec3) : norm (vadd u v) <= norm u + norm v.
Proof.
  unfold norm, Math_sqrt.
  pose proof (sumsq_nonneg u) as Hu. pose proof (sumsq_nonneg v) as Hv.
  pose proof (sqrt_pos (sumsq u)) as HU. pose proof (sqrt_pos (sumsq v)) as HV.
  pose proof (sqrt_sqrt _ Hu) as HUU. pose proof (sqrt_sqrt _ Hv) as HVV.
  set (U := sqrt (sumsq u)) in *. set (V := sqrt (sumsq v)) in *.
  rewrite <- (sqrt_square (U + V)) by lra. apply sqrt_le_1_alt.
  pose proof (cauchy_schwarz3 (vx u) (vy u) (vz u) (vx v) (vy v) (vz v)) as Hcs.
  fold (sumsq u) in Hcs. fold (sumsq v) in Hcs.
  set (d := vx u * vx v + vy u * vy v + vz u * vz v) in *.
  assert (Hd : d <= U * V).
  { destruct (Rle_dec d (U * V)) as [?|Hn]; [done|]. exfalso.
    assert (0 <= U * V) by nra. nra. }
  replace (sumsq (vadd u v)) with (sumsq u + sumsq v + 2 * d)
    by (unfold sumsq, vadd, d; cbn [vx vy vz]; ring).
  nra.
Qed.

Lemma sumsq_zero (x y z : R) :
  x * x + y * y + z * z = 0 → x = 0 ∧ y = 0 ∧ z = 0.
Proof.
  intros H. pose proof (sq_nonneg x). pose proof (sq_nonneg y).
  pose proof (sq_nonneg z).
  assert (Hx : x * x = 0) by lra. assert (Hy : y * y = 0) by lra.
  assert (Hz : z * z = 0) by lra.
  apply Rmult_integral in Hx, Hy, Hz. intuition.
Qed.

Lemma distance3D_dist (pos1 pos2 : vec3) : distance3D pos1 pos2 = dist pos2 pos1.
Proof. done. Qed.

(** X4. [distance3D] is a distance: it is not negative, it is zero
    exactly for equal points, it does not depend on the order of the two
    points, and it satisfies the triangle inequality. *)
Theorem distance3D_metric (a b c : vec3) :
  0 <= distance3D a b
  ∧ (distance3D a b = 0 ↔ a = b)
  ∧ distance3D a b = distance3D b a
  ∧ distance3D a c <= distance3D a b + distance3D b c.
Proof.
  rewrite !distance3D_dist. unfold dist.
  split; [apply norm_nonneg|]. split; [|split].
  - split.
    + intros H0. unfold norm, Math_sqrt in H0.
      apply sqrt_eq_0 in H0; [|apply sumsq_nonneg].
      unfold sumsq, vsub in H0. cbn [vx vy vz] in H0.
      apply sumsq_zero in H0 as (? & ? & ?). apply vec3_eq; lra.
    + intros ->. replace (vsub b b) with (V3 0 0 0)
        by (apply vec3_eq; cbn; ring). apply norm_zero.
  - unfold norm. f_equal. unfold sumsq, vsub. cbn [vx vy vz]. ring.
  - replace (vsub c a) with (vadd (vsub c b) (vsub b a))
      by (apply vec3_eq; cbn; ring).
    rewrite Rplus_comm. apply norm_triangle.
Qed.

(** X5. [worldToScreen] answers [null] exactly when the clip position is
    behind the camera ([w <= 0]) or outside the unit square after the
    division by [w]; every point it returns is on the canvas. *)
Theorem worldToScreen_on_canvas (worldPos : vec3) (viewMatrix projMatrix : mat4)
    (canvasWidth canvasHeight : R) :
  0 <= canvasWidth → 0 <= canvasHeight →
  let clip := transformVec4 worldPos viewMatrix projMatrix in
  match worldToScreen worldPos viewMatrix projMatrix canvasWidth canvasHeight
  with
  | Some (screenX, screenY) =>
      0 < v4w clip
      ∧ - v4w clip <= v4x clip <= v4w clip
      ∧ - v4w clip <= v4y clip <= v4w clip
      ∧ 0 <= screenX <= canvasWidth
      ∧ 0 <= screenY <= canvasHeight
  | None =>
      v4w clip <= 0
      ∨ v4x clip < - v4w clip ∨ v4w clip < v4x clip
      ∨ v4y clip < - v4w clip ∨ v4w clip < v4y clip
  end.
Proof.
  intros Hw Hh. cbv zeta. unfold worldToScreen.
  set (clip := transformVec4 worldPos viewMatrix projMatrix).
  cbv zeta. destruct (v4w clip <=? 0) eqn:E; [left; by apply Rleb_true|].
  apply Rleb_false in E.
  assert (Hdiv : ∀ a, a / v4w clip * v4w clip = a) by (intros; field; lra).
  set (ndcX := v4x clip / v4w clip). set (ndcY := v4y clip / v4w clip).
  pose proof (Hdiv (v4x clip)) as Hx. pose proof (Hdiv (v4y clip)) as Hy.
  fold ndcX in Hx. fold ndcY in Hy.
  destruct (ndcX <? -1) eqn:E1.
  { apply Rltb_true in E1. right; left. nra. }
  destruct (ndcX >? 1) eqn:E2.
  { apply Rgtb_true in E2. right; right; left. nra. }
  destruct (ndcY <? -1) eqn:E3.
  { apply Rltb_true in E3. do 3 right; left. nra. }
  destruct (ndcY >? 1) eqn:E4.
  { apply Rgtb_true in E4. do 4 right. nra. }
  cbn [orb]. apply Rltb_false in E1, E3. apply Rgtb_false in E2, E4.
  split; [done|]. split; [nra|]. split; [nra|]. split; nra.
Qed.

Lemma worldToScreen_on_canvas_witness :
  0 <= 800 ∧ 0 <= 600
  ∧ let worldPos := V3 (1 / 2) (1 / 2) 0 in
    let clip := transformVec4 worldPos createIdentityMatrix
                  createIdentityMatrix in
    match worldToScreen worldPos createIdentityMatrix createIdentityMatrix
            800 600 with
    | Some (screenX, screenY) =>
        0 < v4w clip
        ∧ - v4w clip <= v4x clip <= v4w clip
        ∧ - v4w clip <= v4y clip <= v4w clip
        ∧ 0 <= screenX <= 800
        ∧ 0 <= screenY <= 600
    | None =>
        v4w clip <= 0
        ∨ v4x clip < - v4w clip ∨ v4w clip < v4x clip
        ∨ v4y clip < - v4w clip ∨ v4w clip < v4y clip
    end.
Proof.
  split; [lra|]. split; [lra|].
  apply (worldToScreen_on_canvas (V3 (1 / 2) (1 / 2) 0) createIdentityMatrix
           createIdentityMatrix 800 600); lra.
Defined.

(** ** Player.js *)

Lemma inputDelta_length (dt : R) (p : Player) :
  inputLength p > 0 → 0 <= dt →
  Math_sqrt ((inputDelta dt p).1 * (inputDelta dt p).1
             + (inputDelta dt p).2 * (inputDelta dt p).2) = MOVE_SPD * dt.
Proof.
  intros Hlen Hdt. unfold inputDelta. cbv zeta. cbn [fst snd].
  assert (Hsq : inputLength p * inputLength p
                = vx (inputVector p) * vx (inputVector p)
                  + vz (inputVector p) * vz (inputVector p)).
  { unfold inputLength, Math_sqrt. cbv zeta. apply sqrt_sqrt.
    pose proof (sq_nonneg (vx (inputVector p))).
    pose proof (sq_nonneg (vz (inputVector p))). lra. }
  set (len := inputLength p) in *. set (v := inputVector p) in *.
  unfold Math_sqrt, MOVE_SPD. apply sqrt_lem_1; [|nra|].
  - pose proof (sq_nonneg (vx v / len * 15 * dt)).
    pose proof (sq_nonneg (vz v / len * 15 * dt)). lra.
  - transitivity ((vx v * vx v + vz v * vz v) / (len * len) * (15 * dt * (15 * dt)));
      [|field; lra].
    rewrite <- Hsq. field. lra.
Qed.

(** X6. A step of the horizontal movement, in Player.js and in server.js.
    The centre and the body voxels move by the same horizontal vector,
    which is zero (no input, or a step refused) or has the length
    [MOVE_SPEED * dt], whatever the pitch and the keys held; a step taken
    ends in a column of the world. *)
Theorem horizontal_step_length (dt : R) (heights : list Z) (p : Player) :
  0 <= dt →
  ∀ q, q = updateHorizontalMovement dt heights p
       ∨ q = Monolith.horizontalMovement dt heights p →
  ∃ delta,
    vy delta = 0
    ∧ centerPos q = vadd (centerPos p) delta
    ∧ bodyVoxels q = shift_voxels delta (bodyVoxels p)
    ∧ (delta = V3 0 0 0
       ∨ (norm delta = MOVE_SPD * dt
          ∧ (0 <= Math_floor (vx (centerPos q)) < WORLD_SIZE)%Z
          ∧ (0 <= Math_floor (vz (centerPos q)) < WORLD_SIZE)%Z)).
Proof.
  intros Hdt q Hq.
  assert (Hstay : ∃ delta, vy delta = 0
            ∧ centerPos p = vadd (centerPos p) delta
            ∧ bodyVoxels p = shift_voxels delta (bodyVoxels p)
            ∧ (delta = V3 0 0 0
               ∨ (norm delta = MOVE_SPD * dt
                  ∧ (0 <= Math_floor (vx (centerPos p)) < WORLD_SIZE)%Z
                  ∧ (0 <= Math_floor (vz (centerPos p)) < WORLD_SIZE)%Z))).
  { exists (V3 0 0 0). split; [done|]. split.
    - destruct (centerPos p). apply vec3_eq; cbn; ring.
    - split; [by rewrite shift_voxels_zero|by left]. }
  assert (Hmove : ∀ q',
            inputLength p > 0 →
            centerPos q' = V3 (vx (centerPos p) + (inputDelta dt p).1)
                              (vy (centerPos p))
                              (vz (centerPos p) + (inputDelta dt p).2) →
            bodyVoxels q'
            = shift_voxels (V3 (inputDelta dt p).1 0 (inputDelta dt p).2)
                (bodyVoxels p) →
            (0 <= Math_floor (vx (centerPos p) + (inputDelta dt p).1)
             < WORLD_SIZE)%Z →
            (0 <= Math_floor (vz (centerPos p) + (inputDelta dt p).2)
             < WORLD_SIZE)%Z →
            ∃ delta, vy delta = 0
              ∧ centerPos q' = vadd (centerPos p) delta
              ∧ bodyVoxels q' = shift_voxels delta (bodyVoxels p)
              ∧ (delta = V3 0 0 0
                 ∨ (norm delta = MOVE_SPD * dt
                    ∧ (0 <= Math_floor (vx (centerPos q')) < WORLD_SIZE)%Z
                    ∧ (0 <= Math_floor (vz (centerPos q')) < WORLD_SIZE)%Z))).
  { intros q' Hlen Hc Hb Hx Hz.
    exists (V3 (inputDelta dt p).1 0 (inputDelta dt p).2).
    split; [done|]. split; [rewrite Hc; apply vec3_eq; cbn; ring|].
    split; [done|]. right. rewrite Hc. cbn [vx vz]. split; [|done].
    rewrite <- (inputDelta_length dt p Hlen Hdt).
    unfold norm, sumsq. cbn [vx vy vz]. f_equal. ring. }
  destruct Hq as [-> | ->].
  - unfold updateHorizontalMovement.
    destruct (inputLength p >? 0) eqn:El; [|done]. apply Rgtb_true in El.
    destruct (inputDelta dt p) as [deltaX deltaZ] eqn:Ed.
    destruct (canMoveTo heights p deltaX deltaZ) eqn:Ec; [|done].
    cbn [fst snd] in Hmove. apply Hmove; [lra| | |..].
    + cbn. apply vec3_eq; cbn; ring.
    + done.
    + unfold canMoveTo in Ec. cbv zeta in Ec.
      destruct (_ || _) eqn:Eb in Ec; [done|].
      repeat (apply orb_false_iff in Eb as [Eb ?]). lia.
    + unfold canMoveTo in Ec. cbv zeta in Ec.
      destruct (_ || _) eqn:Eb in Ec; [done|].
      repeat (apply orb_false_iff in Eb as [Eb ?]). lia.
  - unfold Monolith.horizontalMovement.
    destruct (inputLength p >? 0) eqn:El; [|done]. apply Rgtb_true in El.
    destruct (inputDelta dt p) as [deltaX deltaZ] eqn:Ed. cbv zeta.
    destruct (_ && _) eqn:Eb; [|done].
    destruct (ta_get heights _); [|done].
    destruct (ta_get heights _); [|done].
    destruct (_ <=? _)%Z; [|done].
    cbn [fst snd] in Hmove.
    repeat (apply andb_true_iff in Eb as [Eb ?]).
    apply Hmove; [lra|done|done|lia|lia].
Qed.

Lemma horizontal_step_length_witness :
  0 <= 2 / 100
  ∧ ∃ delta,
      vy delta = 0
      ∧ centerPos (updateHorizontalMovement (2 / 100) step_heights walker)
        = vadd (centerPos walker) delta
      ∧ bodyVoxels (updateHorizontalMovement (2 / 100) step_heights walker)
        = shift_voxels delta (bodyVoxels walker)
      ∧ (delta = V3 0 0 0
         ∨ (norm delta = MOVE_SPD * (2 / 100)
            ∧ (0 <= Math_floor
                      (vx (centerPos (updateHorizontalMovement (2 / 100)
                                        step_heights walker)))
               < WORLD_SIZE)%Z
            ∧ (0 <= Math_floor
                      (vz (centerPos (updateHorizontalMovement (2 / 100)
                                        step_heights walker)))
               < WORLD_SIZE)%Z)).
Proof.
  split; [lra|].
  apply (horizontal_step_length (2 / 100) step_heights walker); [lra|].
  by left.
Defined.

Lemma groundLevel_xz (heights : list Z) (c c' : vec3) :
  vx c' = vx c → vz c' = vz c → groundLevel heights c' = groundLevel heights c.
Proof. intros Hx Hz. unfold groundLevel. by rewrite Hx, Hz. Qed.

(** X7. The vertical part of the player physics.  After
    [updateVerticalPhysics] the centre is not below the standing height
    (ground level plus half the height of the body), the player is
    grounded exactly when the centre is at that height, the centre has not
    moved horizontally, and a player that has just landed has no vertical
    velocity. *)
Theorem vertical_physics_ground (dt : R) (heights : list Z) (p : Player) :
  let q := updateVerticalPhysics dt heights p in
  let standing := groundLevel heights (centerPos q) + IZR HALF_H in
  standing <= vy (centerPos q)
  ∧ (grounded q = true ↔ vy (centerPos q) = standing)
  ∧ vx (centerPos q) = vx (centerPos p)
  ∧ vz (centerPos q) = vz (centerPos p)
  ∧ (grounded p = false → grounded q = true → velY q = 0).
Proof.
  cbv zeta. unfold updateVerticalPhysics.
  destruct (grounded p) eqn:Eg; cbn [negb].
  - unfold stickToGround. cbv zeta.
    destruct (_ >? _) eqn:E.
    + apply Rgtb_true in E. cbn. split; [lra|]. split; [|done].
      split; [done|lra].
    + cbn [centerPos set_bodyVoxels set_centerPos grounded vx vy vz].
      rewrite (groundLevel_xz heights (centerPos p)) by done.
      split; [lra|]. split; [|done]. by rewrite Eg.
  - cbv zeta. unfold checkGroundCollision. cbv zeta.
    set (p3 := set_centerPos _ _).
    assert (Hx : vx (centerPos p3) = vx (centerPos p)) by done.
    assert (Hz : vz (centerPos p3) = vz (centerPos p)) by done.
    assert (Hg : grounded p3 = false) by done.
    destruct (_ <=? _) eqn:E.
    + cbn [centerPos set_bodyVoxels set_centerPos set_velY set_grounded
             grounded velY vx vy vz].
      rewrite (groundLevel_xz heights (centerPos p3)) by done.
      split; [lra|]. split; [done|]. done.
    + apply Rleb_false in E. split; [lra|]. rewrite Hg. split; [|done].
      split; [done|lra].
Qed.

Lemma clamp_range (lo hi x : R) :
  lo <= hi → lo <= Math_max lo (Math_min hi x) <= hi.
Proof.
  intros H. unfold Math_max, Math_min. split; [apply Rmax_l|].
  apply Rmax_lub; [done|apply Rmin_l].
Qed.

Lemma clamp_inside (lo hi x : R) :
  lo <= x <= hi → Math_max lo (Math_min hi x) = x.
Proof.
  intros H. unfold Math_max, Math_min.
  rewrite Rmin_right by lra. by rewrite Rmax_right by lra.
Qed.

Lemma set_centerPos_same (p : Player) (c : vec3) :
  c = centerPos p → set_centerPos c p = p.
Proof. intros ->. by destruct p. Qed.

(** X8. [enforceBoundaries] brings the centre of a player into
    [[0.5, 127.5]] in [x] and in [z], moves the body voxels by the same
    horizontal vector, leaves the height untouched, and changes nothing
    for a player who is already inside. *)
Theorem enforceBoundaries_inside (p : Player) :
  let q := enforceBoundaries p in
  5 / 10 <= vx (centerPos q) <= 1275 / 10
  ∧ 5 / 10 <= vz (centerPos q) <= 1275 / 10
  ∧ vy (centerPos q) = vy (centerPos p)
  ∧ bodyVoxels q
    = shift_voxels (V3 (vx (centerPos q) - vx (centerPos p)) 0
                       (vz (centerPos q) - vz (centerPos p))) (bodyVoxels p)
  ∧ (5 / 10 <= vx (centerPos p) <= 1275 / 10 →
     5 / 10 <= vz (centerPos p) <= 1275 / 10 → q = p)
  ∧ enforceBoundaries q = q.
Proof.
  assert (Hin : ∀ r, 5 / 10 <= vx (centerPos r) <= 1275 / 10 →
                     5 / 10 <= vz (centerPos r) <= 1275 / 10 →
                     enforceBoundaries r = r).
  { intros r Hx Hz. unfold enforceBoundaries. cbv zeta.
    change (IZR HALF_W / 16) with (8 / 16). change (IZR WORLD_SIZE) with 128.
    rewrite !clamp_inside by lra.
    replace (Reqb (vx (centerPos r) - vx (centerPos r)) 0) with true
      by (symmetry; apply Reqb_true; lra).
    replace (Reqb (vz (centerPos r) - vz (centerPos r)) 0) with true
      by (symmetry; apply Reqb_true; lra).
    cbn [negb orb]. apply set_centerPos_same.
    destruct (centerPos r). done. }
  cbv zeta.
  assert (Hq : 5 / 10 <= vx (centerPos (enforceBoundaries p)) <= 1275 / 10
               ∧ 5 / 10 <= vz (centerPos (enforceBoundaries p)) <= 1275 / 10
               ∧ vy (centerPos (enforceBoundaries p)) = vy (centerPos p)
               ∧ bodyVoxels (enforceBoundaries p)
                 = shift_voxels
                     (V3 (vx (centerPos (enforceBoundaries p)) - vx (centerPos p))
                         0
                         (vz (centerPos (enforceBoundaries p)) - vz (centerPos p)))
                     (bodyVoxels p)).
  { unfold enforceBoundaries. cbv zeta.
    change (IZR HALF_W / 16) with (8 / 16). change (IZR WORLD_SIZE) with 128.
    pose proof (clamp_range (8 / 16) (128 - 8 / 16) (vx (centerPos p))
                  ltac:(lra)) as Hx.
    pose proof (clamp_range (8 / 16) (128 - 8 / 16) (vz (centerPos p))
                  ltac:(lra)) as Hz.
    set (newX := Math_max _ (Math_min _ (vx (centerPos p)))) in *.
    set (newZ := Math_max _ (Math_min _ (vz (centerPos p)))) in *.
    destruct (negb (Reqb (newX - vx (centerPos p)) 0)
              || negb (Reqb (newZ - vz (centerPos p)) 0)) eqn:E.
    - cbn. split; [lra|]. split; [lra|]. done.
    - apply orb_false_iff in E as [Ex Ez].
      apply negb_false_iff, Reqb_true in Ex, Ez.
      cbn. split; [lra|]. split; [lra|]. split; [done|].
      rewrite shift_voxels_zero; [done|]. by rewrite Ex, Ez. }
  destruct Hq as (Hx & Hz & Hy & Hb).
  split; [done|]. split; [done|]. split; [done|]. split; [done|].
  split; [apply Hin|by apply Hin].
Qed.

(** X9. [jump] acts only from the ground: a grounded player leaves the
    ground with the vertical velocity [JUMP_SPEED]; an airborne player is
    left as it is, so that a second jump in a row changes nothing.  The
    position and the body are never touched by the jump itself.  The next
    step of [updateVerticalPhysics], for a step shorter than
    [JUMP_SPEED / GRAVITY], lifts a grounded player whose centre was not
    below the standing height by [(JUMP_SPEED - GRAVITY * dt) * dt], body
    and centre alike, and leaves the player airborne. *)
Theorem jump_only_from_ground (p : Player) :
  (grounded p = true →
   grounded (jump p) = false ∧ velY (jump p) = JUMP_SPEED)
  ∧ (grounded p = false → jump p = p)
  ∧ jump (jump p) = jump p
  ∧ centerPos (jump p) = centerPos p
  ∧ bodyVoxels (jump p) = bodyVoxels p
  ∧ (∀ dt heights,
       grounded p = true →
       groundLevel heights (centerPos p) + IZR HALF_H <= vy (centerPos p) →
       0 < dt < JUMP_SPEED / GRAVITY →
       let q := updateVerticalPhysics dt heights (jump p) in
       grounded q = false
       ∧ velY q = JUMP_SPEED - GRAVITY * dt
       ∧ vy (centerPos q)
         = vy (centerPos p) + (JUMP_SPEED - GRAVITY * dt) * dt
       ∧ vy (centerPos p) < vy (centerPos q)
       ∧ bodyVoxels q
         = shift_voxels (V3 0 ((JUMP_SPEED - GRAVITY * dt) * dt) 0)
                        (bodyVoxels p)).
Proof.
  split; [|split; [|split; [|split; [|split]]]];
    try (unfold jump; destruct (grounded p) eqn:E; cbn; rewrite ?E; done).
  intros dt heights Hg Hstand Hdt. cbv zeta.
  assert (Hrise : 0 < (JUMP_SPEED - GRAVITY * dt) * dt).
  { unfold JUMP_SPEED, GRAVITY in *. apply Rmult_lt_0_compat; [|lra].
    assert (40 * dt < 18); [|lra].
    destruct Hdt as [H0 H1].
    apply (Rmult_lt_compat_l 40) in H1; [|lra].
    replace (40 * (18 / 40)) with 18 in H1 by field. done. }
  unfold updateVerticalPhysics.
  replace (grounded (jump p)) with false by (unfold jump; by rewrite Hg).
  cbn [negb]. cbv zeta.
  set (p3 := set_centerPos _ _).
  assert (H3 : centerPos p3
               = V3 (vx (centerPos p))
                    (vy (centerPos p) + (JUMP_SPEED - GRAVITY * dt) * dt)
                    (vz (centerPos p))
               ∧ velY p3 = JUMP_SPEED - GRAVITY * dt
               ∧ grounded p3 = false
               ∧ bodyVoxels p3
                 = shift_voxels (V3 0 ((JUMP_SPEED - GRAVITY * dt) * dt) 0)
                                (bodyVoxels p)).
  { subst p3. unfold jump. rewrite Hg. done. }
  destruct H3 as (Hc & Hv & Hgr & Hb). clearbody p3.
  unfold checkGroundCollision. cbv zeta.
  rewrite (groundLevel_xz heights (centerPos p) (centerPos p3))
    by (by rewrite Hc).
  rewrite (proj2 (Rleb_false _ _)) by (rewrite Hc; cbn [vy]; lra).
  rewrite Hc. cbn [vy].
  split; [done|]. split; [done|]. split; [done|]. split; [lra|done].
Qed.

(** X10. [removeVoxel] checks its index: outside [[0, length)] it answers
    [null] and leaves the body as it is; inside, it answers the voxel of
    that index and the body loses exactly that voxel, the others keeping
    their order. *)
Theorem removeVoxel_bounds (index : Z) (p : Player) :
  let r := removeVoxel index p in
  ((index < 0 ∨ Z.of_nat (length (bodyVoxels p)) <= index)%Z →
   r = (None, p))
  ∧ ((0 <= index < Z.of_nat (length (bodyVoxels p)))%Z →
     ∃ voxel,
       r.1 = Some voxel
       ∧ bodyVoxels p !! Z.to_nat index = Some voxel
       ∧ bodyVoxels r.2
         = take (Z.to_nat index) (bodyVoxels p)
           ++ drop (S (Z.to_nat index)) (bodyVoxels p)
       ∧ S (length (bodyVoxels r.2)) = length (bodyVoxels p)
       ∧ centerPos r.2 = centerPos p).
Proof.
  cbv zeta. unfold removeVoxel. split.
  - intros H.
    destruct ((index >=? 0)%Z && _) eqn:E; [|done].
    apply andb_true_iff in E as [E1 E2]. lia.
  - intros H.
    replace ((index >=? 0)%Z && _) with true
      by (symmetry; apply andb_true_iff; lia).
    destruct (lookup_lt_is_Some_2 (bodyVoxels p) (Z.to_nat index)
                ltac:(lia)) as [voxel Hv].
    exists voxel. cbn [fst snd bodyVoxels set_bodyVoxels centerPos].
    split; [done|]. split; [done|]. unfold splice1.
    split; [apply delete_take_drop|]. split; [|done].
    rewrite length_delete by done. lia.
Qed.

Lemma xmin_fold {A : Type} (f : A → R) (l : list A) (a : R) :
  ∃ m, fold_left (λ b v, xmin b (f v)) l (Finite a) = Finite m
       ∧ m <= a ∧ (∀ v, v ∈ l → m <= f v)
       ∧ (m = a ∨ ∃ v, v ∈ l ∧ f v = m).
Proof.
  revert a. induction l as [|w l IH]; intros a; cbn [fold_left xmin].
  { exists a. split; [done|]. split; [lra|]. split; [|by left].
    intros v Hv. by apply elem_of_nil in Hv. }
  destruct (IH (Math_min a (f w))) as (m & Hm & Hle & Hall & Hex).
  exists m. split; [done|]. unfold Math_min in *.
  pose proof (Rmin_l a (f w)). pose proof (Rmin_r a (f w)).
  split; [lra|]. split.
  - intros v Hv. apply elem_of_cons in Hv as [-> |Hv]; [lra|by apply Hall].
  - destruct Hex as [Hex|(v & Hv & Hfv)].
    + unfold Rmin in Hex. destruct (Rle_dec a (f w)); [by left|].
      right. exists w. split; [apply elem_of_cons; by left|done].
    + right. exists v. split; [apply elem_of_cons; by right|done].
Qed.

Lemma xmax_fold {A : Type} (f : A → R) (l : list A) (a : R) :
  ∃ m, fold_left (λ b v, xmax b (f v)) l (Finite a) = Finite m
       ∧ a <= m ∧ (∀ v, v ∈ l → f v <= m)
       ∧ (m = a ∨ ∃ v, v ∈ l ∧ f v = m).
Proof.
  revert a. induction l as [|w l IH]; intros a; cbn [fold_left xmax].
  { exists a. split; [done|]. split; [lra|]. split; [|by left].
    intros v Hv. by apply elem_of_nil in Hv. }
  destruct (IH (Math_max a (f w))) as (m & Hm & Hle & Hall & Hex).
  exists m. split; [done|]. unfold Math_max in *.
  pose proof (Rmax_l a (f w)). pose proof (Rmax_r a (f w)).
  split; [lra|]. split.
  - intros v Hv. apply elem_of_cons in Hv as [-> |Hv]; [lra|by apply Hall].
  - destruct Hex as [Hex|(v & Hv & Hfv)].
    + unfold Rmax in Hex. destruct (Rle_dec a (f w)); [|by left].
      right. exists w. split; [apply elem_of_cons; by left|done].
    + right. exists v. split; [apply elem_of_cons; by right|done].
Qed.

(** The least and the greatest value of [f] on a list that is not
    empty, as the loop of [getBounds] finds them. *)
Lemma xmin_fold_start {A : Type} (f : A → R) (l : list A) :
  l ≠ [] →
  ∃ m, fold_left (λ b v, xmin b (f v)) l PosInfinity = Finite m
       ∧ (∀ v, v ∈ l → m <= f v) ∧ (∃ v, v ∈ l ∧ f v = m).
Proof.
  destruct l as [|w l]; [done|]. intros _. cbn [fold_left xmin].
  destruct (xmin_fold f l (f w)) as (m & Hm & Hle & Hall & Hex).
  exists m. split; [done|]. split.
  - intros v Hv. apply elem_of_cons in Hv as [-> |Hv]; [lra|by apply Hall].
  - destruct Hex as [-> |(v & Hv & Hfv)].
    + exists w. split; [apply elem_of_cons; by left|done].
    + exists v. split; [apply elem_of_cons; by right|done].
Qed.

Lemma xmax_fold_start {A : Type} (f : A → R) (l : list A) :
  l ≠ [] →
  ∃ m, fold_left (λ b v, xmax b (f v)) l NegInfinity = Finite m
       ∧ (∀ v, v ∈ l → f v <= m) ∧ (∃ v, v ∈ l ∧ f v = m).
Proof.
  destruct l as [|w l]; [done|]. intros _. cbn [fold_left xmax].
  destruct (xmax_fold f l (f w)) as (m & Hm & Hle & Hall & Hex).
  exists m. split; [done|]. split.
  - intros v Hv. apply elem_of_cons in Hv as [-> |Hv]; [lra|by apply Hall].
  - destruct Hex as [-> |(v & Hv & Hfv)].
    + exists w. split; [apply elem_of_cons; by left|done].
    + exists v. split; [apply elem_of_cons; by right|done].
Qed.

Lemma bounds_fold_fields (l : list MovingVoxel) (b : Bounds) :
  fold_left
    (λ b voxel,
       mkBounds (xmin (minX b) (vx (pos voxel)))
                (xmax (maxX b) (vx (pos voxel)))
                (xmin (minY b) (vy (pos voxel)))
                (xmax (maxY b) (vy (pos voxel)))
                (xmin (minZ b) (vz (pos voxel)))
                (xmax (maxZ b) (vz (pos voxel))))
    l b
  = mkBounds
      (fold_left (λ a v, xmin a (vx (pos v))) l (minX b))
      (fold_left (λ a v, xmax a (vx (pos v))) l (maxX b))
      (fold_left (λ a v, xmin a (vy (pos v))) l (minY b))
      (fold_left (λ a v, xmax a (vy (pos v))) l (maxY b))
      (fold_left (λ a v, xmin a (vz (pos v))) l (minZ b))
      (fold_left (λ a v, xmax a (vz (pos v))) l (maxZ b)).
Proof.
  revert b. induction l as [|v l IH]; intros b; [by destruct b|].
  cbn [fold_left]. by rewrite IH.
Qed.

Lemma sum_positions_between (proj : vec3 → R) (lo hi : R)
    (l : list MovingVoxel) (acc : vec3) :
  (∀ a b, proj (vadd a b) = proj a + proj b) →
  (∀ v, v ∈ l → lo <= proj (pos v) <= hi) →
  proj acc + INR (length l) * lo
  <= proj (fold_left (λ acc voxel, vadd acc (pos voxel)) l acc)
  <= proj acc + INR (length l) * hi.
Proof.
  intros Hlin. revert acc. induction l as [|v l IH]; intros acc Hall.
  { cbn. lra. }
  cbn [fold_left length]. rewrite S_INR.
  specialize (IH (vadd acc (pos v))
                (λ w Hw, Hall w ltac:(apply elem_of_cons; by right))).
  rewrite Hlin in IH.
  pose proof (Hall v ltac:(apply elem_of_cons; by left)). lra.
Qed.

Lemma mean_between (proj : vec3 → R) (lo hi : R) (l : list MovingVoxel) :
  (∀ a b, proj (vadd a b) = proj a + proj b) → proj (V3 0 0 0) = 0 →
  l ≠ [] →
  (∀ v, v ∈ l → lo <= proj (pos v) <= hi) →
  lo <= proj (fold_left (λ acc voxel, vadd acc (pos voxel)) l (V3 0 0 0))
        / INR (length l) <= hi.
Proof.
  intros Hlin H0 Hne Hall.
  pose proof (sum_positions_between proj lo hi l (V3 0 0 0) Hlin Hall) as Hs.
  rewrite H0 in Hs.
  assert (Hn : 0 < INR (length l)).
  { destruct l; [done|]. cbn [length]. apply lt_0_INR. lia. }
  set (n := INR (length l)) in *. set (s := proj (fold_left _ _ _)) in *.
  split.
  - apply (Rmult_le_reg_r n); [done|].
    replace (s / n * n) with s by (field; lra). nra.
  - apply (Rmult_le_reg_r n); [done|].
    replace (s / n * n) with s by (field; lra). nra.
Qed.

(** X11. [getBounds] of a player with body voxels left gives six finite
    numbers; every body voxel lies between them, each of them is the
    coordinate of some body voxel, and the centre of mass
    [getCenterPosition] lies between them too. *)
Theorem getBounds_encloses (p : Player) :
  bodyVoxels p ≠ [] →
  ∃ x0 x1 y0 y1 z0 z1,
    getBounds p = mkBounds (Finite x0) (Finite x1) (Finite y0) (Finite y1)
                           (Finite z0) (Finite z1)
    ∧ (∀ voxel, voxel ∈ bodyVoxels p →
         x0 <= vx (pos voxel) <= x1 ∧ y0 <= vy (pos voxel) <= y1
         ∧ z0 <= vz (pos voxel) <= z1)
    ∧ (∃ voxel, voxel ∈ bodyVoxels p ∧ vx (pos voxel) = x0)
    ∧ (∃ voxel, voxel ∈ bodyVoxels p ∧ vx (pos voxel) = x1)
    ∧ (∃ voxel, voxel ∈ bodyVoxels p ∧ vy (pos voxel) = y0)
    ∧ (∃ voxel, voxel ∈ bodyVoxels p ∧ vy (pos voxel) = y1)
    ∧ (∃ voxel, voxel ∈ bodyVoxels p ∧ vz (pos voxel) = z0)
    ∧ (∃ voxel, voxel ∈ bodyVoxels p ∧ vz (pos voxel) = z1)
    ∧ x0 <= vx (getCenterPosition p) <= x1
    ∧ y0 <= vy (getCenterPosition p) <= y1
    ∧ z0 <= vz (getCenterPosition p) <= z1.
Proof.
  intros Hne. unfold getBounds, getCenterPosition.
  destruct (bodyVoxels p) as [|w l] eqn:E; [done|]. rewrite <- E in *.
  clear E w l. rewrite bounds_fold_fields. cbn [minX maxX minY maxY minZ maxZ].
  destruct (xmin_fold_start (λ v, vx (pos v)) _ Hne) as (x0 & -> & Hx0 & Ex0).
  destruct (xmax_fold_start (λ v, vx (pos v)) _ Hne) as (x1 & -> & Hx1 & Ex1).
  destruct (xmin_fold_start (λ v, vy (pos v)) _ Hne) as (y0 & -> & Hy0 & Ey0).
  destruct (xmax_fold_start (λ v, vy (pos v)) _ Hne) as (y1 & -> & Hy1 & Ey1).
  destruct (xmin_fold_start (λ v, vz (pos v)) _ Hne) as (z0 & -> & Hz0 & Ez0).
  destruct (xmax_fold_start (λ v, vz (pos v)) _ Hne) as (z1 & -> & Hz1 & Ez1).
  exists x0, x1, y0, y1, z0, z1. split; [done|]. split.
  { intros v Hv. specialize (Hx0 v Hv). specialize (Hx1 v Hv).
    specialize (Hy0 v Hv). specialize (Hy1 v Hv).
    specialize (Hz0 v Hv). specialize (Hz1 v Hv). cbv beta in *. lra. }
  do 6 (split; [done|]). cbv zeta. cbn [vx vy vz].
  split; [|split].
  - apply (mean_between vx); [done|done|done|].
    intros v Hv. specialize (Hx0 v Hv). specialize (Hx1 v Hv). cbv beta in *. lra.
  - apply (mean_between vy); [done|done|done|].
    intros v Hv. specialize (Hy0 v Hv). specialize (Hy1 v Hv). cbv beta in *. lra.
  - apply (mean_between vz); [done|done|done|].
    intros v Hv. specialize (Hz0 v Hv). specialize (Hz1 v Hv). cbv beta in *. lra.
Qed.

Lemma getBounds_encloses_witness :
  bodyVoxels walker ≠ []
  ∧ ∃ x0 x1 y0 y1 z0 z1,
      getBounds walker = mkBounds (Finite x0) (Finite x1) (Finite y0)
                           (Finite y1) (Finite z0) (Finite z1)
      ∧ (∀ voxel, voxel ∈ bodyVoxels walker →
           x0 <= vx (pos voxel) <= x1 ∧ y0 <= vy (pos voxel) <= y1
           ∧ z0 <= vz (pos voxel) <= z1)
      ∧ (∃ voxel, voxel ∈ bodyVoxels walker ∧ vx (pos voxel) = x0)
      ∧ (∃ voxel, voxel ∈ bodyVoxels walker ∧ vx (pos voxel) = x1)
      ∧ (∃ voxel, voxel ∈ bodyVoxels walker ∧ vy (pos voxel) = y0)
      ∧ (∃ voxel, voxel ∈ bodyVoxels walker ∧ vy (pos voxel) = y1)
      ∧ (∃ voxel, voxel ∈ bodyVoxels walker ∧ vz (pos voxel) = z0)
      ∧ (∃ voxel, voxel ∈ bodyVoxels walker ∧ vz (pos voxel) = z1)
      ∧ x0 <= vx (getCenterPosition walker) <= x1
      ∧ y0 <= vy (getCenterPosition walker) <= y1
      ∧ z0 <= vz (getCenterPosition walker) <= z1.
Proof.
  split; [discriminate|]. apply (getBounds_encloses walker). discriminate.
Defined.

Lemma map_pos_imap (g : nat → Z * Z * Z → MovingVoxel) (h : Z * Z * Z → vec3)
    (l : list (Z * Z * Z)) :
  (∀ k pattern, pos (g k pattern) = h pattern) →
  map pos (imap g l) = map h l.
Proof.
  revert g. induction l as [|x l IH]; intros g Hg; [done|].
  cbn [imap map]. rewrite Hg. f_equal. apply IH. intros k pattern. apply Hg.
Qed.

Lemma fold_positions_map (l : list MovingVoxel) (acc : vec3) :
  fold_left (λ acc voxel, vadd acc (pos voxel)) l acc
  = fold_left vadd (map pos l) acc.
Proof. revert acc. induction l as [|v l IH]; intros acc; [done|]. apply IH. Qed.

Lemma fold_vadd_patterns (c : vec3) (l : list (Z * Z * Z)) (acc : vec3) :
  fold_left vadd
    (map (λ pattern : Z * Z * Z,
            V3 (vx c + IZR pattern.1.1) (vy c + IZR pattern.1.2)
               (vz c + IZR pattern.2)) l) acc
  = V3 (vx acc + IZR (Z.of_nat (length l)) * vx c
        + IZR (foldr Z.add 0%Z (map (λ pattern, pattern.1.1) l)))
       (vy acc + IZR (Z.of_nat (length l)) * vy c
        + IZR (foldr Z.add 0%Z (map (λ pattern, pattern.1.2) l)))
       (vz acc + IZR (Z.of_nat (length l)) * vz c
        + IZR (foldr Z.add 0%Z (map (λ pattern, pattern.2) l))).
Proof.
  revert acc. induction l as [|x l IH]; intros acc.
  { cbn. destruct acc. apply vec3_eq; cbn; ring. }
  cbn [map fold_left]. rewrite IH. cbn [length foldr map].
  rewrite Nat2Z.inj_succ, !plus_IZR, succ_IZR.
  apply vec3_eq; cbn [vx vy vz vadd]; ring.
Qed.

Lemma body_patterns_sums :
  Z.of_nat (length body_patterns) = 8192%Z
  ∧ foldr Z.add 0%Z (map (λ pattern : Z * Z * Z, pattern.1.1) body_patterns)
    = (- 4096)%Z
  ∧ foldr Z.add 0%Z (map (λ pattern : Z * Z * Z, pattern.1.2) body_patterns)
    = (- 4096)%Z
  ∧ foldr Z.add 0%Z (map (λ pattern : Z * Z * Z, pattern.2) body_patterns)
    = (- 4096)%Z.
Proof. by vm_compute. Qed.

Lemma newPlayer_count (rnd : nat → R) (playerId : string) :
  Z.of_nat (length (bodyVoxels (newPlayer rnd playerId))) = 8192%Z.
Proof.
  cbn [newPlayer bodyVoxels]. unfold createVoxelBody.
  rewrite length_imap. apply body_patterns_sums.
Qed.

Lemma newPlayer_mean (rnd : nat → R) (playerId : string) :
  getCenterPosition (newPlayer rnd playerId)
  = V3 (635 / 10) (815 / 10) (635 / 10).
Proof.
  unfold getCenterPosition.
  pose proof (newPlayer_count rnd playerId) as Hlen.
  destruct (bodyVoxels (newPlayer rnd playerId)) as [|w l] eqn:E; [done|].
  clear Hlen. rewrite <- E. clear E w l.
  rewrite INR_IZR_INZ, newPlayer_count, fold_positions_map.
  cbn [newPlayer bodyVoxels]. unfold createVoxelBody.
  set (c := V3 (IZR WORLD_SIZE / 2) (IZR (WORLD_SIZE / 4 + 50))
              (IZR WORLD_SIZE / 2)).
  rewrite (map_pos_imap _
             (λ pattern : Z * Z * Z,
                V3 (vx c + IZR pattern.1.1) (vy c + IZR pattern.1.2)
                   (vz c + IZR pattern.2))) by done.
  rewrite fold_vadd_patterns.
  destruct body_patterns_sums as (-> & -> & -> & ->). subst c.
  change (WORLD_SIZE / 4 + 50)%Z with 82%Z. change (IZR WORLD_SIZE) with 128.
  apply vec3_eq; cbn [vx vy vz]; lra.
Qed.

(** X12. A new player.  The constructor puts the centre at
    [(64, 82, 64)] and builds a body of [16 * 32 * 16 = 8192] voxels, each
    a player voxel of that player, at rest, of the common size.  The
    offsets run from [-8] to [7] and from [-16] to [15], so the centre of
    mass of the body is half a cell below the centre in every coordinate;
    the first step of [updatePhysics] of Player.js puts the centre
    there. *)
Theorem newPlayer_body (rnd : nat → R) (newId : string) :
  let p := newPlayer rnd newId in
  centerPos p = V3 64 82 64
  ∧ Z.of_nat (length (bodyVoxels p)) = 8192%Z
  ∧ (∀ voxel, voxel ∈ bodyVoxels p →
       isPlayerVoxel voxel = true
       ∧ playerId voxel = Some newId
       ∧ isProjectile voxel = false
       ∧ vel voxel = V3 0 0 0
       ∧ size voxel = VOXEL_SIZE)
  ∧ getCenterPosition p = V3 (635 / 10) (815 / 10) (635 / 10)
  ∧ centerPos (PlayerJs.smoothCenter p) = getCenterPosition p.
Proof.
  cbv zeta.
  assert (Hc : centerPos (newPlayer rnd newId) = V3 64 82 64).
  { cbn [newPlayer centerPos]. change (WORLD_SIZE / 4 + 50)%Z with 82%Z.
    change (IZR WORLD_SIZE) with 128. apply vec3_eq; cbn; lra. }
  split; [done|]. split; [apply newPlayer_count|]. split.
  { intros voxel Hv. cbn [newPlayer bodyVoxels] in Hv.
    unfold createVoxelBody in Hv.
    apply elem_of_lookup_imap in Hv as (k & pattern & -> & _).
    cbn. do 3 (split; [done|]). split; [|done].
    apply vec3_eq; cbn; ring. }
  split; [apply newPlayer_mean|].
  destruct (smoothCenter_fraction (newPlayer rnd newId))
    as (k & _ & Hk & Hle & _). cbv zeta in Hle.
  rewrite Hk, Hle.
  - apply vec3_eq; cbn [vx vy vz vadd vscale vsub]; ring.
  - rewrite newPlayer_mean, Hc. unfold dist, norm, Math_sqrt.
    rewrite <- (sqrt_square 2) by lra. apply sqrt_le_1_alt.
    unfold sumsq, vsub. cbn [vx vy vz]. lra.
Qed.

(** ** Moving voxels *)

(** X13. [handleWorldBoundaries] keeps a voxel no larger than the world
    inside it: afterwards its centre is at least its size above the floor
    and between the walls, a voxel that was below the floor does not move
    downwards any more, and a second call changes nothing. *)
Theorem handleWorldBoundaries_inside (this : MovingVoxel) :
  0 <= size this → size this <= 64 →
  let v := handleWorldBoundaries this in
  size v = size this
  ∧ size this <= vx (pos v) <= 128 - size this
  ∧ size this <= vz (pos v) <= 128 - size this
  ∧ size this <= vy (pos v)
  ∧ (vy (pos this) < size this → 0 <= vy (vel v))
  ∧ (size this <= vy (pos this) → vel v = vel this)
  ∧ handleWorldBoundaries v = v.
Proof.
  intros Hs0 Hs1.
  assert (Hin : ∀ u, size u <= vx (pos u) <= 128 - size u →
                     size u <= vz (pos u) <= 128 - size u →
                     size u <= vy (pos u) → handleWorldBoundaries u = u).
  { intros u Hx Hz Hy. unfold handleWorldBoundaries.
    replace (vy (pos u) <? size u) with false
      by (symmetry; apply Rltb_false; lra).
    cbv zeta. change (IZR WORLD_SIZE) with 128.
    rewrite !clamp_inside by lra. apply set_pos_same. by destruct (pos u). }
  cbv zeta.
  assert (Hmain :
    size (handleWorldBoundaries this) = size this
    ∧ size this <= vx (pos (handleWorldBoundaries this)) <= 128 - size this
    ∧ size this <= vz (pos (handleWorldBoundaries this)) <= 128 - size this
    ∧ size this <= vy (pos (handleWorldBoundaries this))
    ∧ (vy (pos this) < size this → 0 <= vy (vel (handleWorldBoundaries this)))
    ∧ (size this <= vy (pos this) → vel (handleWorldBoundaries this) = vel this)).
  { unfold handleWorldBoundaries.
    set (this1 := if vy (pos this) <? size this then _ else this).
    assert (H1 : size this1 = size this
                 ∧ size this <= vy (pos this1)
                 ∧ (vy (pos this) < size this → 0 <= vy (vel this1))
                 ∧ (size this <= vy (pos this) → vel this1 = vel this)).
    { subst this1. destruct (vy (pos this) <? size this) eqn:E.
      - apply Rltb_true in E. cbn [vel set_pos vy].
        destruct (vy (vel this) <? 0) eqn:Ev.
        + apply Rltb_true in Ev. cbn. split; [done|]. split; [lra|].
          split; [intros _; nra|lra].
        + apply Rltb_false in Ev. cbn. split; [done|]. split; [lra|].
          split; [done|lra].
      - apply Rltb_false in E. split; [done|]. split; [done|].
        split; [lra|done]. }
    destruct H1 as (Hsz & Hy & Hv & Hv'). cbv zeta.
    cbn [size pos vel set_pos vx vy vz]. rewrite Hsz.
    change (IZR WORLD_SIZE) with 128.
    pose proof (clamp_range (size this) (128 - size this) (vx (pos this1))
                  ltac:(lra)).
    pose proof (clamp_range (size this) (128 - size this) (vz (pos this1))
                  ltac:(lra)).
    done. }
  destruct Hmain as (Hsz & Hx & Hz & Hy & Hv & Hv').
  do 6 (split; [done|]). apply Hin; rewrite Hsz; done.
Qed.

Lemma handleWorldBoundaries_inside_witness :
  0 <= size (debris_at (V3 200 (- 3) 64))
  ∧ size (debris_at (V3 200 (- 3) 64)) <= 64
  ∧ let this := debris_at (V3 200 (- 3) 64) in
    let v := handleWorldBoundaries this in
    size v = size this
    ∧ size this <= vx (pos v) <= 128 - size this
    ∧ size this <= vz (pos v) <= 128 - size this
    ∧ size this <= vy (pos v)
    ∧ (vy (pos this) < size this → 0 <= vy (vel v))
    ∧ (size this <= vy (pos this) → vel v = vel this)
    ∧ handleWorldBoundaries v = v.
Proof.
  assert (H0 : 0 <= size (debris_at (V3 200 (- 3) 64)))
    by (cbn; unfold VOXEL_SIZE; lra).
  assert (H1 : size (debris_at (V3 200 (- 3) 64)) <= 64)
    by (cbn; unfold VOXEL_SIZE; lra).
  split; [exact H0|]. split; [exact H1|].
  exact (handleWorldBoundaries_inside (debris_at (V3 200 (- 3) 64)) H0 H1).
Defined.

Lemma bisect_upper (sz : R) (w : list Z) (startPos velocity : vec3) (dt : R)
    (n : nat) :
  isPositionValid sz w (at_time startPos velocity dt) = false →
  let st := Nat.iter n (bisect_step sz w startPos velocity) (0, dt, dt) in
  isPositionValid sz w (at_time startPos velocity st.1.2) = false.
Proof.
  intros Hend. cbv zeta. induction n as [|n IH]; [done|].
  rewrite Nat.iter_succ. destruct (Nat.iter n _ _) as [[mn mx] ct].
  cbn [fst snd] in *. unfold bisect_step.
  destruct (isPositionValid sz w (at_time startPos velocity ((mn + mx) / 2)))
    eqn:E; done.
Qed.

(** X14. [findCollisionTime] answers [null] exactly when the end of the
    step is valid.  Otherwise it answers a time in [(0, dt]] at which the
    voxel is inside the terrain, and which comes at most [dt / 2^20] after
    a time that is 0 or at which the voxel is clear of the terrain. *)
Theorem findCollisionTime_result (sz : R) (w : list Z)
    (startPos velocity : vec3) (dt : R) :
  0 < dt →
  let endPos := at_time startPos velocity dt in
  match findCollisionTime sz w velocity startPos endPos dt with
  | None => isPositionValid sz w endPos = true
  | Some collisionTime =>
      isPositionValid sz w endPos = false
      ∧ 0 < collisionTime <= dt
      ∧ isPositionValid sz w (at_time startPos velocity collisionTime) = false
      ∧ ∃ minTime,
          0 <= minTime < collisionTime
          ∧ collisionTime - minTime = dt / 2 ^ 20
          ∧ (minTime = 0
             ∨ isPositionValid sz w (at_time startPos velocity minTime) = true)
  end.
Proof.
  intros Hdt. cbv zeta.
  destruct (isPositionValid sz w (at_time startPos velocity dt)) eqn:Hend.
  { unfold findCollisionTime. by rewrite Hend. }
  destruct (findCollisionTime_bracket sz w velocity startPos
              (at_time startPos velocity dt) dt Hdt Hend)
    as (mn & ct & Hf & H0 & Hlt & Hle & Hgap & Hmn).
  rewrite Hf. split; [done|]. split; [lra|]. split.
  - pose proof (bisect_upper sz w startPos velocity dt 20 Hend) as Hu.
    cbv zeta in Hu. unfold findCollisionTime in Hf. rewrite Hend in Hf.
    pose proof (bisect_bracket sz w startPos velocity dt 20 Hdt) as Hb.
    destruct (Nat.iter 20 _ _) as [[mn' mx'] ct'].
    destruct Hb as (_ & _ & _ & -> & _). by injection Hf as <-.
  - exists mn. split; [lra|done].
Qed.

Lemma findCollisionTime_result_witness :
  0 < 1 / 50
  ∧ let startPos := V3 (105 / 10) 12 (105 / 10) in
    let velocity := V3 0 (- 40) 0 in
    let endPos := at_time startPos velocity (1 / 50) in
    match findCollisionTime VOXEL_SIZE one_block_world velocity startPos
            endPos (1 / 50) with
    | None => isPositionValid VOXEL_SIZE one_block_world endPos = true
    | Some collisionTime =>
        isPositionValid VOXEL_SIZE one_block_world endPos = false
        ∧ 0 < collisionTime <= 1 / 50
        ∧ isPositionValid VOXEL_SIZE one_block_world
            (at_time startPos velocity collisionTime) = false
        ∧ ∃ minTime,
            0 <= minTime < collisionTime
            ∧ collisionTime - minTime = 1 / 50 / 2 ^ 20
            ∧ (minTime = 0
               ∨ isPositionValid VOXEL_SIZE one_block_world
                   (at_time startPos velocity minTime) = true)
    end.
Proof.
  split; [lra|].
  apply (findCollisionTime_result VOXEL_SIZE one_block_world
           (V3 (105 / 10) 12 (105 / 10)) (V3 0 (- 40) 0) (1 / 50)). lra.
Defined.

Lemma nearest_block_none (world : list Z) (p : vec3) (checks : list vec3)
    (acc : option (Z * Z * Z) * option R) :
  (fst acc = None ↔ snd acc = None) →
  let r := fold_left (nearest_block_step world p) checks acc in
  (fst r = None ↔ snd r = None)
  ∧ (fst r = None ↔
     fst acc = None ∧ ∀ c, c ∈ checks → solid_at world c = false)
  ∧ (∀ b, fst r = Some b →
       fst acc = Some b
       ∨ ∃ c, c ∈ checks
              ∧ b = (Math_floor (vx c), Math_floor (vy c), Math_floor (vz c))).
Proof.
  revert acc. induction checks as [|c checks IH]; intros acc Hacc; cbv zeta.
  { cbn [fold_left]. split; [done|]. split.
    - split; [|by intros [? _]]. intros H. split; [done|].
      intros c Hc. by apply elem_of_nil in Hc.
    - intros b Hb. by left. }
  cbn [fold_left].
  set (acc1 := nearest_block_step world p acc c).
  assert (H1 : (fst acc1 = None ↔ snd acc1 = None)
               ∧ (fst acc1 = None ↔ fst acc = None ∧ solid_at world c = false)
               ∧ (∀ b, fst acc1 = Some b →
                    fst acc = Some b
                    ∨ b = (Math_floor (vx c), Math_floor (vy c),
                           Math_floor (vz c)))).
  { subst acc1. unfold nearest_block_step, solid_at. cbv zeta.
    destruct (truthy (getWorld world _ _ _)) eqn:E.
    - destruct (snd acc) as [m|] eqn:Em.
      + destruct (_ <? m).
        * cbn. split; [done|]. split; [split; [done|by intros [_ ?]]|].
          intros b [= <-]. by right.
        * rewrite Em. split; [done|]. split.
          -- split; [|by intros [_ ?]]. intros H. apply Hacc in H.
             congruence.
          -- intros b Hb. by left.
      + cbn. split; [done|]. split; [split; [done|by intros [_ ?]]|].
        intros b [= <-]. by right.
    - split; [done|]. split; [split; [done|by intros [? _]]|].
      intros b Hb. by left. }
  destruct H1 as (Ha & Hb & Hc).
  destruct (IH acc1 Ha) as (IH1 & IH2 & IH3). cbv zeta in *.
  split; [done|]. split.
  - rewrite IH2, Hb. split.
    + intros [[H0 Hs] Hall]. split; [done|]. intros c' Hc'.
      apply elem_of_cons in Hc' as [-> |Hc']; [done|by apply Hall].
    + intros [H0 Hall]. split; [split; [done|]|].
      * apply Hall, elem_of_cons. by left.
      * intros c' Hc'. apply Hall, elem_of_cons. by right.
  - intros b Hr. destruct (IH3 b Hr) as [H|(c' & Hc' & Hb')].
    + destruct (Hc b H) as [?| ->]; [by left|].
      right. exists c. split; [apply elem_of_cons; by left|done].
    + right. exists c'. split; [apply elem_of_cons; by right|done].
Qed.

(** X15. [getCollisionInfo] of server.js finds a collision exactly when
    one of the eight corners of the voxel is in a solid cell; the block it
    reports is the cell of one of the corners, it is solid, and the axis
    is 0, 1 or 2. *)
Theorem getCollisionInfo_corner (sz : R) (world : list Z) (p : vec3) :
  match getCollisionInfo sz world p with
  | None => ∀ c, c ∈ corner_checks sz p → solid_at world c = false
  | Some collision =>
      truthy (getWorld world (block collision).1.1 (block collision).1.2
                (block collision).2) = true
      ∧ (∃ c, c ∈ corner_checks sz p
              ∧ block collision
                = (Math_floor (vx c), Math_floor (vy c), Math_floor (vz c)))
      ∧ (0 ≤ axis collision ≤ 2)%Z
  end.
Proof.
  destruct (getCollisionInfo sz world p) as [collision|] eqn:E.
  - split; [by apply (getCollisionInfo_solid sz world p)|].
    unfold getCollisionInfo in E.
    destruct (nearest_block_none world p (corner_checks sz p) (None, None))
      as (_ & _ & H3); [done|]. cbv zeta in H3.
    destruct (fst (fold_left _ _ _)) as [[[bx by_] bz]|]; [|done].
    injection E as <-. cbn [block axis]. split.
    + destruct (H3 _ eq_refl) as [?|?]; done.
    + destruct (_ && _); [lia|]. destruct (_ && _); lia.
  - unfold getCollisionInfo in E.
    destruct (nearest_block_none world p (corner_checks sz p) (None, None))
      as (_ & H2 & _); [done|]. cbv zeta in H2.
    destruct (fst (fold_left _ _ _)) as [[[bx by_] bz]|]; [done|].
    by apply H2.
Qed.

Lemma handleVoxelCollision_positions (this other : MovingVoxel) :
  1 / 1000 <= dist (pos this) (pos other) →
  let d := dist (pos this) (pos other) in
  let separation := ((size this + size other) * 2 - d) * (51 / 100) in
  let r := handleVoxelCollision this other in
  vsub (pos r.1) (pos r.2)
  = vscale (1 + 2 * separation / d) (vsub (pos this) (pos other))
  ∧ size r.1 = size this ∧ size r.2 = size other.
Proof.
  intros Hd. cbv zeta. unfold handleVoxelCollision.
  unfold dist, norm, sumsq, vsub in *. cbn [vx vy vz] in *.
  destruct (Rltb _ (1 / 1000)) eqn:E.
  { apply Rltb_true in E. unfold Math_sqrt in *. lra. }
  cbv zeta. unfold Math_sqrt in *.
  set (d := sqrt _) in *.
  destruct (Rgtb _ 0); cbn [fst snd pos set_pos set_vel size vx vy vz];
    (split; [apply vec3_eq; cbn [vx vy vz vscale]; field; lra|done]).
Qed.

(** X16. The push of [handleVoxelCollision] ends the contact.  For two
    voxels in contact by [checkVoxelToVoxelCollision] of server.js, with
    centres at least 0.001 apart, the centres are afterwards at the
    contact distance [(size + size) * 2] plus 2% of the overlap, and the
    check no longer holds. *)
Theorem handleVoxelCollision_separates (this other : MovingVoxel) :
  1 / 1000 <= dist (pos this) (pos other) →
  checkVoxelToVoxelCollision this other = true →
  let d := dist (pos this) (pos other) in
  let contact := (size this + size other) * 2 in
  let r := handleVoxelCollision this other in
  dist (pos r.1) (pos r.2) = contact + (contact - d) * (2 / 100)
  ∧ checkVoxelToVoxelCollision r.1 r.2 = false.
Proof.
  intros Hd Hc. cbv zeta.
  destruct (handleVoxelCollision_positions this other Hd) as (Hp & Hs1 & Hs2).
  cbv zeta in Hp. apply Rltb_true in Hc.
  set (d := dist (pos this) (pos other)) in *.
  set (contact := (size this + size other) * 2) in *.
  assert (Hk : 0 <= 1 + 2 * ((contact - d) * (51 / 100)) / d).
  { apply Rplus_le_le_0_compat; [lra|]. apply Rmult_le_pos; [nra|].
    apply Rlt_le, Rinv_0_lt_compat. lra. }
  assert (Hdist : dist (pos (handleVoxelCollision this other).1)
                    (pos (handleVoxelCollision this other).2)
                  = contact + (contact - d) * (2 / 100)).
  { unfold dist at 1. rewrite Hp, norm_scale by done.
    fold (dist (pos this) (pos other)). fold d. field. lra. }
  split; [done|]. unfold checkVoxelToVoxelCollision.
  rewrite Hdist, Hs1, Hs2. fold contact. apply Rltb_false. nra.
Qed.

Lemma handleVoxelCollision_separates_witness :
  let this := debris_moving (V3 0 0 0) (V3 1 0 0) in
  let other := debris_moving (V3 1 0 0) (V3 0 0 0) in
  let d := dist (pos this) (pos other) in
  let contact := (size this + size other) * 2 in
  let r := handleVoxelCollision this other in
  dist (pos r.1) (pos r.2) = contact + (contact - d) * (2 / 100)
  ∧ checkVoxelToVoxelCollision r.1 r.2 = false.
Proof.
  assert (Hd : dist (pos (debris_moving (V3 0 0 0) (V3 1 0 0)))
                 (pos (debris_moving (V3 1 0 0) (V3 0 0 0))) = 1).
  { unfold dist, norm, sumsq, Math_sqrt. cbn. apply sqrt_lem_1; lra. }
  apply (handleVoxelCollision_separates
           (debris_moving (V3 0 0 0) (V3 1 0 0))
           (debris_moving (V3 1 0 0) (V3 0 0 0))).
  - rewrite Hd. lra.
  - unfold checkVoxelToVoxelCollision. rewrite Hd. apply Rltb_true.
    cbn. unfold VOXEL_SIZE. lra.
Defined.

(** X17. The bounce of [handleVoxelCollision].  Along the line of the two
    centres, two voxels that approach each other leave with 0.6 of their
    closing speed, reversed; two voxels that already separate keep their
    velocities. *)
Theorem handleVoxelCollision_restitution (this other : MovingVoxel) :
  1 / 1000 <= dist (pos this) (pos other) →
  let d := dist (pos this) (pos other) in
  let n := vscale (1 / d) (vsub (pos this) (pos other)) in
  let along (a b : MovingVoxel) :=
    (vx (vel a) - vx (vel b)) * vx n + (vy (vel a) - vy (vel b)) * vy n
    + (vz (vel a) - vz (vel b)) * vz n in
  let r := handleVoxelCollision this other in
  norm n = 1
  ∧ (along this other <= 0 →
     along r.1 r.2 = - (6 / 10) * along this other)
  ∧ (0 < along this other → vel r.1 = vel this ∧ vel r.2 = vel other).
Proof.
  intros Hd. cbv zeta.
  assert (Hn : norm (vscale (1 / dist (pos this) (pos other))
                       (vsub (pos this) (pos other))) = 1).
  { rewrite norm_scale.
    - fold (dist (pos this) (pos other)). field. lra.
    - apply Rlt_le. unfold Rdiv. rewrite Rmult_1_l.
      apply Rinv_0_lt_compat. lra. }
  split; [done|].
  assert (Hsq : sumsq (vscale (1 / dist (pos this) (pos other))
                         (vsub (pos this) (pos other))) = 1).
  { unfold norm, Math_sqrt in Hn.
    rewrite <- (sqrt_sqrt (sumsq _)) by apply sumsq_nonneg.
    rewrite Hn. ring. }
  unfold handleVoxelCollision.
  unfold dist, norm, sumsq, vsub, vscale, Math_sqrt in *.
  cbn [vx vy vz] in *.
  destruct (Rltb _ (1 / 1000)) eqn:E.
  { apply Rltb_true in E. lra. }
  cbv zeta. set (d := sqrt _) in *.
  cbn [vel pos set_pos set_vel vx vy vz].
  set (vn := (vx (vel this) - vx (vel other)) * ((vx (pos this) - vx (pos other)) / d)
             + (vy (vel this) - vy (vel other)) * ((vy (pos this) - vy (pos other)) / d)
             + (vz (vel this) - vz (vel other)) * ((vz (pos this) - vz (pos other)) / d)).
  assert (Hvn : (vx (vel this) - vx (vel other)) * (1 / d * (vx (pos this) - vx (pos other)))
                + (vy (vel this) - vy (vel other)) * (1 / d * (vy (pos this) - vy (pos other)))
                + (vz (vel this) - vz (vel other)) * (1 / d * (vz (pos this) - vz (pos other)))
                = vn) by (unfold vn; field; lra).
  rewrite Hvn.
  destruct (vn >? 0) eqn:Ev.
  - apply Rgtb_true in Ev. cbn [fst snd vel set_pos]. split; [lra|done].
  - apply Rgtb_false in Ev. cbn [fst snd vel set_vel set_pos vx vy vz].
    split; [|lra]. intros _.
    set (nx := (vx (pos this) - vx (pos other)) / d) in *.
    set (ny := (vy (pos this) - vy (pos other)) / d) in *.
    set (nz := (vz (pos this) - vz (pos other)) / d) in *.
    assert (Hunit : nx * nx + ny * ny + nz * nz = 1).
    { rewrite <- Hsq. unfold nx, ny, nz. field. lra. }
    replace (1 / d * (vx (pos this) - vx (pos other))) with nx
      by (unfold nx; field; lra).
    replace (1 / d * (vy (pos this) - vy (pos other))) with ny
      by (unfold ny; field; lra).
    replace (1 / d * (vz (pos this) - vz (pos other))) with nz
      by (unfold nz; field; lra).
    transitivity (vn - (1 + 6 / 10) * vn * (nx * nx + ny * ny + nz * nz));
      [unfold vn; fold nx ny nz; field|rewrite Hunit; ring].
Qed.

Lemma handleVoxelCollision_restitution_witness :
  let this := debris_moving (V3 0 0 0) (V3 1 0 0) in
  let other := debris_moving (V3 1 0 0) (V3 0 0 0) in
  let d := dist (pos this) (pos other) in
  let n := vscale (1 / d) (vsub (pos this) (pos other)) in
  let along (a b : MovingVoxel) :=
    (vx (vel a) - vx (vel b)) * vx n + (vy (vel a) - vy (vel b)) * vy n
    + (vz (vel a) - vz (vel b)) * vz n in
  let r := handleVoxelCollision this other in
  norm n = 1
  ∧ (along this other <= 0 →
     along r.1 r.2 = - (6 / 10) * along this other)
  ∧ (0 < along this other → vel r.1 = vel this ∧ vel r.2 = vel other).
Proof.
  apply (handleVoxelCollision_restitution
           (debris_moving (V3 0 0 0) (V3 1 0 0))
           (debris_moving (V3 1 0 0) (V3 0 0 0))).
  replace (dist _ _) with 1; [lra|].
  unfold dist, norm, sumsq, Math_sqrt. cbn. symmetry. apply sqrt_lem_1; lra.
Defined.

Lemma sq_scale_le (u k : R) : -1 <= k <= 1 → u * k * (u * k) <= u * u.
Proof.
  intros Hk. pose proof (sq_nonneg u).
  assert (0 <= (1 - k) * (1 + k)) by (apply Rmult_le_pos; lra). nra.
Qed.

Lemma handleCollision_vel (collision : CollisionInfo) (this : MovingVoxel)
    (s : Server) :
  let restitution := if isProjectile this then 4 / 10 else 2 / 10 in
  let friction := if isProjectile this then 8 / 10 else 9 / 10 in
  let a := axis collision in
  vel (handleCollision collision this s).1
  = if Math_abs (vget (vel this) a) >? 2 then
      fold_left
        (λ v i, if negb (i =? a)%Z && negb (i =? 1)%Z
                then vset v i (vget v i * friction) else v)
        (seqZ 0 3) (vset (vel this) a (vget (vel this) a * - restitution))
    else vset (vel this) a 0.
Proof.
  cbv zeta. unfold handleCollision. destruct (block collision) as [[xi yi] zi].
  cbv zeta. destruct (_ && _ && _); done.
Qed.

(** X18. The terrain response never speeds a voxel up.  For an axis 0, 1
    or 2, after [handleCollision] the speed of the voxel is at most what
    it was, the velocity along the axis has changed sign or is zero and
    is at most 0.4 of what it was in size, and friction does not touch the
    vertical velocity when the axis is horizontal. *)
Theorem handleCollision_slows (collision : CollisionInfo) (this : MovingVoxel)
    (s : Server) :
  (0 ≤ axis collision ≤ 2)%Z →
  let v := vel this in
  let v' := vel (handleCollision collision this s).1 in
  let a := axis collision in
  norm v' <= norm v
  ∧ vget v' a * vget v a <= 0
  ∧ Rabs (vget v' a) <= 4 / 10 * Rabs (vget v a)
  ∧ (a ≠ 1%Z → vy v' = vy v).
Proof.
  intros Ha. cbv zeta. rewrite handleCollision_vel. cbv zeta.
  set (a := axis collision) in *.
  set (restitution := if isProjectile this then 4 / 10 else 2 / 10).
  set (friction := if isProjectile this then 8 / 10 else 9 / 10).
  assert (Hr : 0 <= restitution <= 4 / 10)
    by (unfold restitution; destruct (isProjectile this); lra).
  assert (Hf : 0 <= friction <= 1)
    by (unfold friction; destruct (isProjectile this); lra).
  destruct (vel this) as [x y z].
  assert (Hnorm : ∀ x' y' z', x' * x' <= x * x → y' * y' <= y * y →
                              z' * z' <= z * z →
                              norm (V3 x' y' z') <= norm (V3 x y z)).
  { intros x' y' z' Hx Hy Hz. unfold norm, Math_sqrt.
    apply sqrt_le_1_alt. unfold sumsq. cbn [vx vy vz]. lra. }
  assert (Habs : ∀ u k, 0 <= k <= 4 / 10 →
                        Rabs (u * - k) <= 4 / 10 * Rabs u).
  { intros u k Hk. rewrite Rabs_mult, Rabs_Ropp, (Rabs_right k) by lra.
    pose proof (Rabs_pos u). nra. }
  assert (H0 : ∀ u, Rabs 0 <= 4 / 10 * Rabs u).
  { intros u. rewrite Rabs_R0. pose proof (Rabs_pos u). lra. }
  assert (Hcases : a = 0%Z ∨ a = 1%Z ∨ a = 2%Z) by lia.
  destruct Hcases as [-> | [-> | ->]];
    cbn [vget vset Z.eqb Pos.eqb vx vy vz];
    match goal with |- context [?c >? 2] => destruct (c >? 2) end;
    change (seqZ 0 3) with [0%Z; 1%Z; 2%Z];
    cbn [fold_left vget vset Z.eqb Pos.eqb negb andb vx vy vz];
    (split; [apply Hnorm; first [apply sq_scale_le; lra | nra]|]);
    (split; [pose proof (sq_nonneg x); pose proof (sq_nonneg y);
             pose proof (sq_nonneg z); nra|]);
    (split; [first [by apply Habs | apply H0]|done]).
Qed.

Lemma handleCollision_slows_witness :
  (0 ≤ axis (mkCollision (10, 47, 10)%Z 1) ≤ 2)%Z
  ∧ let collision := mkCollision (10, 47, 10)%Z 1 in
    let this := debris_moving (V3 (105 / 10) (4845 / 100) (105 / 10))
                  (V3 3 (- 9) 0) in
    let s := server_of [] [] [this] 0 in
    let v := vel this in
    let v' := vel (handleCollision collision this s).1 in
    let a := axis collision in
    norm v' <= norm v
    ∧ vget v' a * vget v a <= 0
    ∧ Rabs (vget v' a) <= 4 / 10 * Rabs (vget v a)
    ∧ (a ≠ 1%Z → vy v' = vy v).
Proof.
  split; [cbn; lia|].
  apply (handleCollision_slows (mkCollision (10, 47, 10)%Z 1)
           (debris_moving (V3 (105 / 10) (4845 / 100) (105 / 10))
              (V3 3 (- 9) 0))
           (server_of [] [] [debris_moving (V3 (105 / 10) (4845 / 100) (105 / 10))
                                (V3 3 (- 9) 0)] 0)).
  cbn; lia.
Defined.

(** X19. [spawnProjectile] appends one projectile to the moving voxels
    and changes nothing else of the world or the players.  The projectile
    starts 2 along [dir] from [pos] with the velocity [80 * dir], not yet
    collided, in frame 0 and not yet clear of its thrower; for a camera
    direction (a unit vector) that is a start 2 away at the speed 80. *)
Theorem spawnProjectile_appends (p dir : vec3) (thrower : option string)
    (s : Server) :
  let s' := spawnProjectile p dir thrower s in
  ∃ projectile,
    movingVoxels s' = movingVoxels s ++ [projectile]
    ∧ world s' = world s ∧ heights s' = heights s ∧ players s' = players s
    ∧ terrainNeedsRebuild s' = terrainNeedsRebuild s
    ∧ pos projectile = vadd p (vscale 2 dir)
    ∧ vel projectile = vscale 80 dir
    ∧ isProjectile projectile = true ∧ isPlayerVoxel projectile = false
    ∧ hasCollided projectile = false
    ∧ throwerId projectile = thrower
    ∧ hasLeftThrowerHitbox projectile = false
    ∧ framesSinceLaunch projectile = 0%Z
    ∧ dist (pos projectile) p = 2 * norm dir
    ∧ norm (vel projectile) = 80 * norm dir
    ∧ (∀ yaw pitch, dir = getCameraDirection yaw pitch →
         dist (pos projectile) p = 2 ∧ norm (vel projectile) = 80).
Proof.
  cbv zeta. unfold spawnProjectile. cbv zeta.
  destruct (Math_random s) as [rnd s1] eqn:Er.
  pose proof (Math_random_fields s) as (Hw & Hh & Hp & Hm & _).
  rewrite Er in Hw, Hh, Hp, Hm. cbn [snd] in *.
  eexists. split; [cbn [movingVoxels set_movingVoxels]; by rewrite Hm|].
  cbn [world heights players terrainNeedsRebuild set_movingVoxels].
  split; [done|]. split; [done|]. split; [done|].
  split; [by injection Er as _ <-|].
  cbn [pos vel newMovingVoxel isProjectile isPlayerVoxel hasCollided throwerId
       hasLeftThrowerHitbox framesSinceLaunch].
  split; [apply vec3_eq; cbn; ring|]. do 7 (split; [done|]).
  assert (Hd : dist (V3 (vx p + vx dir * 2) (vy p + vy dir * 2)
                        (vz p + vz dir * 2)) p = 2 * norm dir).
  { unfold dist. rewrite <- norm_scale by lra. f_equal.
    apply vec3_eq; cbn; ring. }
  assert (Hv : norm (vscale 80 dir) = 80 * norm dir)
    by (apply norm_scale; lra).
  split; [done|]. split; [done|].
  intros yaw pitch ->. rewrite Hd, Hv.
  pose proof (norm_nonneg (getCameraDirection yaw pitch)) as Hn.
  assert (H1 : norm (getCameraDirection yaw pitch) = 1).
  { unfold norm, sumsq, getCameraDirection, Math_sqrt. cbn [vx vy vz].
    transitivity (sqrt 1); [f_equal|apply sqrt_1].
    pose proof (sin2_cos2_sum yaw). pose proof (sin2_cos2_sum pitch). nra. }
  rewrite H1. lra.
Qed.

(** ** game/VoxelWorld.js *)

Lemma elem_of_from_to (a b x : Z) : x ∈ from_to a b ↔ (a ≤ x ≤ b)%Z.
Proof. unfold from_to. rewrite elem_of_seqZ. lia. Qed.

Lemma find_rev_seqZ_nat (p : Z → bool) (k : nat) :
  match List.find p (rev (seqZ 0 (Z.of_nat k))) with
  | Some y => (0 ≤ y < Z.of_nat k)%Z ∧ p y = true
              ∧ ∀ y', (y < y' < Z.of_nat k)%Z → p y' = false
  | None => ∀ y', (0 ≤ y' < Z.of_nat k)%Z → p y' = false
  end.
Proof.
  induction k as [|k IH].
  { cbn. intros y' Hy'. lia. }
  rewrite seqZ_S, rev_app_distr. cbn [rev app List.find]. rewrite Z.add_0_l.
  destruct (p (Z.of_nat k)) eqn:Ek.
  - split; [lia|]. split; [done|]. intros y' Hy'. lia.
  - destruct (List.find p (rev (seqZ 0 (Z.of_nat k)))) as [y|].
    + destruct IH as (Hy & Hp & Habove). split; [lia|]. split; [done|].
      intros y' Hy'. destruct (decide (y' = Z.of_nat k)) as [->|Hne]; [done|].
      apply Habove. lia.
    + intros y' Hy'. destruct (decide (y' = Z.of_nat k)) as [->|Hne]; [done|].
      apply IH. lia.
Qed.

(** X20. [getSurfaceLevel] gives the height of the topmost solid cell of
    a column of the world: that cell is solid and every cell above it is
    empty.  It gives 0 for a column outside the world and for a column
    with no solid cell, as it does for a column whose only solid cell is
    at height 0. *)
Theorem getSurfaceLevel_topmost (w : VoxelWorld.t) (x z : Z) :
  let y := getSurfaceLevel w x z in
  (0 ≤ y < 128)%Z
  ∧ (∀ y', (y < y')%Z → truthy (VoxelWorld.getWorld w x y' z) = false)
  ∧ ((∃ y', truthy (VoxelWorld.getWorld w x y' z) = true) →
     truthy (VoxelWorld.getWorld w x y z) = true)
  ∧ (¬ (0 ≤ x < 128 ∧ 0 ≤ z < 128)%Z → y = 0%Z).
Proof.
  cbv zeta. unfold getSurfaceLevel.
  assert (Hout : ∀ y', ¬ (0 ≤ x < 128 ∧ 0 ≤ y' < 128 ∧ 0 ≤ z < 128)%Z →
                       truthy (VoxelWorld.getWorld w x y' z) = false).
  { intros y' H. rewrite VoxelWorld_getWorld_monolith, getWorld_out; done. }
  destruct ((x <? 0)%Z || (x >=? WORLD_SIZE)%Z || (z <? 0)%Z
            || (z >=? WORLD_SIZE)%Z) eqn:Eb.
  { assert (Hx : ¬ (0 ≤ x < 128 ∧ 0 ≤ z < 128)%Z).
    { unfold WORLD_SIZE in Eb. lia. }
    split; [lia|]. split; [intros y' _; apply Hout; lia|].
    split; [|done]. intros [y' Hy']. rewrite Hout in Hy'; [done|lia]. }
  assert (Hx : (0 ≤ x < 128 ∧ 0 ≤ z < 128)%Z) by (unfold WORLD_SIZE in Eb; lia).
  pose proof (find_rev_seqZ_nat (λ y, truthy (VoxelWorld.getWorld w x y z)) 128)
    as Hf.
  change (Z.of_nat 128) with 128%Z in Hf. change WORLD_SIZE with 128%Z.
  destruct (List.find _ (rev (seqZ 0 128))) as [y|].
  - destruct Hf as (Hy & Hp & Habove). split; [done|]. split.
    + intros y' Hy'. destruct (decide (y' < 128)%Z); [apply Habove; lia|].
      apply Hout. lia.
    + split; [done|]. intros Hn. by destruct Hn.
  - split; [lia|]. split.
    + intros y' Hy'. destruct (decide (y' < 128)%Z); [apply Hf; lia|].
      apply Hout. lia.
    + split; [|done]. intros [y' Hy'].
      destruct (decide (0 ≤ y' < 128)%Z).
      * by rewrite Hf in Hy'.
      * rewrite Hout in Hy'; [done|lia].
Qed.

Lemma isRegionEmpty_true_iff (w : VoxelWorld.t)
    (minX minY minZ maxX maxY maxZ : Z) :
  isRegionEmpty w minX minY minZ maxX maxY maxZ = true
  ↔ ∀ x y z, (minX ≤ x ≤ maxX)%Z → (minY ≤ y ≤ maxY)%Z → (minZ ≤ z ≤ maxZ)%Z →
             truthy (VoxelWorld.getWorld w x y z) = false.
Proof.
  unfold isRegionEmpty. rewrite forallb_forall. split.
  - intros H x y z Hx Hy Hz.
    specialize (H x ltac:(by apply list_elem_of_In, elem_of_from_to)).
    rewrite forallb_forall in H.
    specialize (H y ltac:(by apply list_elem_of_In, elem_of_from_to)).
    rewrite forallb_forall in H.
    specialize (H z ltac:(by apply list_elem_of_In, elem_of_from_to)).
    by apply negb_true_iff in H.
  - intros H x Hx%list_elem_of_In%elem_of_from_to.
    apply forallb_forall. intros y Hy%list_elem_of_In%elem_of_from_to.
    apply forallb_forall. intros z Hz%list_elem_of_In%elem_of_from_to.
    apply negb_true_iff. by apply H.
Qed.

Lemma forallb_false_elem {A : Type} (f : A → bool) (l : list A) :
  forallb f l = false → ∃ a, a ∈ l ∧ f a = false.
Proof.
  induction l as [|a l IH]; [done|]. cbn [forallb].
  destruct (f a) eqn:E.
  - intros (b & Hb & Hf)%IH. exists b. split; [|done].
    apply elem_of_cons. by right.
  - intros _. exists a. split; [|done]. apply elem_of_cons. by left.
Qed.

(** X21. [isRegionEmpty] is true exactly when no cell of the box is
    solid.  A box with a lower bound above its upper bound is empty, and
    when the answer is false a cell of the box, inside the world, is
    solid: cells of the box outside the world count as empty. *)
Theorem isRegionEmpty_iff (w : VoxelWorld.t) (minX minY minZ maxX maxY maxZ : Z) :
  (isRegionEmpty w minX minY minZ maxX maxY maxZ = true
   ↔ ∀ x y z, (minX ≤ x ≤ maxX)%Z → (minY ≤ y ≤ maxY)%Z →
              (minZ ≤ z ≤ maxZ)%Z →
              truthy (VoxelWorld.getWorld w x y z) = false)
  ∧ ((maxX < minX ∨ maxY < minY ∨ maxZ < minZ)%Z →
     isRegionEmpty w minX minY minZ maxX maxY maxZ = true)
  ∧ (isRegionEmpty w minX minY minZ maxX maxY maxZ = false →
     ∃ x y z, (minX ≤ x ≤ maxX)%Z ∧ (minY ≤ y ≤ maxY)%Z
              ∧ (minZ ≤ z ≤ maxZ)%Z ∧ InGrid x y z
              ∧ truthy (VoxelWorld.getWorld w x y z) = true).
Proof.
  split; [apply isRegionEmpty_true_iff|]. split.
  - intros Hb. apply isRegionEmpty_true_iff. intros x y z Hx Hy Hz. lia.
  - unfold isRegionEmpty.
    intros (x & Hx%elem_of_from_to & H)%forallb_false_elem.
    apply forallb_false_elem in H as (y & Hy%elem_of_from_to & H).
    apply forallb_false_elem in H as (z & Hz%elem_of_from_to & H).
    apply negb_false_iff in H. exists x, y, z.
    split; [done|]. split; [done|]. split; [done|]. split; [|done].
    destruct (decide (InGrid x y z)) as [Hg|Hg]; [done|].
    rewrite VoxelWorld_getWorld_monolith, getWorld_out in H; done.
Qed.

Lemma NoDup_list_prod {A B : Type} (xs : list A) (ys : list B) :
  NoDup xs → NoDup ys → NoDup (list_prod xs ys).
Proof.
  intros Hx Hy. induction Hx as [|x xs Hnin Hx IH]; cbn [list_prod].
  { constructor. }
  apply NoDup_app. split; [|split; [|done]].
  - apply (NoDup_fmap_2_strong (pair x)); [|done]. by intros ? ? _ _ [=].
  - intros [a b] H1 H2. apply list_elem_of_In in H1, H2.
    apply in_map_iff in H1 as (b' & [= <- <-] & _).
    apply in_prod_iff in H2 as [H2 _]. by apply list_elem_of_In in H2.
Qed.

Lemma NoDup_box_cells (minX minY minZ maxX maxY maxZ : Z) :
  NoDup (box_cells minX minY minZ maxX maxY maxZ).
Proof. repeat apply NoDup_list_prod; apply NoDup_seqZ. Qed.

Lemma elem_of_box_cells (minX minY minZ maxX maxY maxZ x y z : Z) :
  (x, y, z) ∈ box_cells minX minY minZ maxX maxY maxZ
  ↔ (minX ≤ x ≤ maxX ∧ minY ≤ y ≤ maxY ∧ minZ ≤ z ≤ maxZ)%Z.
Proof.
  unfold box_cells. rewrite list_elem_of_In, !in_prod_iff,
    <- !list_elem_of_In, !elem_of_from_to. tauto.
Qed.

Lemma cell_differs_other (world : list Z) (value v : Z) (k k' : Z * Z * Z) :
  k' ≠ k →
  cell_differs (fst (setWorld world k.1.1 k.1.2 k.2 v)) value k'
  = cell_differs world value k'.
Proof.
  intros Hne. destruct k as [[x y] z], k' as [[x' y'] z'].
  unfold cell_differs. cbn [fst snd].
  pose proof (getWorld_setWorld_other world x y z v x' y' z' Hne) as H.
  unfold getWorld in H. unfold setWorld at 1 3.
  destruct (out_of_bounds x' y' z'); [done|]. cbn [snd]. by rewrite H.
Qed.

Lemma filter_ext_elem_of {A : Type} (P Q : A → Prop)
    `{!∀ x, Decision (P x)} `{!∀ x, Decision (Q x)} (l : list A) :
  (∀ x, x ∈ l → P x ↔ Q x) → filter P l = filter Q l.
Proof.
  induction l as [|a l IH]; intros HPQ; [done|].
  rewrite !filter_cons, IH by (intros x Hx; apply HPQ, elem_of_cons; by right).
  pose proof (HPQ a ltac:(apply elem_of_cons; by left)).
  destruct (decide (P a)), (decide (Q a)); tauto.
Qed.

(** The loops of [fillRegion] and [createSphere] over a list of cells
    without repetition, of which those that [sel] keeps are written. *)
Lemma fill_fold (value : Z) (sel : Z * Z * Z → bool) (ks : list (Z * Z * Z))
    (st : VoxelWorld.t * Z) :
  NoDup ks → length (VoxelWorld.world st.1) = world_length →
  let st' := fold_left
               (λ st k, if sel k then set_and_count value st k.1.1 k.1.2 k.2
                        else st) ks st in
  (∀ k, k ∈ ks → sel k = true → InGrid k.1.1 k.1.2 k.2 →
        VoxelWorld.getWorld st'.1 k.1.1 k.1.2 k.2 = JNum (ToUint8 value))
  ∧ (∀ k, ¬ (k ∈ ks ∧ sel k = true) →
          VoxelWorld.getWorld st'.1 k.1.1 k.1.2 k.2
          = VoxelWorld.getWorld st.1 k.1.1 k.1.2 k.2)
  ∧ VoxelWorld.heights st'.1 = VoxelWorld.heights st.1
  ∧ length (VoxelWorld.world st'.1) = world_length
  ∧ st'.2 = (st.2 + Z.of_nat
               (length (filter (λ k, sel k && cell_differs
                                       (VoxelWorld.world st.1) value k = true)
                               ks)))%Z
  ∧ VoxelWorld.terrainNeedsRebuild st'.1
    = (st.2 <? st'.2)%Z || VoxelWorld.terrainNeedsRebuild st.1.
Proof.
  intros Hnd. revert st. induction Hnd as [|k ks Hnin Hnd IH]; intros st Hlen.
  { cbv zeta. cbn [fold_left filter length]. split; [intros k Hk; by apply elem_of_nil in Hk|].
    split; [done|]. split; [done|]. split; [done|].
    split; [rewrite filter_nil; cbn [length]; lia|].
    by rewrite Z.ltb_irrefl. }
  cbv zeta. cbn [fold_left].
  set (st1 := if sel k then set_and_count value st k.1.1 k.1.2 k.2 else st).
  assert (H1 : (∀ k', k' ≠ k →
                  VoxelWorld.getWorld st1.1 k'.1.1 k'.1.2 k'.2
                  = VoxelWorld.getWorld st.1 k'.1.1 k'.1.2 k'.2)
               ∧ (sel k = true → InGrid k.1.1 k.1.2 k.2 →
                  VoxelWorld.getWorld st1.1 k.1.1 k.1.2 k.2
                  = JNum (ToUint8 value))
               ∧ (sel k = false → st1 = st)
               ∧ VoxelWorld.heights st1.1 = VoxelWorld.heights st.1
               ∧ length (VoxelWorld.world st1.1) = world_length
               ∧ st1.2 = (st.2 + if sel k && cell_differs (VoxelWorld.world st.1)
                                             value k then 1 else 0)%Z
               ∧ VoxelWorld.terrainNeedsRebuild st1.1
                 = (st.2 <? st1.2)%Z || VoxelWorld.terrainNeedsRebuild st.1
               ∧ (∀ k', k' ≠ k →
                    cell_differs (VoxelWorld.world st1.1) value k'
                    = cell_differs (VoxelWorld.world st.1) value k')).
  { subst st1. destruct (sel k) eqn:Es.
    - unfold set_and_count. cbv zeta.
      destruct (VoxelWorld_setWorld_monolith st.1 k.1.1 k.1.2 k.2 value)
        as (Hw & Hh & Hs & Hf).
      unfold cell_differs at 1. rewrite <- Hs. cbn [andb].
      assert (Hfst : ∀ A (a b : A) (c : bool), (if c then (a, b) else (a, b)).1 = a)
        by (by intros ? ? ? []).
      destruct (VoxelWorld.setWorld st.1 k.1.1 k.1.2 k.2 value).2 eqn:E;
        cbn [fst snd]; rewrite ?VoxelWorld_getWorld_monolith, ?Hw.
      + split.
        { intros k' Hk'. rewrite !VoxelWorld_getWorld_monolith, Hw.
          apply getWorld_setWorld_other. destruct k as [[? ?] ?], k' as [[? ?] ?].
          cbn. congruence. }
        split; [intros _ Hin; by apply getWorld_setWorld_same|].
        split; [done|]. split; [done|].
        split; [by rewrite setWorld_length|]. split; [done|].
        split; [rewrite Hf, <- Hs, (proj2 (Z.ltb_lt _ _)) by lia; done|].
        intros k' Hk'. by apply cell_differs_other.
      + split.
        { intros k' Hk'. rewrite !VoxelWorld_getWorld_monolith, Hw.
          apply getWorld_setWorld_other. destruct k as [[? ?] ?], k' as [[? ?] ?].
          cbn. congruence. }
        split; [intros _ Hin; by apply getWorld_setWorld_same|].
        split; [done|]. split; [done|].
        split; [by rewrite setWorld_length|]. split; [lia|].
        split; [rewrite Hf, <- Hs, Z.ltb_irrefl; done|].
        intros k' Hk'. by apply cell_differs_other.
    - cbn [andb]. split; [done|]. split; [done|]. split; [done|].
      split; [done|]. split; [done|]. split; [lia|].
      split; [by rewrite Z.ltb_irrefl|done]. }
  destruct H1 as (Hother & Hsame & Hskip & Hh & Hlen1 & Hcnt & Hflag & Hdiff).
  destruct (IH st1 Hlen1) as (IH1 & IH2 & IH3 & IH4 & IH5 & IH6).
  cbv zeta in *.
  set (st' := fold_left _ ks st1) in *.
  split; [|split; [|split; [|split; [|split]]]].
  - intros k' Hk' Hs Hin. apply elem_of_cons in Hk' as [->|Hk'].
    + rewrite IH2; [by apply Hsame|]. intros [? _]. done.
    + by apply IH1.
  - intros k' Hk'. destruct (decide (k' = k)) as [->|Hne].
    + rewrite IH2 by (intros [? _]; done).
      destruct (sel k) eqn:Es; [|by rewrite Hskip].
      exfalso. apply Hk'. split; [apply elem_of_cons; by left|done].
    + rewrite <- Hother by done. apply IH2. intros [Hin Hs]. apply Hk'.
      split; [apply elem_of_cons; by right|done].
  - congruence.
  - done.
  - rewrite IH5, Hcnt, filter_cons.
    assert (Hfilter : filter (λ k0, sel k0 && cell_differs (VoxelWorld.world st1.1)
                                              value k0 = true) ks
                      = filter (λ k0, sel k0 && cell_differs (VoxelWorld.world st.1)
                                                value k0 = true) ks).
    { apply filter_ext_elem_of. intros k' Hk'.
      rewrite Hdiff; [done|]. intros ->. done. }
    rewrite Hfilter.
    destruct (sel k && cell_differs (VoxelWorld.world st.1) value k) eqn:E.
    + rewrite decide_True by done. cbn [length]. lia.
    + rewrite decide_False by congruence. lia.
  - rewrite IH6, Hflag.
    assert (Hle1 : (st.2 ≤ st1.2)%Z) by (rewrite Hcnt; destruct (_ && _); lia).
    assert (Hle2 : (st1.2 ≤ st'.2)%Z) by (rewrite IH5; lia).
    revert Hle1 Hle2. generalize st.2 st1.2 st'.2. clear.
    intros a b c Hab Hbc.
    destruct (Z.ltb_spec b c), (Z.ltb_spec a b), (Z.ltb_spec a c);
      cbn [orb]; try done; lia.
Qed.

Lemma fillRegion_flat (w : VoxelWorld.t) (minX minY minZ maxX maxY maxZ value : Z) :
  fillRegion w minX minY minZ maxX maxY maxZ value
  = flag_changes
      (fold_left
         (λ st k, if (λ _ : Z * Z * Z, true) k
                  then set_and_count value st k.1.1 k.1.2 k.2 else st)
         (box_cells minX minY minZ maxX maxY maxZ) (w, 0%Z)).
Proof.
  unfold fillRegion, box_cells. f_equal.
  rewrite (nested_loops_flatten
             (λ st x y, fold_left (λ st z, set_and_count value st x y z)
                                  (from_to minZ maxZ) st)).
  by rewrite (nested_loops_flatten
                (λ st (k : Z * Z) z, set_and_count value st k.1 k.2 z)).
Qed.

Lemma flag_changes_fields (st : VoxelWorld.t * Z) :
  VoxelWorld.world (flag_changes st).1 = VoxelWorld.world st.1
  ∧ VoxelWorld.heights (flag_changes st).1 = VoxelWorld.heights st.1
  ∧ (flag_changes st).2 = st.2
  ∧ VoxelWorld.terrainNeedsRebuild (flag_changes st).1
    = (0 <? st.2)%Z || VoxelWorld.terrainNeedsRebuild st.1
  ∧ ∀ x y z, VoxelWorld.getWorld (flag_changes st).1 x y z
             = VoxelWorld.getWorld st.1 x y z.
Proof.
  unfold flag_changes. cbn [fst snd]. rewrite Z.gtb_ltb.
  destruct (0 <? st.2)%Z; cbn [VoxelWorld.world VoxelWorld.heights
                                VoxelWorld.terrainNeedsRebuild orb]; done.
Qed.

(** X22 ([VoxelWorld.fillRegion]): on a world of full size, every cell of
    the box that lies in the grid reads the stored value [value mod 256]
    afterwards, every cell outside the box reads as before, and the height
    map is not touched.  The returned count is the number of cells of the
    box on which [setWorld] answers true in the world before the call;
    the rebuild flag is raised exactly when that count is positive (and is
    never lowered).  Filling with a value that is stored as 0 leaves a
    region that [isRegionEmpty] accepts. *)
Theorem fillRegion_sets (w : VoxelWorld.t)
    (minX minY minZ maxX maxY maxZ value : Z) :
  length (VoxelWorld.world w) = world_length →
  let r := fillRegion w minX minY minZ maxX maxY maxZ value in
  let inbox x y z :=
    (minX ≤ x ≤ maxX ∧ minY ≤ y ≤ maxY ∧ minZ ≤ z ≤ maxZ)%Z in
  (∀ x y z, inbox x y z → InGrid x y z →
            VoxelWorld.getWorld r.1 x y z = JNum (ToUint8 value))
  ∧ (∀ x y z, ¬ inbox x y z →
              VoxelWorld.getWorld r.1 x y z = VoxelWorld.getWorld w x y z)
  ∧ VoxelWorld.heights r.1 = VoxelWorld.heights w
  ∧ r.2 = Z.of_nat
            (length (filter (λ k, cell_differs (VoxelWorld.world w) value k
                                  = true)
                            (box_cells minX minY minZ maxX maxY maxZ)))
  ∧ VoxelWorld.terrainNeedsRebuild r.1
    = (0 <? r.2)%Z || VoxelWorld.terrainNeedsRebuild w
  ∧ (ToUint8 value = 0%Z →
     isRegionEmpty r.1 minX minY minZ maxX maxY maxZ = true).
Proof.
  intros Hlen r inbox. subst r. rewrite fillRegion_flat.
  set (st' := fold_left _ _ _).
  destruct (flag_changes_fields st') as (_ & Fh & Fc & Ff & Fg).
  destruct (fill_fold value (λ _, true)
              (box_cells minX minY minZ maxX maxY maxZ) (w, 0%Z)
              (NoDup_box_cells _ _ _ _ _ _) Hlen)
    as (Hin & Hout & Hh & _ & Hc & Hf).
  cbv zeta in Hin, Hout, Hh, Hc, Hf. fold st' in Hin, Hout, Hh, Hc, Hf.
  cbn [fst snd andb] in Hin, Hout, Hh, Hc, Hf.
  assert (Hset : ∀ x y z, inbox x y z → InGrid x y z →
            VoxelWorld.getWorld (flag_changes st').1 x y z
            = JNum (ToUint8 value)).
  { intros x y z Hb Hg. rewrite Fg.
    apply (Hin (x, y, z)); [by apply elem_of_box_cells|done|done]. }
  split; [done|]. split.
  { intros x y z Hb. rewrite Fg. apply (Hout (x, y, z)).
    intros [Hk _]. by apply elem_of_box_cells in Hk. }
  split; [congruence|]. split; [rewrite Fc, Hc; lia|].
  split.
  { rewrite Ff, Fc, Hf. by destruct (0 <? st'.2)%Z. }
  intros H0. apply isRegionEmpty_true_iff. intros x y z Hx Hy Hz.
  destruct (out_of_bounds x y z) eqn:Eo.
  - unfold VoxelWorld.getWorld. by rewrite Eo.
  - rewrite Hset, H0; [done|done|].
    unfold out_of_bounds in Eo. unfold InGrid. unfold WORLD_SIZE in Eo. lia.
Qed.

Lemma fillRegion_sets_witness :
  length (VoxelWorld.world (VoxelWorld.mk empty_world empty_heights false))
  = world_length
  ∧ VoxelWorld.heights
      (fillRegion (VoxelWorld.mk empty_world empty_heights false)
                  0 0 0 1 1 1 1).1
    = empty_heights.
Proof.
  split; [apply length_replicate|].
  apply (fillRegion_sets (VoxelWorld.mk empty_world empty_heights false)
           0 0 0 1 1 1 1 (length_replicate _ _)).
Defined.

Lemma createSphere_flat (w : VoxelWorld.t) (centerX centerY centerZ radius : R)
    (value : Z) :
  createSphere w centerX centerY centerZ radius value
  = flag_changes
      (fold_left
         (λ st k, if in_ball centerX centerY centerZ radius k
                  then set_and_count value st k.1.1 k.1.2 k.2 else st)
         (box_cells (Math_floor (centerX - radius))
                    (Math_floor (centerY - radius))
                    (Math_floor (centerZ - radius))
                    (Math_ceil (centerX + radius))
                    (Math_ceil (centerY + radius))
                    (Math_ceil (centerZ + radius))) (w, 0%Z)).
Proof.
  unfold createSphere, box_cells. cbv zeta. f_equal.
  rewrite (nested_loops_flatten
             (λ st x y,
                fold_left
                  (λ st z,
                     if (IZR x - centerX) * (IZR x - centerX)
                        + (IZR y - centerY) * (IZR y - centerY)
                        + (IZR z - centerZ) * (IZR z - centerZ)
                        <=? radius * radius
                     then set_and_count value st x y z else st)
                  (from_to (Math_floor (centerZ - radius))
                           (Math_ceil (centerZ + radius))) st)).
  by rewrite (nested_loops_flatten
                (λ st (k : Z * Z) z,
                   if (IZR k.1 - centerX) * (IZR k.1 - centerX)
                      + (IZR k.2 - centerY) * (IZR k.2 - centerY)
                      + (IZR z - centerZ) * (IZR z - centerZ)
                      <=? radius * radius
                   then set_and_count value st k.1 k.2 z else st)).
Qed.

Lemma Math_ceil_spec (r : R) : IZR (Math_ceil r) - 1 < r <= IZR (Math_ceil r).
Proof.
  unfold Math_ceil. rewrite opp_IZR.
  pose proof (Math_floor_spec (- r)). lra.
Qed.

(** A whole number within [radius] of [c] lies between the bounds of the
    loops of [createSphere]. *)
Lemma ball_in_box (c radius d : R) (x : Z) :
  0 <= radius → d = IZR x - c → d * d <= radius * radius →
  (Math_floor (c - radius) ≤ x ≤ Math_ceil (c + radius))%Z.
Proof.
  intros Hr -> Hd.
  assert (H1 : - radius <= IZR x - c <= radius) by (split; nra).
  pose proof (Math_floor_spec (c - radius)).
  pose proof (Math_ceil_spec (c + radius)).
  split.
  - apply le_IZR. lra.
  - apply le_IZR. lra.
Qed.

(** X23 ([VoxelWorld.createSphere]): for a radius that is not negative, on
    a world of full size, every cell of the grid whose centre distance
    squared is at most the radius squared reads the stored value
    afterwards, every other cell reads as before, the height map is not
    touched, and the rebuild flag is raised exactly when the returned
    count is positive. *)
Theorem createSphere_sets (w : VoxelWorld.t)
    (centerX centerY centerZ radius : R) (value : Z) :
  length (VoxelWorld.world w) = world_length → 0 <= radius →
  let r := createSphere w centerX centerY centerZ radius value in
  let inside (x y z : Z) :=
    (IZR x - centerX) * (IZR x - centerX)
    + (IZR y - centerY) * (IZR y - centerY)
    + (IZR z - centerZ) * (IZR z - centerZ) <= radius * radius in
  (∀ x y z, inside x y z → InGrid x y z →
            VoxelWorld.getWorld r.1 x y z = JNum (ToUint8 value))
  ∧ (∀ x y z, ¬ inside x y z →
              VoxelWorld.getWorld r.1 x y z = VoxelWorld.getWorld w x y z)
  ∧ VoxelWorld.heights r.1 = VoxelWorld.heights w
  ∧ (0 ≤ r.2)%Z
  ∧ VoxelWorld.terrainNeedsRebuild r.1
    = (0 <? r.2)%Z || VoxelWorld.terrainNeedsRebuild w.
Proof.
  intros Hlen Hr r inside. subst r. rewrite createSphere_flat.
  set (cells := box_cells _ _ _ _ _ _).
  set (st' := fold_left _ _ _).
  destruct (flag_changes_fields st') as (_ & Fh & Fc & Ff & Fg).
  destruct (fill_fold value (in_ball centerX centerY centerZ radius)
              cells (w, 0%Z) (NoDup_box_cells _ _ _ _ _ _) Hlen)
    as (Hin & Hout & Hh & _ & Hc & Hf).
  cbv zeta in Hin, Hout, Hh, Hc, Hf. fold st' in Hin, Hout, Hh, Hc, Hf.
  cbn [fst snd] in Hin, Hout, Hh, Hc, Hf.
  assert (Hball : ∀ x y z, in_ball centerX centerY centerZ radius (x, y, z)
                           = true ↔ inside x y z).
  { intros x y z. unfold in_ball, inside. cbn [fst snd]. cbv zeta.
    unfold Rleb. destruct (Rle_dec _ _); split; try done. }
  split.
  { intros x y z Hi Hg. rewrite Fg.
    apply (Hin (x, y, z)); [|by apply Hball|done].
    unfold inside in Hi. apply elem_of_box_cells.
    assert (0 <= (IZR x - centerX) * (IZR x - centerX)) by apply sq_nonneg.
    assert (0 <= (IZR y - centerY) * (IZR y - centerY)) by apply sq_nonneg.
    assert (0 <= (IZR z - centerZ) * (IZR z - centerZ)) by apply sq_nonneg.
    split; [|split].
    - apply (ball_in_box _ _ (IZR x - centerX)); [done|done|lra].
    - apply (ball_in_box _ _ (IZR y - centerY)); [done|done|lra].
    - apply (ball_in_box _ _ (IZR z - centerZ)); [done|done|lra]. }
  split.
  { intros x y z Hb. rewrite Fg. apply (Hout (x, y, z)).
    intros [_ Hk]. by apply Hball in Hk. }
  split; [congruence|]. split; [rewrite Fc, Hc; lia|].
  rewrite Ff, Fc, Hf. by destruct (0 <? st'.2)%Z.
Qed.

Lemma createSphere_sets_witness :
  length (VoxelWorld.world (VoxelWorld.mk empty_world empty_heights false))
  = world_length
  ∧ 0 <= 2
  ∧ VoxelWorld.heights
      (createSphere (VoxelWorld.mk empty_world empty_heights false)
                    10 10 10 2 1).1
    = empty_heights.
Proof.
  split; [apply length_replicate|]. split; [lra|].
  apply (createSphere_sets (VoxelWorld.mk empty_world empty_heights false)
           10 10 10 2 1 (length_replicate _ _)). lra.
Defined.

Lemma map_id_on {A : Type} (f : A → A) (P : A → Prop) (l : list A) :
  (∀ a, P a → f a = a) → Forall P l → map f l = l.
Proof.
  intros Hf. induction 1 as [|a l Ha _ IH]; [done|].
  cbn [map]. by rewrite Hf, IH.
Qed.

(** X24 ([VoxelWorld.exportWorld], [VoxelWorld.importWorld]): a world
    whose cells are bytes and whose heights are 32-bit integers, as typed
    arrays hold them, is restored by importing its own export into any
    world, with the rebuild flag raised; data of another world size is
    refused. *)
Theorem importWorld_exportWorld (w : VoxelWorld.t) :
  Forall (λ v, 0 ≤ v < 256)%Z (VoxelWorld.world w) →
  Forall (λ h, - 2 ^ 31 ≤ h < 2 ^ 31)%Z (VoxelWorld.heights w) →
  (∀ now w',
     importWorld (exportWorld now w) w'
     = Some (VoxelWorld.mk (VoxelWorld.world w) (VoxelWorld.heights w) true))
  ∧ (∀ worldData w',
       wd_worldSize worldData ≠ WORLD_SIZE →
       importWorld worldData w' = None).
Proof.
  intros Hw Hh. split.
  - intros now w'. unfold importWorld, exportWorld.
    cbn [wd_worldSize wd_world wd_heights]. rewrite Z.eqb_refl. cbn [negb].
    rewrite (map_id_on ToUint8 _ _ (λ v Hv, Z.mod_small v 256 Hv) Hw).
    rewrite (map_id_on ToInt32 (λ h, - 2 ^ 31 ≤ h < 2 ^ 31)%Z); [done| |done].
    intros h Hb. unfold ToInt32. rewrite Z.mod_small; lia.
  - intros worldData w' Hne. unfold importWorld.
    by rewrite (proj2 (Z.eqb_neq _ _) Hne).
Qed.

Lemma importWorld_exportWorld_witness :
  Forall (λ v, 0 ≤ v < 256)%Z [0; 1; 255]%Z
  ∧ Forall (λ h, - 2 ^ 31 ≤ h < 2 ^ 31)%Z [2; 0]%Z
  ∧ importWorld (exportWorld 0 (VoxelWorld.mk [0; 1; 255]%Z [2; 0]%Z false))
                (VoxelWorld.mk [] [] false)
    = Some (VoxelWorld.mk [0; 1; 255]%Z [2; 0]%Z true).
Proof.
  assert (H1 : Forall (λ v, 0 ≤ v < 256)%Z [0; 1; 255]%Z)
    by (repeat constructor; lia).
  assert (H2 : Forall (λ h, - 2 ^ 31 ≤ h < 2 ^ 31)%Z [2; 0]%Z)
    by (repeat constructor; lia).
  split; [exact H1|]. split; [exact H2|].
  apply (importWorld_exportWorld (VoxelWorld.mk [0; 1; 255]%Z [2; 0]%Z false)
           H1 H2).
Defined.

Lemma getWorldStats_counts (l : list Z) (c : Z * Z) :
  let r := fold_left
             (λ (c : Z * Z) v,
                if negb (v =? 0)%Z then ((c.1 + 1)%Z, c.2)
                else (c.1, (c.2 + 1)%Z)) l c in
  r.1 = (c.1 + Z.of_nat (length (filter (λ v, v ≠ 0%Z) l)))%Z
  ∧ r.2 = (c.2 + Z.of_nat (length (filter (λ v, v = 0%Z) l)))%Z.
Proof.
  revert c. induction l as [|v l IH]; intros c; cbv zeta.
  { rewrite !filter_nil. cbn [fold_left length]. lia. }
  cbn [fold_left]. rewrite !filter_cons.
  destruct (IH (if negb (v =? 0)%Z then ((c.1 + 1)%Z, c.2)
                else (c.1, (c.2 + 1)%Z))) as [-> ->].
  destruct (Z.eqb_spec v 0) as [-> |Hne]; cbn [negb fst snd];
    destruct (decide (_ ≠ _)), (decide (_ = _)); cbn [length];
    try lia; tauto.
Qed.

(** X25 ([VoxelWorld.getWorldStats]): the solid count is the number of
    cells that are not 0, the empty count the number of cells that are 0,
    and the two add up to the total, the length of the array. *)
Theorem getWorldStats_partition (w : VoxelWorld.t) :
  let s := getWorldStats w in
  solidBlocks s
  = Z.of_nat (length (filter (λ v, v ≠ 0%Z) (VoxelWorld.world w)))
  ∧ emptyBlocks s
    = Z.of_nat (length (filter (λ v, v = 0%Z) (VoxelWorld.world w)))
  ∧ (solidBlocks s + emptyBlocks s)%Z = totalBlocks s
  ∧ totalBlocks s = Z.of_nat (length (VoxelWorld.world w)).
Proof.
  cbv zeta. unfold getWorldStats.
  cbn [solidBlocks emptyBlocks totalBlocks].
  destruct (getWorldStats_counts (VoxelWorld.world w) (0%Z, 0%Z)) as [H1 H2].
  cbv zeta in H1, H2. rewrite H1, H2. cbn [fst snd].
  split; [lia|]. split; [lia|]. split; [|done].
  clear H1 H2. induction (VoxelWorld.world w) as [|v l IH]; [done|].
  rewrite !filter_cons. cbn [length].
  destruct (decide (v ≠ 0%Z)), (decide (v = 0%Z)); cbn [length];
    try lia; tauto.
Qed.

Lemma getWorld_replicate_zero (n : nat) (h : list Z) (b : bool) (x y z : Z) :
  truthy (VoxelWorld.getWorld (VoxelWorld.mk (replicate n 0%Z) h b) x y z)
  = false.
Proof.
  unfold VoxelWorld.getWorld. cbn [VoxelWorld.world].
  destruct (out_of_bounds x y z); [done|].
  unfold ta_get.
  destruct (_ <? 0)%Z; [done|].
  destruct (replicate n 0%Z !! _) as [v|] eqn:E; [|done].
  apply lookup_replicate in E as [-> _]. done.
Qed.

(** X26 ([VoxelWorld.clearWorld]): after the call the two arrays keep
    their lengths and hold only 0, so every region is empty, the surface
    level is 0 in every column, the statistics count no solid block, and
    the rebuild flag is raised. *)
Theorem clearWorld_empty (w : VoxelWorld.t) :
  let w' := clearWorld w in
  length (VoxelWorld.world w') = length (VoxelWorld.world w)
  ∧ length (VoxelWorld.heights w') = length (VoxelWorld.heights w)
  ∧ Forall (λ v, v = 0%Z) (VoxelWorld.world w')
  ∧ Forall (λ v, v = 0%Z) (VoxelWorld.heights w')
  ∧ (∀ minX minY minZ maxX maxY maxZ,
       isRegionEmpty w' minX minY minZ maxX maxY maxZ = true)
  ∧ (∀ x z, getSurfaceLevel w' x z = 0%Z)
  ∧ solidBlocks (getWorldStats w') = 0%Z
  ∧ VoxelWorld.terrainNeedsRebuild w' = true.
Proof.
  cbv zeta. unfold clearWorld.
  cbn [VoxelWorld.world VoxelWorld.heights VoxelWorld.terrainNeedsRebuild].
  rewrite !length_replicate.
  split; [done|]. split; [done|].
  split; [apply Forall_replicate; done|].
  split; [apply Forall_replicate; done|].
  split.
  { intros. apply isRegionEmpty_true_iff. intros.
    apply getWorld_replicate_zero. }
  split.
  { intros x z. unfold getSurfaceLevel. destruct (_ || _); [done|].
    destruct (List.find _ _) as [y|] eqn:E; [|done].
    apply find_some in E as [_ E].
    by rewrite getWorld_replicate_zero in E. }
  split; [|done].
  unfold getWorldStats. cbn [solidBlocks VoxelWorld.world].
  destruct (getWorldStats_counts
              (replicate (length (VoxelWorld.world w)) 0%Z) (0%Z, 0%Z))
    as [-> _].
  cbn [fst].
  induction (length (VoxelWorld.world w)) as [|n IH]; [done|].
  cbn [replicate]. rewrite filter_cons, decide_False by (intros H; by apply H).
  exact IH.
Qed.

(** ** The terrain through a tick of the server *)

Lemma terrain_frame_refl (s : Server) : terrain_frame s s.
Proof. split; [done|]. split; [done|by left]. Qed.

Lemma terrain_frame_trans (s1 s2 s3 : Server) :
  terrain_frame s1 s2 → terrain_frame s2 s3 → terrain_frame s1 s3.
Proof.
  intros (Hh1 & Hf1 & Hw1) (Hh2 & Hf2 & Hw2).
  split; [congruence|]. split; [auto|].
  destruct Hw2 as [Hw2|Hw2]; [|by right].
  destruct Hw1 as [Hw1|Hw1]; [left; congruence|right; auto].
Qed.

Lemma terrain_frame_same (s s' : Server) :
  world s' = world s → heights s' = heights s →
  terrainNeedsRebuild s' = terrainNeedsRebuild s → terrain_frame s s'.
Proof.
  intros Hw Hh Hf. split; [done|]. split; [congruence|by left].
Qed.

Lemma terrain_frame_fold {K : Type} (f : Server → K → Server) (ks : list K)
    (s : Server) :
  (∀ s k, terrain_frame s (f s k)) → terrain_frame s (fold_left f ks s).
Proof.
  intros Hf. revert s. induction ks as [|k ks IH]; intros s.
  - apply terrain_frame_refl.
  - cbn [fold_left]. eapply terrain_frame_trans; [apply Hf|apply IH].
Qed.

Lemma destroy_cell_frame (this : MovingVoxel) (xi yi zi : Z) (speed : R)
    (s : Server) (dx dy dz : Z) :
  terrain_frame s (destroy_cell this xi yi zi speed s dx dy dz).
Proof.
  unfold destroy_cell. cbv zeta.
  destruct (_ && _); [|apply terrain_frame_refl].
  destruct (_ >? 5 / 10); [|apply terrain_frame_refl].
  unfold Math_random.
  destruct (_ <? _); [|by apply terrain_frame_same].
  destruct (_ >? 0); [|by apply terrain_frame_same].
  split; [done|]. split; [done|by right].
Qed.

Lemma createDestruction_frame (this : MovingVoxel) (xi yi zi : Z) (speed : R)
    (s : Server) :
  terrain_frame s (createDestruction this xi yi zi speed s).2.
Proof.
  rewrite createDestruction_flat. cbn [snd].
  apply terrain_frame_fold. intros. apply destroy_cell_frame.
Qed.

Lemma handleCollision_frame (collision : CollisionInfo) (this : MovingVoxel)
    (s : Server) :
  terrain_frame s (handleCollision collision this s).2.
Proof.
  destruct (handleCollision_cases collision this s) as [->|(this1 & -> & _)].
  - apply terrain_frame_refl.
  - apply createDestruction_frame.
Qed.

Lemma sweptMove_frame
    (info : R → list Z → vec3 → option CollisionInfo) (dt : R)
    (this : MovingVoxel) (s : Server) :
  terrain_frame s (sweptMove info handleCollision dt this s).2.
Proof.
  unfold sweptMove. cbv zeta.
  destruct (findCollisionTime _ _ _ _ _ _) as [t|]; [|apply terrain_frame_refl].
  destruct (t >? 0); [|apply terrain_frame_refl].
  destruct (info _ _ _) as [c|]; [|apply terrain_frame_refl].
  apply handleCollision_frame.
Qed.

Lemma settleToGrid_frame (this : MovingVoxel) (s : Server) :
  terrain_frame s (settleToGrid this s).2.
Proof.
  unfold settleToGrid. cbv zeta.
  destruct (findClosestEmptyPosition _ _ _ _) as [[[gx gy] gz]|];
    [|apply terrain_frame_refl].
  split; [done|]. split; [done|by right].
Qed.

Lemma checkSettling_frame (this : MovingVoxel) (s : Server) :
  terrain_frame s (checkSettling this s).2.
Proof.
  unfold checkSettling. cbv zeta.
  destruct (_ || _); [|apply terrain_frame_refl].
  apply settleToGrid_frame.
Qed.

Lemma handlePlayerVoxelCollision_frame (this playerVoxel : MovingVoxel)
    (s : Server) :
  terrain_frame s
    (MonolithVoxel.handlePlayerVoxelCollision this playerVoxel s).2.
Proof.
  unfold MonolithVoxel.handlePlayerVoxelCollision. cbv zeta.
  destruct (_ && _ && _); [|apply terrain_frame_refl].
  unfold Math_random. by apply terrain_frame_same.
Qed.

Lemma scanBody_frame (indices : list nat) (this : MovingVoxel)
    (body : list MovingVoxel) (s : Server) :
  terrain_frame s (MonolithVoxel.scanBody indices this body s).2.
Proof.
  revert this body s.
  induction indices as [|i rest IH]; intros this body s;
    cbn [MonolithVoxel.scanBody]; [apply terrain_frame_refl|].
  destruct (body !! i) as [pv|]; [|apply IH].
  destruct (checkVoxelToVoxelCollision this pv); [|apply IH].
  pose proof (handlePlayerVoxelCollision_frame this pv s) as Hf.
  destruct (MonolithVoxel.handlePlayerVoxelCollision this pv s)
    as [[[removed this1] pv1] s1].
  cbn [snd] in Hf.
  destruct removed; [done|].
  destruct (_ && _); [done|].
  eapply terrain_frame_trans; [exact Hf|apply IH].
Qed.

Lemma scanPlayers_frame (ks : list nat) (this : MovingVoxel) (s : Server) :
  terrain_frame s (MonolithVoxel.scanPlayers ks this s).2.
Proof.
  revert this s.
  induction ks as [|k rest IH]; intros this s;
    cbn [MonolithVoxel.scanPlayers]; [apply terrain_frame_refl|].
  destruct (players s !! k) as [[playerId player]|]; [|apply IH].
  destruct (MonolithVoxel.throwerGate playerId player this) as [this1|];
    [|apply IH].
  pose proof (scanBody_frame (rev (seq 0 (length (bodyVoxels player))))
                this1 (bodyVoxels player) s) as Hf.
  destruct (MonolithVoxel.scanBody _ this1 (bodyVoxels player) s)
    as [[[returned this2] body] s1].
  cbn [snd] in Hf. cbv zeta.
  set (s2 := set_players _ s1).
  assert (Hf2 : terrain_frame s s2).
  { eapply terrain_frame_trans; [exact Hf|by apply terrain_frame_same]. }
  destruct returned; [done|].
  eapply terrain_frame_trans; [exact Hf2|apply IH].
Qed.

Lemma update_frame (dt : R) (i : nat) (s : Server) :
  terrain_frame s (MonolithVoxel.update dt i s).2.
Proof.
  unfold MonolithVoxel.update.
  destruct (movingVoxels s !! i) as [this|]; [|apply terrain_frame_refl].
  destruct (isPlayerVoxel this); [apply terrain_frame_refl|].
  set (this1 := if isProjectile this then _ else this).
  unfold MonolithVoxel.updateMotion. cbv zeta.
  pose proof (sweptMove_frame getCollisionInfo dt (applyGravity dt this1) s)
    as Hf1.
  destruct (sweptMove _ _ _ _ _) as [this2 s2]. cbn [fst snd] in *.
  destruct (handleVoxelCollisions _ _ _ _) as [this3 l3].
  set (s3 := set_movingVoxels l3 s2).
  assert (Hf3 : terrain_frame s s3).
  { eapply terrain_frame_trans; [exact Hf1|by apply terrain_frame_same]. }
  unfold MonolithVoxel.playerCollisions.
  assert (Hf4 : ∀ r : bool * MovingVoxel * Server,
            terrain_frame s3 r.2 →
            terrain_frame s
              (let '(returned, this4, s4) := r in
               if returned then (Continue, store_voxel i this4 s4)
               else let '(result, this5, s5) := checkSettling this4 s4 in
                    (result, store_voxel i this5 s5)).2).
  { intros [[returned this4] s4] Hr. cbn [snd] in Hr.
    assert (Hs4 : terrain_frame s s4)
      by (eapply terrain_frame_trans; [exact Hf3|exact Hr]).
    destruct returned.
    - cbn [snd]. eapply terrain_frame_trans; [exact Hs4|].
      by apply terrain_frame_same.
    - pose proof (checkSettling_frame this4 s4) as Hc.
      destruct (checkSettling this4 s4) as [[result this5] s5].
      cbn [snd] in *.
      eapply terrain_frame_trans; [exact Hs4|].
      eapply terrain_frame_trans; [exact Hc|by apply terrain_frame_same]. }
  apply Hf4.
  destruct (_ && _); [apply scanPlayers_frame|apply terrain_frame_refl].
Qed.

Lemma tickVoxel_frame (dt : R) (s : Server) (i : nat) :
  terrain_frame s (MonolithVoxel.tickVoxel dt s i).
Proof.
  unfold MonolithVoxel.tickVoxel.
  pose proof (update_frame dt i s) as Hf.
  destruct (MonolithVoxel.update dt i s) as [result s1]. cbn [snd] in Hf.
  destruct result; [exact Hf| |exact Hf].
  eapply terrain_frame_trans; [exact Hf|by apply terrain_frame_same].
Qed.

Lemma updateMovingVoxels_frame (dt : R) (s : Server) :
  terrain_frame s (MonolithVoxel.updateMovingVoxels dt s).
Proof.
  unfold MonolithVoxel.updateMovingVoxels.
  apply terrain_frame_fold. intros. apply tickVoxel_frame.
Qed.

Lemma rebuildTerrain_length (world heights : list Z) :
  length (rebuildTerrain world heights) = length heights.
Proof. rewrite rebuildTerrain_flat. apply write_all_length. Qed.

(** X27 (server.js [updatePhysics], with [MovingVoxel.update],
    [handleCollision], [createDestruction], [settleToGrid] and the player
    collisions it runs): a tick keeps the height map true to the world.
    If, before the tick, the height map counts the solid cells of every
    column, or the rebuild flag is raised, then after the tick the height
    map counts the solid cells of every column of the new world and the
    flag is down: no step of the tick changes the world without raising
    the flag, and none lowers it before the rebuild. *)
Theorem updatePhysics_heights_agree (dt : R) (s : Server) :
  length (heights s) = heights_length →
  terrainNeedsRebuild s = true ∨ heights_agree s →
  let s' := MonolithVoxel.updatePhysics dt s in
  heights_agree s'
  ∧ terrainNeedsRebuild s' = false
  ∧ length (heights s') = heights_length.
Proof.
  intros Hlen Hpre. cbv zeta. unfold MonolithVoxel.updatePhysics. cbv zeta.
  set (s1 := MonolithVoxel.updatePlayers dt s).
  set (s2 := MonolithVoxel.updateMovingVoxels dt s1).
  assert (Hf : terrain_frame s s2).
  { eapply terrain_frame_trans; [|apply updateMovingVoxels_frame].
    by apply terrain_frame_same. }
  destruct Hf as (Hh & Hflag & Hw).
  destruct (terrainNeedsRebuild s2) eqn:E.
  - cbn [heights world terrainNeedsRebuild set_terrainNeedsRebuild
         set_heights].
    split; [|split; [done|by rewrite rebuildTerrain_length, Hh]].
    intros x z Hx Hz. cbn [heights world set_terrainNeedsRebuild set_heights].
    apply rebuildTerrain_column; [by rewrite Hh|done|done].
  - split; [|split; [done|by rewrite Hh]].
    destruct Hw as [Hw|Hw]; [|congruence].
    destruct Hpre as [Hpre|Hpre]; [apply Hflag in Hpre; congruence|].
    intros x z Hx Hz. rewrite Hh, Hw. by apply Hpre.
Qed.

Lemma updatePhysics_heights_agree_witness :
  let s := mkServer empty_world empty_heights true [] [] (λ _, 0) 0 in
  length (heights s) = heights_length
  ∧ (terrainNeedsRebuild s = true ∨ heights_agree s)
  ∧ heights_agree (MonolithVoxel.updatePhysics (1 / 50) s).
Proof.
  cbv zeta.
  split; [apply length_replicate|]. split; [by left|].
  apply (updatePhysics_heights_agree (1 / 50)
           (mkServer empty_world empty_heights true [] [] (λ _, 0) 0)
           (length_replicate _ _) (or_introl eq_refl)).
Defined.

(** ** The world that [initializeWorld] makes *)

Lemma solidCount_ext (w w' : list Z) (x z : Z) :
  (∀ y, getWorld w' x y z = getWorld w x y z) →
  solidCount w' x z = solidCount w x z.
Proof.
  intros H. unfold solidCount. do 2 f_equal.
  apply filter_ext_elem_of. intros y _. by rewrite H.
Qed.

Lemma column_fill (x z : Z) (ys : list Z) (s : Server) :
  length (world s) = world_length →
  let s' := fold_left
              (λ s y, set_world (fst (setWorld (world s) x y z 1)) s) ys s in
  s' = set_world (world s') s
  ∧ length (world s') = world_length
  ∧ (∀ y, y ∈ ys → InGrid x y z → getWorld (world s') x y z = JNum 1)
  ∧ (∀ x' y' z', ¬ (x' = x ∧ z' = z ∧ y' ∈ ys) →
       getWorld (world s') x' y' z' = getWorld (world s) x' y' z').
Proof.
  revert s. induction ys as [|y ys IH]; intros s Hlen; cbv zeta.
  { cbn [fold_left]. split; [by destruct s|]. split; [done|].
    split; [intros y Hy; by apply elem_of_nil in Hy|done]. }
  cbn [fold_left].
  set (s1 := set_world (fst (setWorld (world s) x y z 1)) s).
  assert (Hlen1 : length (world s1) = world_length)
    by (subst s1; cbn [world set_world]; by rewrite setWorld_length).
  destruct (IH s1 Hlen1) as (Heq & Hl & Hin & Hout). cbv zeta in *.
  set (s' := fold_left _ ys s1) in *.
  split; [rewrite Heq at 1; done|]. split; [done|]. split.
  - intros y' Hy' Hg. destruct (decide (y' ∈ ys)) as [Hys|Hys];
      [by apply Hin|].
    apply elem_of_cons in Hy' as [-> |Hy']; [|done].
    rewrite Hout by tauto. subst s1. cbn [world set_world].
    by rewrite getWorld_setWorld_same.
  - intros x' y' z' Hne. rewrite Hout.
    + subst s1. cbn [world set_world]. apply getWorld_setWorld_other.
      intros [= -> -> ->]. apply Hne. split; [done|]. split; [done|].
      apply elem_of_cons. by left.
    + intros (-> & -> & Hy'). apply Hne. split; [done|]. split; [done|].
      apply elem_of_cons. by right.
Qed.

(** The terrain height that [initializeWorld] draws from a value of
    [Math.random()]. *)
Lemma terrain_height_range (r : R) :
  0 <= r < 1 → (14 ≤ 16 + Math_floor ((r - 5 / 10) * 4) ≤ 17)%Z.
Proof.
  intros Hr. pose proof (Math_floor_spec ((r - 5 / 10) * 4)) as [H1 H2].
  assert (H3 : (-2 ≤ Math_floor ((r - 5 / 10) * 4))%Z).
  { apply Z.lt_succ_r, lt_IZR. rewrite succ_IZR. lra. }
  assert (H4 : (Math_floor ((r - 5 / 10) * 4) ≤ 1)%Z).
  { apply Z.lt_succ_r, lt_IZR. change (Z.succ 1) with 2%Z. lra. }
  lia.
Qed.

Lemma initialize_column_spec (s : Server) (x z : Z) :
  length (world s) = world_length → length (heights s) = heights_length →
  (0 ≤ x < 128)%Z → (0 ≤ z < 128)%Z →
  0 <= random s (randomCalls s) < 1 →
  let t := (16 + Math_floor ((random s (randomCalls s) - 5 / 10) * 4))%Z in
  let s' := initialize_column s x z in
  length (world s') = world_length ∧ length (heights s') = heights_length
  ∧ random s' = random s ∧ randomCalls s' = S (randomCalls s)
  ∧ (∀ y, (32 ≤ y < 32 + t)%Z → getWorld (world s') x y z = JNum 1)
  ∧ (∀ x' y' z', ¬ (x' = x ∧ z' = z ∧ (32 ≤ y' < 32 + t)%Z) →
       getWorld (world s') x' y' z' = getWorld (world s) x' y' z')
  ∧ ta_get (heights s') (x + z * 128) = JNum (solidCount (world s') x z)
  ∧ (∀ i, i ≠ (x + z * 128)%Z →
          ta_get (heights s') i = ta_get (heights s) i).
Proof.
  intros Hlw Hlh Hx Hz Hr t s'.
  pose proof (terrain_height_range _ Hr) as Ht. fold t in Ht.
  subst s'. unfold initialize_column. cbv zeta. unfold Math_random.
  fold t.
  assert (Hbase : Math_floor (IZR WORLD_SIZE / 4) = 32%Z).
  { apply Math_floor_unique. unfold WORLD_SIZE. lra. }
  rewrite Hbase. replace (Z.max 1 t) with t by lia.
  set (s1 := mkServer _ _ _ _ _ _ _).
  destruct (column_fill x z (seqZ 32 t) s1 Hlw) as (Heq & Hl & Hin & Hout).
  cbv zeta in Heq, Hl, Hin, Hout.
  set (s2 := fold_left _ (seqZ 32 t) s1) in *.
  assert (Hh2 : heights s2 = heights s) by (by rewrite Heq).
  cbn [world heights random randomCalls set_heights].
  split; [done|]. split; [by rewrite ta_set_length, Hh2|].
  split; [by rewrite Heq|]. split; [by rewrite Heq|].
  split.
  { intros y Hy. apply Hin; [apply elem_of_seqZ; lia|].
    unfold InGrid. lia. }
  split.
  { intros x' y' z' Hne. rewrite Hout; [done|].
    intros (-> & -> & Hy%elem_of_seqZ). apply Hne. lia. }
  split.
  { unfold WORLD_SIZE. rewrite ta_get_set_eq.
    - rewrite columnCount_solidCount, ToInt32_small; [done|].
      pose proof (solidCount_range (world s2) x z). lia.
    - rewrite Hh2, Hlh. unfold heights_length, WORLD_SIZE. lia. }
  intros i Hi. unfold WORLD_SIZE. rewrite ta_get_set_ne by done.
  by rewrite Hh2.
Qed.

Lemma lookup_list_prod {A B : Type} (xs : list A) (ys : list B) (i j : nat)
    (x : A) (y : B) :
  xs !! i = Some x → ys !! j = Some y →
  list_prod xs ys !! (i * length ys + j)%nat = Some (x, y).
Proof.
  revert i. induction xs as [|x0 xs IH]; intros i Hx Hy; [done|].
  cbn [list_prod]. destruct i as [|i].
  - injection Hx as ->. cbn [Nat.mul Nat.add].
    rewrite lookup_app_l
      by (rewrite length_map; by apply lookup_lt_Some in Hy).
    change (map (λ y0, (x, y0)) ys) with ((λ y0, (x, y0)) <$> ys).
    by rewrite list_lookup_fmap, Hy.
  - rewrite lookup_app_r by (rewrite length_map; cbn [Nat.mul]; lia).
    rewrite length_map.
    replace (S i * length ys + j - length ys)%nat
      with (i * length ys + j)%nat by (cbn [Nat.mul]; lia).
    by apply IH.
Qed.

(** The loops of [initializeWorld] over a list of columns of the grid
    without repetition. *)
Lemma initialize_columns (ks : list (Z * Z)) (s : Server) :
  NoDup ks →
  (∀ k, k ∈ ks → (0 ≤ k.1 < 128)%Z ∧ (0 ≤ k.2 < 128)%Z) →
  (∀ n, 0 <= random s n < 1) →
  length (world s) = world_length → length (heights s) = heights_length →
  let s' := fold_left (λ s k, initialize_column s k.1 k.2) ks s in
  length (world s') = world_length ∧ length (heights s') = heights_length
  ∧ random s' = random s
  ∧ randomCalls s' = (randomCalls s + length ks)%nat
  ∧ (∀ i k, ks !! i = Some k →
       let t := (16 + Math_floor ((random s (randomCalls s + i)%nat
                                   - 5 / 10) * 4))%Z in
       (∀ y, (32 ≤ y < 32 + t)%Z → getWorld (world s') k.1 y k.2 = JNum 1)
       ∧ (∀ y, ¬ (32 ≤ y < 32 + t)%Z →
               getWorld (world s') k.1 y k.2 = getWorld (world s) k.1 y k.2)
       ∧ ta_get (heights s') (k.1 + k.2 * 128)
         = JNum (solidCount (world s') k.1 k.2))
  ∧ (∀ x z, (x, z) ∉ ks →
       (∀ y, getWorld (world s') x y z = getWorld (world s) x y z)
       ∧ ((0 ≤ x < 128)%Z → (0 ≤ z < 128)%Z →
          ta_get (heights s') (x + z * 128)
          = ta_get (heights s) (x + z * 128))).
Proof.
  intros Hnd. revert s.
  induction Hnd as [|[x0 z0] ks Hnin Hnd IH];
    intros s Hgrid Hrnd Hlw Hlh; cbv zeta.
  { cbn [fold_left length]. rewrite Nat.add_0_r.
    split; [done|]. split; [done|]. split; [done|]. split; [done|].
    split; [intros i k Hk; by rewrite lookup_nil in Hk|done]. }
  cbn [fold_left fst snd length].
  destruct (Hgrid (x0, z0) ltac:(apply elem_of_cons; by left)) as [Hx0 Hz0].
  cbn [fst snd] in Hx0, Hz0.
  destruct (initialize_column_spec s x0 z0 Hlw Hlh Hx0 Hz0 (Hrnd _))
    as (Hlw1 & Hlh1 & Hr1 & Hc1 & Hin1 & Hout1 & Hh1 & Hother1).
  cbv zeta in Hlw1, Hlh1, Hr1, Hc1, Hin1, Hout1, Hh1, Hother1.
  set (s1 := initialize_column s x0 z0) in *.
  destruct (IH s1) as (Hlw' & Hlh' & Hr' & Hc' & Hin' & Hout');
    [intros k Hk; apply Hgrid, elem_of_cons; by right
    |intros n; rewrite Hr1; apply Hrnd|done|done|].
  cbv zeta in Hlw', Hlh', Hr', Hc', Hin', Hout'.
  set (s' := fold_left _ ks s1) in *.
  split; [done|]. split; [done|]. split; [congruence|].
  split; [rewrite Hc', Hc1; lia|].
  split.
  - intros [|i] k Hk.
    + injection Hk as <-. cbn [fst snd]. rewrite Nat.add_0_r.
      destruct (Hout' x0 z0 Hnin) as [Hw Hh].
      split; [intros y Hy; rewrite Hw; by apply Hin1|].
      split; [intros y Hy; rewrite Hw; apply Hout1; tauto|].
      rewrite Hh, Hh1 by done. f_equal. symmetry. by apply solidCount_ext.
    + cbn [lookup list_lookup] in Hk.
      destruct (Hin' i k Hk) as (H1 & H2 & H3).
      rewrite Hr1, Hc1 in H1, H2.
      replace (S (randomCalls s) + i)%nat with (randomCalls s + S i)%nat
        in H1, H2 by lia.
      split; [done|]. split; [|done].
      intros y Hy. rewrite H2 by done. apply Hout1.
      intros (Hx & Hz & _). apply Hnin.
      apply list_elem_of_lookup_2 in Hk. destruct k as [kx kz].
      cbn [fst snd] in Hx, Hz. by subst.
  - intros x z Hxz. apply not_elem_of_cons in Hxz as [Hne Hxz].
    destruct (Hout' x z Hxz) as [Hw Hh]. split.
    + intros y. rewrite Hw. apply Hout1. intros (-> & -> & _). done.
    + intros Hx Hz. rewrite Hh by done. apply Hother1.
      intros Heq. apply Hne. f_equal; lia.
Qed.

Lemma solidCount_band (w : list Z) (x z t : Z) :
  (14 ≤ t ≤ 17)%Z →
  (∀ y, (32 ≤ y < 32 + t)%Z → getWorld w x y z = JNum 1) →
  (∀ y, ¬ (32 ≤ y < 32 + t)%Z → getWorld w x y z = JNum 0) →
  solidCount w x z = t.
Proof.
  intros Ht Hin Hout. unfold solidCount.
  rewrite (filter_ext_elem_of _
             (λ y, (32 <=? y)%Z && (y <? 32 + t)%Z = true)).
  - assert (Hc : t = 14%Z ∨ t = 15%Z ∨ t = 16%Z ∨ t = 17%Z) by lia.
    destruct Hc as [-> |[-> |[-> | ->]]]; by vm_compute.
  - intros y _. destruct (decide (32 ≤ y < 32 + t)%Z) as [Hy|Hy].
    + rewrite Hin by done.
      replace ((32 <=? y)%Z && (y <? 32 + t)%Z) with true; [done|].
      symmetry. apply andb_true_iff. split; [apply Z.leb_le|apply Z.ltb_lt]; lia.
    + rewrite Hout by done.
      replace ((32 <=? y)%Z && (y <? 32 + t)%Z) with false; [done|].
      symmetry. apply andb_false_iff.
      destruct (decide (32 ≤ y)%Z);
        [right; apply Z.ltb_ge|left; apply Z.leb_gt]; lia.
Qed.

(** The loops of [initializeWorld] from arrays of full size that hold no
    solid cell. *)
Lemma initialize_from (s0 : Server) :
  (∀ n, 0 <= random s0 n < 1) →
  length (world s0) = world_length → length (heights s0) = heights_length →
  (∀ x y z, getWorld (world s0) x y z = JNum 0) →
  let s' := fold_left
              (λ s x, fold_left (λ s z, initialize_column s x z)
                                (seqZ 0 WORLD_SIZE) s)
              (seqZ 0 WORLD_SIZE) s0 in
  length (world s') = world_length
  ∧ length (heights s') = heights_length
  ∧ Z.of_nat (randomCalls s') = (Z.of_nat (randomCalls s0) + 16384)%Z
  ∧ ∀ x z, (0 ≤ x < 128)%Z → (0 ≤ z < 128)%Z →
      let t := (16 + Math_floor
                       ((random s0
                           (randomCalls s0 + Z.to_nat (x * 128 + z))%nat
                         - 5 / 10) * 4))%Z in
      (14 ≤ t ≤ 17)%Z
      ∧ (∀ y, (32 ≤ y < 32 + t)%Z → getWorld (world s') x y z = JNum 1)
      ∧ (∀ y, ¬ (32 ≤ y < 32 + t)%Z → getWorld (world s') x y z = JNum 0)
      ∧ ta_get (heights s') (x + z * 128) = JNum t
      ∧ solidCount (world s') x z = t.
Proof.
  intros Hrnd Hlw0 Hlh0 Hempty. cbv zeta.
  rewrite (nested_loops_flatten (λ s x z, initialize_column s x z)).
  set (ks := list_prod (seqZ 0 WORLD_SIZE) (seqZ 0 WORLD_SIZE)).
  destruct (initialize_columns ks s0) as (Hlw & Hlh & Hr & Hc & Hin & _);
    [| |done|done|done|].
  { apply NoDup_list_prod; apply NoDup_seqZ. }
  { intros [x z] Hk%list_elem_of_In%in_prod_iff. cbn [fst snd].
    destruct Hk as [Hx%list_elem_of_In%elem_of_seqZ
                    Hz%list_elem_of_In%elem_of_seqZ].
    unfold WORLD_SIZE in *. lia. }
  cbv zeta in Hlw, Hlh, Hr, Hc, Hin.
  set (s' := fold_left _ ks s0) in *. clearbody s'.
  split; [exact Hlw|]. split; [exact Hlh|].
  split.
  { rewrite Hc. subst ks. rewrite length_prod, !length_seqZ.
    unfold WORLD_SIZE. lia. }
  intros x z Hx Hz.
  assert (Hk : ks !! Z.to_nat (x * 128 + z) = Some (x, z)).
  { subst ks.
    replace (Z.to_nat (x * 128 + z))
      with (Z.to_nat x * length (seqZ 0 WORLD_SIZE) + Z.to_nat z)%nat
      by (rewrite length_seqZ; unfold WORLD_SIZE; lia).
    apply lookup_list_prod; apply lookup_seqZ; unfold WORLD_SIZE; lia. }
  destruct (Hin _ _ Hk) as (H1 & H2 & H3). cbn [fst snd] in H1, H2, H3.
  set (t := (16 + Math_floor _)%Z) in *.
  assert (Ht : (14 ≤ t ≤ 17)%Z) by apply terrain_height_range, Hrnd.
  assert (H2' : ∀ y, ¬ (32 ≤ y < 32 + t)%Z →
                     getWorld (world s') x y z = JNum 0).
  { intros y Hy. rewrite (H2 y Hy). apply Hempty. }
  assert (Hcount : solidCount (world s') x z = t)
    by (by apply solidCount_band).
  split; [exact Ht|]. split; [exact H1|]. split; [exact H2'|].
  split; [|exact Hcount]. rewrite H3. by f_equal.
Qed.

Lemma initialize_from_flag (s0 : Server) :
  (∀ n, 0 <= random s0 n < 1) →
  length (world s0) = world_length → length (heights s0) = heights_length →
  (∀ x y z, getWorld (world s0) x y z = JNum 0) →
  let s' := set_terrainNeedsRebuild false
              (fold_left
                 (λ s x, fold_left (λ s z, initialize_column s x z)
                                   (seqZ 0 WORLD_SIZE) s)
                 (seqZ 0 WORLD_SIZE) s0) in
  heights_agree s'
  ∧ terrainNeedsRebuild s' = false
  ∧ length (world s') = world_length
  ∧ length (heights s') = heights_length
  ∧ Z.of_nat (randomCalls s') = (Z.of_nat (randomCalls s0) + 16384)%Z
  ∧ ∀ x z, (0 ≤ x < 128)%Z → (0 ≤ z < 128)%Z →
      let t := (16 + Math_floor
                       ((random s0
                           (randomCalls s0 + Z.to_nat (x * 128 + z))%nat
                         - 5 / 10) * 4))%Z in
      (14 ≤ t ≤ 17)%Z
      ∧ (∀ y, (32 ≤ y < 32 + t)%Z → getWorld (world s') x y z = JNum 1)
      ∧ (∀ y, ¬ (32 ≤ y < 32 + t)%Z → getWorld (world s') x y z = JNum 0)
      ∧ ta_get (heights s') (x + z * 128) = JNum t.
Proof.
  intros Hrnd Hlw0 Hlh0 Hempty.
  pose proof (initialize_from s0 Hrnd Hlw0 Hlh0 Hempty) as H.
  cbv zeta in H. cbv zeta. revert H.
  match goal with
  | |- context [fold_left ?f ?l s0] => generalize (fold_left f l s0)
  end.
  intros s' (Hlw & Hlh & Hc & Hcol).
  cbn [world heights terrainNeedsRebuild randomCalls set_terrainNeedsRebuild].
  split.
  { intros x z Hx Hz. cbn [world heights set_terrainNeedsRebuild].
    destruct (Hcol x z Hx Hz) as (_ & _ & _ & H3 & H4).
    rewrite H3. f_equal. symmetry. exact H4. }
  split; [reflexivity|]. split; [exact Hlw|]. split; [exact Hlh|].
  split; [exact Hc|].
  intros x z Hx Hz. destruct (Hcol x z Hx Hz) as (Ht & H1 & H2 & H3 & _).
  split; [exact Ht|]. split; [exact H1|]. split; [exact H2|exact H3].
Qed.

Lemma empty_arrays_lengths :
  length empty_world = world_length ∧ length empty_heights = heights_length.
Proof. split; apply length_replicate. Qed.

(** X28 (server.js [initializeWorld]): with values of [Math.random()] in
    [0, 1), the column [(x, z)] of the new world is solid exactly on the
    cells [32 <= y < 32 + t], where [t = 16 + floor((r - 0.5) * 4)] for
    the value [r] drawn for that column (the one of index [x * 128 + z]
    among the draws) lies between 14 and 17; the height map holds [t] for
    the column, the number of its solid cells; the rebuild flag is down
    and 16384 values have been drawn. *)
Theorem initializeWorld_terrain (s : Server) :
  (∀ n, 0 <= random s n < 1) →
  let s' := initializeWorld s in
  heights_agree s'
  ∧ terrainNeedsRebuild s' = false
  ∧ length (world s') = world_length
  ∧ length (heights s') = heights_length
  ∧ Z.of_nat (randomCalls s') = (Z.of_nat (randomCalls s) + 16384)%Z
  ∧ ∀ x z, (0 ≤ x < 128)%Z → (0 ≤ z < 128)%Z →
      let t := (16 + Math_floor
                       ((random s (randomCalls s + Z.to_nat (x * 128 + z))%nat
                         - 5 / 10) * 4))%Z in
      (14 ≤ t ≤ 17)%Z
      ∧ (∀ y, (32 ≤ y < 32 + t)%Z → getWorld (world s') x y z = JNum 1)
      ∧ (∀ y, ¬ (32 ≤ y < 32 + t)%Z → getWorld (world s') x y z = JNum 0)
      ∧ ta_get (heights s') (x + z * 128) = JNum t.
Proof.
  intros Hrnd.
  exact (initialize_from_flag
           (set_heights empty_heights (set_world empty_world s)) Hrnd
           (proj1 empty_arrays_lengths) (proj2 empty_arrays_lengths)
           getWorld_empty_world).
Qed.

Lemma initializeWorld_terrain_witness :
  (∀ n : nat, 0 <= (λ _ : nat, 1 / 2) n < 1)
  ∧ terrainNeedsRebuild
      (initializeWorld (mkServer [] [] true [] [] (λ _, 1 / 2) 0)) = false.
Proof.
  split; [intros n; lra|].
  apply (initializeWorld_terrain (mkServer [] [] true [] [] (λ _, 1 / 2) 0)).
  intros n. cbn [random]. lra.
Defined.

(** ** The world that [new VoxelWorld()] makes *)

(** The state of the server that holds the arrays of a [VoxelWorld] and
    the stream of random values. *)
Lemma generate_column_server (rnd : nat → R) (st : VoxelWorld.t * nat)
    (x z : Z) (s : Server) :
  world s = VoxelWorld.world st.1 → heights s = VoxelWorld.heights st.1 →
  random s = rnd → randomCalls s = st.2 →
  let st' := generate_column rnd st x z in
  let s' := initialize_column s x z in
  world s' = VoxelWorld.world st'.1 ∧ heights s' = VoxelWorld.heights st'.1
  ∧ random s' = rnd ∧ randomCalls s' = st'.2
  ∧ (VoxelWorld.terrainNeedsRebuild st.1 = true →
     VoxelWorld.terrainNeedsRebuild st'.1 = true).
Proof.
  intros Hw Hh Hr Hc. cbv zeta.
  unfold generate_column, initialize_column. cbv zeta. unfold Math_random.
  rewrite Hr, Hc.
  set (ys := seqZ _ (Z.max 1 _)).
  set (s1 := mkServer _ _ _ _ _ _ _).
  assert (Hfold : ∀ (l : list Z) (w : VoxelWorld.t) (s0 : Server),
            world s0 = VoxelWorld.world w →
            let w' := fold_left (λ w y, (VoxelWorld.setWorld w x y z 1).1)
                                l w in
            let s0' := fold_left
                         (λ s y, set_world (fst (setWorld (world s) x y z 1)) s)
                         l s0 in
            world s0' = VoxelWorld.world w'
            ∧ heights s0' = heights s0 ∧ random s0' = random s0
            ∧ randomCalls s0' = randomCalls s0
            ∧ VoxelWorld.heights w' = VoxelWorld.heights w
            ∧ (VoxelWorld.terrainNeedsRebuild w = true →
               VoxelWorld.terrainNeedsRebuild w' = true)).
  { clear. induction l as [|y l IH]; intros w s0 Hw; cbv zeta;
      [by cbn [fold_left]|].
    cbn [fold_left].
    destruct (VoxelWorld_setWorld_monolith w x y z 1) as (H1 & H2 & _ & H4).
    destruct (IH (VoxelWorld.setWorld w x y z 1).1
                 (set_world (fst (setWorld (world s0) x y z 1)) s0))
      as (I1 & I2 & I3 & I4 & I5 & I6).
    { cbn [world set_world]. by rewrite H1, Hw. }
    cbv zeta in I1, I2, I3, I4, I5, I6.
    split; [done|]. split; [done|]. split; [done|]. split; [done|].
    split; [congruence|]. intros Hf. apply I6. rewrite H4, Hf.
    apply orb_true_r. }
  destruct (Hfold ys st.1 s1 Hw) as (F1 & F2 & F3 & F4 & F5 & F6).
  cbv zeta in F1, F2, F3, F4, F5, F6.
  cbn [fst snd VoxelWorld.world VoxelWorld.heights
       VoxelWorld.terrainNeedsRebuild world heights random randomCalls
       set_heights].
  split; [done|]. split.
  { rewrite F2, F5. cbn [heights s1]. rewrite Hh. f_equal.
    unfold columnCount. rewrite F1.
    apply fold_left_pointwise. intros h y.
    by rewrite VoxelWorld_getWorld_monolith. }
  split; [by rewrite F3|]. split; [by rewrite F4|done].
Qed.

Lemma generate_columns_server (rnd : nat → R) (ks : list (Z * Z))
    (st : VoxelWorld.t * nat) (s : Server) :
  world s = VoxelWorld.world st.1 → heights s = VoxelWorld.heights st.1 →
  random s = rnd → randomCalls s = st.2 →
  let st' := fold_left (λ st k, generate_column rnd st k.1 k.2) ks st in
  let s' := fold_left (λ s k, initialize_column s k.1 k.2) ks s in
  world s' = VoxelWorld.world st'.1 ∧ heights s' = VoxelWorld.heights st'.1
  ∧ randomCalls s' = st'.2
  ∧ (VoxelWorld.terrainNeedsRebuild st.1 = true →
     VoxelWorld.terrainNeedsRebuild st'.1 = true).
Proof.
  revert st s. induction ks as [|k ks IH]; intros st s Hw Hh Hr Hc; cbv zeta;
    [by cbn [fold_left]|].
  cbn [fold_left].
  destruct (generate_column_server rnd st k.1 k.2 s Hw Hh Hr Hc)
    as (G1 & G2 & G3 & G4 & G5).
  cbv zeta in G1, G2, G3, G4, G5.
  destruct (IH _ _ G1 G2 G3 G4) as (I1 & I2 & I3 & I4).
  cbv zeta in I1, I2, I3, I4.
  split; [done|]. split; [done|]. split; [done|]. auto.
Qed.

(** The first cell that [generateWorld] writes in a world without solid
    cells raises the rebuild flag. *)
Lemma generate_column_raises (rnd : nat → R) (st : VoxelWorld.t * nat) :
  length (VoxelWorld.world st.1) = world_length →
  getWorld (VoxelWorld.world st.1) 0 32 0 = JNum 0 →
  VoxelWorld.terrainNeedsRebuild (generate_column rnd st 0 0).1 = true.
Proof.
  intros Hlen H0. unfold generate_column. cbv zeta.
  cbn [fst VoxelWorld.terrainNeedsRebuild].
  assert (Hbase : Math_floor (IZR WORLD_SIZE / 4) = 32%Z).
  { apply Math_floor_unique. unfold WORLD_SIZE. lra. }
  rewrite Hbase.
  set (n := Z.max 1 _).
  assert (Hn : (0 < n)%Z) by lia.
  rewrite (seqZ_cons 32 n Hn). cbn [fold_left].
  set (w1 := (VoxelWorld.setWorld st.1 0 32 0 1).1).
  assert (Hw1 : VoxelWorld.terrainNeedsRebuild w1 = true).
  { subst w1.
    destruct (VoxelWorld_setWorld_monolith st.1 0 32 0 1) as (_ & _ & _ & ->).
    unfold setWorld. change (out_of_bounds 0 32 0) with false. cbn [snd].
    unfold getWorld in H0. change (out_of_bounds 0 32 0) with false in H0.
    by rewrite H0. }
  generalize dependent w1. generalize (seqZ (Z.succ 32) (Z.pred n)).
  clear. intros l. induction l as [|y l IH]; intros w1 Hw1; [done|].
  cbn [fold_left]. apply IH.
  destruct (VoxelWorld_setWorld_monolith w1 0 y 0 1) as (_ & _ & _ & ->).
  rewrite Hw1. apply orb_true_r.
Qed.

Lemma getSurfaceLevel_band (w : VoxelWorld.t) (x z t : Z) :
  (0 ≤ x < 128)%Z → (0 ≤ z < 128)%Z → (1 ≤ t ≤ 96)%Z →
  (∀ y, (32 ≤ y < 32 + t)%Z → VoxelWorld.getWorld w x y z = JNum 1) →
  (∀ y, ¬ (32 ≤ y < 32 + t)%Z → VoxelWorld.getWorld w x y z = JNum 0) →
  getSurfaceLevel w x z = (31 + t)%Z.
Proof.
  intros Hx Hz Ht Hin Hout. unfold getSurfaceLevel.
  replace ((x <? 0)%Z || (x >=? WORLD_SIZE)%Z || (z <? 0)%Z
           || (z >=? WORLD_SIZE)%Z) with false
    by (unfold WORLD_SIZE; lia).
  pose proof (find_rev_seqZ_nat (λ y, truthy (VoxelWorld.getWorld w x y z)) 128)
    as Hf.
  change (Z.of_nat 128) with 128%Z in Hf. change WORLD_SIZE with 128%Z.
  destruct (List.find _ (rev (seqZ 0 128))) as [y|].
  - destruct Hf as (Hy & Hp & Habove).
    assert (H1 : (32 ≤ y < 32 + t)%Z).
    { destruct (decide (32 ≤ y < 32 + t)%Z) as [H|H]; [done|].
      by rewrite (Hout y H) in Hp. }
    destruct (decide (y = 31 + t)%Z) as [->|Hne]; [done|].
    specialize (Habove (y + 1)%Z ltac:(lia)).
    rewrite Hin in Habove by lia. done.
  - specialize (Hf 32%Z ltac:(lia)). rewrite Hin in Hf by lia. done.
Qed.

Lemma list_prod_cons {A B : Type} (x : A) (xs : list A) (ys : list B) :
  list_prod (x :: xs) ys = map (λ y, (x, y)) ys ++ list_prod xs ys.
Proof. done. Qed.

Lemma fold_left_cons {A B : Type} (f : A → B → A) (b : B) (l : list B)
    (a : A) :
  fold_left f (b :: l) a = fold_left f l (f a b).
Proof. done. Qed.

(** The loops of [generateWorld] from arrays of full size that hold no
    solid cell. *)
Lemma generate_from (rnd : nat → R) (w0 : VoxelWorld.t) (n : nat) :
  (∀ n, 0 <= rnd n < 1) →
  length (VoxelWorld.world w0) = world_length →
  length (VoxelWorld.heights w0) = heights_length →
  (∀ x y z, getWorld (VoxelWorld.world w0) x y z = JNum 0) →
  let st := generateWorld rnd (w0, n) in
  VoxelWorld.terrainNeedsRebuild st.1 = true
  ∧ length (VoxelWorld.world st.1) = world_length
  ∧ length (VoxelWorld.heights st.1) = heights_length
  ∧ Z.of_nat st.2 = (Z.of_nat n + 16384)%Z
  ∧ ∀ x z, (0 ≤ x < 128)%Z → (0 ≤ z < 128)%Z →
      let t := (16 + Math_floor
                       ((rnd (n + Z.to_nat (x * 128 + z))%nat - 5 / 10)
                        * 4))%Z in
      (14 ≤ t ≤ 17)%Z
      ∧ (∀ y, (32 ≤ y < 32 + t)%Z → VoxelWorld.getWorld st.1 x y z = JNum 1)
      ∧ (∀ y, ¬ (32 ≤ y < 32 + t)%Z →
              VoxelWorld.getWorld st.1 x y z = JNum 0)
      ∧ VoxelWorld.getHeight st.1 x z = JNum t
      ∧ getSurfaceLevel st.1 x z = (31 + t)%Z.
Proof.
  intros Hrnd Hlw Hlh Hempty. cbv zeta. unfold generateWorld.
  rewrite (nested_loops_flatten (λ st x z, generate_column rnd st x z)).
  set (s0 := mkServer (VoxelWorld.world w0) (VoxelWorld.heights w0)
               (VoxelWorld.terrainNeedsRebuild w0) [] [] rnd n).
  pose proof (initialize_from s0 Hrnd Hlw Hlh Hempty) as Hs.
  cbv zeta in Hs.
  rewrite (nested_loops_flatten (λ s x z, initialize_column s x z)) in Hs.
  destruct (generate_columns_server rnd
              (list_prod (seqZ 0 WORLD_SIZE) (seqZ 0 WORLD_SIZE)) (w0, n) s0
              eq_refl eq_refl eq_refl eq_refl) as (G1 & G2 & G3 & _).
  cbv zeta in G1, G2, G3.
  assert (Hflag : VoxelWorld.terrainNeedsRebuild
                    (fold_left (λ st k, generate_column rnd st k.1 k.2)
                       (list_prod (seqZ 0 WORLD_SIZE) (seqZ 0 WORLD_SIZE))
                       (w0, n)).1 = true).
  { unfold WORLD_SIZE at 1. rewrite (seqZ_cons 0 128) by lia.
    rewrite list_prod_cons. unfold WORLD_SIZE at 1.
    rewrite (seqZ_cons 0 128) by lia.
    rewrite map_cons, <- app_comm_cons, fold_left_cons.
    set (st1 := generate_column rnd (w0, n) 0 0).
    assert (H1 : VoxelWorld.terrainNeedsRebuild st1.1 = true)
      by (by apply generate_column_raises).
    destruct (generate_columns_server rnd
                (map (λ y, (0%Z, y)) (seqZ (Z.succ 0) (Z.pred 128))
                 ++ list_prod (seqZ (Z.succ 0) (Z.pred 128))
                      (seqZ 0 WORLD_SIZE))
                st1
                (mkServer (VoxelWorld.world st1.1) (VoxelWorld.heights st1.1)
                   false [] [] rnd st1.2)
                eq_refl eq_refl eq_refl eq_refl) as (_ & _ & _ & Hm).
    by apply Hm. }
  revert Hs G1 G2 G3 Hflag.
  generalize (fold_left (λ s k, initialize_column s k.1 k.2)
                (list_prod (seqZ 0 WORLD_SIZE) (seqZ 0 WORLD_SIZE)) s0).
  generalize (fold_left (λ st k, generate_column rnd st k.1 k.2)
                (list_prod (seqZ 0 WORLD_SIZE) (seqZ 0 WORLD_SIZE)) (w0, n)).
  intros st' s' (Hlw' & Hlh' & Hc & Hcol) G1 G2 G3 Hflag.
  change (random s0) with rnd in Hcol.
  change (randomCalls s0) with n in Hcol, Hc.
  split; [done|]. split; [by rewrite <- G1|]. split; [by rewrite <- G2|].
  split; [by rewrite <- G3|].
  intros x z Hx Hz. destruct (Hcol x z Hx Hz) as (Ht & H1 & H2 & H3 & _).
  cbv zeta in Ht, H1, H2, H3. set (t := (16 + Math_floor _)%Z) in *.
  assert (H1' : ∀ y, (32 ≤ y < 32 + t)%Z →
                     VoxelWorld.getWorld st'.1 x y z = JNum 1).
  { intros y Hy. rewrite VoxelWorld_getWorld_monolith, <- G1. by apply H1. }
  assert (H2' : ∀ y, ¬ (32 ≤ y < 32 + t)%Z →
                     VoxelWorld.getWorld st'.1 x y z = JNum 0).
  { intros y Hy. rewrite VoxelWorld_getWorld_monolith, <- G1. by apply H2. }
  split; [done|]. split; [done|]. split; [done|]. split.
  - unfold VoxelWorld.getHeight.
    replace ((x <? 0)%Z || (x >=? WORLD_SIZE)%Z || (z <? 0)%Z
             || (z >=? WORLD_SIZE)%Z) with false
      by (unfold WORLD_SIZE; lia).
    rewrite <- G2. exact H3.
  - apply getSurfaceLevel_band; [done|done|lia|done|done].
Qed.

(** X29 (game/VoxelWorld.js constructor and [generateWorld]): with values
    of [Math.random()] in [0, 1), the column [(x, z)] of a new world is
    solid exactly on the cells [32 <= y < 32 + t] with [t] between 14 and
    17, drawn as [16 + floor((r - 0.5) * 4)]; [getHeight] gives [t] and
    [getSurfaceLevel] gives [31 + t] for the column.  The rebuild flag is
    raised and 16384 values have been drawn. *)
Theorem newVoxelWorld_terrain (rnd : nat → R) (n : nat) :
  (∀ n, 0 <= rnd n < 1) →
  let st := newVoxelWorld rnd n in
  VoxelWorld.terrainNeedsRebuild st.1 = true
  ∧ length (VoxelWorld.world st.1) = world_length
  ∧ length (VoxelWorld.heights st.1) = heights_length
  ∧ Z.of_nat st.2 = (Z.of_nat n + 16384)%Z
  ∧ ∀ x z, (0 ≤ x < 128)%Z → (0 ≤ z < 128)%Z →
      let t := (16 + Math_floor
                       ((rnd (n + Z.to_nat (x * 128 + z))%nat - 5 / 10)
                        * 4))%Z in
      (14 ≤ t ≤ 17)%Z
      ∧ (∀ y, (32 ≤ y < 32 + t)%Z → VoxelWorld.getWorld st.1 x y z = JNum 1)
      ∧ (∀ y, ¬ (32 ≤ y < 32 + t)%Z →
              VoxelWorld.getWorld st.1 x y z = JNum 0)
      ∧ VoxelWorld.getHeight st.1 x z = JNum t
      ∧ getSurfaceLevel st.1 x z = (31 + t)%Z.
Proof.
  intros Hrnd.
  exact (generate_from rnd (VoxelWorld.mk empty_world empty_heights false) n
           Hrnd (proj1 empty_arrays_lengths) (proj2 empty_arrays_lengths)
           getWorld_empty_world).
Qed.

Lemma newVoxelWorld_terrain_witness :
  (∀ n : nat, 0 <= (λ _ : nat, 1 / 2) n < 1)
  ∧ VoxelWorld.terrainNeedsRebuild (newVoxelWorld (λ _, 1 / 2) 0).1 = true.
Proof.
  split; [intros n; lra|].
  apply (newVoxelWorld_terrain (λ _, 1 / 2) 0). intros n. lra.
Defined.

(** ** [findSafeSpawnPosition] *)

Lemma random_cell_range (r : R) :
  0 <= r < 1 → (0 ≤ Math_floor (r * IZR WORLD_SIZE) < 128)%Z.
Proof.
  intros Hr. pose proof (Math_floor_spec (r * IZR WORLD_SIZE)) as [H1 H2].
  unfold WORLD_SIZE in *. split.
  - apply Z.lt_succ_r, lt_IZR. rewrite succ_IZR. lra.
  - apply lt_IZR. lra.
Qed.

Lemma spawn_attempts_step (attempts : nat) (preferredX preferredZ : option Z)
    (rnd : nat → R) (n : nat) (w : VoxelWorld.t) :
  spawn_attempts (S attempts) preferredX preferredZ rnd n w
  = let xn := spawn_coordinate preferredX rnd n in
    let zn := spawn_coordinate preferredZ rnd xn.2 in
    let spawnY := (getSurfaceLevel w xn.1 zn.1 + 10)%Z in
    if spawn_box_empty w xn.1 spawnY zn.1
    then (Some (xn.1, spawnY, zn.1), zn.2)
    else spawn_attempts attempts preferredX preferredZ rnd zn.2 w.
Proof.
  cbn [spawn_attempts]. unfold spawn_coordinate, spawn_box_empty.
  by destruct preferredX, preferredZ.
Qed.

Lemma spawn_attempts_some (attempts : nat) (preferredX preferredZ : option Z)
    (rnd : nat → R) (n n' : nat) (w : VoxelWorld.t) (x y z : Z) :
  (∀ n, 0 <= rnd n < 1) →
  spawn_attempts attempts preferredX preferredZ rnd n w
  = (Some (x, y, z), n') →
  spawn_box_empty w x y z = true
  ∧ y = (getSurfaceLevel w x z + 10)%Z
  ∧ match preferredX with Some x' => x = x' | None => (0 ≤ x < 128)%Z end
  ∧ match preferredZ with Some z' => z = z' | None => (0 ≤ z < 128)%Z end.
Proof.
  intros Hrnd. revert n.
  induction attempts as [|a IH]; intros n H; [done|].
  rewrite spawn_attempts_step in H. cbv zeta in H.
  match type of H with
  | (if ?c then _ else _) = _ => destruct c eqn:E
  end; [|by apply (IH _ H)].
  injection H as <- <- <- <-.
  split; [done|]. split; [done|].
  split; [destruct preferredX|destruct preferredZ]; cbn [spawn_coordinate fst];
    try done; apply random_cell_range, Hrnd.
Qed.

Lemma spawn_attempts_preferred (attempts : nat) (x z : Z) (rnd : nat → R)
    (n : nat) (w : VoxelWorld.t) :
  spawn_attempts attempts (Some x) (Some z) rnd n w
  = (if spawn_box_empty w x (getSurfaceLevel w x z + 10) z
     then match attempts with
          | O => None
          | S _ => Some (x, (getSurfaceLevel w x z + 10)%Z, z)
          end
     else None, n).
Proof.
  induction attempts as [|a IH]; [by destruct (spawn_box_empty _ _ _ _)|].
  rewrite spawn_attempts_step. cbv zeta. cbn [spawn_coordinate fst snd].
  destruct (spawn_box_empty w x _ z) eqn:E; [done|].
  by rewrite IH.
Qed.

(** Above a column of terrain as [generateWorld] makes it, the box of the
    spawn test is empty. *)
Lemma spawn_box_empty_band (w : VoxelWorld.t) (x z : Z) :
  (0 ≤ x < 128)%Z → (0 ≤ z < 128)%Z →
  (∀ x z, (0 ≤ x < 128)%Z → (0 ≤ z < 128)%Z →
          ∃ t, (14 ≤ t ≤ 17)%Z
               ∧ (∀ y, ¬ (32 ≤ y < 32 + t)%Z →
                       VoxelWorld.getWorld w x y z = JNum 0)
               ∧ getSurfaceLevel w x z = (31 + t)%Z) →
  spawn_box_empty w x (getSurfaceLevel w x z + 10) z = true
  ∧ (55 ≤ getSurfaceLevel w x z + 10 ≤ 58)%Z.
Proof.
  intros Hx Hz Hband.
  destruct (Hband x z Hx Hz) as (t & Ht & _ & Hs). rewrite Hs.
  split; [|lia].
  unfold spawn_box_empty.
  assert (Hempty : ∀ x' y' z', (31 + t + 10 ≤ y')%Z →
            truthy (VoxelWorld.getWorld w x' y' z') = false).
  { intros x' y' z' Hy'.
    destruct (decide ((0 ≤ x' < 128)%Z ∧ (0 ≤ z' < 128)%Z)) as [[Hx' Hz']|Hout].
    - destruct (Hband x' z' Hx' Hz') as (t' & Ht' & Hout' & _).
      rewrite Hout'; [done|lia].
    - rewrite VoxelWorld_getWorld_monolith, getWorld_out; [done|].
      unfold InGrid. lia. }
  clear Hband Hs.
  unfold isRegionEmpty.
  apply forallb_forall. intros x' _.
  apply forallb_forall. intros y' Hy'%list_elem_of_In%elem_of_from_to.
  apply forallb_forall. intros z' _.
  apply negb_true_iff, Hempty. lia.
Qed.

(** X30 ([VoxelWorld.findSafeSpawnPosition]): with values of
    [Math.random()] in [0, 1), the position returned is either one that an
    attempt found, 10 above the surface of its column, with the box of 21 by
    41 by 21 cells from it upwards empty, at the preferred coordinates
    where they are given and at a column of the grid where they are drawn;
    or the fallback, the centre column at 50 above its surface, which no
    test has checked.  With both coordinates preferred the hundred attempts
    are one test and no value is drawn.  On a world as [new VoxelWorld()]
    makes it, the first attempt succeeds for every column of the grid, at a
    height between 55 and 58. *)
Theorem findSafeSpawnPosition_safe (rnd : nat → R) :
  (∀ n, 0 <= rnd n < 1) →
  (∀ w preferredX preferredZ n,
     let p := (findSafeSpawnPosition preferredX preferredZ rnd n w).1 in
     (spawn_box_empty w p.1.1 p.1.2 p.2 = true
      ∧ p.1.2 = (getSurfaceLevel w p.1.1 p.2 + 10)%Z
      ∧ match preferredX with
        | Some x' => p.1.1 = x' | None => (0 ≤ p.1.1 < 128)%Z end
      ∧ match preferredZ with
        | Some z' => p.2 = z' | None => (0 ≤ p.2 < 128)%Z end)
     ∨ p = (64, getSurfaceLevel w 64 64 + 50, 64)%Z)
  ∧ (∀ w x z n,
       findSafeSpawnPosition (Some x) (Some z) rnd n w
       = (if spawn_box_empty w x (getSurfaceLevel w x z + 10) z
          then (x, getSurfaceLevel w x z + 10, z)%Z
          else (64, getSurfaceLevel w 64 64 + 50, 64)%Z, n))
  ∧ (∀ m preferredX preferredZ n,
       let w := (newVoxelWorld rnd m).1 in
       let xn := spawn_coordinate preferredX rnd n in
       let zn := spawn_coordinate preferredZ rnd xn.2 in
       (0 ≤ xn.1 < 128)%Z → (0 ≤ zn.1 < 128)%Z →
       findSafeSpawnPosition preferredX preferredZ rnd n w
       = ((xn.1, getSurfaceLevel w xn.1 zn.1 + 10, zn.1)%Z, zn.2)
       ∧ (55 ≤ getSurfaceLevel w xn.1 zn.1 + 10 ≤ 58)%Z).
Proof.
  intros Hrnd. split; [|split].
  - intros w preferredX preferredZ n. cbv zeta. unfold findSafeSpawnPosition.
    destruct (spawn_attempts 100 preferredX preferredZ rnd n w)
      as [[[[x y] z]|] n'] eqn:E; [left|by right].
    cbn [fst snd]. by apply (spawn_attempts_some _ _ _ _ _ _ _ _ _ _ Hrnd E).
  - intros w x z n. unfold findSafeSpawnPosition.
    rewrite spawn_attempts_preferred.
    by destruct (spawn_box_empty w x _ z).
  - intros m preferredX preferredZ n. cbv zeta. intros Hx Hz.
    pose proof (generate_from rnd (VoxelWorld.mk empty_world empty_heights false)
                  m Hrnd (proj1 empty_arrays_lengths)
                  (proj2 empty_arrays_lengths) getWorld_empty_world) as Hg.
    cbv zeta in Hg. destruct Hg as (_ & _ & _ & _ & Hcol).
    fold (newVoxelWorld rnd m) in Hcol.
    revert Hcol Hx Hz. generalize (newVoxelWorld rnd m).1. intros w Hcol Hx Hz.
    destruct (spawn_box_empty_band w _ _ Hx Hz) as [He Hr].
    { intros x z Hx' Hz'. destruct (Hcol x z Hx' Hz') as (Ht & _ & H2 & _ & H4).
      eexists. split; [exact Ht|]. split; [exact H2|exact H4]. }
    split; [|exact Hr].
    unfold findSafeSpawnPosition.
    change 100%nat with (S 99). rewrite spawn_attempts_step. cbv zeta.
    by rewrite He.
Qed.

Lemma findSafeSpawnPosition_safe_witness :
  (∀ n : nat, 0 <= (λ _ : nat, 1 / 2) n < 1)
  ∧ findSafeSpawnPosition (Some 5%Z) (Some 7%Z) (λ _, 1 / 2) 0
      (VoxelWorld.mk [] [] false)
    = (if spawn_box_empty (VoxelWorld.mk [] [] false) 5
            (getSurfaceLevel (VoxelWorld.mk [] [] false) 5 7 + 10) 7
       then (5, getSurfaceLevel (VoxelWorld.mk [] [] false) 5 7 + 10, 7)%Z
       else (64, getSurfaceLevel (VoxelWorld.mk [] [] false) 64 64 + 50,
             64)%Z, 0%nat).
Proof.
  assert (Hrnd : ∀ n : nat, 0 <= (λ _ : nat, 1 / 2) n < 1)
    by (intros n; lra).
  split; [exact Hrnd|].
  exact (proj1 (proj2 (findSafeSpawnPosition_safe (λ _, 1 / 2) Hrnd))
           (VoxelWorld.mk [] [] false) 5%Z 7%Z 0%nat).
Defined.
